(** * ProjectExplorer project tree: nodes, folders, projects, session

    A shallow embedding of [src/plugins/projectexplorer/projectnodes.cpp].

    Objects live in a store indexed by their address; a pointer is an
    address, a nullable pointer an [option].  Member functions become
    functions of the receiver's address in a state-and-fault monad: the state
    is the store together with the sequence of notifications handed to
    [ProjectTree::instance()].  Dereferencing a dead pointer or an iterator at
    [end()] is a fault, and so is a failing [Q_ASSERT]. *)

From stdpp Require Import gmap strings list fin_maps sorting.
From Stdlib Require Import ZArith Lia Ascii.
From Stdlib Require OrderedTypeEx.

Open Scope Z_scope.
Open Scope string_scope.
Open Scope list_scope.

(** ** Data model *)

(** Addresses of heap-allocated nodes.  [<] on two node pointers is the
    comparison of their addresses. *)
Abbreviation addr := positive (only parsing).

(** [Utils::FileName]: a path string; [==] and [<] are the string's. *)
Abbreviation FileName := string (only parsing).

Inductive NodeType : Set :=
  | FileNodeType
  | FolderNodeType
  | VirtualFolderNodeType
  | ProjectNodeType
  | SessionNodeType.

#[global] Instance NodeType_eq_dec : EqDecision NodeType.
Proof. solve_decision. Defined.

(** The members of [Node], [FolderNode] and [ProjectNode]/[SessionNode], in
    one record; a file node has empty child collections.  The dynamic class
    of an object is read off [m_nodeType], which every constructor of the
    hierarchy fixes. *)
Record Node : Type := mkNode {
  m_nodeType : NodeType;
  m_filePath : FileName;
  m_line : Z;
  m_priority : Z;
  m_isEnabled : bool;
  m_parentFolderNode : option addr;
  m_displayName : string;
  m_fileNodes : list addr;
  m_folderNodes : list addr;
  m_projectNodes : list addr
}.

Definition set_filePath (p : FileName) (n : Node) : Node :=
  mkNode (m_nodeType n) p (m_line n) (m_priority n) (m_isEnabled n)
         (m_parentFolderNode n) (m_displayName n)
         (m_fileNodes n) (m_folderNodes n) (m_projectNodes n).

Definition set_line (l : Z) (n : Node) : Node :=
  mkNode (m_nodeType n) (m_filePath n) l (m_priority n) (m_isEnabled n)
         (m_parentFolderNode n) (m_displayName n)
         (m_fileNodes n) (m_folderNodes n) (m_projectNodes n).

Definition set_isEnabled (b : bool) (n : Node) : Node :=
  mkNode (m_nodeType n) (m_filePath n) (m_line n) (m_priority n) b
         (m_parentFolderNode n) (m_displayName n)
         (m_fileNodes n) (m_folderNodes n) (m_projectNodes n).

Definition set_parentFolderNode (p : option addr) (n : Node) : Node :=
  mkNode (m_nodeType n) (m_filePath n) (m_line n) (m_priority n) (m_isEnabled n)
         p (m_displayName n)
         (m_fileNodes n) (m_folderNodes n) (m_projectNodes n).

Definition set_fileNodes (l : list addr) (n : Node) : Node :=
  mkNode (m_nodeType n) (m_filePath n) (m_line n) (m_priority n) (m_isEnabled n)
         (m_parentFolderNode n) (m_displayName n)
         l (m_folderNodes n) (m_projectNodes n).

Definition set_folderNodes (l : list addr) (n : Node) : Node :=
  mkNode (m_nodeType n) (m_filePath n) (m_line n) (m_priority n) (m_isEnabled n)
         (m_parentFolderNode n) (m_displayName n)
         (m_fileNodes n) l (m_projectNodes n).

Definition set_projectNodes (l : list addr) (n : Node) : Node :=
  mkNode (m_nodeType n) (m_filePath n) (m_line n) (m_priority n) (m_isEnabled n)
         (m_parentFolderNode n) (m_displayName n)
         (m_fileNodes n) (m_folderNodes n) l.

Definition set_displayName (d : string) (n : Node) : Node :=
  mkNode (m_nodeType n) (m_filePath n) (m_line n) (m_priority n) (m_isEnabled n)
         (m_parentFolderNode n) d
         (m_fileNodes n) (m_folderNodes n) (m_projectNodes n).

(** The notifications [ProjectTree] receives.  A node notification carries
    the node's address and the path and line the sink reads through it at
    the moment of the call; a list notification carries the parent and the
    list handed over. *)
Inductive Event : Type :=
  | NodeSortKeyAboutToChange (n : addr) (path : FileName) (line : Z)
  | NodeSortKeyChanged (n : addr) (path : FileName) (line : Z)
  | NodeUpdated (n : addr)
  | FilesAboutToBeAdded (parent : addr) (files : list addr)
  | FilesAdded (parent : addr)
  | FilesAboutToBeRemoved (parent : addr) (files : list addr)
  | FilesRemoved (parent : addr)
  | FoldersAboutToBeAdded (parent : addr) (folders : list addr)
  | FoldersAdded (parent : addr)
  | FoldersAboutToBeRemoved (parent : addr) (folders : list addr)
  | FoldersRemoved (parent : addr).

Record state : Type := mkState {
  heap : gmap positive Node;
  trace : list Event
}.

(** ** The monad of member functions *)

Inductive fault : Set :=
  | AssertionFailed     (* Q_ASSERT *)
  | UndefinedBehaviour  (* dead pointer, iterator at end() *)
  | OutOfFuel.          (* recursion deeper than the fuel given *)

Inductive result (A : Type) : Type :=
  | Val (a : A)
  | Fail (f : fault).
Arguments Val {A} a.
Arguments Fail {A} f.

Definition M (A : Type) : Type := state -> result (A * state).

Definition ret {A} (a : A) : M A := fun s => Val (a, s).

Definition bind {A B} (c : M A) (k : A -> M B) : M B :=
  fun s => match c s with
           | Val (a, s') => k a s'
           | Fail f => Fail f
           end.

Notation "'let*' x := c 'in' k" := (bind c (fun x => k))
  (at level 10, x pattern, c at level 100, k at level 200).
Notation "c ;; k" := (bind c (fun _ => k))
  (at level 100, k at level 200, right associativity).

Definition raise {A} (f : fault) : M A := fun _ => Fail f.

(** A const member function reads the store only. *)
Definition read {A} (f : gmap positive Node -> result A) : M A :=
  fun s => match f (heap s) with
           | Val a => Val (a, s)
           | Fail e => Fail e
           end.

(** [*p] *)
Definition deref (p : addr) : M Node :=
  fun s => match heap s !! p with
           | Some n => Val (n, s)
           | None => Fail UndefinedBehaviour
           end.

(** [p->member = ...] *)
Definition modify (p : addr) (f : Node -> Node) : M unit :=
  fun s => match heap s !! p with
           | Some n => Val (tt, mkState (<[p := f n]> (heap s)) (trace s))
           | None => Fail UndefinedBehaviour
           end.

Definition emit (e : Event) : M unit :=
  fun s => Val (tt, mkState (heap s) (trace s ++ [e])).

Definition Q_ASSERT (b : bool) : M unit :=
  if b then ret tt else raise AssertionFailed.

Fixpoint mapM {A B} (f : A -> M B) (l : list A) : M (list B) :=
  match l with
  | [] => ret []
  | x :: l' => let* y := f x in let* ys := mapM f l' in ret (y :: ys)
  end.

Fixpoint forM_ {A} (l : list A) (f : A -> M unit) : M unit :=
  match l with
  | [] => ret tt
  | x :: l' => f x ;; forM_ l' f
  end.

(** ** Node *)

Definition emitNodeSortKeyAboutToChange (self : addr) : M unit :=
  let* n := deref self in
  match m_parentFolderNode n with
  | Some _ => emit (NodeSortKeyAboutToChange self (m_filePath n) (m_line n))
  | None => ret tt
  end.

Definition emitNodeSortKeyChanged (self : addr) : M unit :=
  let* n := deref self in
  match m_parentFolderNode n with
  | Some _ => emit (NodeSortKeyChanged self (m_filePath n) (m_line n))
  | None => ret tt
  end.

Definition emitNodeUpdated (self : addr) : M unit :=
  let* n := deref self in
  match m_parentFolderNode n with
  | Some _ => emit (NodeUpdated self)
  | None => ret tt
  end.

Definition setAbsoluteFilePathAndLine (self : addr) (path : FileName) (line : Z)
  : M unit :=
  let* n := deref self in
  if String.eqb (m_filePath n) path && (m_line n =? line)%Z then ret tt
  else
    emitNodeSortKeyAboutToChange self ;;
    modify self (set_filePath path) ;;
    modify self (set_line line) ;;
    emitNodeSortKeyChanged self ;;
    emitNodeUpdated self.

(** [Node::isEnabled]; the recursion follows the parent pointers. *)
Fixpoint isEnabled (fuel : nat) (h : gmap positive Node) (self : addr)
  : result bool :=
  match fuel with
  | O => Fail OutOfFuel
  | S fuel' =>
      match h !! self with
      | None => Fail UndefinedBehaviour
      | Some n =>
          if negb (m_isEnabled n) then Val false
          else match m_parentFolderNode n with
               | Some parent => isEnabled fuel' h parent
               | None => Val true
               end
      end
  end.

Definition setEnabled (self : addr) (enabled : bool) : M unit :=
  let* n := deref self in
  if Bool.eqb (m_isEnabled n) enabled then ret tt
  else
    modify self (set_isEnabled enabled) ;;
    emitNodeUpdated self.

(** The chain of parent pointers above a node, nearest ancestor first. *)
Inductive ancestors (h : gmap positive Node) : addr -> list addr -> Prop :=
  | ancestors_root a n :
      h !! a = Some n -> m_parentFolderNode n = None -> ancestors h a []
  | ancestors_step a n p l :
      h !! a = Some n -> m_parentFolderNode n = Some p ->
      ancestors h p l -> ancestors h a (p :: l).

(** The node's own flag. *)
Definition ownEnabled (h : gmap positive Node) (a : addr) : bool :=
  match h !! a with
  | Some n => m_isEnabled n
  | None => false
  end.


(** [asProjectNode()] and [asSessionNode()] are virtual functions declared in
    [projectnodes.h]: non-null exactly on a project node, respectively on the
    session node. *)
Definition asProjectNode (n : Node) : bool :=
  bool_decide (m_nodeType n = ProjectNodeType).

Definition asSessionNode (n : Node) : bool :=
  bool_decide (m_nodeType n = SessionNodeType).

(** [Node::parentProjectNode] *)
Fixpoint parentProjectNode (fuel : nat) (h : gmap positive Node) (self : addr)
  : result (option addr) :=
  match fuel with
  | O => Fail OutOfFuel
  | S fuel' =>
      match h !! self with
      | None => Fail UndefinedBehaviour
      | Some n =>
          match m_parentFolderNode n with
          | None => Val None
          | Some parent =>
              match h !! parent with
              | None => Fail UndefinedBehaviour
              | Some pnode =>
                  if asProjectNode pnode then Val (Some parent)
                  else parentProjectNode fuel' h parent
              end
          end
      end
  end.

(** [Node::managingProject] *)
Definition managingProject (fuel : nat) (h : gmap positive Node) (self : addr)
  : result (option addr) :=
  match h !! self with
  | None => Fail UndefinedBehaviour
  | Some n =>
      if asSessionNode n then Val None
      else match parentProjectNode fuel h self with
           | Val (Some pn) => Val (Some pn)
           | Val None => Val (if asProjectNode n then Some self else None)
           | Fail f => Fail f
           end
  end.

(** [Node::trim] *)
Definition Node_trim (self : addr) (keepers : gset positive) : M (option addr) :=
  ret (if decide (self ∈ keepers) then None else Some self).

(** ** Utilities *)

(** [QTC_ASSERT(cond, action)] runs [action] when [cond] fails and goes on;
    every action in this file is a [qDebug] message. *)
Definition QTC_ASSERT (cond : bool) (action : M unit) : M unit :=
  if cond then ret tt else action.

Definition qDebug : M unit := ret tt.

(** [Utils::sort] on a list of pointers: ascending addresses. *)
Definition sort_ptr (l : list addr) : list addr := merge_sort Pos.le l.

(** [std::lower_bound(begin, end, value)] on a list of pointers: the
    bisection loop, [first] and [count] being its two variables. *)
Fixpoint lower_bound_loop (fuel : nat) (l : list addr) (first count : nat)
    (value : addr) : nat :=
  match fuel with
  | O => first
  | S fuel' =>
      if (count =? 0)%nat then first
      else
        let step := (count / 2)%nat in
        let it := (first + step)%nat in
        match l !! it with
        | Some x =>
            if (x <? value)%positive
            then lower_bound_loop fuel' l (S it) (count - S step) value
            else lower_bound_loop fuel' l first step value
        | None => first
        end
  end.

Definition lower_bound (l : list addr) (value : addr) : nat :=
  lower_bound_loop (length l) l 0 (length l) value.

(** The insertion of [addFileNodes] and [addFolderNodes]: append to an empty
    list or after a smaller last element, otherwise insert at the lower
    bound. *)
Definition insert_node (l : list addr) (x : addr) : list addr :=
  match last l with
  | None => l ++ [x]
  | Some y =>
      if (y <? x)%positive then l ++ [x]
      else let i := lower_bound l x in take i l ++ x :: drop i l
  end.

(** [while ( *it != target) ++it;] from iterator position [it] on: the
    position reached, or nothing when the loop runs into [end()]. *)
Fixpoint seek_loop (rest : list addr) (it : nat) (target : addr) : option nat :=
  match rest with
  | [] => None
  | x :: rest' =>
      if decide (x = target) then Some it else seek_loop rest' (S it) target
  end.

Definition seek (l : list addr) (it : nat) (target : addr) : option nat :=
  seek_loop (drop it l) it target.

Fixpoint foldM {A S} (f : S -> A -> M S) (l : list A) (st : S) : M S :=
  match l with
  | [] => ret st
  | x :: l' => let* st' := f st x in foldM f l' st'
  end.

Definition free (p : addr) : M unit :=
  fun s => match heap s !! p with
           | Some _ => Val (tt, mkState (delete p (heap s)) (trace s))
           | None => Fail UndefinedBehaviour
           end.

(** [delete p]: the destructor [~FolderNode] deletes the folder children,
    then the file children; then the object is gone.  A file node has no
    children. *)
Fixpoint destroy (fuel : nat) (p : addr) : M unit :=
  match fuel with
  | O => raise OutOfFuel
  | S fuel' =>
      let* n := deref p in
      forM_ (m_folderNodes n) (destroy fuel') ;;
      forM_ (m_fileNodes n) (destroy fuel') ;;
      free p
  end.

Definition is_some {A} (o : option A) : bool :=
  match o with Some _ => true | None => false end.

Definition is_nil {A} (l : list A) : bool :=
  match l with [] => true | _ => false end.

(** ** FolderNode: mutation primitives *)

Definition addFileNodes (fuel : nat) (self : addr) (files : list addr) : M unit :=
  let* pn := read (fun h => managingProject fuel h self) in
  Q_ASSERT (is_some pn) ;;
  if is_nil files then ret tt
  else
    emit (FilesAboutToBeAdded self files) ;;
    forM_ files (fun file =>
      let* f := deref file in
      QTC_ASSERT (negb (is_some (m_parentFolderNode f))) qDebug ;;
      modify file (set_parentFolderNode (Some self)) ;;
      let* n := deref self in
      modify self (set_fileNodes (insert_node (m_fileNodes n) file))) ;;
    emit (FilesAdded self).

(** One round of the loop of [removeFileNodes]: walk [filesIter] forward to
    the file to remove, delete the file, erase it from the list. *)
Definition removeFileNodes_step (fuel : nat) (self : addr) (filesIter : nat)
    (target : addr) : M nat :=
  let* n := deref self in
  match seek (m_fileNodes n) filesIter target with
  | None => raise UndefinedBehaviour
  | Some it =>
      destroy fuel target ;;
      let* n' := deref self in
      modify self (set_fileNodes (delete it (m_fileNodes n'))) ;;
      ret it
  end.

Definition removeFileNodes (fuel : nat) (self : addr) (files : list addr) : M unit :=
  let* pn := read (fun h => managingProject fuel h self) in
  Q_ASSERT (is_some pn) ;;
  if is_nil files then ret tt
  else
    let toRemove := sort_ptr files in
    emit (FilesAboutToBeRemoved self toRemove) ;;
    foldM (removeFileNodes_step fuel self) toRemove 0%nat ;;
    emit (FilesRemoved self).

Definition addFolderNodes (fuel : nat) (self : addr) (subFolders : list addr)
  : M unit :=
  let* pn := read (fun h => managingProject fuel h self) in
  Q_ASSERT (is_some pn) ;;
  if is_nil subFolders then ret tt
  else
    emit (FoldersAboutToBeAdded self subFolders) ;;
    forM_ subFolders (fun folder =>
      let* f := deref folder in
      QTC_ASSERT (negb (is_some (m_parentFolderNode f))) qDebug ;;
      modify folder (set_parentFolderNode (Some self)) ;;
      let* n := deref self in
      modify self (set_folderNodes (insert_node (m_folderNodes n) folder)) ;;
      let* f' := deref folder in
      QTC_ASSERT (negb (asProjectNode f')) qDebug) ;;
    emit (FoldersAdded self).

(** One round of the loop of [removeFolderNodes]. *)
Definition removeFolderNodes_step (fuel : nat) (self : addr) (folderIter : nat)
    (target : addr) : M nat :=
  let* t := deref target in
  QTC_ASSERT (negb (asProjectNode t)) qDebug ;;
  let* n := deref self in
  match seek (m_folderNodes n) folderIter target with
  | None => raise UndefinedBehaviour
  | Some it =>
      destroy fuel target ;;
      let* n' := deref self in
      modify self (set_folderNodes (delete it (m_folderNodes n'))) ;;
      ret it
  end.

Definition removeFolderNodes (fuel : nat) (self : addr) (subFolders : list addr)
  : M unit :=
  let* pn := read (fun h => managingProject fuel h self) in
  Q_ASSERT (is_some pn) ;;
  if is_nil subFolders then ret tt
  else
    let toRemove := sort_ptr subFolders in
    emit (FoldersAboutToBeRemoved self toRemove) ;;
    foldM (removeFolderNodes_step fuel self) toRemove 0%nat ;;
    emit (FoldersRemoved self).

(** ** ProjectNode and SessionNode: sub-projects *)

Definition ProjectNode_addProjectNodes (self : addr) (subProjects : list addr)
  : M unit :=
  if is_nil subProjects then ret tt
  else
    emit (FoldersAboutToBeAdded self subProjects) ;;
    forM_ subProjects (fun project =>
      let* p := deref project in
      QTC_ASSERT (negb (is_some (m_parentFolderNode p))
                  || bool_decide (m_parentFolderNode p = Some self)) qDebug ;;
      modify project (set_parentFolderNode (Some self)) ;;
      let* n := deref self in
      modify self (set_folderNodes (m_folderNodes n ++ [project])) ;;
      let* n' := deref self in
      modify self (set_projectNodes (m_projectNodes n' ++ [project]))) ;;
    let* n := deref self in
    modify self (set_folderNodes (sort_ptr (m_folderNodes n))) ;;
    let* n' := deref self in
    modify self (set_projectNodes (sort_ptr (m_projectNodes n'))) ;;
    emit (FoldersAdded self).

(** The loop shared by the two [removeProjectNodes]: both iterators walk
    forward to the project to remove, which is erased from both lists;
    [ProjectNode] deletes it first, [SessionNode] does not. *)
Definition removeProjectNodes_step (delete_it : addr -> M unit) (self : addr)
    (iters : nat * nat) (target : addr) : M (nat * nat) :=
  let '(folderIter, projectIter) := iters in
  let* n := deref self in
  match seek (m_projectNodes n) projectIter target with
  | None => raise UndefinedBehaviour
  | Some pit =>
      match seek (m_folderNodes n) folderIter target with
      | None => raise UndefinedBehaviour
      | Some fit =>
          delete_it target ;;
          let* n1 := deref self in
          modify self (set_projectNodes (delete pit (m_projectNodes n1))) ;;
          let* n2 := deref self in
          modify self (set_folderNodes (delete fit (m_folderNodes n2))) ;;
          ret (fit, pit)
      end
  end.

Definition removeProjectNodes_loop (delete_it : addr -> M unit) (self : addr)
    (toRemove : list addr) : M (nat * nat) :=
  foldM (removeProjectNodes_step delete_it self) toRemove (0%nat, 0%nat).

Definition ProjectNode_removeProjectNodes (fuel : nat) (self : addr)
    (subProjects : list addr) : M unit :=
  if is_nil subProjects then ret tt
  else
    let toRemove := sort_ptr subProjects in
    emit (FoldersAboutToBeRemoved self toRemove) ;;
    removeProjectNodes_loop (destroy fuel) self toRemove ;;
    emit (FoldersRemoved self).

Definition SessionNode_addProjectNodes (self : addr) (projectNodes : list addr)
  : M unit :=
  if is_nil projectNodes then ret tt
  else
    emit (FoldersAboutToBeAdded self projectNodes) ;;
    forM_ projectNodes (fun project =>
      let* p := deref project in
      QTC_ASSERT (negb (is_some (m_parentFolderNode p))) qDebug ;;
      modify project (set_parentFolderNode (Some self)) ;;
      let* n := deref self in
      modify self (set_folderNodes (m_folderNodes n ++ [project])) ;;
      let* n' := deref self in
      modify self (set_projectNodes (m_projectNodes n' ++ [project]))) ;;
    let* n := deref self in
    modify self (set_folderNodes (sort_ptr (m_folderNodes n))) ;;
    let* n' := deref self in
    modify self (set_projectNodes (sort_ptr (m_projectNodes n'))) ;;
    emit (FoldersAdded self).

Definition SessionNode_removeProjectNodes (self : addr)
    (projectNodes : list addr) : M unit :=
  if is_nil projectNodes then ret tt
  else
    let toRemove := sort_ptr projectNodes in
    emit (FoldersAboutToBeRemoved self toRemove) ;;
    removeProjectNodes_loop (fun _ => ret tt) self toRemove ;;
    emit (FoldersRemoved self).

(** ** trim *)

Definition non_null (l : list (option addr)) : list addr := omap id l.

(** [FolderNode::trim]; [trim] is the virtual call on a child. *)
Definition FolderNode_trim (trim : addr -> gset positive -> M (option addr))
    (fuel : nat) (self : addr) (keepers : gset positive) : M (option addr) :=
  if decide (self ∈ keepers) then ret None
  else
    let* n := deref self in
    let* toTrim := mapM (fun c => trim c keepers) (m_fileNodes n) in
    let count := length toTrim in
    let toTrim := non_null toTrim in
    let keepThis := negb (count =? length toTrim)%nat in
    removeFileNodes fuel self toTrim ;;
    let* n := deref self in
    let* toTrim := mapM (fun c => trim c keepers) (m_folderNodes n) in
    let count := length toTrim in
    let toTrim := non_null toTrim in
    let keepThis := keepThis || negb (count =? length toTrim)%nat in
    removeFolderNodes fuel self toTrim ;;
    ret (if keepThis then None else Some self).

(** [ProjectNode::trim] *)
Definition ProjectNode_trim (trim : addr -> gset positive -> M (option addr))
    (fuel : nat) (self : addr) (keepers : gset positive) : M (option addr) :=
  if decide (self ∈ keepers) then ret None
  else
    let* n := deref self in
    let* toTrim := mapM (fun c => trim c keepers) (m_projectNodes n) in
    let count := length toTrim in
    let toTrim := non_null toTrim in
    ProjectNode_removeProjectNodes fuel self toTrim ;;
    let* r := FolderNode_trim trim fuel self keepers in
    match r with
    | None => ret None
    | Some _ =>
        ret (if negb (length toTrim =? count)%nat then None else Some self)
    end.

(** The virtual function [trim], dispatched on the class of the object:
    [Node::trim] for a file node, [ProjectNode::trim] for a project node,
    [FolderNode::trim] for the other folders. *)
Fixpoint trim (fuel : nat) (self : addr) (keepers : gset positive)
  : M (option addr) :=
  match fuel with
  | O => raise OutOfFuel
  | S fuel' =>
      let* n := deref self in
      match m_nodeType n with
      | FileNodeType => Node_trim self keepers
      | ProjectNodeType => ProjectNode_trim (trim fuel') fuel' self keepers
      | _ => FolderNode_trim (trim fuel') fuel' self keepers
      end
  end.

(** ** Trees in the store *)

(** The shape of the tree below a folder: the folder's address, the
    addresses of its file nodes, and the trees of its folder nodes. *)
#[local] Unset Elimination Schemes.
Inductive tree : Type :=
  | Tree (a : addr) (files : list addr) (folders : list tree).
#[local] Set Elimination Schemes.

Definition root (t : tree) : addr :=
  match t with Tree a _ _ => a end.

Definition tree_files (t : tree) : list addr :=
  match t with Tree _ files _ => files end.

Definition tree_folders (t : tree) : list tree :=
  match t with Tree _ _ folders => folders end.

(** Every node of the tree: folders and files. *)
Fixpoint nodes (t : tree) : list addr :=
  match t with
  | Tree a files folders => a :: files ++ flat_map nodes folders
  end.

Fixpoint height (t : tree) : nat :=
  match t with
  | Tree _ _ folders => S (foldr (fun c m => Nat.max (height c) m) 0%nat folders)
  end.

Definition isProjectAt (h : gmap positive Node) (a : addr) : bool :=
  match h !! a with
  | Some n => asProjectNode n
  | None => false
  end.

(** A file node as a leaf under [parent]. *)
Definition file_leaf (h : gmap positive Node) (parent : addr) (f : addr) : Prop :=
  exists nf, h !! f = Some nf /\
    m_nodeType nf = FileNodeType /\
    m_parentFolderNode nf = Some parent /\
    m_fileNodes nf = [] /\ m_folderNodes nf = [] /\ m_projectNodes nf = [].

(** [wf_tree h parent t]: the store holds the tree [t] under the parent
    pointer [parent], with the invariants of the data model: the child
    collections are those of [t] and ascend strictly by address, every
    child points back to its parent, file nodes are leaves, a folder is
    not a file node, a folder with a parent is not the session, and the
    sub-projects of a folder are the project nodes among its folder nodes,
    which only a project or the session has. *)
#[local] Unset Elimination Schemes.
Inductive wf_tree (h : gmap positive Node) : option addr -> tree -> Prop :=
  | wf_tree_intro parent a n files folders :
      h !! a = Some n ->
      m_nodeType n <> FileNodeType ->
      m_parentFolderNode n = parent ->
      (is_Some parent -> m_nodeType n <> SessionNodeType) ->
      m_fileNodes n = files ->
      m_folderNodes n = map root folders ->
      m_projectNodes n = filter (fun c => isProjectAt h c = true) (map root folders) ->
      (m_projectNodes n <> [] ->
       m_nodeType n = ProjectNodeType \/ m_nodeType n = SessionNodeType) ->
      StronglySorted Pos.lt files ->
      StronglySorted Pos.lt (map root folders) ->
      Forall (file_leaf h a) files ->
      Forall (wf_tree h (Some a)) folders ->
      wf_tree h parent (Tree a files folders).
#[local] Set Elimination Schemes.

(** The store without the objects at the addresses of [l]. *)
Definition delete_all (l : list addr) (h : gmap positive Node)
  : gmap positive Node :=
  foldl (fun h a => delete a h) h l.

(** A node is managed when it is not the session and it or one of its
    ancestors [l] is a project. *)
Definition managed (h : gmap positive Node) (a : addr) (l : list addr) : Prop :=
  ancestors h a l /\
  (exists n, h !! a = Some n /\ m_nodeType n <> SessionNodeType) /\
  Exists (fun p => isProjectAt h p = true) (a :: l).

(** What adding and removing children leaves of a folder: its class and
    its parent, which [managingProject] reads, and its path. *)
Definition skeleton (h : gmap positive Node) (a : addr)
  : option (NodeType * option addr * FileName) :=
  (fun n => (m_nodeType n, m_parentFolderNode n, m_filePath n)) <$> h !! a.

(** The tree below the folder node [r] among [folders]. *)
Definition subtree_at (folders : list tree) (r : addr) : tree :=
  default (Tree r [] []) (find (fun c => bool_decide (root c = r)) folders).

(** The leaves of a tree: the file nodes and the folders without children. *)
Fixpoint leaves (t : tree) : list addr :=
  match t with
  | Tree a files folders =>
      if is_nil files && is_nil folders then [a]
      else files ++ flat_map leaves folders
  end.

(** [has_keeper keepers t]: a node of [t] is in [keepers]. *)
Definition has_keeper (keepers : gset positive) (t : tree) : bool :=
  bool_decide (Exists (fun x => x ∈ keepers) (nodes t)).

(** What [trim] leaves of a tree: a folder in [keepers] stays as it is; of
    another folder, the files in [keepers] and the pruned folders that have
    a keeper. *)
Fixpoint prune (keepers : gset positive) (t : tree) : tree :=
  match t with
  | Tree a files folders =>
      if decide (a ∈ keepers) then t
      else Tree a (filter (fun f => f ∈ keepers) files)
                  ((fix go (l : list tree) : list tree :=
                      match l with
                      | [] => []
                      | c :: l' =>
                          if has_keeper keepers c then prune keepers c :: go l'
                          else go l'
                      end) folders)
  end.

(** A tree [trim] has nothing to take from: every folder is in [keepers] or
    has children, all its files are in [keepers], and so on below. *)
Fixpoint settled (keepers : gset positive) (t : tree) : Prop :=
  match t with
  | Tree a files folders =>
      a ∈ keepers \/
      (Forall (fun f => f ∈ keepers) files /\
       foldr (fun c P => settled keepers c /\ P) True folders /\
       (files <> [] \/ folders <> []))
  end.

(** What [trim] answers on a folder: null when the tree has a keeper, the
    folder otherwise. *)
Definition trim_answer (keepers : gset positive) (t : tree) : option addr :=
  if has_keeper keepers t then None else Some (root t).

(** [pruned_in keepers h h' parent t]: the store [h'] holds the tree [t]
    of [h] pruned: the objects pruned away are gone, and the objects left
    have the class and the parent they had in [h].  [trimmed] adds that the
    objects outside [t] are as they were. *)
Definition pruned_in (keepers : gset positive) (h h' : gmap positive Node)
    (parent : option addr) (t : tree) : Prop :=
  wf_tree h' parent (prune keepers t) /\
  (forall x, x ∈ nodes t -> x ∉ nodes (prune keepers t) -> h' !! x = None) /\
  (forall x, x ∈ nodes (prune keepers t) -> skeleton h' x = skeleton h x).

Definition trimmed (keepers : gset positive) (h h' : gmap positive Node)
    (parent : option addr) (t : tree) : Prop :=
  pruned_in keepers h h' parent t /\
  (forall x, x ∉ nodes t -> h' !! x = h !! x).

(** [reshaped h h' parent t t']: the store [h'] holds [t'] where [h] held
    [t]; the objects of [t] that are not in [t'] are gone, the objects of
    [t'] have the class and the parent they had, and the objects outside
    [t] are as they were. *)
Definition reshaped (h h' : gmap positive Node) (parent : option addr)
    (t t' : tree) : Prop :=
  wf_tree h' parent t' /\
  (forall x, x ∈ nodes t -> x ∉ nodes t' -> h' !! x = None) /\
  (forall x, x ∈ nodes t' -> skeleton h' x = skeleton h x) /\
  (forall x, x ∉ nodes t -> h' !! x = h !! x).

(** The first pass of [ProjectNode::trim] prunes the sub-projects only. *)
Definition prune_if (keepers : gset positive) (isP : addr -> bool) (t : tree)
  : tree :=
  if isP (root t) then prune keepers t else t.

(** The path of the object behind a pointer. *)
Definition path_of (h : gmap positive Node) (a : addr) : FileName :=
  match h !! a with Some n => m_filePath n | None => "" end.

(** The order of paths: [a] is not after [b]. *)
Definition path_le (a b : FileName) : Prop := String.ltb b a = false.

#[global] Instance path_le_dec a b : Decision (path_le a b).
Proof. unfold path_le. apply _. Defined.

(** The file nodes of a tree, as [recursiveFileNodes] lists them. *)
Fixpoint all_files (t : tree) : list addr :=
  match t with
  | Tree _ files folders => files ++ flat_map all_files folders
  end.

(** A file node that hangs in no tree, as a scan hands it over. *)
Definition loose_file (h : gmap positive Node) (f : addr) : Prop :=
  exists nf, h !! f = Some nf /\
    m_nodeType nf = FileNodeType /\
    m_parentFolderNode nf = None /\
    m_fileNodes nf = [] /\ m_folderNodes nf = [] /\ m_projectNodes nf = [].

(** No node below the root of the tree is a project. *)
Definition no_subprojects (h : gmap positive Node) (t : tree) : Prop :=
  forall y, y ∈ nodes t -> y <> root t -> isProjectAt h y = false.

(** A folder without files and without folders. *)
Definition is_empty_tree (t : tree) : bool :=
  is_nil (tree_folders t) && is_nil (tree_files t).

(** [prune_at d fns t]: the tree [t] without the files [fns] of its folder
    [d], and without the folders this leaves empty, from [d] upwards: a
    folder on the way from the root to [d] goes when nothing is left in it;
    the root of [t] stays. *)
Fixpoint prune_at (d : addr) (fns : list addr) (t : tree) : tree :=
  match t with
  | Tree a files folders =>
      if decide (a = d) then Tree a (list_difference files fns) folders
      else
        Tree a files
          (flat_map (fun c =>
                       if decide (d ∈ nodes c) then
                         let c' := prune_at d fns c in
                         if is_empty_tree c' then [] else [c']
                       else [c])
                    folders)
  end.

(** The folders, one of them replaced by a tree of the same root. *)
Definition replace_child (c' : tree) (folders : list tree) : list tree :=
  map (fun c => if decide (root c = root c') then c' else c) folders.

(** ** Sequences of mutations, and the orders of the child collections *)

Inductive FolderOp : Type :=
  | OpAddFileNodes (self : addr) (files : list addr)
  | OpRemoveFileNodes (self : addr) (files : list addr)
  | OpAddFolderNodes (self : addr) (subFolders : list addr)
  | OpRemoveFolderNodes (self : addr) (subFolders : list addr).

Definition run_op (fuel : nat) (op : FolderOp) : M unit :=
  match op with
  | OpAddFileNodes self files => addFileNodes fuel self files
  | OpRemoveFileNodes self files => removeFileNodes fuel self files
  | OpAddFolderNodes self subFolders => addFolderNodes fuel self subFolders
  | OpRemoveFolderNodes self subFolders => removeFolderNodes fuel self subFolders
  end.

Definition run_ops (fuel : nat) (ops : list FolderOp) : M unit :=
  forM_ ops (run_op fuel).

(** [FolderNode::fileNodes] and [FolderNode::folderNodes] *)
Definition fileNodes (h : gmap positive Node) (self : addr) : list addr :=
  match h !! self with Some n => m_fileNodes n | None => [] end.

Definition folderNodes (h : gmap positive Node) (self : addr) : list addr :=
  match h !! self with Some n => m_folderNodes n | None => [] end.

(** Every child collection in the store ascends by address. *)
Definition sorted_by_address (h : gmap positive Node) : Prop :=
  map_Forall (fun _ n => StronglySorted Pos.le (m_fileNodes n) /\
                         StronglySorted Pos.le (m_folderNodes n)) h.

#[global] Instance sorted_by_address_dec h : Decision (sorted_by_address h).
Proof. unfold sorted_by_address. apply _. Defined.

(** [Node::sortByPath], on the objects behind two pointers. *)
Definition sortByPath (h : gmap positive Node) (a b : addr) : bool :=
  match h !! a, h !! b with
  | Some na, Some nb => String.ltb (m_filePath na) (m_filePath nb)
  | _, _ => false
  end.

(** A list of nodes ascends by path when no node is followed by one of a
    smaller path. *)
Definition sorted_by_path (h : gmap positive Node) (l : list addr) : Prop :=
  StronglySorted (fun a b => sortByPath h b a = false) l.

#[global] Instance sorted_by_path_dec h l : Decision (sorted_by_path h l).
Proof. unfold sorted_by_path. apply _. Defined.

(** Modelled from the spec: the composite order of folder nodes, which
    [projectnodes.cpp] does not define: virtual folders before real folders,
    then by priority, the higher first, then by display name. *)
Definition folder_before (x y : Node) : bool :=
  let bucket n := if decide (m_nodeType n = VirtualFolderNodeType) then 0%Z else 1%Z in
  if (bucket x <? bucket y)%Z then true
  else if (bucket y <? bucket x)%Z then false
  else if (m_priority y <? m_priority x)%Z then true
  else if (m_priority x <? m_priority y)%Z then false
  else String.ltb (m_displayName x) (m_displayName y).

Definition sorted_by_folder_order (h : gmap positive Node) (l : list addr) : Prop :=
  StronglySorted
    (fun a b => match h !! a, h !! b with
                | Some na, Some nb => folder_before nb na = false
                | _, _ => False
                end) l.

(** A few objects to run the operations on. *)
Definition mkFileNode (path : FileName) (parent : option addr) : Node :=
  mkNode FileNodeType path (-1) 0 true parent "" [] [] [].

Definition mkFolderNode (ty : NodeType) (path : FileName) (parent : option addr)
    (files folders projects : list addr) : Node :=
  mkNode ty path (-1) 0 true parent path files folders projects.

Definition two_loose_files : state :=
  mkState (<[1%positive := mkFolderNode ProjectNodeType "/p" None [] [] []]>
          (<[2%positive := mkFileNode "/p/b.cpp" None]>
          (<[3%positive := mkFileNode "/p/a.cpp" None]> ∅))) [].

(** The tree of the spec's example: project [/p] at address 1 holds the file
    [/p/a.cpp] at 2 and the folder [/p/sub] at 3, which holds the file
    [/p/sub/b.cpp] at 4. *)
Definition small_project : state :=
  mkState (<[1%positive := mkFolderNode ProjectNodeType "/p" None [2%positive] [3%positive] []]>
          (<[2%positive := mkFileNode "/p/a.cpp" (Some 1%positive)]>
          (<[3%positive := mkFolderNode FolderNodeType "/p/sub" (Some 1%positive) [4%positive] [] []]>
          (<[4%positive := mkFileNode "/p/sub/b.cpp" (Some 3%positive)]> ∅)))) [].

(** A project with a sub-project: project [/p] at 1 holds the project
    [/p/q] at 2, which holds the file [/p/q/c.cpp] at 3. *)
Definition nested_projects : gmap positive Node :=
  <[1%positive := mkFolderNode ProjectNodeType "/p" None [] [2%positive] [2%positive]]>
  (<[2%positive := mkFolderNode ProjectNodeType "/p/q" (Some 1%positive) [3%positive] [] []]>
  (<[3%positive := mkFileNode "/p/q/c.cpp" (Some 2%positive)]> ∅)).

Definition nested_projects_tree : tree :=
  Tree 1 [] [Tree 2 [3%positive] []].

(** ** FileNode::scanForFiles *)

(** What the scan sees of the file system, through [QDir] and
    [Core::VcsManager]: the canonical path of a directory, the entries of a
    directory ([QDir::entryInfoList] with [AllEntries | NoDotAndDotDot]), and
    whether the version control system in charge of a directory, if there is
    one, claims an entry as its own. *)
Record QFileInfo : Type := mkFileInfo {
  absoluteFilePath : FileName;
  isDir : bool
}.

Record FileSystem : Type := mkFileSystem {
  canonicalPath : FileName -> string;
  entryInfoList : FileName -> list QFileInfo;
  isVcsFileOrDirectory : FileName -> FileName -> bool
}.

(** The state the recursion threads through: the set [visited], the number
    of times [isCanceled] has been asked so far, and the canonical paths of
    the directories whose entries have been listed, in order. *)
Record ScanState : Type := mkScanState {
  visited : gset string;
  polls : nat;
  listed : list string
}.

(** [future->isCanceled()]: the flag is set by another thread; [isCanceled k]
    is what the [k]-th call finds.  With no future there is nothing to ask. *)
Definition poll (future : option (nat -> bool)) (st : ScanState)
  : bool * ScanState :=
  match future with
  | Some isCanceled =>
      (isCanceled (polls st), mkScanState (visited st) (S (polls st)) (listed st))
  | None => (false, st)
  end.

Section scan.
Context {A : Type}.
Context (fs : FileSystem) (factory : FileName -> A)
        (future : option (nat -> bool)).

(** The loop over the entries of [directory]; [recurse] is the recursive
    call.  Progress reporting, which computes in [double] and decides
    nothing, is left out. *)
Fixpoint scan_entries
    (recurse : FileName -> ScanState -> result (list A * ScanState))
    (directory : FileName) (entries : list QFileInfo) (files : list A)
    (st : ScanState) : result (list A * ScanState) :=
  match entries with
  | [] => Val (files, st)
  | entry :: entries' =>
      let '(canceled, st1) := poll future st in
      if canceled then Val (files, st1)
      else
        let entryName := absoluteFilePath entry in
        if negb (isVcsFileOrDirectory fs directory entryName) then
          if isDir entry then
            match recurse entryName st1 with
            | Val (sub, st2) =>
                scan_entries recurse directory entries' (files ++ sub) st2
            | Fail f => Fail f
            end
          else
            scan_entries recurse directory entries'
              (files ++ [factory entryName]) st1
        else scan_entries recurse directory entries' files st1
  end.

Fixpoint scanForFilesRecursively (fuel : nat) (directory : FileName)
    (st : ScanState) : result (list A * ScanState) :=
  match fuel with
  | O => Fail OutOfFuel
  | S fuel' =>
      let visitedCount := size (visited st) in
      let visited' := {[canonicalPath fs directory]} ∪ visited st in
      if (visitedCount =? size visited')%nat then Val ([], st)
      else
        let st1 := mkScanState visited' (polls st)
                     (listed st ++ [canonicalPath fs directory]) in
        scan_entries (scanForFilesRecursively fuel') directory
          (entryInfoList fs directory) [] st1
  end.

End scan.

(** [FileNode::scanForFiles]: the future is there, and [visited] starts
    empty. *)
Definition scanForFiles {A : Type} (fs : FileSystem) (factory : FileName -> A)
    (isCanceled : nat -> bool) (fuel : nat) (directory : FileName)
  : result (list A * ScanState) :=
  scanForFilesRecursively fs factory (Some isCanceled) fuel directory
    (mkScanState ∅ 0 []).

(** A flag that is never set, and a flag that stays set once it is. *)
Definition never_canceled : nat -> bool := fun _ => false.

Definition stays_set (isCanceled : nat -> bool) : Prop :=
  forall i j, (i <= j)%nat -> isCanceled i = true -> isCanceled j = true.

(** A file system with a symbolic link that closes a cycle: [/r] holds the
    file [/r/f] and the directory [/r/d], which holds the file [/r/d/g] and
    the link [/r/d/up] to [/r].  A path that does not exist has the empty
    canonical path. *)
Definition cyclic_fs : FileSystem :=
  mkFileSystem
    (fun p =>
       if String.eqb p "/r" || String.eqb p "/r/d/up" then "/r"
       else if String.eqb p "/r/d" then "/r/d"
       else "")
    (fun p =>
       if String.eqb p "/r" || String.eqb p "/r/d/up" then
         [mkFileInfo (p ++ "/f") false; mkFileInfo (p ++ "/d") true]
       else if String.eqb p "/r/d" then
         [mkFileInfo (p ++ "/g") false; mkFileInfo (p ++ "/up") true]
       else [])
    (fun _ _ => false).

Definition cyclic_fs_paths : gset string := {["/r"; "/r/d"; ""]}.

(** The flag is set between the second and the third look at it. *)
Definition canceled_from_third : nat -> bool := fun k => (2 <=? k)%nat.

(** The rounds of the loop of [scanForFilesRecursively] when nothing
    cancels it, in the order in which it comes to them: every round with the
    directory whose entries the loop walks and the entry it has come to.
    The loop looks at the flag once at the head of every round.  [V] is the
    set [visited]. *)
Section scan_rounds.
Context (fs : FileSystem).

Fixpoint rounds_of_entries
    (recurse : FileName -> gset string -> list (FileName * QFileInfo) * gset string)
    (directory : FileName) (entries : list QFileInfo) (V : gset string)
  : list (FileName * QFileInfo) * gset string :=
  match entries with
  | [] => ([], V)
  | entry :: entries' =>
      let entryName := absoluteFilePath entry in
      if negb (isVcsFileOrDirectory fs directory entryName) && isDir entry then
        let '(sub, V1) := recurse entryName V in
        let '(rest, V2) := rounds_of_entries recurse directory entries' V1 in
        ((directory, entry) :: sub ++ rest, V2)
      else
        let '(rest, V2) := rounds_of_entries recurse directory entries' V in
        ((directory, entry) :: rest, V2)
  end.

Fixpoint rounds (fuel : nat) (directory : FileName) (V : gset string)
  : list (FileName * QFileInfo) * gset string :=
  match fuel with
  | O => ([], V)
  | S fuel' =>
      let V' := {[canonicalPath fs directory]} ∪ V in
      if (size V =? size V')%nat then ([], V)
      else rounds_of_entries (rounds fuel') directory
             (entryInfoList fs directory) V'
  end.

(** What a round appends to the result itself: the node of an entry that is
    no directory and that the version control system does not claim. *)
Definition round_file {A : Type} (factory : FileName -> A)
    (r : FileName * QFileInfo) : option A :=
  let entryName := absoluteFilePath r.2 in
  if negb (isVcsFileOrDirectory fs r.1 entryName) && negb (isDir r.2)
  then Some (factory entryName) else None.

Definition files_of_rounds {A : Type} (factory : FileName -> A)
    (rs : list (FileName * QFileInfo)) : list A :=
  omap (round_file factory) rs.

End scan_rounds.

(** The flag is found set at the [k]-th look at it for the first time, the
    looks counted from 0, and stays set. *)
Definition first_set_at (k : nat) (isCanceled : nat -> bool) : Prop :=
  (forall i, (i < k)%nat -> isCanceled i = false) /\
  (forall i, (k <= i)%nat -> isCanceled i = true).

(** ** FolderNode: synchronising the tree with a list of files *)

(** [FolderNode::recursiveFileNodes] *)
Fixpoint recursiveFileNodes (fuel : nat) (self : addr) : M (list addr) :=
  match fuel with
  | O => raise OutOfFuel
  | S fuel' =>
      let* n := deref self in
      let* below := mapM (recursiveFileNodes fuel') (m_folderNodes n) in
      ret (m_fileNodes n ++ concat below)
  end.

(** Modelled from the spec: [Utils::sort] with a comparison, which
    [projectnodes.cpp] calls and does not define: the list in ascending
    order of the comparison. *)
Definition not_after (lt : addr -> addr -> bool) (a b : addr) : Prop :=
  lt b a = false.

#[global] Instance not_after_dec lt a b : Decision (not_after lt a b).
Proof. unfold not_after. apply _. Defined.

Definition sort_by (lt : addr -> addr -> bool) (l : list addr) : list addr :=
  merge_sort (not_after lt) l.

(** Modelled from the spec: [compareSortedLists], a template of
    [projectnodes.h]: the merge-style comparison of two sorted lists, which
    gives the nodes only in the old list and the nodes only in the new list;
    an old and a new node neither of which sorts before the other are one
    entry, present in both. *)
Fixpoint compareSortedLists (lt : addr -> addr -> bool)
    (oldList newList : list addr) {struct oldList} : list addr * list addr :=
  match oldList with
  | [] => ([], newList)
  | o :: oldList' =>
      (fix go (newList : list addr) : list addr * list addr :=
         match newList with
         | [] => (oldList, [])
         | n :: newList' =>
             if lt o n then
               let '(removed, added) := compareSortedLists lt oldList' newList in
               (o :: removed, added)
             else if lt n o then
               let '(removed, added) := go newList' in
               (removed, n :: added)
             else compareSortedLists lt oldList' newList'
         end) newList
  end.

(** Modelled from the spec: [subtractSortedList], a template of
    [projectnodes.h]: the nodes of the first list that are not in the
    second; of the incoming nodes, those that were not added. *)
Definition subtractSortedList (list1 list2 : list addr) : list addr :=
  list_difference list1 list2.

(** [QHash<FolderNode *, QList<FileNode *>>]; the key is a pointer, which
    may be null. *)
Abbreviation FolderMapping := (gmap (option positive) (list positive)).

(** [mapping[key] << fn] *)
Definition mapping_append (m : FolderMapping) (key : option addr) (fn : addr)
  : FolderMapping :=
  <[key := default [] (m !! key) ++ [fn]]> m.

(** What [projectnodes.cpp] takes from Qt, from [Utils::FileName] and from
    the run time: the path functions, the priority a folder is constructed
    with, the address [new] hands out, and the order in which a [QHash] is
    iterated. *)
Record Platform : Type := mkPlatform {
  absolutePath : FileName -> string;
  isRoot : FileName -> bool;
  relativeFilePath : string -> string -> string;
  split : string -> list string;
  appendPath : FileName -> string -> FileName;
  toUserOutput : FileName -> string;
  DefaultFolderPriority : Z;
  allocate : gmap positive Node -> addr;
  hash_order : FolderMapping -> list (option addr * list addr)
}.

(** [new] hands out an address that holds no object, and the iteration of a
    [QHash] visits every entry once. *)
Definition lawful (E : Platform) : Prop :=
  (forall h, h !! allocate E h = None) /\
  (forall m, hash_order E m ≡ₚ map_to_list m).

(** [FolderNode::folderNode]: [Utils::findOrDefault] over the folder
    children. *)
Fixpoint find_by_path (l : list addr) (directory : FileName) : M (option addr) :=
  match l with
  | [] => ret None
  | c :: l' =>
      let* fn := deref c in
      if String.eqb (m_filePath fn) directory then ret (Some c)
      else find_by_path l' directory
  end.

Definition folderNode (self : addr) (directory : FileName) : M (option addr) :=
  let* n := deref self in
  find_by_path (m_folderNodes n) directory.

(** [FolderNode::setDisplayName] *)
Definition setDisplayName (self : addr) (name : string) : M unit :=
  let* n := deref self in
  if String.eqb (m_displayName n) name then ret tt
  else
    emitNodeSortKeyAboutToChange self ;;
    modify self (set_displayName name) ;;
    emitNodeSortKeyChanged self ;;
    emitNodeUpdated self.

Section buildTree.

Variable E : Platform.

(** [new FolderNode(folderPath)] *)
Definition new_FolderNode (folderPath : FileName) : M addr :=
  fun s =>
    let p := allocate E (heap s) in
    Val (p, mkState (<[p := mkNode FolderNodeType folderPath (-1)
                              (DefaultFolderPriority E) true None
                              (toUserOutput E folderPath) [] [] []]> (heap s))
                    (trace s)).

(** The body of the loop of [recursiveFindOrCreateFolderNode]: one part of
    the relative path. *)
Definition findOrCreate_step (fuel : nat) (st : addr * FileName) (part : string)
  : M (addr * FileName) :=
  let '(parent, path) := st in
  let path := appendPath E path part in
  let* next := folderNode parent path in
  match next with
  | Some next => ret (next, path)
  | None =>
      let* tmp := new_FolderNode path in
      setDisplayName tmp part ;;
      addFolderNodes fuel parent [tmp] ;;
      ret (tmp, path)
  end.

(** The parts of the path from the base directory to [directory]. *)
Definition relative_parts (path : FileName) (directory : string) : list string :=
  let workPath :=
    if String.eqb path "" || isRoot E path then directory
    else
      let w := relativeFilePath E path directory in
      if String.eqb w "." then "" else w in
  split E workPath.

(** [FolderNode::recursiveFindOrCreateFolderNode] *)
Definition recursiveFindOrCreateFolderNode (fuel : nat) (self : addr)
    (directory : string) (overrideBaseDir : FileName) : M addr :=
  let* n := deref self in
  let path := if String.eqb overrideBaseDir "" then m_filePath n
              else overrideBaseDir in
  let parts := relative_parts path directory in
  let* st := foldM (findOrCreate_step fuel) parts (self, path) in
  ret (fst st).

(** The loop [while (parent->folderNodes().isEmpty() &&
    parent->fileNodes().isEmpty())] of [buildTree]; [n] bounds its rounds. *)
Fixpoint remove_empty_parents (n : nat) (fuel : nat) (self parent : addr)
  : M unit :=
  match n with
  | O => raise OutOfFuel
  | S n' =>
      let* p := deref parent in
      if is_nil (m_folderNodes p) && is_nil (m_fileNodes p) then
        match m_parentFolderNode p with
        | None => raise UndefinedBehaviour
        | Some grandparent =>
            removeFolderNodes fuel grandparent [parent] ;;
            if decide (grandparent = self) then ret tt
            else remove_empty_parents n' fuel self grandparent
        end
      else ret tt
  end.

(** The body of the loop over [deletedFolderMapping]. *)
Definition remove_deleted (fuel : nat) (self : addr)
    (entry : option addr * list addr) : M unit :=
  match fst entry with
  | None => raise UndefinedBehaviour
  | Some parent =>
      removeFileNodes fuel parent (snd entry) ;;
      if decide (parent = self) then ret tt
      else remove_empty_parents fuel fuel self parent
  end.

(** The body of the loop over [addedFolderMapping]. *)
Definition add_added (fuel : nat) (entry : option addr * list addr) : M unit :=
  match fst entry with
  | None => raise UndefinedBehaviour
  | Some folder => addFileNodes fuel folder (snd entry)
  end.

(** The head of [buildTree]: the incoming list sorted, and the two
    partitions, the old file nodes to delete and the incoming file nodes to
    add. *)
Definition partitions (fuel : nat) (self : addr) (files : list addr)
  : M (list addr * (list addr * list addr)) :=
  let* oldFiles := recursiveFileNodes fuel self in
  let* h := read (fun h => Val h) in
  let oldFiles := sort_by (sortByPath h) oldFiles in
  let files := sort_by (sortByPath h) files in
  ret (files, compareSortedLists (sortByPath h) oldFiles files).

(** [FolderNode::buildTree]; the incoming list, which the function sorts in
    place, is not handed back. *)
Definition buildTree (fuel : nat) (self : addr) (files : list addr)
    (overrideBaseDir : FileName) : M unit :=
  let* parts := partitions fuel self files in
  let '(files, (deleted, added)) := parts in
  forM_ (subtractSortedList files added) (destroy fuel) ;;
  let* addedFolderMapping :=
    foldM (fun (m : FolderMapping) fn =>
             let* f := deref fn in
             let parentDir := absolutePath E (m_filePath f) in
             let* folder := recursiveFindOrCreateFolderNode fuel self parentDir
                              overrideBaseDir in
             ret (mapping_append m (Some folder) fn))
          added ∅ in
  forM_ (hash_order E addedFolderMapping) (add_added fuel) ;;
  let* deletedFolderMapping :=
    foldM (fun (m : FolderMapping) fn =>
             let* f := deref fn in
             ret (mapping_append m (m_parentFolderNode f) fn))
          deleted ∅ in
  forM_ (hash_order E deletedFolderMapping) (remove_deleted fuel self).

End buildTree.

(** ** A platform to run the examples on: absolute paths with [/] *)

(** [QString::split('/', QString::SkipEmptyParts)] *)
Fixpoint split_slash (acc : string) (s : string) : list string :=
  match s with
  | EmptyString => if String.eqb acc "" then [] else [acc]
  | String c s' =>
      if Ascii.eqb c "/"%char
      then (if String.eqb acc "" then [] else [acc]) ++ split_slash "" s'
      else split_slash (String.append acc (String c EmptyString)) s'
  end.

Fixpoint join_slash (parts : list string) : string :=
  match parts with
  | [] => ""
  | p :: parts' => String.append "/" (String.append p (join_slash parts'))
  end.

(** The path of [directory] from [base], when [directory] is below [base]. *)
Fixpoint strip_prefix (base directory : list string) : option (list string) :=
  match base, directory with
  | [], rest => Some rest
  | b :: base', d :: directory' =>
      if String.eqb b d then strip_prefix base' directory' else None
  | _ :: _, [] => None
  end.

Definition example_platform : Platform :=
  {| absolutePath := fun p =>
       let parts := split_slash "" p in
       let dir := take (length parts - 1) parts in
       if is_nil dir then "/" else join_slash dir;
     isRoot := fun p => String.eqb p "/";
     relativeFilePath := fun base directory =>
       match strip_prefix (split_slash "" base) (split_slash "" directory) with
       | Some [] => "."
       | Some rest => String.substring 1 (String.length (join_slash rest))
                        (join_slash rest)
       | None => directory
       end;
     split := split_slash "";
     appendPath := fun p part =>
       if String.eqb p "/" then String.append p part
       else String.append p (String.append "/" part);
     toUserOutput := fun p => p;
     DefaultFolderPriority := 0;
     allocate := fun h => fresh (dom h);
     hash_order := map_to_list |}.

(** The small project after a scan that found [/p/a.cpp] only: the scan's
    file node, at address 5, hangs in no tree yet. *)
Definition small_project_rescan : state :=
  mkState (<[5%positive := mkFileNode "/p/a.cpp" None]> (heap small_project)) [].

Definition small_project_tree : tree :=
  Tree 1 [2%positive] [Tree 3 [4%positive] []].

(** ** Trees that grow *)

(** The folders of a tree. *)
Fixpoint folders_of (t : tree) : list addr :=
  match t with
  | Tree a _ folders => a :: flat_map folders_of folders
  end.

(** The file children of the folder [d] of the tree. *)
Fixpoint files_at (d : addr) (t : tree) : list addr :=
  match t with
  | Tree a files folders =>
      if decide (a = d) then files else flat_map (files_at d) folders
  end.

(** Where [insert_node] puts a node. *)
Definition insert_pos (l : list addr) (x : addr) : nat :=
  match last l with
  | None => length l
  | Some y => if (y <? x)%positive then length l else lower_bound l x
  end.

Definition insert_tree (c : tree) (folders : list tree) : list tree :=
  let i := insert_pos (map root folders) (root c) in
  take i folders ++ c :: drop i folders.

(** [update_at d f t]: the tree [t] with [f] applied to the tree of its
    folder [d]. *)
Fixpoint update_at (d : addr) (f : tree -> tree) (t : tree) : tree :=
  match t with
  | Tree a files folders =>
      if decide (a = d) then f t
      else Tree a files (map (update_at d f) folders)
  end.

(** The folder after [addFileNodes], after [addFolderNodes] of one new
    folder. *)
Definition add_files (fns : list addr) (t : tree) : tree :=
  Tree (root t) (foldl insert_node (tree_files t) fns) (tree_folders t).

Definition add_folder (tmp : addr) (t : tree) : tree :=
  Tree (root t) (tree_files t) (insert_tree (Tree tmp [] []) (tree_folders t)).

(** [attached h h' parent t t']: the store [h'] holds [t'] where [h] held
    [t]; no node of [t] is lost, the nodes of [t] have the class and the
    parent they had, the objects outside [t'] are as they were, no node
    that came to the tree is a project, and every object has the path it
    had. *)
Definition attached (h h' : gmap positive Node) (parent : option addr)
    (t t' : tree) : Prop :=
  wf_tree h' parent t' /\
  (forall x, x ∈ nodes t -> x ∈ nodes t') /\
  (forall x, x ∈ nodes t -> skeleton h' x = skeleton h x) /\
  (forall x, x ∉ nodes t' -> h' !! x = h !! x) /\
  (forall x, x ∈ nodes t' -> x ∉ nodes t -> isProjectAt h' x = false) /\
  (forall x, is_Some (h !! x) -> path_of h' x = path_of h x).

(** The store after the files [fns] got the parent [d]. *)
Definition adopt (d : addr) (fns : list addr) (h : gmap positive Node)
  : gmap positive Node :=
  foldl (fun h f => alter (set_parentFolderNode (Some d)) f h) h fns.

(** The node [new FolderNode(path)] and [setDisplayName(part)] leave. *)
Definition fresh_folder (E : Platform) (path : FileName) (part : string) : Node :=
  let n0 := mkNode FolderNodeType path (-1) (DefaultFolderPriority E) true None
              (toUserOutput E path) [] [] [] in
  if String.eqb (m_displayName n0) part then n0 else set_displayName part n0.
(** ** The tree of a folder during [buildTree] *)

(** [sound h parent l t]: the store [h] holds the tree [t] below the
    ancestors [l], a project manages it and it has no sub-project. *)
Definition sound (h : gmap positive Node) (parent : option addr)
    (l : list addr) (t : tree) : Prop :=
  wf_tree h parent t /\ NoDup (nodes t) /\ managed h (root t) l /\
  Forall (fun x => x ∉ nodes t) l /\ no_subprojects h t.

(** [extends h h' added t t']: the tree [t'] of the store [h'] has the
    folders of [t], and its files and the files [added]; the other objects
    of [h] outside [t] are as they were, and outside [t']; every object of
    [h] is in [h'], with its path. *)
Definition extends (h h' : gmap positive Node) (added : list addr)
    (t t' : tree) : Prop :=
  root t' = root t /\
  (forall x, x ∈ folders_of t -> x ∈ folders_of t') /\
  all_files t' ≡ₚ added ++ all_files t /\
  (forall x, is_Some (h !! x) -> x ∉ nodes t -> x ∉ added ->
     h' !! x = h !! x /\ (x ∉ nodes t')) /\
  (forall x, is_Some (h !! x) ->
     is_Some (h' !! x) /\ path_of h' x = path_of h x).

(** The directory the paths of [buildTree] are relative to. *)
Definition base_path (h : gmap positive Node) (self : addr)
    (overrideBaseDir : FileName) : FileName :=
  if String.eqb overrideBaseDir "" then path_of h self else overrideBaseDir.

(** The folders on the way from the base directory to the file [f]: as many
    as [recursiveFindOrCreateFolderNode] makes at most. *)
Definition parts_of (E : Platform) (h : gmap positive Node) (self : addr)
    (overrideBaseDir : FileName) (f : addr) : list string :=
  relative_parts E (base_path h self overrideBaseDir)
    (absolutePath E (path_of h f)).

Definition new_folders (E : Platform) (h : gmap positive Node) (self : addr)
    (overrideBaseDir : FileName) (files : list addr) : nat :=
  sum_list (map (fun f => length (parts_of E h self overrideBaseDir f)) files).

(** [shrunk h h' removed t t']: the tree [t'] of the store [h'] is the tree
    [t] without the files [removed] and some of its folders; what stays has
    the class, the parent and the path it had, and the objects outside [t]
    are as they were. *)
Definition shrunk (h h' : gmap positive Node) (removed : list addr)
    (t t' : tree) : Prop :=
  root t' = root t /\
  all_files t ≡ₚ removed ++ all_files t' /\
  (forall x, x ∈ nodes t' -> x ∈ nodes t /\ skeleton h' x = skeleton h x) /\
  (forall x, x ∉ nodes t -> h' !! x = h !! x) /\
  (height t' <= height t)%nat.
(** ** The tree of a folder, whatever the lists of sub-projects say *)

(** [holds h parent t]: the store [h] holds the tree [t] under the parent
    pointer [parent], as [wf_tree] has it, but for [m_projectNodes], of
    which nothing is asked: [removeFolderNodes] takes a sub-project out of
    [m_folderNodes] and leaves its pointer in [m_projectNodes]. *)
#[local] Unset Elimination Schemes.
Inductive holds (h : gmap positive Node) : option addr -> tree -> Prop :=
  | holds_intro parent a n files folders :
      h !! a = Some n ->
      m_nodeType n <> FileNodeType ->
      m_parentFolderNode n = parent ->
      (is_Some parent -> m_nodeType n <> SessionNodeType) ->
      m_fileNodes n = files ->
      m_folderNodes n = map root folders ->
      StronglySorted Pos.lt files ->
      StronglySorted Pos.lt (map root folders) ->
      Forall (file_leaf h a) files ->
      Forall (holds h (Some a)) folders ->
      holds h parent (Tree a files folders).
#[local] Set Elimination Schemes.

(** The object [n'] is the object [n] but for its file nodes and its folder
    nodes. *)
Definition same_but_children (n n' : Node) : Prop :=
  n' = set_fileNodes (m_fileNodes n') (set_folderNodes (m_folderNodes n') n).

(** [cut h h' parent t t']: the store [h'] holds [t'] where [h] held [t];
    the objects of [t] that are not in [t'] are gone, the objects of [t']
    are as they were but for their file nodes and folder nodes, and the
    objects outside [t] are as they were. *)
Definition cut (h h' : gmap positive Node) (parent : option addr)
    (t t' : tree) : Prop :=
  holds h' parent t' /\
  (forall x, x ∈ nodes t -> x ∉ nodes t' -> h' !! x = None) /\
  (forall x, x ∈ nodes t' ->
     exists n n', h !! x = Some n /\ h' !! x = Some n' /\
       same_but_children n n') /\
  (forall x, x ∉ nodes t -> h' !! x = h !! x).

(** The project with a sub-project, after a scan that found nothing: no file
    node comes in. *)
Definition nested_projects_rescan : state := mkState nested_projects [].

(** [sound_when strict h parent l t]: the tree is [sound], sub-projects
    ruled out only when [strict] is set. *)
Definition sound_when (strict : bool) (h : gmap positive Node)
    (parent : option addr) (l : list addr) (t : tree) : Prop :=
  wf_tree h parent t /\ NoDup (nodes t) /\ managed h (root t) l /\
  Forall (fun x => x ∉ nodes t) l /\ (strict = true -> no_subprojects h t).

(** [held h parent l t]: the store holds the tree [t] below the ancestors
    [l], and a project manages it; of the lists of sub-projects nothing is
    said. *)
Definition held (h : gmap positive Node) (parent : option addr)
    (l : list addr) (t : tree) : Prop :=
  holds h parent t /\ NoDup (nodes t) /\ managed h (root t) l /\
  Forall (fun x => x ∉ nodes t) l.

(** What [buildTree] leaves: a sound tree when there was no sub-project. *)
Definition sound_after (strict : bool) (h : gmap positive Node)
    (parent : option addr) (l : list addr) (t : tree) : Prop :=
  if strict then sound h parent l t else held h parent l t.
(** ** A rescanned project *)

(** The small project after two scans of a directory that holds [/p/a.cpp]
    and [/p/new/c.cpp]: the file nodes of the first scan are at 5 and 6,
    those of the second at 7 and 8, and none hangs in a tree yet. *)
Definition small_project_scans : state :=
  mkState (<[5%positive := mkFileNode "/p/a.cpp" None]>
          (<[6%positive := mkFileNode "/p/new/c.cpp" None]>
          (<[7%positive := mkFileNode "/p/a.cpp" None]>
          (<[8%positive := mkFileNode "/p/new/c.cpp" None]>
             (heap small_project))))) [].

(** The small project after a scan that found what the tree holds: the file
    nodes of the scan, [/p/sub/b.cpp] at 5 and [/p/a.cpp] at 6, hang in no
    tree yet. *)
Definition small_project_same_scan : state :=
  mkState (<[5%positive := mkFileNode "/p/sub/b.cpp" None]>
          (<[6%positive := mkFileNode "/p/a.cpp" None]>
             (heap small_project))) [].

(** A session at address 1 without projects, and two projects, [/a] at 2
    and [/b] at 3, that are in no session yet. *)
Definition session_and_projects : gmap positive Node :=
  <[1%positive := mkFolderNode SessionNodeType "session" None [] [] []]>
  (<[2%positive := mkFolderNode ProjectNodeType "/a" None [] [] []]>
  (<[3%positive := mkFolderNode ProjectNodeType "/b" None [] [] []]> ∅)).

(** The project with a sub-project, and two file nodes of two scans that
    both found [/p/a.cpp] only, at 5 and 6. *)
Definition nested_projects_scans : state :=
  mkState (<[5%positive := mkFileNode "/p/a.cpp" None]>
          (<[6%positive := mkFileNode "/p/a.cpp" None]> nested_projects)) [].

(** A project at address 1 and two folders in no tree yet, [/p/b] at 2 and
    [/p/a] at 3, named by their paths. *)
Definition two_loose_folders : state :=
  mkState (<[1%positive := mkFolderNode ProjectNodeType "/p" None [] [] []]>
          (<[2%positive := mkFolderNode FolderNodeType "/p/b" None [] [] []]>
          (<[3%positive := mkFolderNode FolderNodeType "/p/a" None [] [] []]> ∅)))
          [].
(** ** Lookups by path and the visitor *)

(** [FolderNode::fileNode]: [Utils::findOrDefault] over the file children. *)
Definition fileNode (self : addr) (file : FileName) : M (option addr) :=
  let* n := deref self in
  find_by_path (m_fileNodes n) file.

(** [ProjectNode::projectNode]: [Utils::findOrDefault] over the
    sub-projects. *)
Definition projectNode (self : addr) (file : FileName) : M (option addr) :=
  let* n := deref self in
  find_by_path (m_projectNodes n) file.

(** The loop of [FolderNode::recursiveFileNode] over the parts of the
    relative path, and the [fileNode] call after it; [dir] is the variable
    the loop appends to, [parent] the folder it has come to. *)
Fixpoint recursiveFileNode_loop (E : Platform) (parts : list string)
    (parent : addr) (dir : FileName) (file : FileName) : M (option addr) :=
  match parts with
  | [] => fileNode parent file
  | part :: parts' =>
      let dir := appendPath E dir part in
      let* p := deref parent in
      let* next := find_by_path (m_folderNodes p) dir in
      match next with
      | None => ret None
      | Some next => recursiveFileNode_loop E parts' next dir file
      end
  end.

(** [FolderNode::recursiveFileNode]; [parentDir] is
    [Utils::FileName::parentDir]. *)
Definition recursiveFileNode (E : Platform) (parentDir : FileName -> FileName)
    (self : addr) (file : FileName) : M (option addr) :=
  let dir := parentDir file in
  let* n := deref self in
  let relativePath := relativeFilePath E (m_filePath n) dir in
  let relativePath := if String.eqb relativePath "." then "" else relativePath in
  let parts := split E relativePath in
  recursiveFileNode_loop E parts self dir file.

(** The calls a [NodesVisitor] receives. *)
Inductive Visit : Type :=
  | visitFolderNode (a : addr)
  | visitProjectNode (a : addr)
  | visitSessionNode (a : addr).

(** The virtual function [accept]: [SessionNode::accept] goes on with the
    projects of the session, [ProjectNode::accept] and [FolderNode::accept]
    with the folder children; the calls made on the visitor are handed
    back in order.  A file node has no [accept]. *)
Fixpoint accept (fuel : nat) (self : addr) : M (list Visit) :=
  match fuel with
  | O => raise OutOfFuel
  | S fuel' =>
      let* n := deref self in
      match m_nodeType n with
      | FileNodeType => raise UndefinedBehaviour
      | SessionNodeType =>
          let* vs := mapM (accept fuel') (m_projectNodes n) in
          ret (visitSessionNode self :: concat vs)
      | ProjectNodeType =>
          let* vs := mapM (accept fuel') (m_folderNodes n) in
          ret (visitProjectNode self :: concat vs)
      | _ =>
          let* vs := mapM (accept fuel') (m_folderNodes n) in
          ret (visitFolderNode self :: concat vs)
      end
  end.

(** The call [accept] makes for the object at [a]. *)
Definition visit_of (h : gmap positive Node) (a : addr) : Visit :=
  match m_nodeType <$> h !! a with
  | Some ProjectNodeType => visitProjectNode a
  | Some SessionNodeType => visitSessionNode a
  | _ => visitFolderNode a
  end.

(** [first_match h children path r]: [r] is the first of [children] with
    the path [path], or nothing when none of them has it. *)
Definition first_match (h : gmap positive Node) (children : list addr)
    (path : FileName) (r : option addr) : Prop :=
  (forall c, r = Some c <->
     exists l1 l2, children = l1 ++ c :: l2 /\ path_of h c = path /\
       forall x, x ∈ l1 -> path_of h x <> path) /\
  (r = None <-> forall x, x ∈ children -> path_of h x <> path).

(** The parts [recursiveFileNode] walks along, for the folder object [n]. *)
Definition relative_parts_of_file (E : Platform)
    (parentDir : FileName -> FileName) (n : Node) (file : FileName)
  : list string :=
  let relativePath := relativeFilePath E (m_filePath n) (parentDir file) in
  split E (if String.eqb relativePath "." then "" else relativePath).

(** [listed_file fs factory st x]: the scan made [x] from an entry, of a
    directory it has listed, that is no directory and that the version
    control system does not claim. *)
Definition listed_file {A : Type} (fs : FileSystem) (factory : FileName -> A)
    (st : ScanState) (x : A) : Prop :=
  exists directory entry,
    canonicalPath fs directory ∈ listed st /\
    entry ∈ entryInfoList fs directory /\
    isDir entry = false /\
    isVcsFileOrDirectory fs directory (absoluteFilePath entry) = false /\
    x = factory (absoluteFilePath entry).

(** [FolderNode::displayName] *)
Definition FolderNode_displayName (self : addr) : M string :=
  let* n := deref self in
  ret (m_displayName n).
(** * Properties *)

(** ** Generic facts about the monad *)

Lemma bind_Val {A B} (c : M A) (k : A -> M B) s a s' :
  c s = Val (a, s') -> bind c k s = k a s'.
Proof. intros H. unfold bind. by rewrite H. Qed.

Lemma bind_Fail {A B} (c : M A) (k : A -> M B) s f :
  c s = Fail f -> bind c k s = Fail f.
Proof. intros H. unfold bind. by rewrite H. Qed.

Lemma bind_inv {A B} (c : M A) (k : A -> M B) s b s'' :
  bind c k s = Val (b, s'') ->
  exists a s', c s = Val (a, s') /\ k a s' = Val (b, s'').
Proof.
  unfold bind. destruct (c s) as [[a s']|f]; [|discriminate].
  intros H. by exists a, s'.
Qed.

Lemma deref_Val p s n : heap s !! p = Some n -> deref p s = Val (n, s).
Proof. intros H. unfold deref. by rewrite H. Qed.

Lemma modify_Val p f s n :
  heap s !! p = Some n ->
  modify p f s = Val (tt, mkState (<[p := f n]> (heap s)) (trace s)).
Proof. intros H. unfold modify. by rewrite H. Qed.

(** ** Node::setAbsoluteFilePathAndLine *)

(** C10.  Setting the path and line a node already has changes nothing and
    notifies nobody.  Otherwise the node gets the new path and line, and a
    node with a parent emits "sort key about to change" while the old key is
    still visible, then "sort key changed" and "updated" once the new one is;
    so a notification is emitted only when path or line differs. *)
Theorem setAbsoluteFilePathAndLine_spec (s : state) (self : addr) (n : Node)
    (path : FileName) (line : Z) :
  heap s !! self = Some n ->
  (path = m_filePath n /\ line = m_line n ->
     setAbsoluteFilePathAndLine self path line s = Val (tt, s)) /\
  (~ (path = m_filePath n /\ line = m_line n) ->
     setAbsoluteFilePathAndLine self path line s =
       Val (tt, mkState
                  (<[self := set_line line (set_filePath path n)]> (heap s))
                  (trace s ++
                     match m_parentFolderNode n with
                     | Some _ =>
                         [NodeSortKeyAboutToChange self (m_filePath n) (m_line n);
                          NodeSortKeyChanged self path line;
                          NodeUpdated self]
                     | None => []
                     end))) /\
  (forall s', setAbsoluteFilePathAndLine self path line s = Val (tt, s') ->
     trace s' <> trace s -> path <> m_filePath n \/ line <> m_line n).
Proof.
  intros Hn.
  assert (Hsame : path = m_filePath n /\ line = m_line n ->
     setAbsoluteFilePathAndLine self path line s = Val (tt, s)).
  { intros [-> ->]. unfold setAbsoluteFilePathAndLine.
    rewrite (bind_Val _ _ _ _ _ (deref_Val _ _ _ Hn)).
    by rewrite String.eqb_refl, Z.eqb_refl. }
  split; [exact Hsame|]. split.
  - intros Hdiff. unfold setAbsoluteFilePathAndLine.
    rewrite (bind_Val _ _ _ _ _ (deref_Val _ _ _ Hn)).
    destruct (String.eqb (m_filePath n) path && (m_line n =? line)%Z) eqn:E.
    { apply andb_true_iff in E as [E1 E2].
      apply String.eqb_eq in E1. apply Z.eqb_eq in E2. by destruct Hdiff. }
    destruct s as [h t]; simpl in *.
    unfold emitNodeSortKeyAboutToChange, emitNodeSortKeyChanged, emitNodeUpdated.
    unfold bind, deref, modify, emit, ret; simpl. rewrite Hn.
    destruct (m_parentFolderNode n) as [p|] eqn:Ep;
      repeat (simpl; rewrite ?Hn, ?Ep, ?lookup_insert_eq);
      rewrite !insert_insert_eq, <- ?app_assoc, ?app_nil_r; reflexivity.
  - intros s' Hrun Htr.
    destruct (decide (path = m_filePath n)) as [Hp|Hp]; [|by left].
    destruct (decide (line = m_line n)) as [Hl|Hl]; [|by right].
    rewrite (Hsame (conj Hp Hl)) in Hrun. by inversion Hrun; subst.
Qed.

Lemma setAbsoluteFilePathAndLine_spec_witness :
  setAbsoluteFilePathAndLine 2 "/p/a.cpp" (-1) small_project
    = Val (tt, small_project) /\
  exists s', setAbsoluteFilePathAndLine 2 "/p/a.h" 7 small_project = Val (tt, s') /\
    trace s' = [NodeSortKeyAboutToChange 2 "/p/a.cpp" (-1);
                NodeSortKeyChanged 2 "/p/a.h" 7; NodeUpdated 2].
Proof.
  pose proof (setAbsoluteFilePathAndLine_spec small_project 2
                (mkFileNode "/p/a.cpp" (Some 1%positive))) as H.
  split.
  - apply (H "/p/a.cpp" (-1)%Z); [reflexivity|]. split; reflexivity.
  - eexists. split.
    + apply (H "/p/a.h" 7%Z); [reflexivity|]. intros [E _]. discriminate E.
    + reflexivity.
Defined.

(** ** Node::isEnabled *)

Lemma isEnabled_chain (h : gmap positive Node) (a : addr) (l : list addr)
    (fuel : nat) :
  ancestors h a l -> (length l < fuel)%nat ->
  isEnabled fuel h a = Val (ownEnabled h a && forallb (ownEnabled h) l).
Proof.
  intros Hanc. revert fuel.
  induction Hanc as [a n Hn Hp | a n p l Hn Hp Hanc IH]; intros fuel Hlen.
  - destruct fuel as [|fuel]; [simpl in Hlen; lia|].
    simpl. unfold ownEnabled. rewrite Hn, Hp.
    by destruct (m_isEnabled n).
  - destruct fuel as [|fuel]; [simpl in Hlen; lia|].
    simpl in *. unfold ownEnabled at 1. rewrite Hn, Hp.
    destruct (m_isEnabled n); simpl; [|done].
    apply IH. lia.
Qed.

Lemma ancestors_suffix (h : gmap positive Node) (a : addr) (l : list addr)
    (p : addr) :
  ancestors h a l -> p ∈ l ->
  exists l1 l2, l = l1 ++ p :: l2 /\ ancestors h p l2.
Proof.
  induction 1 as [a n Hn Hp | a n q l Hn Hp Hanc IH]; intros Hin.
  - by apply elem_of_nil in Hin.
  - apply elem_of_cons in Hin as [->|Hin].
    + by exists [], l.
    + destruct (IH Hin) as (l1 & l2 & -> & H2).
      by exists (q :: l1), l2.
Qed.

Lemma ancestors_set_isEnabled (h : gmap positive Node) (q : addr) (nq : Node)
    (b : bool) (a : addr) (l : list addr) :
  h !! q = Some nq -> ancestors h a l ->
  ancestors (<[q := set_isEnabled b nq]> h) a l.
Proof.
  intros Hq. induction 1 as [a n Hn Hp | a n p l Hn Hp Hanc IH].
  - destruct (decide (q = a)) as [->|Hne].
    + apply ancestors_root with (set_isEnabled b nq).
      * apply lookup_insert_eq.
      * simpl. congruence.
    + apply ancestors_root with n; [by rewrite lookup_insert_ne|done].
  - destruct (decide (q = a)) as [->|Hne].
    + apply ancestors_step with (set_isEnabled b nq); [apply lookup_insert_eq| |done].
      simpl. congruence.
    + apply ancestors_step with n; [by rewrite lookup_insert_ne|done|done].
Qed.

(** C9.  With the parent chain [l] of a node at hand and fuel to walk it,
    [isEnabled] answers, and it answers [true] exactly when the node's own
    flag is set and [isEnabled] is true of every ancestor; after
    [setEnabled(false)] on the node or on any ancestor it answers [false]. *)
Theorem isEnabled_conjunctive (h : gmap positive Node) (a : addr)
    (l : list addr) (fuel : nat) :
  ancestors h a l -> (length l < fuel)%nat ->
  (exists b, isEnabled fuel h a = Val b) /\
  (isEnabled fuel h a = Val true <->
     ownEnabled h a = true /\ forall p, p ∈ l -> isEnabled fuel h p = Val true) /\
  (forall q t s', q ∈ a :: l ->
     setEnabled q false (mkState h t) = Val (tt, s') ->
     isEnabled fuel (heap s') a = Val false).
Proof.
  intros Hanc Hlen. split; [|split].
  - eexists. by apply isEnabled_chain.
  - rewrite (isEnabled_chain _ _ _ _ Hanc Hlen). split.
    + intros [= H]. apply andb_true_iff in H as [Hown Hall]. split; [done|].
      intros p Hp.
      destruct (ancestors_suffix _ _ _ _ Hanc Hp) as (l1 & l2 & -> & Hp2).
      rewrite (isEnabled_chain _ _ _ _ Hp2) by
        (rewrite length_app in Hlen; simpl in Hlen; lia).
      rewrite forallb_app in Hall. simpl in Hall.
      apply andb_true_iff in Hall as [_ Hall]. by rewrite Hall.
    + intros [Hown Hall]. rewrite Hown. simpl. f_equal.
      apply forallb_forall. intros p Hp. apply list_elem_of_In in Hp.
      specialize (Hall p Hp).
      destruct (ancestors_suffix _ _ _ _ Hanc Hp) as (l1 & l2 & -> & Hp2).
      rewrite (isEnabled_chain _ _ _ _ Hp2) in Hall by
        (rewrite length_app in Hlen; simpl in Hlen; lia).
      injection Hall as Hall. by apply andb_true_iff in Hall as [? _].
  - intros q t s' Hq Hrun.
    assert (Hqn : exists nq, h !! q = Some nq).
    { apply elem_of_cons in Hq as [->|Hq].
      - inversion Hanc; eauto.
      - destruct (ancestors_suffix _ _ _ _ Hanc Hq) as (? & ? & _ & H2).
        inversion H2; eauto. }
    destruct Hqn as [nq Hqn].
    assert (Hdis : ownEnabled (heap s') q = false /\ ancestors (heap s') a l).
    { unfold setEnabled in Hrun.
      rewrite (bind_Val _ _ _ _ _ (deref_Val _ (mkState h t) _ Hqn)) in Hrun.
      destruct (m_isEnabled nq) eqn:En; simpl in Hrun.
      - apply bind_inv in Hrun as (u & s1 & Hm & Hrun).
        rewrite (modify_Val _ _ (mkState h t) _ Hqn) in Hm.
        injection Hm as _ <-.
        unfold emitNodeUpdated in Hrun.
        apply bind_inv in Hrun as (n1 & s2 & Hd & Hrun).
        unfold deref in Hd. simpl in Hd. rewrite lookup_insert_eq in Hd.
        injection Hd as <- <-.
        assert (heap s' = <[q := set_isEnabled false nq]> h) as ->.
        { destruct (m_parentFolderNode (set_isEnabled false nq));
            unfold emit, ret in Hrun; by injection Hrun as <-. }
        split; [|by apply ancestors_set_isEnabled].
        unfold ownEnabled. by rewrite lookup_insert_eq.
      - injection Hrun as <-. simpl. split; [|done].
        unfold ownEnabled. by rewrite Hqn. }
    destruct Hdis as [Hoff Hanc'].
    rewrite (isEnabled_chain _ _ _ _ Hanc' Hlen).
    f_equal. apply elem_of_cons in Hq as [->|Hq].
    + by rewrite Hoff.
    + apply andb_false_iff. right.
      apply not_true_iff_false. intros Hall.
      rewrite forallb_forall in Hall.
      apply list_elem_of_In in Hq. specialize (Hall q Hq). congruence.
Qed.

Lemma isEnabled_conjunctive_witness :
  isEnabled 3 (heap small_project) 4 = Val true <->
    ownEnabled (heap small_project) 4 = true /\
    forall p, p ∈ [3; 1]%positive -> isEnabled 3 (heap small_project) p = Val true.
Proof.
  apply (isEnabled_conjunctive (heap small_project) 4 [3; 1]%positive 3).
  - eapply ancestors_step; [reflexivity|reflexivity|].
    eapply ancestors_step; [reflexivity|reflexivity|].
    eapply ancestors_root; reflexivity.
  - simpl. lia.
Defined.

(** ** Lists of pointers: sortedness, lower bound, insertion, erasure *)

Section sorted_lists.
Context {A : Type} (R : relation A).

Lemma StronglySorted_lookup_2 (l : list A) (i j : nat) (x y : A) :
  StronglySorted R l -> (i < j)%nat ->
  l !! i = Some x -> l !! j = Some y -> R x y.
Proof.
  intros Hs. revert i j. induction Hs as [|z l Hs IH Hall]; intros i j Hij Hi Hj.
  - by rewrite lookup_nil in Hi.
  - destruct i as [|i], j as [|j]; simpl in *; try lia.
    + injection Hi as ->. rewrite Forall_lookup in Hall. eauto.
    + eapply IH; [|done..]. lia.
Qed.

Lemma StronglySorted_take (l : list A) (n : nat) :
  StronglySorted R l -> StronglySorted R (take n l).
Proof.
  intros Hs. rewrite <- (take_drop n l) in Hs.
  by apply StronglySorted_app_1_l in Hs.
Qed.

Lemma StronglySorted_drop (l : list A) (n : nat) :
  StronglySorted R l -> StronglySorted R (drop n l).
Proof.
  intros Hs. rewrite <- (take_drop n l) in Hs.
  by apply StronglySorted_app_1_r in Hs.
Qed.

Lemma StronglySorted_delete (l : list A) (i : nat) :
  StronglySorted R l -> StronglySorted R (delete i l).
Proof.
  intros Hs. rewrite delete_take_drop.
  apply StronglySorted_app_2.
  - intros x1 x2 H1 H2.
    apply elem_of_take in H1 as (i1 & H1 & ?).
    apply list_elem_of_lookup in H2 as (i2 & H2).
    rewrite lookup_drop in H2.
    eapply (StronglySorted_lookup_2 l i1 (S i + i2)); [done|lia|done..].
  - by apply StronglySorted_take.
  - by apply StronglySorted_drop.
Qed.

Lemma StronglySorted_snoc (l : list A) (x : A) :
  StronglySorted R l -> Forall (fun y => R y x) l ->
  StronglySorted R (l ++ [x]).
Proof.
  intros Hs Hall. apply StronglySorted_app_2; [|done|].
  - intros x1 x2 H1 H2. apply list_elem_of_singleton in H2 as ->.
    rewrite Forall_forall in Hall. auto.
  - repeat constructor.
Qed.
End sorted_lists.

Lemma StronglySorted_le_last (l : list positive) (y : positive) :
  StronglySorted Pos.le l -> last l = Some y -> Forall (fun z => (z <= y)%positive) l.
Proof.
  intros Hs Hl. apply last_Some in Hl as [l' ->].
  apply Forall_app. split.
  - apply Forall_forall. intros z Hz.
    eapply StronglySorted_app_1_elem_of; [done|done|]. by apply list_elem_of_singleton.
  - constructor; [lia|constructor].
Qed.

Lemma lower_bound_loop_spec (fuel : nat) (l : list positive) (first count : nat)
    (x : positive) :
  StronglySorted Pos.le l -> (count <= fuel)%nat ->
  (first + count <= length l)%nat ->
  Forall (fun y => (y < x)%positive) (take first l) ->
  Forall (fun y => (x <= y)%positive) (drop (first + count) l) ->
  let i := lower_bound_loop fuel l first count x in
  (i <= length l)%nat /\
  Forall (fun y => (y < x)%positive) (take i l) /\
  Forall (fun y => (x <= y)%positive) (drop i l).
Proof.
  intros Hs. revert first count.
  induction fuel as [|fuel IH]; intros first count Hc Hlen Hlo Hhi;
    cbn [lower_bound_loop].
  - replace count with 0%nat in * by lia.
    rewrite Nat.add_0_r in Hhi. split; [lia|done].
  - destruct (count =? 0)%nat eqn:E.
    { apply Nat.eqb_eq in E as ->. rewrite Nat.add_0_r in Hhi. split; [lia|done]. }
    apply Nat.eqb_neq in E.
    assert (Hstep : (count / 2 < count)%nat) by (apply Nat.div_lt; lia).
    destruct (l !! (first + count / 2)%nat) as [y|] eqn:Hy.
    2:{ apply lookup_ge_None in Hy. lia. }
    destruct (y <? x)%positive eqn:Hyx.
    + apply Pos.ltb_lt in Hyx. apply IH; [lia|lia| |].
      * apply Forall_forall. intros z Hz.
        apply elem_of_take in Hz as (j & Hj & Hlt).
        destruct (decide (j = first + count / 2)%nat) as [->|Hne].
        { rewrite Hy in Hj. by injection Hj as <-. }
        assert ((z <= y)%positive).
        { eapply (StronglySorted_lookup_2 Pos.le l j (first + count / 2)); [done|lia|done..]. }
        lia.
      * replace (S (first + count / 2) + (count - S (count / 2)))%nat
          with (first + count)%nat by lia. done.
    + apply Pos.ltb_ge in Hyx. apply IH; [lia|lia|done|].
      apply Forall_forall. intros z Hz.
      apply list_elem_of_lookup in Hz as (j & Hj). rewrite lookup_drop in Hj.
      destruct j as [|j].
      { rewrite Nat.add_0_r, Hy in Hj. by injection Hj as <-. }
      assert ((y <= z)%positive).
      { eapply (StronglySorted_lookup_2 Pos.le l (first + count / 2)
                  (first + count / 2 + S j)); [done|lia|done..]. }
      lia.
Qed.

Lemma lower_bound_spec (l : list positive) (x : positive) :
  StronglySorted Pos.le l ->
  Forall (fun y => (y < x)%positive) (take (lower_bound l x) l) /\
  Forall (fun y => (x <= y)%positive) (drop (lower_bound l x) l).
Proof.
  intros Hs. unfold lower_bound.
  apply (lower_bound_loop_spec (length l) l 0 (length l) x Hs); [lia|lia|constructor|].
  simpl. rewrite drop_all. constructor.
Qed.

Lemma insert_node_sorted (l : list positive) (x : positive) :
  StronglySorted Pos.le l -> StronglySorted Pos.le (insert_node l x).
Proof.
  intros Hs. unfold insert_node.
  destruct (last l) as [y|] eqn:Hl.
  - destruct (y <? x)%positive eqn:Hyx.
    + apply Pos.ltb_lt in Hyx. apply StronglySorted_snoc; [done|].
      eapply Forall_impl; [by apply StronglySorted_le_last|].
      simpl. intros. lia.
    + destruct (lower_bound_spec l x Hs) as [Hlo Hhi].
      apply StronglySorted_app_2.
      * intros x1 x2 H1 H2. rewrite Forall_forall in Hlo, Hhi.
        specialize (Hlo _ H1).
        apply elem_of_cons in H2 as [->|H2]; [lia|].
        specialize (Hhi _ H2). lia.
      * by apply StronglySorted_take.
      * constructor; [by apply StronglySorted_drop|].
        eapply Forall_impl; [exact Hhi|]. simpl. intros. lia.
  - apply last_None in Hl as ->. simpl. repeat constructor.
Qed.

Lemma insert_node_Permutation (l : list positive) (x : positive) :
  insert_node l x ≡ₚ x :: l.
Proof.
  unfold insert_node. destruct (last l) as [y|].
  - destruct (y <? x)%positive.
    + by rewrite Permutation_app_comm.
    + rewrite <- Permutation_middle. by rewrite take_drop.
  - by rewrite Permutation_app_comm.
Qed.


Lemma filter_ext_elem_of {A} (P Q : A -> Prop) `{!forall x, Decision (P x)}
    `{!forall x, Decision (Q x)} (l : list A) :
  (forall x, x ∈ l -> P x <-> Q x) -> filter P l = filter Q l.
Proof.
  induction l as [|x l IH]; intros Hext; [done|].
  rewrite !filter_cons.
  rewrite IH by (intros y Hy; apply Hext; by right).
  destruct (decide (P x)) as [HP|HP], (decide (Q x)) as [HQ|HQ]; try done.
  - apply Hext in HP; [done|by left].
  - apply Hext in HQ; [done|by left].
Qed.

(** *** The search of the removal loops *)

Lemma seek_loop_spec (rest : list positive) (it : nat) (r : positive) :
  r ∈ rest ->
  exists k, seek_loop rest it r = Some (it + k)%nat /\ rest !! k = Some r.
Proof.
  revert it. induction rest as [|x rest IH]; intros it Hin.
  - by apply elem_of_nil in Hin.
  - simpl. destruct (decide (x = r)) as [->|Hne].
    + exists 0%nat. by rewrite Nat.add_0_r.
    + apply elem_of_cons in Hin as [->|Hin]; [done|].
      destruct (IH (S it) Hin) as (k & Hk & Hr).
      exists (S k). by rewrite Nat.add_succ_r.
Qed.

Lemma seek_found (cur : list positive) (it : nat) (r : positive) :
  r ∈ drop it cur ->
  exists j, seek cur it r = Some j /\ (it <= j)%nat /\ cur !! j = Some r.
Proof.
  intros Hin. unfold seek.
  destruct (seek_loop_spec _ it r Hin) as (k & Hk & Hr).
  exists (it + k)%nat. rewrite lookup_drop in Hr. split; [done|]. split; [lia|done].
Qed.

Lemma StronglySorted_lt_NoDup (l : list positive) :
  StronglySorted Pos.lt l -> NoDup l.
Proof.
  induction 1 as [|x l Hs IH Hall]; constructor; [|done].
  intros Hin. rewrite Forall_forall in Hall. specialize (Hall x Hin). lia.
Qed.

Lemma StronglySorted_le_lt (l : list positive) :
  StronglySorted Pos.le l -> NoDup l -> StronglySorted Pos.lt l.
Proof.
  induction 1 as [|x l Hs IH Hall]; intros Hnd; constructor.
  - apply IH. by apply NoDup_cons in Hnd as [_ ?].
  - apply NoDup_cons in Hnd as [Hx _].
    apply Forall_forall. intros y Hy. rewrite Forall_forall in Hall.
    specialize (Hall y Hy). assert (x <> y) by (intros ->; done). lia.
Qed.

Lemma StronglySorted_lt_le (l : list positive) :
  StronglySorted Pos.lt l -> StronglySorted Pos.le l.
Proof.
  induction 1 as [|x l Hs IH Hall]; constructor; [done|].
  eapply Forall_impl; [exact Hall|]. simpl. intros. lia.
Qed.

Lemma sort_ptr_Permutation (l : list positive) : sort_ptr l ≡ₚ l.
Proof. apply merge_sort_Permutation. Qed.

Lemma sort_ptr_elem_of (l : list positive) (x : positive) :
  x ∈ sort_ptr l <-> x ∈ l.
Proof. by rewrite sort_ptr_Permutation. Qed.

Lemma sort_ptr_sorted (l : list positive) :
  NoDup l -> StronglySorted Pos.lt (sort_ptr l).
Proof.
  intros Hnd. apply StronglySorted_le_lt.
  - unfold sort_ptr. apply StronglySorted_merge_sort; apply _.
  - by rewrite sort_ptr_Permutation.
Qed.

Lemma later_after_erase (cur : list positive) (j : nat) (r r' : positive) :
  StronglySorted Pos.lt cur -> cur !! j = Some r -> r' ∈ cur ->
  (r < r')%positive -> r' ∈ drop j (delete j cur).
Proof.
  intros Hs Hj Hin Hlt.
  apply list_elem_of_lookup in Hin as (i & Hi).
  assert (j < i)%nat.
  { destruct (decide (j < i)%nat) as [|Hge]; [done|].
    destruct (decide (i = j)) as [->|Hne].
    - rewrite Hj in Hi. injection Hi as ->. lia.
    - pose proof (StronglySorted_lookup_2 Pos.lt cur i j r' r Hs
                    ltac:(lia) Hi Hj). lia. }
  apply list_elem_of_lookup. exists (i - S j)%nat.
  rewrite lookup_drop, list_lookup_delete_ge by lia.
  rewrite <- Hi. f_equal. lia.
Qed.

Lemma list_difference_notin (l : list positive) (r : positive)
    (rs : list positive) :
  r ∉ l -> list_difference l (r :: rs) = list_difference l rs.
Proof.
  induction l as [|x l IH]; intros Hr; [done|].
  apply not_elem_of_cons in Hr as [Hne Hr]. simpl.
  rewrite IH by done.
  destruct (decide_rel elem_of x (r :: rs)) as [H1|H1],
           (decide_rel elem_of x rs) as [H2|H2]; try done.
  - apply elem_of_cons in H1 as [->|?]; done.
  - exfalso. apply H1. by right.
Qed.

Lemma list_difference_delete (cur : list positive) (j : nat) (r : positive)
    (rs : list positive) :
  NoDup cur -> cur !! j = Some r ->
  list_difference (delete j cur) rs = list_difference cur (r :: rs).
Proof.
  revert j. induction cur as [|x cur IH]; intros j Hnd Hj; [done|].
  apply NoDup_cons in Hnd as [Hx Hnd].
  destruct j as [|j]; simpl in *.
  - injection Hj as ->.
    destruct (decide_rel elem_of r (r :: rs)) as [H1|H1].
    + by rewrite list_difference_notin.
    + exfalso. apply H1. by left.
  - rewrite (IH j Hnd Hj).
    assert (x <> r).
    { intros ->. apply Hx. by apply list_elem_of_lookup_2 in Hj. }
    destruct (decide_rel elem_of x rs) as [H2|H2],
             (decide_rel elem_of x (r :: rs)) as [H1|H1]; try done.
    + exfalso. apply H1. by right.
    + apply elem_of_cons in H1 as [?|?]; done.
Qed.

Lemma list_difference_ext (l k k' : list positive) :
  (forall x, x ∈ k <-> x ∈ k') -> list_difference l k = list_difference l k'.
Proof.
  intros H. induction l as [|x l IH]; [done|]. simpl. rewrite IH.
  destruct (decide_rel elem_of x k) as [H1|H1],
           (decide_rel elem_of x k') as [H2|H2]; try done.
  - by apply H in H1.
  - by apply H in H2.
Qed.

Lemma list_difference_nil_r (l : list positive) : list_difference l [] = l.
Proof.
  induction l as [|x l IH]; [done|]. simpl. rewrite IH.
  destruct (decide_rel elem_of x []) as [H1|H1]; [|done].
  by apply elem_of_nil in H1.
Qed.

Lemma NoDup_flat_map_elem {A B} (f : A -> list B) (l : list A) (x : A) :
  NoDup (flat_map f l) -> x ∈ l -> NoDup (f x).
Proof.
  induction l as [|z l IH]; intros Hnd Hx; [by apply elem_of_nil in Hx|].
  simpl in Hnd. apply NoDup_app in Hnd as (Hz & _ & Hrest).
  apply elem_of_cons in Hx as [->|Hx]; auto.
Qed.

Lemma elem_of_flat_map {A B} (f : A -> list B) (l : list A) (b : B) :
  b ∈ flat_map f l <-> exists x, x ∈ l /\ b ∈ f x.
Proof.
  rewrite list_elem_of_In, in_flat_map. split.
  - intros (x & Hx & Hb). exists x. by rewrite !list_elem_of_In.
  - intros (x & Hx & Hb). exists x. by rewrite <- !list_elem_of_In.
Qed.

Lemma NoDup_flat_map_disjoint {A B} (f : A -> list B) (l : list A) (x y : A)
    (a : B) :
  NoDup (flat_map f l) -> x ∈ l -> y ∈ l -> x <> y -> a ∈ f x -> a ∈ f y -> False.
Proof.
  induction l as [|z l IH]; intros Hnd Hx Hy Hne Hax Hay;
    [by apply elem_of_nil in Hx|].
  simpl in Hnd. apply NoDup_app in Hnd as (Hz & Hdisj & Hrest).
  apply elem_of_cons in Hx as [->|Hx]; apply elem_of_cons in Hy as [->|Hy].
  - done.
  - apply (Hdisj a Hax). apply elem_of_flat_map. eauto.
  - apply (Hdisj a Hay). apply elem_of_flat_map. eauto.
  - by apply IH.
Qed.

Lemma NoDup_flat_map_sub {A B} (f : A -> list B) (l k : list A) :
  NoDup (flat_map f l) -> NoDup k -> (forall x, x ∈ k -> x ∈ l) ->
  NoDup (flat_map f k).
Proof.
  intros Hnd. induction k as [|x k IH]; intros Hk Hsub; [constructor|].
  apply NoDup_cons in Hk as [Hx Hk]. simpl. apply NoDup_app. split; [|split].
  - apply (NoDup_flat_map_elem f l); [done|]. apply Hsub. by left.
  - intros a Hax Hak. apply elem_of_flat_map in Hak as (y & Hy & Hay).
    apply (NoDup_flat_map_disjoint f l x y a); try done.
    + apply Hsub. by left.
    + apply Hsub. by right.
    + intros ->. done.
  - apply IH; [done|]. intros y Hy. apply Hsub. by right.
Qed.

Lemma StronglySorted_filter {A} (R : relation A) (P : A -> Prop)
    `{!forall x, Decision (P x)} (l : list A) :
  StronglySorted R l -> StronglySorted R (filter P l).
Proof.
  induction 1 as [|x l Hs IH Hall]; [constructor|].
  rewrite filter_cons. destruct (decide (P x)); [|done].
  constructor; [done|]. apply Forall_forall. intros y Hy.
  apply list_elem_of_filter in Hy as [_ Hy]. rewrite Forall_forall in Hall. auto.
Qed.

Lemma flat_map_nil_const {A B} (l : list A) :
  flat_map (fun _ : A => @nil B) l = [].
Proof. by induction l. Qed.

Lemma non_null_map_bool {A} (b : A -> bool) (r : A -> positive) (l : list A) :
  non_null (map (fun x => if b x then None else Some (r x)) l)
    = map r (filter (fun x => b x = false) l).
Proof.
  induction l as [|x l IH]; [done|]. simpl. rewrite filter_cons.
  unfold non_null in *. simpl. destruct (b x) eqn:E.
  - rewrite decide_False by done. simpl. apply IH.
  - rewrite decide_True by done. simpl. by rewrite IH.
Qed.

Lemma non_null_map_decide {A} (P : A -> Prop) `{!forall x, Decision (P x)}
    (r : A -> positive) (l : list A) :
  non_null (map (fun x => if decide (P x) then None else Some (r x)) l)
    = map r (filter (fun x => ~ P x) l).
Proof.
  induction l as [|x l IH]; [done|]. simpl. rewrite filter_cons.
  unfold non_null in *. simpl. destruct (decide (P x)) as [HP|HP].
  - rewrite decide_False by tauto. simpl. apply IH.
  - rewrite decide_True by done. simpl. by rewrite IH.
Qed.

Lemma list_difference_filter_not (P : positive -> Prop)
    `{!forall x, Decision (P x)} (l : list positive) :
  list_difference l (filter (fun x => ~ P x) l) = filter P l.
Proof.
  assert (Hgen : forall k, (forall x, x ∈ l -> x ∈ k) ->
            list_difference l (filter (fun x => ~ P x) k) = filter P l).
  { induction l as [|x l IH]; intros k Hsub; [done|].
    simpl. rewrite filter_cons.
    rewrite IH by (intros y Hy; apply Hsub; by right).
    destruct (decide_rel elem_of x (filter (fun x => ~ P x) k)) as [Hin|Hnin].
    - apply list_elem_of_filter in Hin as [HP _]. by rewrite decide_False.
    - destruct (decide (P x)) as [HP|HP]; [done|].
      exfalso. apply Hnin. apply list_elem_of_filter. split; [done|].
      apply Hsub. by left. }
  by apply Hgen.
Qed.

Lemma length_filter_eq {A} (P : A -> Prop) `{!forall x, Decision (P x)}
    (l : list A) :
  length (filter P l) = length l <-> Forall P l.
Proof.
  induction l as [|x l IH]; [by split; [constructor|]|].
  rewrite filter_cons, Forall_cons.
  pose proof (length_filter P l) as Hle.
  destruct (decide (P x)) as [HP|HP]; simpl.
  - rewrite <- IH. split; [intros [= ?]; by split|intros [_ ->]; done].
  - split; [lia|tauto].
Qed.

Lemma map_filter_list_difference {A} (r : A -> positive) (l : list A)
    (k : list positive) :
  map r (filter (fun c => r c ∉ k) l) = list_difference (map r l) k.
Proof.
  induction l as [|x l IH]; [done|]. simpl. rewrite filter_cons.
  destruct (decide_rel elem_of (r x) k) as [Hin|Hnin].
  - by rewrite decide_False by tauto.
  - rewrite decide_True by done. simpl. by rewrite IH.
Qed.

Lemma filter_list_difference (P : positive -> Prop)
    `{!forall x, Decision (P x)} (l k : list positive) :
  list_difference (filter P l) k = filter P (list_difference l k).
Proof.
  induction l as [|x l IH]; [done|]. simpl. rewrite filter_cons.
  destruct (decide (P x)) as [HP|HP]; simpl;
    destruct (decide_rel elem_of x k) as [Hin|Hnin]; try done.
  - by rewrite filter_cons, decide_True, IH.
  - by rewrite filter_cons, decide_False.
Qed.

Lemma map_filter_comm {A B} (r : A -> B) (P : B -> Prop)
    `{!forall x, Decision (P x)} (l : list A) :
  filter P (map r l) = map r (filter (fun c => P (r c)) l).
Proof.
  induction l as [|x l IH]; [done|]. simpl. rewrite !filter_cons.
  destruct (decide (P (r x))); simpl; by rewrite IH.
Qed.

Lemma filter_none {A} (P : A -> Prop) `{!forall x, Decision (P x)} (l : list A) :
  (forall x, x ∈ l -> ~ P x) -> filter P l = [].
Proof.
  induction l as [|x l IH]; intros Hnone; [done|].
  rewrite filter_cons, decide_False by (apply Hnone; by left).
  apply IH. intros y Hy. apply Hnone. by right.
Qed.

Lemma filter_all {A} (P : A -> Prop) `{!forall x, Decision (P x)} (l : list A) :
  (forall x, x ∈ l -> P x) -> filter P l = l.
Proof.
  induction l as [|x l IH]; intros Hall; [done|].
  rewrite filter_cons, decide_True by (apply Hall; by left).
  f_equal. apply IH. intros y Hy. apply Hall. by right.
Qed.


(** ** Inversion of the primitive computations *)

Lemma ret_inv {A} (a b : A) s s' : ret a s = Val (b, s') -> b = a /\ s' = s.
Proof. unfold ret. by intros [= -> ->]. Qed.

Lemma deref_inv p s n s' :
  deref p s = Val (n, s') -> heap s !! p = Some n /\ s' = s.
Proof. unfold deref. destruct (heap s !! p); by intros [= -> ->]. Qed.

Lemma modify_inv p f s u s' :
  modify p f s = Val (u, s') ->
  exists n, heap s !! p = Some n /\
            s' = mkState (<[p := f n]> (heap s)) (trace s).
Proof. unfold modify. destruct (heap s !! p) as [n|]; [|done]. intros [= _ <-]. eauto. Qed.

Lemma free_inv p s u s' :
  free p s = Val (u, s') ->
  is_Some (heap s !! p) /\ s' = mkState (delete p (heap s)) (trace s).
Proof. unfold free. destruct (heap s !! p) as [n|]; [|done]. intros [= _ <-]. eauto. Qed.

Lemma free_Val p s n :
  heap s !! p = Some n -> free p s = Val (tt, mkState (delete p (heap s)) (trace s)).
Proof. intros H. unfold free. by rewrite H. Qed.

Lemma emit_inv e s u s' :
  emit e s = Val (u, s') -> s' = mkState (heap s) (trace s ++ [e]).
Proof. unfold emit. by intros [= _ <-]. Qed.

Lemma read_inv {A} (f : gmap positive Node -> result A) s a s' :
  read f s = Val (a, s') -> f (heap s) = Val a /\ s' = s.
Proof. unfold read. destruct (f (heap s)); by intros [= -> ->]. Qed.

Lemma read_Val {A} (f : gmap positive Node -> result A) s a :
  f (heap s) = Val a -> read f s = Val (a, s).
Proof. intros H. unfold read. by rewrite H. Qed.

Lemma Q_ASSERT_inv b s u s' : Q_ASSERT b s = Val (u, s') -> b = true /\ s' = s.
Proof. destruct b; [by intros [= _ <-]|done]. Qed.

Lemma QTC_ASSERT_qDebug b s : QTC_ASSERT b qDebug s = Val (tt, s).
Proof. by destruct b. Qed.

Lemma forM__cons {A} (x : A) (l : list A) (f : A -> M unit) :
  forM_ (x :: l) f = (f x ;; forM_ l f).
Proof. done. Qed.

Lemma foldM_cons {A S} (f : S -> A -> M S) (x : A) (l : list A) (st : S) :
  foldM f (x :: l) st = (let* st' := f st x in foldM f l st').
Proof. done. Qed.

Lemma mapM_cons {A B} (f : A -> M B) (x : A) (l : list A) :
  mapM f (x :: l) = (let* y := f x in let* ys := mapM f l in ret (y :: ys)).
Proof. done. Qed.

Lemma destroy_S (fuel : nat) (p : positive) :
  destroy (S fuel) p =
    (let* n := deref p in
     forM_ (m_folderNodes n) (destroy fuel) ;;
     forM_ (m_fileNodes n) (destroy fuel) ;;
     free p).
Proof. done. Qed.

Lemma ret_bind {A B} (a : A) (k : A -> M B) s : bind (ret a) k s = k a s.
Proof. done. Qed.

(** ** Partial correctness on the store *)

(** Whenever [c] returns from a store satisfying [P], the store it leaves
    satisfies [Q]. *)
Definition leads (P Q : gmap positive Node -> Prop) {A} (c : M A) : Prop :=
  forall s a s', P (heap s) -> c s = Val (a, s') -> Q (heap s').

Abbreviation preserves I c := (leads I I c).

Section leads.
Context (P : gmap positive Node -> Prop).

Lemma leads_weaken {A} (P' Q Q' : gmap positive Node -> Prop) (c : M A) :
  (forall h, P h -> P' h) -> (forall h, Q' h -> Q h) ->
  leads P' Q' c -> leads P Q c.
Proof. intros HP HQ Hc s a s' Hs H. apply HQ, (Hc s a s'); auto. Qed.

Lemma leads_ret {A} (a : A) : leads P P (ret a).
Proof. intros s b s' HI H. apply ret_inv in H as [_ ->]. done. Qed.

Lemma leads_raise {A} Q f : leads P Q (@raise A f).
Proof. intros s b s' HI H. discriminate. Qed.

Lemma leads_bind {A B} R Q (c : M A) (k : A -> M B) :
  leads P R c -> (forall a, leads R Q (k a)) -> leads P Q (bind c k).
Proof.
  intros Hc Hk s b s'' HI H.
  apply bind_inv in H as (a & s' & H1 & H2).
  apply (Hk a s' b s''); [|done]. by apply (Hc s a s').
Qed.

Lemma leads_deref {A} Q p (k : Node -> M A) :
  (forall n, leads (fun h => P h /\ h !! p = Some n) Q (k n)) ->
  leads P Q (bind (deref p) k).
Proof.
  intros Hk s b s'' HI H.
  apply bind_inv in H as (n & s' & H1 & H2).
  apply deref_inv in H1 as [Hp ->].
  by apply (Hk n s b s'').
Qed.

Lemma leads_deref_ret p : leads P P (deref p).
Proof. intros s b s' HI H. apply deref_inv in H as [_ ->]. done. Qed.

Lemma leads_read {A} (f : gmap positive Node -> result A) : leads P P (read f).
Proof. intros s b s' HI H. apply read_inv in H as [_ ->]. done. Qed.

Lemma leads_emit e : leads P P (emit e).
Proof. intros s b s' HI H. apply emit_inv in H as ->. done. Qed.

Lemma leads_Q_ASSERT b : leads P P (Q_ASSERT b).
Proof. intros s u s' HI H. apply Q_ASSERT_inv in H as [_ ->]. done. Qed.

Lemma leads_QTC_ASSERT b : leads P P (QTC_ASSERT b qDebug).
Proof. intros s u s' HI H. rewrite QTC_ASSERT_qDebug in H. injection H as _ <-. done. Qed.

Lemma leads_forM_ {A} (l : list A) (f : A -> M unit) :
  (forall x, leads P P (f x)) -> leads P P (forM_ l f).
Proof.
  intros Hf. induction l as [|x l IH]; simpl.
  - apply leads_ret.
  - eapply leads_bind; eauto.
Qed.

Lemma leads_foldM {A S} (f : S -> A -> M S) (l : list A) (st : S) :
  (forall st x, leads P P (f st x)) -> leads P P (foldM f l st).
Proof.
  intros Hf. revert st. induction l as [|x l IH]; intros st; simpl.
  - apply leads_ret.
  - eapply leads_bind; eauto.
Qed.

Lemma leads_mapM {A B} (f : A -> M B) (l : list A) :
  (forall x, leads P P (f x)) -> leads P P (mapM f l).
Proof.
  intros Hf. induction l as [|x l IH]; simpl.
  - apply leads_ret.
  - eapply leads_bind; [eauto|]. intros y.
    eapply leads_bind; [eauto|]. intros ys. apply leads_ret.
Qed.

Lemma leads_modify Q p (f : Node -> Node) :
  (forall h n, P h -> h !! p = Some n -> Q (<[p := f n]> h)) ->
  leads P Q (modify p f).
Proof.
  intros Hf s u s' HI H. apply modify_inv in H as (n & Hp & ->). simpl. eauto.
Qed.

Lemma leads_free p :
  (forall h, P h -> P (delete p h)) -> leads P P (free p).
Proof. intros Hd s u s' HI H. apply free_inv in H as [_ ->]. simpl. eauto. Qed.

Lemma leads_destroy fuel p :
  (forall h q, P h -> P (delete q h)) -> leads P P (destroy fuel p).
Proof.
  intros Hd. revert p. induction fuel as [|fuel IH]; intros p; simpl.
  - apply leads_raise.
  - apply leads_bind with P; [apply leads_deref_ret|]. intros n.
    apply leads_bind with P; [by apply leads_forM_|]. intros _.
    apply leads_bind with P; [by apply leads_forM_|]. intros _.
    apply leads_free. auto.
Qed.
End leads.

(** ** managingProject *)

Lemma ancestors_alive (h : gmap positive Node) (a : positive) (l : list positive) :
  ancestors h a l -> is_Some (h !! a).
Proof. inversion 1; eauto. Qed.

Lemma ancestors_all_alive (h : gmap positive Node) (a : positive)
    (l : list positive) :
  ancestors h a l -> forall y, y ∈ a :: l -> is_Some (h !! y).
Proof.
  induction 1 as [a na Ha _|a na q l Ha _ _ IH].
  - intros y ->%list_elem_of_singleton. eauto.
  - intros y [->|Hy]%elem_of_cons; [eauto|by apply IH].
Qed.

Lemma isProjectAt_skeleton (h h' : gmap positive Node) (a : positive) :
  skeleton h' a = skeleton h a -> isProjectAt h' a = isProjectAt h a.
Proof.
  unfold skeleton, isProjectAt, asProjectNode.
  destruct (h' !! a), (h !! a); simpl; try done.
  by intros [= -> _ _].
Qed.

Lemma ancestors_frame (h h' : gmap positive Node) (a : positive)
    (l : list positive) :
  ancestors h a l ->
  (forall x, x ∈ a :: l -> skeleton h' x = skeleton h x) ->
  ancestors h' a l.
Proof.
  induction 1 as [a n Hn Hp | a n p l Hn Hp Hanc IH]; intros Hsk.
  - pose proof (Hsk a ltac:(by left)) as Ha. unfold skeleton in Ha.
    rewrite Hn in Ha. destruct (h' !! a) as [n'|] eqn:Hn'; [|done].
    simpl in Ha. injection Ha as _ Ha _.
    apply ancestors_root with n'; [done|congruence].
  - pose proof (Hsk a ltac:(by left)) as Ha. unfold skeleton in Ha.
    rewrite Hn in Ha. destruct (h' !! a) as [n'|] eqn:Hn'; [|done].
    simpl in Ha. injection Ha as _ Ha _.
    apply ancestors_step with n'; [done|congruence|].
    apply IH. intros x Hx. apply Hsk. by right.
Qed.

Lemma parentProjectNode_chain (h : gmap positive Node) (a : positive)
    (l : list positive) (fuel : nat) :
  ancestors h a l -> (length l < fuel)%nat ->
  parentProjectNode fuel h a
    = Val (head (filter (fun p => isProjectAt h p = true) l)).
Proof.
  intros Hanc. revert fuel.
  induction Hanc as [a n Hn Hp | a n p l Hn Hp Hanc IH]; intros fuel Hlen.
  - destruct fuel as [|fuel]; [simpl in Hlen; lia|].
    simpl. by rewrite Hn, Hp.
  - destruct fuel as [|fuel]; [simpl in Hlen; lia|].
    simpl in *. rewrite Hn, Hp.
    destruct (ancestors_alive _ _ _ Hanc) as [np Hnp]. rewrite Hnp.
    assert (Hproj : isProjectAt h p = asProjectNode np)
      by (unfold isProjectAt; by rewrite Hnp).
    rewrite filter_cons.
    destruct (asProjectNode np) eqn:E.
    + by rewrite decide_True.
    + rewrite decide_False by congruence. apply IH. lia.
Qed.

Lemma managingProject_managed (h : gmap positive Node) (a : positive)
    (l : list positive) (fuel : nat) :
  managed h a l -> (length l < fuel)%nat ->
  exists pn, managingProject fuel h a = Val (Some pn).
Proof.
  intros (Hanc & (n & Hn & Hns) & Hex) Hlen.
  unfold managingProject. rewrite Hn.
  unfold asSessionNode. rewrite bool_decide_eq_false_2 by done.
  rewrite (parentProjectNode_chain _ _ _ _ Hanc Hlen).
  destruct (head (filter _ l)) as [pn|] eqn:Hhead; [eauto|].
  apply head_None in Hhead.
  apply Exists_cons in Hex as [Ha|Hex].
  - unfold isProjectAt in Ha. rewrite Hn in Ha. rewrite Ha. eauto.
  - apply Exists_exists in Hex as (p & Hp & Hproj).
    assert (p ∈ filter (fun p => isProjectAt h p = true) l)
      by (by apply list_elem_of_filter).
    rewrite Hhead in H. by apply elem_of_nil in H.
Qed.

Lemma managed_frame (h h' : gmap positive Node) (a : positive)
    (l : list positive) :
  managed h a l ->
  (forall x, x ∈ a :: l -> skeleton h' x = skeleton h x) ->
  managed h' a l.
Proof.
  intros (Hanc & (n & Hn & Hns) & Hex) Hsk. split; [|split].
  - by apply (ancestors_frame h).
  - pose proof (Hsk a ltac:(by left)) as Ha. unfold skeleton in Ha.
    rewrite Hn in Ha. destruct (h' !! a) as [n'|]; [|done].
    simpl in Ha. injection Ha as Ha _ _. exists n'. split; [done|congruence].
  - apply Exists_exists in Hex as (p & Hp & Hproj).
    apply Exists_exists. exists p. split; [done|].
    by rewrite (isProjectAt_skeleton h h') by auto.
Qed.

(** A child of a managed folder is managed. *)
Lemma managed_child (h : gmap positive Node) (a c : positive)
    (l : list positive) (nc : Node) :
  managed h a l -> h !! c = Some nc ->
  m_parentFolderNode nc = Some a -> m_nodeType nc <> SessionNodeType ->
  managed h c (a :: l).
Proof.
  intros (Hanc & Hn & Hex) Hc Hpar Hns. split; [|split].
  - by apply ancestors_step with nc.
  - eauto.
  - by apply Exists_cons_tl.
Qed.

Lemma Q_ASSERT_managed (fuel : nat) (self : positive) (l : list positive)
    (s : state) {A} (k : M A) :
  managed (heap s) self l -> (length l < fuel)%nat ->
  (let* pn := read (fun h => managingProject fuel h self) in
   Q_ASSERT (is_some pn) ;; k) s = k s.
Proof.
  intros Hm Hlen.
  destruct (managingProject_managed _ _ _ _ Hm Hlen) as [pn Hpn].
  rewrite (bind_Val _ _ _ _ _ (read_Val _ s _ Hpn)). done.
Qed.

(** ** The order of the child collections *)

Lemma sorted_by_address_delete h q :
  sorted_by_address h -> sorted_by_address (delete q h).
Proof.
  intros HI a n Ha. apply lookup_delete_Some in Ha as [_ Ha]. by apply (HI a).
Qed.

Lemma sorted_by_address_insert h p n :
  sorted_by_address h ->
  StronglySorted Pos.le (m_fileNodes n) ->
  StronglySorted Pos.le (m_folderNodes n) ->
  sorted_by_address (<[p := n]> h).
Proof.
  intros HI Hf Hd a na Ha.
  apply lookup_insert_Some in Ha as [[_ <-]|[_ Ha]]; [done|by apply (HI a)].
Qed.

Lemma sorted_by_address_set_parent p q :
  preserves sorted_by_address (modify p (set_parentFolderNode q)).
Proof.
  apply leads_modify. intros h' n HI Hn.
  destruct (HI _ _ Hn). by apply sorted_by_address_insert.
Qed.

Ltac leads_step :=
  first
    [ apply leads_ret | apply leads_raise | apply leads_emit | apply leads_read
    | apply leads_Q_ASSERT | apply leads_QTC_ASSERT
    | apply sorted_by_address_set_parent
    | apply leads_destroy; apply sorted_by_address_delete
    | eapply leads_bind; [solve [leads_step]|]; intros ? ].

Lemma addFileNodes_sorted fuel self files :
  preserves sorted_by_address (addFileNodes fuel self files).
Proof.
  unfold addFileNodes. repeat leads_step.
  destruct (is_nil files); repeat leads_step.
  eapply leads_bind; [|intros; leads_step].
  apply leads_forM_. intros file.
  apply leads_bind with sorted_by_address; [apply leads_deref_ret|]; intros f.
  repeat leads_step.
  apply leads_deref. intros n. apply leads_modify.
  intros h n' [HI Hn] Hn'. assert (n' = n) as -> by congruence.
  destruct (HI _ _ Hn). apply sorted_by_address_insert; [done| |done].
  by apply insert_node_sorted.
Qed.

Lemma addFolderNodes_sorted fuel self subFolders :
  preserves sorted_by_address (addFolderNodes fuel self subFolders).
Proof.
  unfold addFolderNodes. repeat leads_step.
  destruct (is_nil subFolders); repeat leads_step.
  eapply leads_bind; [|intros; leads_step].
  apply leads_forM_. intros folder.
  apply leads_bind with sorted_by_address; [apply leads_deref_ret|]; intros f.
  repeat leads_step.
  apply leads_deref. intros n.
  apply leads_bind with sorted_by_address.
  - apply leads_modify.
    intros h n' [HI Hn] Hn'. assert (n' = n) as -> by congruence.
    destruct (HI _ _ Hn). apply sorted_by_address_insert; [done|done|].
    by apply insert_node_sorted.
  - intros _. apply leads_bind with sorted_by_address; [apply leads_deref_ret|].
    intros f'. leads_step.
Qed.

Lemma removeFileNodes_sorted fuel self files :
  preserves sorted_by_address (removeFileNodes fuel self files).
Proof.
  unfold removeFileNodes. repeat leads_step.
  destruct (is_nil files); repeat leads_step.
  eapply leads_bind; [|intros; leads_step].
  apply leads_foldM. intros filesIter target. unfold removeFileNodes_step.
  apply leads_bind with sorted_by_address; [apply leads_deref_ret|]; intros n.
  destruct (seek _ _ _) as [it|]; [|leads_step].
  repeat leads_step.
  apply leads_deref. intros n'.
  eapply leads_bind; [|intros; leads_step].
  apply leads_modify.
  intros h n'' [HI Hn] Hn'. assert (n'' = n') as -> by congruence.
  destruct (HI _ _ Hn). apply sorted_by_address_insert; [done| |done].
  by apply StronglySorted_delete.
Qed.

Lemma removeFolderNodes_sorted fuel self subFolders :
  preserves sorted_by_address (removeFolderNodes fuel self subFolders).
Proof.
  unfold removeFolderNodes. repeat leads_step.
  destruct (is_nil subFolders); repeat leads_step.
  eapply leads_bind; [|intros; leads_step].
  apply leads_foldM. intros folderIter target. unfold removeFolderNodes_step.
  apply leads_bind with sorted_by_address; [apply leads_deref_ret|]; intros t.
  repeat leads_step.
  apply leads_bind with sorted_by_address; [apply leads_deref_ret|]; intros n.
  destruct (seek _ _ _) as [it|]; [|leads_step].
  repeat leads_step.
  apply leads_deref. intros n'.
  eapply leads_bind; [|intros; leads_step].
  apply leads_modify.
  intros h n'' [HI Hn] Hn'. assert (n'' = n') as -> by congruence.
  destruct (HI _ _ Hn). apply sorted_by_address_insert; [done|done|].
  by apply StronglySorted_delete.
Qed.

(** C5, as the code has it.  The child collections are kept in ascending
    order of node address, which is the order the insertion searches by:
    whatever sequence of [addFileNodes], [removeFileNodes], [addFolderNodes]
    and [removeFolderNodes] runs to its end from a store whose collections
    ascend by address leaves a store whose collections ascend by address. *)
Theorem sorted_by_address_invariant (fuel : nat) (ops : list FolderOp)
    (s s' : state) :
  sorted_by_address (heap s) ->
  run_ops fuel ops s = Val (tt, s') ->
  sorted_by_address (heap s').
Proof.
  intros HI Hrun.
  assert (H : preserves sorted_by_address (run_ops fuel ops)).
  { apply leads_forM_. intros [self l|self l|self l|self l]; simpl.
    - apply addFileNodes_sorted.
    - apply removeFileNodes_sorted.
    - apply addFolderNodes_sorted.
    - apply removeFolderNodes_sorted. }
  exact (H s tt s' HI Hrun).
Qed.

Lemma sorted_by_address_invariant_witness :
  exists s',
    run_ops 2 [OpAddFileNodes 1 [2; 3]]%positive two_loose_files = Val (tt, s') /\
    sorted_by_address (heap s').
Proof.
  eexists. split; [vm_compute; reflexivity|].
  eapply (sorted_by_address_invariant 2 [OpAddFileNodes 1 [2; 3]]%positive
            two_loose_files).
  - apply (bool_decide_unpack _). vm_compute. exact I.
  - vm_compute. reflexivity.
Defined.

(** C5, as the spec has it, fails: a project is given the file nodes at
    addresses 2 and 3, of paths [/p/b.cpp] and [/p/a.cpp]; its files then
    are [2; 3], which descends by path. *)
Lemma fileNodes_not_sorted_by_path :
  exists s',
    run_ops 2 [OpAddFileNodes 1 [2; 3]]%positive two_loose_files = Val (tt, s') /\
    fileNodes (heap s') 1 = [2; 3]%positive /\
    ~ (sorted_by_path (heap s') (fileNodes (heap s') 1) /\
       sorted_by_folder_order (heap s') (folderNodes (heap s') 1)).
Proof.
  eexists. split; [vm_compute; reflexivity|]. split; [vm_compute; reflexivity|].
  intros [H _]. apply (bool_decide_pack _) in H. vm_compute in H. exact H.
Qed.

(** The folders are not kept in the composite folder order either: a
    project is given the folders at addresses 2 and 3, named [/p/b] and
    [/p/a], alike in class and priority; its folders then are [2; 3], and
    the second is before the first by display name. *)
Example folderNodes_not_sorted_by_folder_order :
  exists s',
    run_ops 2 [OpAddFolderNodes 1 [2; 3]]%positive two_loose_folders
      = Val (tt, s') /\
    folderNodes (heap s') 1 = [2; 3]%positive /\
    sorted_by_address (heap s') /\
    ~ sorted_by_folder_order (heap s') (folderNodes (heap s') 1).
Proof.
  eexists. split; [vm_compute; reflexivity|]. split; [vm_compute; reflexivity|].
  split; [apply (bool_decide_unpack _); vm_compute; exact I|].
  intros H. vm_compute in H.
  apply StronglySorted_cons in H as [H _].
  apply Forall_cons in H as [H _]. vm_compute in H. discriminate.
Qed.

(** ** Trees in the store: induction, deletion, framing *)

Lemma tree_ind (P : tree -> Prop) :
  (forall a files folders, Forall P folders -> P (Tree a files folders)) ->
  forall t, P t.
Proof.
  intros H. fix IH 1. intros [a files folders]. apply H.
  induction folders as [|c folders IHf]; constructor; [apply IH|exact IHf].
Qed.

Lemma lookup_delete_all (l : list positive) (h : gmap positive Node) (a : positive) :
  delete_all l h !! a = if decide (a ∈ l) then None else h !! a.
Proof.
  unfold delete_all. revert h. induction l as [|x l IH]; intros h; simpl.
  - destruct (decide (a ∈ [])) as [Hin|]; [by apply elem_of_nil in Hin|done].
  - rewrite IH. destruct (decide (a ∈ l)) as [Hin|Hnin].
    + rewrite decide_True; [done|by right].
    + destruct (decide (a = x)) as [->|Hne].
      * rewrite lookup_delete_eq. rewrite decide_True; [done|by left].
      * rewrite lookup_delete_ne by done.
        rewrite decide_False; [done|]. intros Hin.
        apply elem_of_cons in Hin as [?|?]; done.
Qed.

Lemma delete_all_app (l1 l2 : list positive) (h : gmap positive Node) :
  delete_all (l1 ++ l2) h = delete_all l2 (delete_all l1 h).
Proof. unfold delete_all. apply foldl_app. Qed.

Lemma delete_all_nil (h : gmap positive Node) : delete_all [] h = h.
Proof. done. Qed.

Lemma delete_all_ext (l1 l2 : list positive) (h : gmap positive Node) :
  (forall a, a ∈ l1 <-> a ∈ l2) -> delete_all l1 h = delete_all l2 h.
Proof.
  intros H. apply map_eq. intros a. rewrite !lookup_delete_all.
  destruct (decide (a ∈ l1)) as [H1|H1], (decide (a ∈ l2)) as [H2|H2];
    try done; by apply H in H1 || apply H in H2.
Qed.

Lemma delete_all_insert (l : list positive) (h : gmap positive Node) a n :
  a ∉ l -> delete_all l (<[a := n]> h) = <[a := n]> (delete_all l h).
Proof.
  intros Ha. apply map_eq. intros b. rewrite lookup_delete_all.
  destruct (decide (b = a)) as [->|Hne].
  - rewrite !lookup_insert_eq. by rewrite decide_False.
  - rewrite !lookup_insert_ne by done. by rewrite lookup_delete_all.
Qed.

Lemma delete_delete_all (l : list positive) (h : gmap positive Node) a :
  delete a (delete_all l h) = delete_all (l ++ [a]) h.
Proof. by rewrite delete_all_app. Qed.

(** The store enters [wf_tree] only through the objects of the tree. *)
Lemma isProjectAt_agree (h h' : gmap positive Node) (a : positive) :
  h' !! a = h !! a -> isProjectAt h' a = isProjectAt h a.
Proof. intros H. unfold isProjectAt. by rewrite H. Qed.

Lemma wf_tree_frame (h h' : gmap positive Node) (parent : option positive)
    (t : tree) :
  wf_tree h parent t ->
  (forall a, a ∈ nodes t -> h' !! a = h !! a) ->
  wf_tree h' parent t.
Proof.
  revert parent. induction t as [a files folders IH] using tree_ind.
  intros parent Hwf Hagree.
  inversion Hwf as [? ? n ? ? Ha Hty Hpar Hses Hfiles Hfolders Hproj Hprojty Hsf Hsd Hleaf Hkids];
    subst.
  assert (Hsub : forall c, c ∈ folders -> forall x, x ∈ nodes c -> h' !! x = h !! x).
  { intros c Hc x Hx. apply Hagree. simpl. right. apply elem_of_app. right.
    apply list_elem_of_In, in_flat_map. exists c.
    split; by apply list_elem_of_In. }
  assert (Hroots : forall c, c ∈ folders -> h' !! root c = h !! root c).
  { intros c Hc. apply (Hsub c Hc). destruct c. simpl. by left. }
  apply wf_tree_intro with n; try done.
  - rewrite Hagree; [done|]. simpl. by left.
  - rewrite Hproj. apply filter_ext_elem_of. intros x Hx.
    apply list_elem_of_fmap in Hx as (c & -> & Hc).
    by rewrite (isProjectAt_agree h h') by auto.
  - apply Forall_forall. intros f Hf. rewrite Forall_forall in Hleaf.
    destruct (Hleaf f Hf) as (nf & Hnf & Hrest).
    exists nf. split; [|done]. rewrite Hagree; [done|].
    simpl. right. apply elem_of_app. by left.
  - apply Forall_forall. intros c Hc. rewrite Forall_forall in IH, Hkids.
    apply IH; [done|by apply Hkids|by apply Hsub].
Qed.

Lemma height_child (a : positive) (files : list positive) (folders : list tree)
    (c : tree) :
  c ∈ folders -> (height c < height (Tree a files folders))%nat.
Proof.
  simpl. induction folders as [|d folders IH]; intros Hc.
  - by apply elem_of_nil in Hc.
  - simpl. apply elem_of_cons in Hc as [->|Hc]; [lia|].
    specialize (IH Hc). lia.
Qed.

Lemma height_pos (t : tree) : (0 < height t)%nat.
Proof. destruct t. simpl. lia. Qed.

Lemma root_in_nodes (t : tree) : root t ∈ nodes t.
Proof. destruct t. simpl. by left. Qed.

Lemma nodes_child (c : tree) (folders : list tree) (x : positive) :
  c ∈ folders -> x ∈ nodes c -> x ∈ flat_map nodes folders.
Proof.
  intros Hc Hx. apply list_elem_of_In, in_flat_map. exists c.
  split; by apply list_elem_of_In.
Qed.

Lemma file_leaf_frame (h h' : gmap positive Node) (a f : positive) :
  h' !! f = h !! f -> file_leaf h a f -> file_leaf h' a f.
Proof. intros Heq (nf & Hnf & H). exists nf. by rewrite Heq. Qed.

Lemma wf_tree_child_alive (h : gmap positive Node) (par : option positive)
    (c : tree) :
  wf_tree h par c -> is_Some (h !! root c).
Proof. inversion 1; subst; simpl; eauto. Qed.

(** ** delete *)

Lemma destroy_files (fuel : nat) (a : positive) (files : list positive)
    (h : gmap positive Node) (tr : list Event) :
  Forall (file_leaf h a) files -> NoDup files -> (0 < fuel)%nat ->
  forM_ files (destroy fuel) (mkState h tr)
    = Val (tt, mkState (delete_all files h) tr).
Proof.
  intros Hleaf Hnd Hfuel. destruct fuel as [|fuel]; [lia|].
  revert h Hleaf. induction files as [|f files IH]; intros h Hleaf; [done|].
  apply Forall_cons in Hleaf as [(nf & Hnf & _ & _ & Hf1 & Hf2 & _) Hleaf].
  apply NoDup_cons in Hnd as [Hf Hnd].
  rewrite forM__cons, destroy_S.
  assert (Hone : (let* n := deref f in
                  forM_ (m_folderNodes n) (destroy fuel) ;;
                  forM_ (m_fileNodes n) (destroy fuel) ;; free f) (mkState h tr)
                 = Val (tt, mkState (delete f h) tr)).
  { rewrite (bind_Val _ _ _ _ _ (deref_Val f (mkState h tr) nf Hnf)).
    rewrite Hf1, Hf2. simpl forM_. rewrite !ret_bind.
    by rewrite (free_Val f _ nf). }
  rewrite (bind_Val _ _ _ _ _ Hone).
  rewrite IH; [done|done|].
  apply Forall_forall. intros g Hg. rewrite Forall_forall in Hleaf.
  apply (file_leaf_frame h); [|by apply Hleaf].
  apply lookup_delete_ne. intros ->. done.
Qed.

Lemma destroy_children (fuel : nat) (par : option positive)
    (folders : list tree) (tr : list Event) :
  Forall (fun t => forall h parent, wf_tree h parent t -> NoDup (nodes t) ->
            destroy fuel (root t) (mkState h tr)
              = Val (tt, mkState (delete_all (nodes t) h) tr)) folders ->
  NoDup (flat_map nodes folders) ->
  forall h, Forall (wf_tree h par) folders ->
  forM_ (map root folders) (destroy fuel) (mkState h tr)
    = Val (tt, mkState (delete_all (flat_map nodes folders) h) tr).
Proof.
  induction folders as [|c folders IHf]; intros Hspec Hnd h Hwf; [done|].
  apply Forall_cons in Hspec as [Hc_spec Hspec].
  apply Forall_cons in Hwf as [Hc Hwf].
  simpl in Hnd. apply NoDup_app in Hnd as (Hnd_c & Hdisj_c & Hnd_rest).
  cbn [map flat_map]. rewrite forM__cons.
  rewrite (bind_Val _ _ _ _ _ (Hc_spec h par Hc Hnd_c)).
  rewrite IHf; [by rewrite delete_all_app|done|done|].
  apply Forall_forall. intros d Hd. rewrite Forall_forall in Hwf.
  apply (wf_tree_frame h); [by apply Hwf|].
  intros x Hx. rewrite lookup_delete_all. rewrite decide_False; [done|].
  intros Hxc. apply (Hdisj_c x Hxc). by apply (nodes_child d).
Qed.

Lemma destroy_spec (fuel : nat) (t : tree) :
  forall (h : gmap positive Node) (parent : option positive) (tr : list Event),
  wf_tree h parent t -> NoDup (nodes t) -> (height t < fuel)%nat ->
  destroy fuel (root t) (mkState h tr)
    = Val (tt, mkState (delete_all (nodes t) h) tr).
Proof.
  revert fuel. induction t as [a files folders IH] using tree_ind.
  intros fuel h parent tr Hwf Hnd Hfuel.
  inversion Hwf as [? ? n ? ? Ha Hty Hpar Hses Hfiles Hfolders Hproj Hprojty Hsf Hsd Hleaf Hkids];
    subst.
  destruct fuel as [|fuel]; [lia|].
  simpl in Hnd. apply NoDup_cons in Hnd as [Ha_notin Hnd].
  apply NoDup_app in Hnd as (Hnd_files & Hdisj & Hnd_kids).
  assert (Hkids_run :
    forM_ (map root folders) (destroy fuel) (mkState h tr)
      = Val (tt, mkState (delete_all (flat_map nodes folders) h) tr)).
  { apply (destroy_children fuel (Some a)); [|done|done].
    apply Forall_forall. intros c Hc h0 par0 Hwf0 Hnd0.
    rewrite Forall_forall in IH. apply (IH c Hc fuel h0 par0 tr Hwf0 Hnd0).
    pose proof (height_child a (m_fileNodes n) folders c Hc). lia. }
  cbn [root]. rewrite destroy_S.
  rewrite (bind_Val _ _ _ _ _ (deref_Val a (mkState h tr) n Ha)).
  rewrite Hfolders.
  rewrite (bind_Val _ _ _ _ _ Hkids_run).
  assert (Hleaf' : Forall (file_leaf (delete_all (flat_map nodes folders) h) a)
                     (m_fileNodes n)).
  { apply Forall_forall. intros f Hf. rewrite Forall_forall in Hleaf.
    apply (file_leaf_frame h); [|by apply Hleaf].
    rewrite lookup_delete_all. rewrite decide_False; [done|].
    intros Hin. by apply (Hdisj f). }
  rewrite (bind_Val _ _ _ _ _
             (destroy_files fuel a (m_fileNodes n) _ tr Hleaf' Hnd_files
                ltac:(pose proof (height_pos (Tree a (m_fileNodes n) folders)); lia))).
  rewrite (free_Val a _ n).
  - simpl. f_equal. f_equal. f_equal.
    rewrite delete_delete_all, <- !delete_all_app.
    change (delete a h) with (delete_all [a] h). rewrite <- delete_all_app.
    apply delete_all_ext. intros x.
    rewrite !elem_of_app, list_elem_of_singleton. tauto.
  - simpl. rewrite !lookup_delete_all.
    rewrite decide_False by (intros Hin; apply Ha_notin, elem_of_app; by left).
    rewrite decide_False by (intros Hin; apply Ha_notin, elem_of_app; by right).
    done.
Qed.

(** ** The removal loops *)

Lemma flat_map_snoc {A B} (f : A -> list B) (l : list A) (x : A) :
  flat_map f (l ++ [x]) = flat_map f l ++ f x.
Proof. rewrite flat_map_app. simpl. by rewrite app_nil_r. Qed.

Lemma removeProjectNodes_loop_steps (delete_it : positive -> M unit)
    (D : positive -> list positive) (Tgt : positive -> Prop) (self : positive)
    (h0 : gmap positive Node) (n0 : Node) (tr : list Event) :
  (forall r h, Tgt r -> (forall a, a ∈ D r -> h !! a = h0 !! a) ->
     delete_it r (mkState h tr) = Val (tt, mkState (delete_all (D r) h) tr)) ->
  (forall r, Tgt r -> self ∉ D r) ->
  forall toRemove done cp cf itf itp,
    Forall Tgt toRemove ->
    StronglySorted Pos.lt toRemove ->
    StronglySorted Pos.lt cp -> StronglySorted Pos.lt cf ->
    Forall (fun r => r ∈ drop itp cp /\ r ∈ drop itf cf) toRemove ->
    NoDup (flat_map D (done ++ toRemove)) ->
    exists st,
      foldM (removeProjectNodes_step delete_it self) toRemove (itf, itp)
        (mkState (<[self := set_folderNodes cf (set_projectNodes cp n0)]>
                    (delete_all (flat_map D done) h0)) tr)
      = Val (st,
             mkState (<[self := set_folderNodes (list_difference cf toRemove)
                                  (set_projectNodes (list_difference cp toRemove) n0)]>
                        (delete_all (flat_map D (done ++ toRemove)) h0)) tr).
Proof.
  intros Hdel Hself.
  induction toRemove as [|r rs IH];
    intros done cp cf itf itp Htgt Hsorted Hcp Hcf Hin Hnd.
  - exists (itf, itp). simpl. rewrite app_nil_r, !list_difference_nil_r. done.
  - apply Forall_cons in Htgt as [Hr Htgt].
    apply Forall_cons in Hin as [[Hrp Hrf] Hin].
    apply StronglySorted_cons in Hsorted as [Hlt Hsorted].
    destruct (seek_found cp itp r Hrp) as (pit & Hpit & Hple & Hpr).
    destruct (seek_found cf itf r Hrf) as (fit & Hfit & Hfle & Hfr).
    set (ni := set_folderNodes cf (set_projectNodes cp n0)).
    set (hi := <[self := ni]> (delete_all (flat_map D done) h0)).
    assert (Hagree : forall a, a ∈ D r -> hi !! a = h0 !! a).
    { intros a Ha. unfold hi.
      rewrite lookup_insert_ne by (intros ->; by apply (Hself r)).
      rewrite lookup_delete_all. rewrite decide_False; [done|].
      intros Hdone. rewrite flat_map_app in Hnd.
      apply NoDup_app in Hnd as (_ & Hdisj & _).
      apply (Hdisj a Hdone). simpl. apply elem_of_app. by left. }
    assert (Hself_i : hi !! self = Some ni) by apply lookup_insert_eq.
    assert (Hstep : removeProjectNodes_step delete_it self (itf, itp) r
                      (mkState hi tr)
        = Val ((fit, pit),
               mkState (<[self := set_folderNodes (delete fit cf)
                                    (set_projectNodes (delete pit cp) n0)]>
                          (delete_all (flat_map D (done ++ [r])) h0)) tr)).
    { unfold removeProjectNodes_step.
      rewrite (bind_Val _ _ _ _ _ (deref_Val self (mkState hi tr) ni Hself_i)).
      change (m_projectNodes ni) with cp. change (m_folderNodes ni) with cf.
      rewrite Hpit, Hfit.
      rewrite (bind_Val _ _ _ _ _ (Hdel r hi Hr Hagree)).
      assert (Hself_d : delete_all (D r) hi !! self = Some ni).
      { rewrite lookup_delete_all. rewrite decide_False by (by apply Hself).
        done. }
      rewrite (bind_Val _ _ _ _ _ (deref_Val self (mkState _ tr) ni Hself_d)).
      rewrite (bind_Val _ _ _ _ _ (modify_Val self _ (mkState _ tr) ni Hself_d)).
      cbn [heap trace].
      rewrite (bind_Val _ _ _ _ _ (deref_Val self (mkState _ tr) _
                                     (lookup_insert_eq _ _ _))).
      rewrite (bind_Val _ _ _ _ _ (modify_Val self _ (mkState _ tr) _
                                     (lookup_insert_eq _ _ _))).
      cbn [heap trace]. unfold ret.
      change (m_projectNodes ni) with cp.
      change (m_folderNodes (set_projectNodes (delete pit cp) ni)) with cf.
      rewrite insert_insert_eq.
      unfold hi. rewrite delete_all_insert by (by apply Hself).
      rewrite insert_insert_eq, <- delete_all_app, <- flat_map_snoc.
      done. }
    rewrite foldM_cons. rewrite (bind_Val _ _ _ _ _ Hstep).
    destruct (IH (done ++ [r]) (delete pit cp) (delete fit cf) fit pit)
      as (st & Hst); try done.
    + by apply StronglySorted_delete.
    + by apply StronglySorted_delete.
    + apply Forall_forall. intros r' Hr'. rewrite Forall_forall in Hin, Hlt.
      destruct (Hin r' Hr') as [H1 H2].
      split; apply (later_after_erase _ _ r); auto.
      * apply list_elem_of_lookup in H1 as (i & Hi). rewrite lookup_drop in Hi.
        by apply list_elem_of_lookup_2 in Hi.
      * apply list_elem_of_lookup in H2 as (i & Hi). rewrite lookup_drop in Hi.
        by apply list_elem_of_lookup_2 in Hi.
    + by rewrite <- app_assoc.
    + exists st. rewrite Hst. rewrite <- app_assoc. simpl.
      rewrite !(list_difference_delete _ _ r) by
        (done || by apply StronglySorted_lt_NoDup).
      done.
Qed.

Lemma erase_loop_steps (step : nat -> positive -> M nat)
    (St : list positive -> list positive -> state)
    (D : positive -> list positive) (Tgt : positive -> Prop) :
  (forall it r cur done, Tgt r -> StronglySorted Pos.lt cur ->
     r ∈ drop it cur -> NoDup (flat_map D (done ++ [r])) ->
     exists j, (it <= j)%nat /\ cur !! j = Some r /\
       step it r (St cur done) = Val (j, St (delete j cur) (done ++ [r]))) ->
  forall toRemove done cur it,
    Forall Tgt toRemove -> StronglySorted Pos.lt toRemove ->
    StronglySorted Pos.lt cur ->
    Forall (fun r => r ∈ drop it cur) toRemove ->
    NoDup (flat_map D (done ++ toRemove)) ->
    exists st, foldM step toRemove it (St cur done)
               = Val (st, St (list_difference cur toRemove) (done ++ toRemove)).
Proof.
  intros Hstep.
  induction toRemove as [|r rs IH]; intros done cur it Htgt Hsorted Hcur Hin Hnd.
  - exists it. simpl. by rewrite app_nil_r, list_difference_nil_r.
  - apply Forall_cons in Htgt as [Hr Htgt].
    apply Forall_cons in Hin as [Hrin Hin].
    apply StronglySorted_cons in Hsorted as [Hlt Hsorted].
    assert (Hnd1 : NoDup (flat_map D (done ++ [r]))).
    { replace (done ++ r :: rs) with ((done ++ [r]) ++ rs) in Hnd
        by (by rewrite <- app_assoc).
      rewrite flat_map_app in Hnd. by apply NoDup_app in Hnd as (? & _ & _). }
    destruct (Hstep it r cur done Hr Hcur Hrin Hnd1) as (j & Hle & Hj & Hrun).
    rewrite foldM_cons, (bind_Val _ _ _ _ _ Hrun).
    destruct (IH (done ++ [r]) (delete j cur) j) as (st & Hst); try done.
    + by apply StronglySorted_delete.
    + apply Forall_forall. intros r' Hr'. rewrite Forall_forall in Hin, Hlt.
      apply (later_after_erase _ _ r); auto.
      specialize (Hin r' Hr').
      apply list_elem_of_lookup in Hin as (i & Hi). rewrite lookup_drop in Hi.
      by apply list_elem_of_lookup_2 in Hi.
    + by rewrite <- app_assoc.
    + exists st. rewrite Hst, <- app_assoc. simpl.
      rewrite (list_difference_delete _ _ r) by
        (done || by apply StronglySorted_lt_NoDup).
      done.
Qed.

Lemma subtree_at_elem_of (folders : list tree) (r : positive) :
  r ∈ map root folders ->
  subtree_at folders r ∈ folders /\ root (subtree_at folders r) = r.
Proof.
  unfold subtree_at. induction folders as [|c folders IH]; intros Hr.
  - by apply elem_of_nil in Hr.
  - simpl. destruct (bool_decide (root c = r)) eqn:E.
    + apply bool_decide_eq_true in E. simpl. split; [by left|done].
    + apply bool_decide_eq_false in E.
      simpl in Hr. apply elem_of_cons in Hr as [Hr|Hr]; [done|].
      destruct (IH Hr) as [H1 H2]. split; [by right|done].
Qed.

Lemma subtree_at_root (folders : list tree) (c : tree) :
  NoDup (map root folders) -> c ∈ folders -> subtree_at folders (root c) = c.
Proof.
  unfold subtree_at. induction folders as [|d folders IH]; intros Hnd Hc.
  - by apply elem_of_nil in Hc.
  - simpl in *. apply NoDup_cons in Hnd as [Hd Hnd].
    destruct (bool_decide (root d = root c)) eqn:E.
    + apply bool_decide_eq_true in E. simpl.
      apply elem_of_cons in Hc as [->|Hc]; [done|].
      exfalso. apply Hd. rewrite E. apply list_elem_of_fmap. eauto.
    + apply bool_decide_eq_false in E.
      apply elem_of_cons in Hc as [->|Hc]; [done|]. by apply IH.
Qed.

Lemma root_in_subtree (folders : list tree) (r : positive) :
  r ∈ map root folders -> r ∈ nodes (subtree_at folders r).
Proof.
  intros Hr. destruct (subtree_at_elem_of folders r Hr) as [_ Heq].
  rewrite <- Heq at 1. apply root_in_nodes.
Qed.

(** The objects deleted with the folder nodes [l] among [folders]. *)
Lemma NoDup_subtrees (folders : list tree) (l : list positive) :
  NoDup (flat_map nodes folders) -> NoDup l ->
  (forall r, r ∈ l -> r ∈ map root folders) ->
  NoDup (flat_map (fun r => nodes (subtree_at folders r)) l).
Proof.
  intros Hnd. induction l as [|r l IH]; intros Hl Hsub; [constructor|].
  apply NoDup_cons in Hl as [Hr Hl]. simpl. apply NoDup_app.
  destruct (subtree_at_elem_of folders r ltac:(apply Hsub; by left)) as [Hc Hroot].
  split; [|split].
  - by apply (NoDup_flat_map_elem nodes folders).
  - intros a Ha Hal. apply elem_of_flat_map in Hal as (r' & Hr' & Ha').
    destruct (subtree_at_elem_of folders r' ltac:(apply Hsub; by right))
      as [Hc' Hroot'].
    apply (NoDup_flat_map_disjoint nodes folders
             (subtree_at folders r) (subtree_at folders r') a); try done.
    intros Heq. rewrite Heq in Hroot. rewrite Hroot' in Hroot. subst r'. done.
  - apply IH; [done|]. intros y Hy. apply Hsub. by right.
Qed.

Lemma destroy_subtree (fuel : nat) (a : positive) (folders : list tree)
    (h0 : gmap positive Node) (tr : list Event) :
  Forall (wf_tree h0 (Some a)) folders ->
  NoDup (flat_map nodes folders) ->
  Forall (fun c => (height c < fuel)%nat) folders ->
  forall r h, r ∈ map root folders ->
    (forall x, x ∈ nodes (subtree_at folders r) -> h !! x = h0 !! x) ->
    destroy fuel r (mkState h tr)
      = Val (tt, mkState (delete_all (nodes (subtree_at folders r)) h) tr).
Proof.
  intros Hwf Hnd Hh r h Hr Hagree.
  destruct (subtree_at_elem_of folders r Hr) as [Hc Hroot].
  rewrite Forall_forall in Hwf, Hh.
  rewrite <- Hroot at 1.
  apply destroy_spec with (Some a).
  - by apply (wf_tree_frame h0); [apply Hwf|].
  - by apply (NoDup_flat_map_elem nodes folders).
  - by apply Hh.
Qed.

Lemma set_lists_id (n : Node) :
  set_folderNodes (m_folderNodes n) (set_projectNodes (m_projectNodes n) n) = n.
Proof. by destruct n. Qed.

Lemma removeProjectNodes_spec (delete_it : positive -> M unit)
    (D : positive -> list positive) (self : positive)
    (h : gmap positive Node) (n : Node) (tr : list Event)
    (subProjects : list positive) :
  (forall r h', r ∈ subProjects -> (forall a, a ∈ D r -> h' !! a = h !! a) ->
     forall tr', delete_it r (mkState h' tr')
                 = Val (tt, mkState (delete_all (D r) h') tr')) ->
  (forall r, r ∈ subProjects -> self ∉ D r) ->
  NoDup (flat_map D subProjects) ->
  h !! self = Some n ->
  StronglySorted Pos.lt (m_projectNodes n) ->
  StronglySorted Pos.lt (m_folderNodes n) ->
  NoDup subProjects ->
  (forall p, p ∈ subProjects -> p ∈ m_projectNodes n /\ p ∈ m_folderNodes n) ->
  (if is_nil subProjects then ret tt
   else
     emit (FoldersAboutToBeRemoved self (sort_ptr subProjects)) ;;
     removeProjectNodes_loop delete_it self (sort_ptr subProjects) ;;
     emit (FoldersRemoved self)) (mkState h tr)
  = Val (tt,
         mkState
           (<[self := set_folderNodes
                        (list_difference (m_folderNodes n) subProjects)
                        (set_projectNodes
                           (list_difference (m_projectNodes n) subProjects) n)]>
              (delete_all (flat_map D subProjects) h))
           (tr ++ if is_nil subProjects then []
                  else [FoldersAboutToBeRemoved self (sort_ptr subProjects);
                        FoldersRemoved self])).
Proof.
  intros Hdel Hself Hnd Hn Hsp Hsf Hndp Hsub.
  destruct subProjects as [|p0 ps] eqn:Esp.
  { simpl. rewrite !list_difference_nil_r, set_lists_id, app_nil_r.
    by rewrite insert_id. }
  assert (Hnil : is_nil (p0 :: ps) = false) by done.
  rewrite <- Esp in *. clear Esp. rewrite Hnil.
  set (tr1 := tr ++ [FoldersAboutToBeRemoved self (sort_ptr subProjects)]).
  assert (Hemit : emit (FoldersAboutToBeRemoved self (sort_ptr subProjects))
                    (mkState h tr) = Val (tt, mkState h tr1)) by done.
  rewrite (bind_Val _ _ _ _ _ Hemit).
  destruct (removeProjectNodes_loop_steps delete_it D (fun r => r ∈ subProjects)
              self h n tr1
              ltac:(intros r h' Hr Ha; by apply Hdel) Hself
              (sort_ptr subProjects) [] (m_projectNodes n) (m_folderNodes n)
              0%nat 0%nat) as (st & Hloop).
  - apply Forall_forall. intros r. apply sort_ptr_elem_of.
  - by apply sort_ptr_sorted.
  - done.
  - done.
  - apply Forall_forall. intros r Hr.
    apply (proj1 (sort_ptr_elem_of _ _)) in Hr. unfold drop. by apply Hsub.
  - simpl. by rewrite sort_ptr_Permutation.
  - simpl in Hloop. rewrite set_lists_id, insert_id in Hloop by done.
    unfold removeProjectNodes_loop.
    rewrite (bind_Val _ _ _ _ _ Hloop).
    unfold emit. cbn [heap trace]. unfold tr1. rewrite <- app_assoc. simpl.
    do 3 f_equal.
    rewrite !(list_difference_ext _ (sort_ptr subProjects) subProjects)
      by apply sort_ptr_elem_of.
    f_equal. apply delete_all_ext. intros a.
    rewrite !elem_of_flat_map. by setoid_rewrite sort_ptr_elem_of.
Qed.

(** *** removeFileNodes and removeFolderNodes *)

Lemma removeFileNodes_step_spec (fuel : nat) (self : positive)
    (h0 : gmap positive Node) (n0 : Node) (tr : list Event)
    (D : positive -> list positive) (Tgt : positive -> Prop) :
  (forall r h, Tgt r -> (forall a, a ∈ D r -> h !! a = h0 !! a) ->
     destroy fuel r (mkState h tr) = Val (tt, mkState (delete_all (D r) h) tr)) ->
  (forall r, Tgt r -> self ∉ D r) ->
  forall it r cur done, Tgt r -> StronglySorted Pos.lt cur ->
    r ∈ drop it cur -> NoDup (flat_map D (done ++ [r])) ->
    exists j, (it <= j)%nat /\ cur !! j = Some r /\
      removeFileNodes_step fuel self it r
        (mkState (<[self := set_fileNodes cur n0]>
                    (delete_all (flat_map D done) h0)) tr)
      = Val (j, mkState (<[self := set_fileNodes (delete j cur) n0]>
                           (delete_all (flat_map D (done ++ [r])) h0)) tr).
Proof.
  intros Hdel Hself it r cur done Hr Hcur Hin Hnd.
  destruct (seek_found cur it r Hin) as (j & Hj & Hle & Hjr).
  exists j. split; [done|]. split; [done|].
  set (ni := set_fileNodes cur n0).
  set (hi := <[self := ni]> (delete_all (flat_map D done) h0)).
  assert (Hagree : forall a, a ∈ D r -> hi !! a = h0 !! a).
  { intros a Ha. unfold hi.
    rewrite lookup_insert_ne by (intros ->; by apply (Hself r)).
    rewrite lookup_delete_all. rewrite decide_False; [done|].
    intros Hdone. rewrite flat_map_snoc in Hnd.
    apply NoDup_app in Hnd as (_ & Hdisj & _). by apply (Hdisj a). }
  assert (Hself_i : hi !! self = Some ni) by apply lookup_insert_eq.
  unfold removeFileNodes_step.
  rewrite (bind_Val _ _ _ _ _ (deref_Val self (mkState hi tr) ni Hself_i)).
  change (m_fileNodes ni) with cur. rewrite Hj.
  rewrite (bind_Val _ _ _ _ _ (Hdel r hi Hr Hagree)).
  assert (Hself_d : delete_all (D r) hi !! self = Some ni).
  { rewrite lookup_delete_all. rewrite decide_False by (by apply Hself). done. }
  rewrite (bind_Val _ _ _ _ _ (deref_Val self (mkState _ tr) ni Hself_d)).
  rewrite (bind_Val _ _ _ _ _ (modify_Val self _ (mkState _ tr) ni Hself_d)).
  cbn [heap trace]. unfold ret.
  change (m_fileNodes ni) with cur.
  unfold hi. rewrite delete_all_insert by (by apply Hself).
  rewrite insert_insert_eq, <- delete_all_app, <- flat_map_snoc.
  done.
Qed.

Lemma removeFolderNodes_step_spec (fuel : nat) (self : positive)
    (h0 : gmap positive Node) (n0 : Node) (tr : list Event)
    (D : positive -> list positive) (Tgt : positive -> Prop) :
  (forall r h, Tgt r -> (forall a, a ∈ D r -> h !! a = h0 !! a) ->
     destroy fuel r (mkState h tr) = Val (tt, mkState (delete_all (D r) h) tr)) ->
  (forall r, Tgt r -> self ∉ D r) ->
  (forall r, Tgt r -> r ∈ D r /\ is_Some (h0 !! r)) ->
  forall it r cur done, Tgt r -> StronglySorted Pos.lt cur ->
    r ∈ drop it cur -> NoDup (flat_map D (done ++ [r])) ->
    exists j, (it <= j)%nat /\ cur !! j = Some r /\
      removeFolderNodes_step fuel self it r
        (mkState (<[self := set_folderNodes cur n0]>
                    (delete_all (flat_map D done) h0)) tr)
      = Val (j, mkState (<[self := set_folderNodes (delete j cur) n0]>
                           (delete_all (flat_map D (done ++ [r])) h0)) tr).
Proof.
  intros Hdel Hself Halive it r cur done Hr Hcur Hin Hnd.
  destruct (seek_found cur it r Hin) as (j & Hj & Hle & Hjr).
  exists j. split; [done|]. split; [done|].
  set (ni := set_folderNodes cur n0).
  set (hi := <[self := ni]> (delete_all (flat_map D done) h0)).
  assert (Hagree : forall a, a ∈ D r -> hi !! a = h0 !! a).
  { intros a Ha. unfold hi.
    rewrite lookup_insert_ne by (intros ->; by apply (Hself r)).
    rewrite lookup_delete_all. rewrite decide_False; [done|].
    intros Hdone. rewrite flat_map_snoc in Hnd.
    apply NoDup_app in Hnd as (_ & Hdisj & _). by apply (Hdisj a). }
  assert (Hself_i : hi !! self = Some ni) by apply lookup_insert_eq.
  destruct (Halive r Hr) as [HrD [nr Hnr]].
  assert (Hr_i : hi !! r = Some nr) by (by rewrite Hagree).
  unfold removeFolderNodes_step.
  rewrite (bind_Val _ _ _ _ _ (deref_Val r (mkState hi tr) nr Hr_i)).
  rewrite (bind_Val _ _ _ _ _ (QTC_ASSERT_qDebug _ _)).
  rewrite (bind_Val _ _ _ _ _ (deref_Val self (mkState hi tr) ni Hself_i)).
  change (m_folderNodes ni) with cur. rewrite Hj.
  rewrite (bind_Val _ _ _ _ _ (Hdel r hi Hr Hagree)).
  assert (Hself_d : delete_all (D r) hi !! self = Some ni).
  { rewrite lookup_delete_all. rewrite decide_False by (by apply Hself). done. }
  rewrite (bind_Val _ _ _ _ _ (deref_Val self (mkState _ tr) ni Hself_d)).
  rewrite (bind_Val _ _ _ _ _ (modify_Val self _ (mkState _ tr) ni Hself_d)).
  cbn [heap trace]. unfold ret.
  change (m_folderNodes ni) with cur.
  unfold hi. rewrite delete_all_insert by (by apply Hself).
  rewrite insert_insert_eq, <- delete_all_app, <- flat_map_snoc.
  done.
Qed.

Lemma destroy_leaf (fuel : nat) (a f : positive) (h : gmap positive Node)
    (tr : list Event) :
  file_leaf h a f -> (0 < fuel)%nat ->
  destroy fuel f (mkState h tr) = Val (tt, mkState (delete f h) tr).
Proof.
  intros (nf & Hnf & _ & _ & Hf1 & Hf2 & _) Hfuel.
  destruct fuel as [|fuel]; [lia|]. rewrite destroy_S.
  rewrite (bind_Val _ _ _ _ _ (deref_Val f (mkState h tr) nf Hnf)).
  rewrite Hf1, Hf2. simpl forM_. rewrite !ret_bind.
  by rewrite (free_Val f _ nf).
Qed.

Lemma set_fileNodes_id (n : Node) : set_fileNodes (m_fileNodes n) n = n.
Proof. by destruct n. Qed.

Lemma set_folderNodes_id (n : Node) : set_folderNodes (m_folderNodes n) n = n.
Proof. by destruct n. Qed.

Lemma flat_map_singleton {A} (l : list A) : flat_map (fun x => [x]) l = l.
Proof. induction l as [|x l IH]; [done|]. simpl. by rewrite IH. Qed.

Lemma removeFileNodes_spec (fuel : nat) (self : positive) (l : list positive)
    (h : gmap positive Node) (n : Node) (tr : list Event)
    (files : list positive) :
  h !! self = Some n -> managed h self l -> (length l < fuel)%nat ->
  StronglySorted Pos.lt (m_fileNodes n) -> NoDup files ->
  (forall f, f ∈ files -> f ∈ m_fileNodes n) ->
  Forall (file_leaf h self) files ->
  removeFileNodes fuel self files (mkState h tr)
  = Val (tt,
         mkState
           (<[self := set_fileNodes (list_difference (m_fileNodes n) files) n]>
              (delete_all files h))
           (tr ++ if is_nil files then []
                  else [FilesAboutToBeRemoved self (sort_ptr files);
                        FilesRemoved self])).
Proof.
  intros Hn Hm Hlen Hsorted Hnd Hsub Hleaf.
  unfold removeFileNodes. rewrite (Q_ASSERT_managed _ _ l) by done.
  destruct files as [|f0 fs] eqn:Efiles.
  { simpl. rewrite list_difference_nil_r, set_fileNodes_id, app_nil_r.
    by rewrite insert_id. }
  assert (Hnil : is_nil (f0 :: fs) = false) by done.
  rewrite <- Efiles in *. clear Efiles. rewrite Hnil.
  set (tr1 := tr ++ [FilesAboutToBeRemoved self (sort_ptr files)]).
  assert (Hemit : emit (FilesAboutToBeRemoved self (sort_ptr files))
                    (mkState h tr) = Val (tt, mkState h tr1)) by done.
  rewrite (bind_Val _ _ _ _ _ Hemit).
  assert (Hne_self : forall f, f ∈ files -> f <> self).
  { intros f Hf ->. rewrite Forall_forall in Hleaf.
    destruct (Hleaf self Hf) as (nf & Hnf & _ & _ & Hempty & _).
    assert (nf = n) as -> by congruence.
    specialize (Hsub self Hf). rewrite Hempty in Hsub.
    by apply elem_of_nil in Hsub. }
  destruct (erase_loop_steps (removeFileNodes_step fuel self)
              (fun cur done =>
                 mkState (<[self := set_fileNodes cur n]>
                            (delete_all (flat_map (fun x => [x]) done) h)) tr1)
              (fun x => [x]) (fun r => r ∈ files)) with
      (toRemove := sort_ptr files) (done := @nil positive)
      (cur := m_fileNodes n) (it := 0%nat) as (st & Hloop).
  - intros it r cur done Hr Hcur Hin Hnd'.
    apply (removeFileNodes_step_spec fuel self h n tr1 (fun x => [x])
             (fun r => r ∈ files)); auto.
    + intros r' h' Hr' Hagree. simpl. rewrite Forall_forall in Hleaf.
      apply (destroy_leaf fuel self); [|lia].
      apply (file_leaf_frame h); [|by apply Hleaf].
      apply Hagree. by left.
    + intros r' Hr' Hin'. apply list_elem_of_singleton in Hin'.
      by apply (Hne_self r').
  - apply Forall_forall. intros r. apply sort_ptr_elem_of.
  - by apply sort_ptr_sorted.
  - done.
  - apply Forall_forall. intros r Hr.
    apply (proj1 (sort_ptr_elem_of _ _)) in Hr. unfold drop. by apply Hsub.
  - simpl. rewrite flat_map_singleton. apply sort_ptr_sorted in Hnd.
    by apply StronglySorted_lt_NoDup.
  - simpl in Hloop. rewrite set_fileNodes_id, insert_id in Hloop by done.
    rewrite (bind_Val _ _ _ _ _ Hloop).
    unfold emit. cbn [heap trace]. unfold tr1. rewrite <- app_assoc. simpl.
    do 3 f_equal.
    rewrite (list_difference_ext _ (sort_ptr files) files)
      by apply sort_ptr_elem_of.
    f_equal. rewrite flat_map_singleton. apply delete_all_ext. intros a.
    apply sort_ptr_elem_of.
Qed.

Lemma removeFolderNodes_spec (fuel : nat) (self : positive) (l : list positive)
    (h : gmap positive Node) (par : option positive) (files : list positive)
    (folders : list tree) (n : Node) (tr : list Event)
    (subFolders : list positive) :
  wf_tree h par (Tree self files folders) ->
  NoDup (nodes (Tree self files folders)) ->
  managed h self l -> (length l < fuel)%nat ->
  (height (Tree self files folders) <= fuel)%nat ->
  h !! self = Some n -> NoDup subFolders ->
  (forall p, p ∈ subFolders -> p ∈ map root folders) ->
  removeFolderNodes fuel self subFolders (mkState h tr)
  = Val (tt,
         mkState
           (<[self := set_folderNodes
                        (list_difference (m_folderNodes n) subFolders) n]>
              (delete_all
                 (flat_map (fun r => nodes (subtree_at folders r)) subFolders) h))
           (tr ++ if is_nil subFolders then []
                  else [FoldersAboutToBeRemoved self (sort_ptr subFolders);
                        FoldersRemoved self])).
Proof.
  intros Hwf Hnd Hm Hlen Hheight Hn Hndp Hsub.
  inversion Hwf as [? ? n0 ? ? Ha Hty Hpar Hses Hfiles Hfolders Hproj Hprojty Hsf Hsd Hleaf Hkids];
    subst.
  assert (n0 = n) as -> by congruence. clear Ha.
  simpl in Hnd. apply NoDup_cons in Hnd as [Hself_notin Hnd].
  apply NoDup_app in Hnd as (Hnd_files & Hdisj & Hnd_kids).
  unfold removeFolderNodes. rewrite (Q_ASSERT_managed _ _ l) by done.
  destruct subFolders as [|p0 ps] eqn:Esub.
  { simpl. rewrite list_difference_nil_r, set_folderNodes_id, app_nil_r.
    by rewrite insert_id. }
  assert (Hnil : is_nil (p0 :: ps) = false) by done.
  rewrite <- Esub in *. clear Esub. rewrite Hnil.
  set (tr1 := tr ++ [FoldersAboutToBeRemoved self (sort_ptr subFolders)]).
  assert (Hemit : emit (FoldersAboutToBeRemoved self (sort_ptr subFolders))
                    (mkState h tr) = Val (tt, mkState h tr1)) by done.
  rewrite (bind_Val _ _ _ _ _ Hemit).
  set (D := fun r => nodes (subtree_at folders r)).
  assert (HD : forall r a, r ∈ subFolders -> a ∈ D r ->
                 a ∈ flat_map nodes folders).
  { intros r a Hr Hin.
    destruct (subtree_at_elem_of folders r (Hsub r Hr)) as [Hc _].
    by apply (nodes_child (subtree_at folders r)). }
  destruct (erase_loop_steps (removeFolderNodes_step fuel self)
              (fun cur done =>
                 mkState (<[self := set_folderNodes cur n]>
                            (delete_all (flat_map D done) h)) tr1)
              D (fun r => r ∈ subFolders)) with
      (toRemove := sort_ptr subFolders) (done := @nil positive)
      (cur := m_folderNodes n) (it := 0%nat) as (st & Hloop).
  - intros it r cur done Hr Hcur Hin Hnd'.
    apply (removeFolderNodes_step_spec fuel self h n tr1 D
             (fun r => r ∈ subFolders)); auto.
    + intros r' h' Hr' Hagree.
      apply (destroy_subtree fuel self folders h); auto.
      apply Forall_forall. intros c Hc.
      pose proof (height_child self (m_fileNodes n) folders c Hc). lia.
    + intros r' Hr' Hin'. apply Hself_notin, elem_of_app. right.
      by apply (HD r').
    + intros r' Hr'. split; [apply root_in_subtree; auto|].
      destruct (subtree_at_elem_of folders r' (Hsub r' Hr')) as [Hc Hroot].
      rewrite Forall_forall in Hkids. rewrite <- Hroot.
      by apply (wf_tree_child_alive h (Some self)), Hkids.
  - apply Forall_forall. intros r. apply sort_ptr_elem_of.
  - by apply sort_ptr_sorted.
  - by rewrite Hfolders.
  - apply Forall_forall. intros r Hr.
    apply (proj1 (sort_ptr_elem_of _ _)) in Hr. unfold drop.
    rewrite Hfolders. by apply Hsub.
  - simpl. rewrite sort_ptr_Permutation. by apply NoDup_subtrees.
  - simpl in Hloop. rewrite set_folderNodes_id, insert_id in Hloop by done.
    rewrite (bind_Val _ _ _ _ _ Hloop).
    unfold emit. cbn [heap trace]. unfold tr1. rewrite <- app_assoc. simpl.
    do 3 f_equal.
    rewrite (list_difference_ext _ (sort_ptr subFolders) subFolders)
      by apply sort_ptr_elem_of.
    f_equal. apply delete_all_ext. intros a.
    rewrite !elem_of_flat_map. by setoid_rewrite sort_ptr_elem_of.
Qed.

(** The tree is well formed after the removal of some of its folders. *)
Lemma wf_tree_after_removal (h : gmap positive Node) (par : option positive)
    (a : positive) (files : list positive) (folders : list tree)
    (n n' : Node) (drop : list positive) :
  wf_tree h par (Tree a files folders) ->
  NoDup (nodes (Tree a files folders)) ->
  h !! a = Some n ->
  (forall p, p ∈ drop -> p ∈ map root folders) ->
  m_nodeType n' = m_nodeType n ->
  m_parentFolderNode n' = m_parentFolderNode n ->
  m_fileNodes n' = m_fileNodes n ->
  m_folderNodes n' = list_difference (map root folders) drop ->
  m_projectNodes n'
    = filter (fun c => isProjectAt h c = true)
        (list_difference (map root folders) drop) ->
  wf_tree (<[a := n']>
             (delete_all
                (flat_map (fun r => nodes (subtree_at folders r)) drop) h))
    par (Tree a files (filter (fun c => root c ∉ drop) folders)).
Proof.
  intros Hwf Hnd Hn Hsub Hty' Hpar' Hfiles' Hfolders' Hproj'.
  inversion Hwf as [? ? n0 ? ? Ha Hty Hpar Hses Hfiles Hfolders Hproj Hprojty Hsf Hsd Hleaf Hkids];
    subst.
  assert (n0 = n) as -> by congruence. clear Ha.
  simpl in Hnd. apply NoDup_cons in Hnd as [Hself_notin Hnd].
  apply NoDup_app in Hnd as (Hnd_files & Hdisj & Hnd_kids).
  set (D := fun r => nodes (subtree_at folders r)).
  set (h' := <[a := n']> (delete_all (flat_map D drop) h)).
  assert (Hdel_in : forall x, x ∈ flat_map D drop ->
            exists c, c ∈ folders /\ root c ∈ drop /\ x ∈ nodes c).
  { intros x Hx. apply elem_of_flat_map in Hx as (r & Hr & Hx).
    destruct (subtree_at_elem_of folders r (Hsub r Hr)) as [Hc Hroot].
    exists (subtree_at folders r). by rewrite Hroot. }
  assert (Hkept : forall c x, c ∈ folders -> root c ∉ drop -> x ∈ nodes c ->
            h' !! x = h !! x).
  { intros c x Hc Hroot Hx. unfold h'.
    rewrite lookup_insert_ne.
    2:{ intros <-. apply Hself_notin, elem_of_app. right.
        by apply (nodes_child c). }
    rewrite lookup_delete_all. rewrite decide_False; [done|].
    intros Hin. destruct (Hdel_in x Hin) as (c' & Hc' & Hroot' & Hx').
    apply (NoDup_flat_map_disjoint nodes folders c c' x); try done.
    intros ->. done. }
  assert (Hfile : forall f, f ∈ m_fileNodes n -> h' !! f = h !! f).
  { intros f Hf. unfold h'.
    rewrite lookup_insert_ne.
    2:{ intros <-. apply Hself_notin, elem_of_app. by left. }
    rewrite lookup_delete_all. rewrite decide_False; [done|].
    intros Hin. destruct (Hdel_in f Hin) as (c' & Hc' & _ & Hx').
    apply (Hdisj f Hf). by apply (nodes_child c'). }
  assert (Hroots : map root (filter (fun c => root c ∉ drop) folders)
                   = list_difference (map root folders) drop)
    by apply map_filter_list_difference.
  apply wf_tree_intro with n'.
  - apply lookup_insert_eq.
  - congruence.
  - congruence.
  - rewrite Hty'. exact Hses.
  - done.
  - by rewrite Hroots.
  - rewrite Hproj', Hroots. apply filter_ext_elem_of. intros r Hr.
    rewrite <- Hroots in Hr.
    apply list_elem_of_fmap in Hr as (c & -> & Hc).
    apply list_elem_of_filter in Hc as [Hnot Hc].
    rewrite (isProjectAt_agree h h'); [done|].
    apply (Hkept c); auto using root_in_nodes.
  - intros Hne. rewrite Hty'. apply Hprojty. rewrite Hproj.
    intros Hnil. apply Hne. rewrite Hproj'.
    apply filter_none. intros r Hr Hp.
    apply list_elem_of_difference in Hr as [Hr _].
    assert (Hin : r ∈ filter (fun c => isProjectAt h c = true) (map root folders))
      by (by apply list_elem_of_filter).
    rewrite Hnil in Hin. by apply elem_of_nil in Hin.
  - done.
  - rewrite Hroots. rewrite <- (list_difference_nil_r (map root folders)) in Hsd.
    clear -Hsd. revert Hsd. generalize (map root folders). intros l Hs.
    rewrite list_difference_nil_r in Hs.
    induction Hs as [|x l Hs IH Hall]; simpl; [constructor|].
    destruct (decide_rel elem_of x drop); [done|].
    constructor; [done|]. apply Forall_forall. intros y Hy.
    apply list_elem_of_difference in Hy as [Hy _].
    rewrite Forall_forall in Hall. auto.
  - apply Forall_forall. intros f Hf. rewrite Forall_forall in Hleaf.
    apply (file_leaf_frame h); [by apply Hfile|by apply Hleaf].
  - apply Forall_forall. intros c Hc.
    apply list_elem_of_filter in Hc as [Hnot Hc].
    rewrite Forall_forall in Hkids.
    apply (wf_tree_frame h); [by apply Hkids|].
    intros x Hx. by apply (Hkept c).
Qed.

(** ** Pruned trees *)

Lemma prune_unfold (keepers : gset positive) (a : positive)
    (files : list positive) (folders : list tree) :
  prune keepers (Tree a files folders) =
    if decide (a ∈ keepers) then Tree a files folders
    else Tree a (filter (fun f => f ∈ keepers) files)
                (map (prune keepers)
                     (filter (fun c => has_keeper keepers c = true) folders)).
Proof.
  simpl. destruct (decide (a ∈ keepers)); [done|]. f_equal.
  induction folders as [|c folders IH]; [done|].
  rewrite filter_cons. destruct (has_keeper keepers c) eqn:E.
  - rewrite decide_True by done. simpl. by rewrite IH.
  - rewrite decide_False by done. done.
Qed.

Lemma root_prune (keepers : gset positive) (t : tree) :
  root (prune keepers t) = root t.
Proof.
  destruct t as [a files folders]. rewrite prune_unfold.
  by destruct (decide (a ∈ keepers)).
Qed.

Lemma has_keeper_unfold (keepers : gset positive) (a : positive)
    (files : list positive) (folders : list tree) :
  has_keeper keepers (Tree a files folders) = true <->
    a ∈ keepers \/ (exists f, f ∈ files /\ f ∈ keepers) \/
    (exists c, c ∈ folders /\ has_keeper keepers c = true).
Proof.
  unfold has_keeper. rewrite bool_decide_eq_true. simpl.
  rewrite Exists_cons, Exists_app, !Exists_exists.
  split.
  - intros [?|[(f & ? & ?)|(x & Hx & ?)]]; [by left|right; left; eauto|].
    right. right. apply elem_of_flat_map in Hx as (c & Hc & Hx).
    exists c. split; [done|]. rewrite bool_decide_eq_true.
    apply Exists_exists. eauto.
  - intros [?|[(f & ? & ?)|(c & Hc & Hk)]]; [by left|right; left; eauto|].
    right. right. rewrite bool_decide_eq_true in Hk.
    apply Exists_exists in Hk as (x & Hx & ?).
    exists x. split; [|done]. apply elem_of_flat_map. eauto.
Qed.

Lemma has_keeper_false (keepers : gset positive) (t : tree) :
  has_keeper keepers t = false -> forall x, x ∈ nodes t -> x ∉ keepers.
Proof.
  unfold has_keeper. rewrite bool_decide_eq_false. intros H x Hx Hk.
  apply H, Exists_exists. eauto.
Qed.

(** Without a keeper, nothing is left below the folder. *)
Lemma prune_no_keeper (keepers : gset positive) (t : tree) :
  has_keeper keepers t = false -> prune keepers t = Tree (root t) [] [].
Proof.
  destruct t as [a files folders]. intros Hk. rewrite prune_unfold.
  pose proof (has_keeper_false _ _ Hk) as Hnone.
  rewrite decide_False by (apply Hnone; simpl; by left).
  simpl. f_equal.
  - apply filter_none. intros f Hf. apply Hnone. simpl. right.
    apply elem_of_app. by left.
  - rewrite filter_none; [done|]. intros c Hc Hkc.
    assert (Hsome : has_keeper keepers (Tree a files folders) = true).
    { apply has_keeper_unfold. right. right. eauto. }
    congruence.
Qed.

Lemma nodes_prune_sublist (keepers : gset positive) (t : tree) :
  nodes (prune keepers t) `sublist_of` nodes t.
Proof.
  induction t as [a files folders IH] using tree_ind.
  rewrite prune_unfold. destruct (decide (a ∈ keepers)); [done|].
  simpl. apply sublist_skip. apply sublist_app; [apply sublist_filter|].
  induction folders as [|c folders IHf]; [done|].
  apply Forall_cons in IH as [IHc IH].
  rewrite filter_cons. destruct (decide (has_keeper keepers c = true)); simpl.
  - apply sublist_app; auto.
  - apply sublist_inserts_l. auto.
Qed.

Lemma nodes_prune_elem_of (keepers : gset positive) (t : tree) (x : positive) :
  x ∈ nodes (prune keepers t) -> x ∈ nodes t.
Proof. apply sublist_subseteq, nodes_prune_sublist. Qed.

Lemma nodes_prune_NoDup (keepers : gset positive) (t : tree) :
  NoDup (nodes t) -> NoDup (nodes (prune keepers t)).
Proof. intros H. eapply sublist_NoDup; [done|apply nodes_prune_sublist]. Qed.

Lemma height_children_le (a b : positive) (files files' : list positive)
    (folders folders' : list tree) :
  (forall c', c' ∈ folders' ->
     exists c, c ∈ folders /\ (height c' <= height c)%nat) ->
  (height (Tree a files' folders') <= height (Tree b files folders))%nat.
Proof.
  intros H. simpl. apply le_n_S.
  induction folders' as [|c' folders' IH]; simpl; [lia|].
  apply Nat.max_lub.
  - destruct (H c' ltac:(by left)) as (c & Hc & Hle).
    pose proof (height_child b files folders c Hc). simpl in *. lia.
  - apply IH. intros d Hd. apply H. by right.
Qed.

Lemma height_prune (keepers : gset positive) (t : tree) :
  (height (prune keepers t) <= height t)%nat.
Proof.
  induction t as [a files folders IH] using tree_ind.
  rewrite prune_unfold. destruct (decide (a ∈ keepers)); [done|].
  apply height_children_le. intros c' Hc'.
  apply list_elem_of_fmap in Hc' as (c & -> & Hc).
  apply list_elem_of_filter in Hc as [_ Hc].
  exists c. split; [done|]. rewrite Forall_forall in IH. auto.
Qed.

Lemma has_keeper_prune (keepers : gset positive) (t : tree) :
  has_keeper keepers (prune keepers t) = has_keeper keepers t.
Proof.
  induction t as [a files folders IH] using tree_ind.
  rewrite prune_unfold. destruct (decide (a ∈ keepers)) as [|Hnot]; [done|].
  apply eq_true_iff_eq. rewrite !has_keeper_unfold. rewrite Forall_forall in IH.
  split.
  - intros [?|[(f & Hf & ?)|(c' & Hc' & Hk)]]; [by left| |].
    + apply list_elem_of_filter in Hf as [_ Hf]. right. left. eauto.
    + apply list_elem_of_fmap in Hc' as (c & -> & Hc).
      apply list_elem_of_filter in Hc as [? Hc]. right. right. eauto.
  - intros [?|[(f & Hf & ?)|(c & Hc & Hk)]]; [by left| |].
    + right. left. exists f. split; [|done]. by apply list_elem_of_filter.
    + right. right. exists (prune keepers c). split.
      * apply list_elem_of_fmap. exists c. split; [done|].
        by apply list_elem_of_filter.
      * by rewrite IH.
Qed.

Lemma prune_idemp (keepers : gset positive) (t : tree) :
  prune keepers (prune keepers t) = prune keepers t.
Proof.
  induction t as [a files folders IH] using tree_ind.
  rewrite prune_unfold. destruct (decide (a ∈ keepers)) as [Hin|Hnot].
  - rewrite prune_unfold. by rewrite decide_True.
  - rewrite prune_unfold, decide_False by done. f_equal.
    + rewrite filter_all; [done|]. intros f Hf.
      by apply list_elem_of_filter in Hf as [? _].
    + rewrite filter_all.
      * rewrite <- list_fmap_compose. apply list_fmap_ext.
        intros i c Hc. simpl. rewrite Forall_forall in IH. apply IH.
        apply list_elem_of_lookup_2 in Hc.
        by apply list_elem_of_filter in Hc as [_ ?].
      * intros c' Hc'. apply list_elem_of_fmap in Hc' as (c & -> & Hc).
        apply list_elem_of_filter in Hc as [Hk _].
        by rewrite has_keeper_prune.
Qed.

Lemma flat_map_prune_sublist (keepers : gset positive) (folders : list tree) :
  flat_map nodes (map (prune keepers) folders) `sublist_of` flat_map nodes folders.
Proof.
  induction folders as [|c folders IH]; [done|]. simpl.
  apply sublist_app; [apply nodes_prune_sublist|done].
Qed.

Lemma map_root_prune (keepers : gset positive) (folders : list tree) :
  map root (map (prune keepers) folders) = map root folders.
Proof.
  rewrite map_map. apply map_ext. intros c. apply root_prune.
Qed.

Lemma root_inj_in (folders : list tree) (c c' : tree) :
  NoDup (map root folders) -> c ∈ folders -> c' ∈ folders ->
  root c = root c' -> c = c'.
Proof.
  intros Hnd Hc Hc' Heq.
  rewrite <- (subtree_at_root folders c Hnd Hc).
  rewrite <- (subtree_at_root folders c' Hnd Hc'). by rewrite Heq.
Qed.

Lemma subtree_at_prune (keepers : gset positive) (folders : list tree) (c : tree) :
  NoDup (map root folders) -> c ∈ folders ->
  subtree_at (map (prune keepers) folders) (root c) = prune keepers c.
Proof.
  intros Hnd Hc. rewrite <- (root_prune keepers c).
  apply subtree_at_root.
  - by rewrite map_root_prune.
  - apply list_elem_of_fmap. eauto.
Qed.

(** The folders [FolderNode::trim] removes: the roots of the folders
    without a keeper. *)
Lemma dropped_root (keepers : gset positive) (folders : list tree) (c : tree) :
  NoDup (map root folders) -> c ∈ folders ->
  root c ∈ map root (filter (fun c => has_keeper keepers c = false) folders)
    <-> has_keeper keepers c = false.
Proof.
  intros Hnd Hc. rewrite list_elem_of_fmap. split.
  - intros (c' & Heq & Hc'). apply list_elem_of_filter in Hc' as [Hk Hc'].
    by rewrite (root_inj_in folders c c' Hnd Hc Hc' Heq).
  - intros Hk. exists c. split; [done|]. by apply list_elem_of_filter.
Qed.

Lemma filter_roots_prune (keepers : gset positive) (folders : list tree) :
  NoDup (map root folders) ->
  filter (fun c' => root c' ∉
            map root (filter (fun c => has_keeper keepers c = false) folders))
    (map (prune keepers) folders)
  = map (prune keepers) (filter (fun c => has_keeper keepers c = true) folders).
Proof.
  intros Hnd. rewrite map_filter_comm. f_equal.
  apply filter_ext_elem_of. intros c Hc. rewrite root_prune.
  rewrite (dropped_root keepers folders c Hnd Hc).
  destruct (has_keeper keepers c); split; congruence.
Qed.

Lemma list_difference_disjoint (l k : list positive) :
  (forall x, x ∈ l -> x ∉ k) -> list_difference l k = l.
Proof.
  intros H. induction l as [|x l IH]; [done|]. simpl.
  destruct (decide_rel elem_of x k) as [Hin|Hnin].
  - exfalso. apply (H x); [by left|done].
  - f_equal. apply IH. intros y Hy. apply H. by right.
Qed.

Lemma trim_answer_folder (keepers : gset positive) (a : positive)
    (files : list positive) (folders : list tree) :
  a ∉ keepers ->
  (if negb (length files =? length (filter (fun x => ~ x ∈ keepers) files))%nat
      || negb (length folders
               =? length (map root
                    (filter (fun c => has_keeper keepers c = false) folders)))%nat
   then None else Some a)
  = trim_answer keepers (Tree a files folders).
Proof.
  intros Ha. unfold trim_answer. rewrite length_map.
  destruct (has_keeper keepers (Tree a files folders)) eqn:Hk.
  - apply has_keeper_unfold in Hk as [?|[(f & Hf & HfK)|(c & Hc & HcK)]];
      [done| |].
    + assert (Hne : length (filter (fun x => ~ x ∈ keepers) files) <> length files).
      { intros Heq. apply length_filter_eq in Heq.
        rewrite Forall_forall in Heq. by apply (Heq f). }
      apply Nat.neq_sym, Nat.eqb_neq in Hne. by rewrite Hne.
    + assert (Hne : length (filter (fun c => has_keeper keepers c = false) folders)
                    <> length folders).
      { intros Heq. apply length_filter_eq in Heq.
        rewrite Forall_forall in Heq. specialize (Heq c Hc). congruence. }
      apply Nat.neq_sym, Nat.eqb_neq in Hne. rewrite Hne.
      by rewrite orb_true_r.
  - assert (Hno := has_keeper_false _ _ Hk).
    rewrite (proj2 (length_filter_eq (fun x => ~ x ∈ keepers) files)).
    2:{ apply Forall_forall. intros f Hf. apply Hno. simpl. right.
        apply elem_of_app. by left. }
    rewrite (proj2 (length_filter_eq (fun c => has_keeper keepers c = false)
                      folders)).
    2:{ apply Forall_forall. intros c Hc.
        destruct (has_keeper keepers c) eqn:Hkc; [|done].
        assert (has_keeper keepers (Tree a files folders) = true).
        { apply has_keeper_unfold. right. right. eauto. }
        congruence. }
    by rewrite !Nat.eqb_refl.
Qed.

Lemma sublist_flat_map {A B} (f : A -> list B) (l k : list A) :
  l `sublist_of` k -> flat_map f l `sublist_of` flat_map f k.
Proof.
  induction 1 as [|x l k _ IH|x l k _ IH]; simpl; [done| |].
  - by apply sublist_app.
  - by apply sublist_inserts_l.
Qed.

Lemma root_prune_if (keepers : gset positive) (isP : positive -> bool) (t : tree) :
  root (prune_if keepers isP t) = root t.
Proof. unfold prune_if. destruct (isP (root t)); [apply root_prune|done]. Qed.

Lemma map_root_prune_if (keepers : gset positive) (isP : positive -> bool)
    (folders : list tree) :
  map root (map (prune_if keepers isP) folders) = map root folders.
Proof. rewrite map_map. apply map_ext. intros c. apply root_prune_if. Qed.

Lemma nodes_prune_if_sublist (keepers : gset positive) (isP : positive -> bool)
    (t : tree) :
  nodes (prune_if keepers isP t) `sublist_of` nodes t.
Proof.
  unfold prune_if. destruct (isP (root t)); [apply nodes_prune_sublist|done].
Qed.

Lemma flat_map_prune_if_sublist (keepers : gset positive) (isP : positive -> bool)
    (folders : list tree) :
  flat_map nodes (map (prune_if keepers isP) folders)
    `sublist_of` flat_map nodes folders.
Proof.
  induction folders as [|c folders IH]; [done|]. simpl.
  apply sublist_app; [apply nodes_prune_if_sublist|done].
Qed.

Lemma height_prune_if (keepers : gset positive) (isP : positive -> bool)
    (t : tree) :
  (height (prune_if keepers isP t) <= height t)%nat.
Proof. unfold prune_if. destruct (isP (root t)); [apply height_prune|done]. Qed.

Lemma has_keeper_prune_if (keepers : gset positive) (isP : positive -> bool)
    (t : tree) :
  has_keeper keepers (prune_if keepers isP t) = has_keeper keepers t.
Proof.
  unfold prune_if. destruct (isP (root t)); [apply has_keeper_prune|done].
Qed.

Lemma prune_prune_if (keepers : gset positive) (isP : positive -> bool)
    (t : tree) :
  prune keepers (prune_if keepers isP t) = prune keepers t.
Proof. unfold prune_if. destruct (isP (root t)); [apply prune_idemp|done]. Qed.

Lemma subtree_at_prune_if (keepers : gset positive) (isP : positive -> bool)
    (folders : list tree) (c : tree) :
  NoDup (map root folders) -> c ∈ folders ->
  subtree_at (map (prune_if keepers isP) folders) (root c)
    = prune_if keepers isP c.
Proof.
  intros Hnd Hc. rewrite <- (root_prune_if keepers isP c).
  apply subtree_at_root.
  - by rewrite map_root_prune_if.
  - apply list_elem_of_fmap. eauto.
Qed.

(** The sub-projects the first pass of [ProjectNode::trim] removes. *)
Lemma dropped_project (keepers : gset positive) (isP : positive -> bool)
    (folders : list tree) (c : tree) :
  NoDup (map root folders) -> c ∈ folders ->
  root c ∈ map root (filter (fun c => has_keeper keepers c = false)
                       (filter (fun c => isP (root c) = true) folders))
    <-> isP (root c) = true /\ has_keeper keepers c = false.
Proof.
  intros Hnd Hc. rewrite list_elem_of_fmap. split.
  - intros (c' & Heq & Hc'). apply list_elem_of_filter in Hc' as [Hk Hc'].
    apply list_elem_of_filter in Hc' as [Hp Hc'].
    by rewrite (root_inj_in folders c c' Hnd Hc Hc' Heq).
  - intros [Hp Hk]. exists c. split; [done|].
    apply list_elem_of_filter. split; [done|]. by apply list_elem_of_filter.
Qed.

(** Pruning what the first pass of [ProjectNode::trim] leaves is pruning
    the tree. *)
Lemma prune_after_projects (keepers : gset positive) (isP : positive -> bool)
    (a : positive) (files : list positive) (folders : list tree) :
  NoDup (map root folders) -> a ∉ keepers ->
  prune keepers
    (Tree a files
       (filter (fun c' => root c' ∉
                  map root (filter (fun c => has_keeper keepers c = false)
                              (filter (fun c => isP (root c) = true) folders)))
          (map (prune_if keepers isP) folders)))
  = prune keepers (Tree a files folders).
Proof.
  intros Hnd Ha. rewrite !prune_unfold, !decide_False by done. f_equal.
  rewrite !map_filter_comm, map_map, list_filter_filter.
  rewrite (map_ext _ (prune keepers) (prune_prune_if keepers isP)). f_equal.
  apply filter_ext_elem_of. intros c Hc.
  rewrite has_keeper_prune_if, root_prune_if.
  rewrite (dropped_project keepers isP folders c Hnd Hc).
  destruct (has_keeper keepers c); [|by split; [intros [? _]|]].
  split; [done|]. intros _. split; [done|]. by intros [_ ?].
Qed.

Lemma has_keeper_after_projects (keepers : gset positive) (isP : positive -> bool)
    (a : positive) (files : list positive) (folders : list tree) :
  NoDup (map root folders) -> a ∉ keepers ->
  has_keeper keepers
    (Tree a files
       (filter (fun c' => root c' ∉
                  map root (filter (fun c => has_keeper keepers c = false)
                              (filter (fun c => isP (root c) = true) folders)))
          (map (prune_if keepers isP) folders)))
  = has_keeper keepers (Tree a files folders).
Proof.
  intros Hnd Ha.
  rewrite <- has_keeper_prune, (prune_after_projects _ _ _ _ _ Hnd Ha).
  apply has_keeper_prune.
Qed.

(** Without a keeper below, every sub-project goes in the first pass. *)
Lemma no_keeper_all_projects (keepers : gset positive) (P : tree -> Prop)
    `{!forall c, Decision (P c)} (a : positive) (files : list positive)
    (folders : list tree) :
  has_keeper keepers (Tree a files folders) = false ->
  filter (fun c => has_keeper keepers c = false) (filter P folders)
    = filter P folders.
Proof.
  intros Hk. apply filter_all. intros c Hc.
  apply list_elem_of_filter in Hc as [_ Hc].
  destruct (has_keeper keepers c) eqn:Hkc; [|done].
  assert (has_keeper keepers (Tree a files folders) = true); [|congruence].
  apply has_keeper_unfold. right. right. eauto.
Qed.

Lemma has_keeper_elem (keepers : gset positive) (t : tree) :
  has_keeper keepers t = true <-> exists x, x ∈ nodes t /\ x ∈ keepers.
Proof.
  split.
  - induction t as [a files folders IH] using tree_ind. intros Hk.
    apply has_keeper_unfold in Hk as [?|[(f & Hf & HfK)|(c & Hc & HcK)]].
    + exists a. split; [by left|done].
    + exists f. split; [|done]. right. apply elem_of_app. by left.
    + rewrite Forall_forall in IH.
      destruct (IH c Hc HcK) as (x & Hx & HxK). exists x. split; [|done].
      right. apply elem_of_app. right. apply elem_of_flat_map. eauto.
  - intros (x & Hx & HxK). destruct (has_keeper keepers t) eqn:Hk; [done|].
    by destruct (has_keeper_false keepers t Hk x Hx).
Qed.
(** ** The tree of a folder, whatever the lists of sub-projects say *)

Lemma same_but_children_refl (n : Node) : same_but_children n n.
Proof. unfold same_but_children. by destruct n. Qed.

Lemma same_but_children_trans (n1 n2 n3 : Node) :
  same_but_children n1 n2 -> same_but_children n2 n3 ->
  same_but_children n1 n3.
Proof.
  destruct n1, n2, n3.
  unfold same_but_children, set_fileNodes, set_folderNodes. simpl.
  intros H12 H23. congruence.
Qed.

Lemma same_but_children_skeleton (h h' : gmap positive Node) (x : positive)
    (n n' : Node) :
  h !! x = Some n -> h' !! x = Some n' -> same_but_children n n' ->
  skeleton h' x = skeleton h x.
Proof.
  intros Hn Hn' Hsame. unfold skeleton. rewrite Hn, Hn', Hsame. done.
Qed.

Lemma wf_tree_holds (t : tree) :
  forall h par, wf_tree h par t -> holds h par t.
Proof.
  induction t as [a files folders IH] using tree_ind. intros h par Hwf.
  inversion Hwf as [? ? n ? ? Ha Hty Hpar Hses Hfiles Hfolders Hproj Hprojty Hsf Hsd Hleaf Hkids];
    subst.
  apply holds_intro with n; try done.
  rewrite Forall_forall in IH, Hkids. apply Forall_forall. auto.
Qed.

Lemma holds_frame (h h' : gmap positive Node) (parent : option positive)
    (t : tree) :
  holds h parent t ->
  (forall a, a ∈ nodes t -> h' !! a = h !! a) ->
  holds h' parent t.
Proof.
  revert parent. induction t as [a files folders IH] using tree_ind.
  intros parent Hh Hagree.
  inversion Hh as [? ? n ? ? Ha Hty Hpar Hses Hfiles Hfolders Hsf Hsd Hleaf Hkids];
    subst.
  apply holds_intro with n; try done.
  - rewrite Hagree; [done|]. simpl. by left.
  - apply Forall_forall. intros f Hf. rewrite Forall_forall in Hleaf.
    apply (file_leaf_frame h); [|by apply Hleaf].
    apply Hagree. simpl. right. apply elem_of_app. by left.
  - apply Forall_forall. intros c Hc. rewrite Forall_forall in IH, Hkids.
    apply IH; [done|by apply Hkids|].
    intros x Hx. apply Hagree. simpl. right. apply elem_of_app. right.
    by apply (nodes_child c).
Qed.

Lemma holds_child_alive (h : gmap positive Node) (par : option positive)
    (c : tree) :
  holds h par c -> is_Some (h !! root c).
Proof. inversion 1; subst; simpl; eauto. Qed.

Lemma holds_alive (t : tree) :
  forall h par x, holds h par t -> x ∈ nodes t -> is_Some (h !! x).
Proof.
  induction t as [a files folders IH] using tree_ind. intros h par x Hh Hx.
  inversion Hh as [? ? n ? ? Ha Hty Hpar Hses Hfiles Hfolders Hsf Hsd Hleaf Hkids];
    subst.
  simpl in Hx. apply elem_of_cons in Hx as [->|Hx]; [eauto|].
  apply elem_of_app in Hx as [Hx|Hx].
  - rewrite Forall_forall in Hleaf.
    destruct (Hleaf x Hx) as (nf & Hnf & _). eauto.
  - apply elem_of_flat_map in Hx as (c & Hc & Hx).
    rewrite Forall_forall in IH, Hkids.
    by apply (IH c Hc h (Some a) x); auto.
Qed.

Lemma holds_managed_child (h : gmap positive Node) (a : positive)
    (l : list positive) (c : tree) :
  managed h a l -> holds h (Some a) c -> managed h (root c) (a :: l).
Proof.
  intros Hm Hh.
  inversion Hh as [? ? nc ? ? Hc Hty Hpar Hses ? ? ? ? ? ?]; subst. simpl.
  apply (managed_child h a _ l nc); auto.
Qed.

Lemma is_empty_tree_holds (h : gmap positive Node) (par : option positive)
    (t : tree) (n : Node) :
  holds h par t -> h !! root t = Some n ->
  is_nil (m_folderNodes n) && is_nil (m_fileNodes n) = is_empty_tree t /\
  m_parentFolderNode n = par.
Proof.
  intros Hh Hn.
  inversion Hh as [? ? n0 ? ? Ha Hty Hpar Hses Hfiles Hfolders Hsf Hsd Hleaf Hkids];
    subst.
  simpl in Hn. assert (n0 = n) as -> by congruence.
  split; [|done]. unfold is_empty_tree. simpl. rewrite Hfolders.
  by destruct folders.
Qed.

Lemma cut_skeleton (h h' : gmap positive Node) (par : option positive)
    (t t' : tree) (x : positive) :
  cut h h' par t t' -> x ∈ nodes t' -> skeleton h' x = skeleton h x.
Proof.
  intros (_ & _ & Hsame & _) Hx.
  destruct (Hsame x Hx) as (n & n' & Hn & Hn' & Hs).
  by apply (same_but_children_skeleton h h' x n n').
Qed.

Lemma cut_None (h h' : gmap positive Node) (par : option positive)
    (t t' : tree) (x : positive) :
  cut h h' par t t' -> h !! x = None -> h' !! x = None.
Proof.
  intros (_ & Hgone & Hsame & Hframe) Hx.
  destruct (decide (x ∈ nodes t')) as [Hin'|Hnin'].
  - destruct (Hsame x Hin') as (n & n' & Hn & _). congruence.
  - destruct (decide (x ∈ nodes t)) as [Hin|Hnin]; [by apply Hgone|].
    by rewrite Hframe.
Qed.

Lemma cut_trans (h h1 h2 : gmap positive Node) (par : option positive)
    (t t1 t2 : tree) :
  cut h h1 par t t1 -> cut h1 h2 par t1 t2 ->
  (forall x, x ∈ nodes t1 -> x ∈ nodes t) ->
  (forall x, x ∈ nodes t2 -> x ∈ nodes t1) ->
  cut h h2 par t t2.
Proof.
  intros (_ & Hgone1 & Hsame1 & Hout1) (Hh2 & Hgone2 & Hsame2 & Hout2)
    Hsub1 Hsub2.
  split; [done|]. split; [|split].
  - intros x Hx Hnot. destruct (decide (x ∈ nodes t1)) as [Hin|Hnin].
    + by apply Hgone2.
    + rewrite Hout2 by done. by apply Hgone1.
  - intros x Hx.
    destruct (Hsame2 x Hx) as (n1 & n2 & Hn1 & Hn2 & Hs2).
    destruct (Hsame1 x (Hsub2 x Hx)) as (n & n1' & Hn & Hn1' & Hs1).
    assert (n1' = n1) as -> by congruence.
    exists n, n2. split; [done|]. split; [done|].
    by apply (same_but_children_trans n n1 n2).
  - intros x Hx. rewrite Hout2 by (intros ?; by apply Hx, Hsub1).
    by apply Hout1.
Qed.

(** ** ProjectNode::removeProjectNodes and SessionNode::removeProjectNodes *)


(** C8.  On a folder whose tree is well formed, and for a non-empty list of
    distinct sub-projects of it, both functions erase every listed project
    from [m_projectNodes] and from [m_folderNodes] and emit the same two
    notifications.  [ProjectNode::removeProjectNodes] deletes the projects:
    they are gone from the store, which is otherwise unchanged outside the
    tree.  [SessionNode::removeProjectNodes] changes the session object only:
    the removed projects stay in the store as they were. *)
Theorem removeProjectNodes_destroy_asymmetry (fuel : nat)
    (h : gmap positive Node) (parent : option positive) (self : positive)
    (files : list positive) (folders : list tree) (n : Node) (tr : list Event)
    (subProjects : list positive) :
  wf_tree h parent (Tree self files folders) ->
  NoDup (nodes (Tree self files folders)) ->
  (height (Tree self files folders) <= fuel)%nat ->
  h !! self = Some n ->
  subProjects <> [] -> NoDup subProjects ->
  (forall p, p ∈ subProjects -> p ∈ m_projectNodes n) ->
  let n' := set_folderNodes (list_difference (m_folderNodes n) subProjects)
              (set_projectNodes
                 (list_difference (m_projectNodes n) subProjects) n) in
  let notes := [FoldersAboutToBeRemoved self (sort_ptr subProjects);
                FoldersRemoved self] in
  (forall p, p ∈ subProjects ->
     (p ∉ m_projectNodes n') /\ (p ∉ m_folderNodes n') /\ is_Some (h !! p)) /\
  (exists hP,
     ProjectNode_removeProjectNodes fuel self subProjects (mkState h tr)
       = Val (tt, mkState hP (tr ++ notes)) /\
     hP !! self = Some n' /\
     (forall p, p ∈ subProjects -> hP !! p = None) /\
     (forall a, a ∉ nodes (Tree self files folders) -> hP !! a = h !! a)) /\
  SessionNode_removeProjectNodes self subProjects (mkState h tr)
    = Val (tt, mkState (<[self := n']> h) (tr ++ notes)) /\
  (forall p, p ∈ subProjects -> (<[self := n']> h) !! p = h !! p).
Proof.
  intros Hwf Hnd Hfuel Hn Hne Hndp Hsub n' notes.
  inversion Hwf as [? ? n0 ? ? Ha Hty Hpar Hses Hfiles Hfolders Hproj Hprojty Hsf Hsd Hleaf Hkids];
    subst.
  assert (n0 = n) as -> by congruence. clear Ha.
  simpl in Hnd. apply NoDup_cons in Hnd as [Hself_notin Hnd].
  apply NoDup_app in Hnd as (Hnd_files & Hdisj & Hnd_kids).
  assert (Hroots : forall p, p ∈ subProjects -> p ∈ map root folders).
  { intros p Hp. specialize (Hsub p Hp). rewrite Hproj in Hsub.
    by apply list_elem_of_filter in Hsub as [_ ?]. }
  assert (Hboth : forall p, p ∈ subProjects ->
                    p ∈ m_projectNodes n /\ p ∈ m_folderNodes n).
  { intros p Hp. split; [auto|]. rewrite Hfolders. auto. }
  assert (Hps : StronglySorted Pos.lt (m_projectNodes n)).
  { rewrite Hproj. by apply StronglySorted_filter. }
  assert (Hfs : StronglySorted Pos.lt (m_folderNodes n)) by (by rewrite Hfolders).
  assert (Hnil : is_nil subProjects = false) by (by destruct subProjects).
  set (D := fun r => nodes (subtree_at folders r)).
  assert (HD : forall r a, r ∈ subProjects -> a ∈ D r ->
                 a ∈ flat_map nodes folders).
  { intros r a Hr Hin.
    destruct (subtree_at_elem_of folders r (Hroots r Hr)) as [Hc _].
    by apply (nodes_child (subtree_at folders r)). }
  assert (Hne_self : forall p, p ∈ subProjects -> p <> self).
  { intros p Hp ->. apply Hself_notin, elem_of_app. right.
    apply (HD self); [done|]. apply root_in_subtree. auto. }
  split; [|split; [|split]].
  - intros p Hp. split; [|split].
    + simpl. rewrite list_elem_of_difference. tauto.
    + simpl. rewrite list_elem_of_difference. tauto.
    + destruct (subtree_at_elem_of folders p (Hroots p Hp)) as [Hc Hr].
      rewrite Forall_forall in Hkids. rewrite <- Hr.
      by apply (wf_tree_child_alive h (Some self)), Hkids.
  - exists (<[self := n']> (delete_all (flat_map D subProjects) h)).
    split; [|split; [|split]].
    + pose proof (removeProjectNodes_spec (destroy fuel) D self h n tr
                    subProjects) as Hspec.
      rewrite Hnil in Hspec. unfold ProjectNode_removeProjectNodes.
      rewrite Hnil. apply Hspec; try done.
      * intros r h' Hr Hagree tr'.
        apply (destroy_subtree fuel self folders h); auto.
        apply Forall_forall. intros c Hc.
        pose proof (height_child self (m_fileNodes n) folders c Hc). lia.
      * intros r Hr Hin. apply Hself_notin, elem_of_app. right. by apply (HD r).
      * by apply NoDup_subtrees.
    + apply lookup_insert_eq.
    + intros p Hp. rewrite lookup_insert_ne by (intros Heq; by apply (Hne_self p)).
      rewrite lookup_delete_all. rewrite decide_True; [done|].
      apply elem_of_flat_map. exists p. split; [done|].
      apply root_in_subtree. auto.
    + intros a Ha. simpl in Ha.
      apply not_elem_of_cons in Ha as [Hne_a Ha].
      rewrite lookup_insert_ne by done.
      rewrite lookup_delete_all. rewrite decide_False; [done|].
      intros Hin. apply elem_of_flat_map in Hin as (r & Hr & Hin).
      apply Ha, elem_of_app. right. by apply (HD r).
  - pose proof (removeProjectNodes_spec (fun _ => ret tt) (fun _ => []) self h n
                  tr subProjects) as Hspec.
    rewrite Hnil, flat_map_nil_const in Hspec.
    unfold SessionNode_removeProjectNodes. rewrite Hnil.
    apply Hspec; try done.
    + intros r Hr Hin. by apply elem_of_nil in Hin.
    + constructor.
  - intros p Hp. apply lookup_insert_ne. intros Heq. by apply (Hne_self p).
Qed.

(** Well-formedness of a tree in a store given in full. *)
Ltac solve_NoDup := apply (bool_decide_unpack _); vm_compute; exact I.

Ltac solve_wf_node :=
  eapply wf_tree_intro;
    [ reflexivity
    | discriminate
    | reflexivity
    | first [ intros _; discriminate | intros [? ?]; discriminate ]
    | reflexivity
    | reflexivity
    | reflexivity
    | first [ intros Hne; by destruct Hne | intros _; by left | intros _; by right ]
    | solve_NoDup
    | solve_NoDup
    | | ].

Ltac solve_file_leaf :=
  eexists; split; [reflexivity|]; repeat split; reflexivity.

Ltac solve_wf_tree :=
  repeat first
    [ apply Forall_nil_2
    | apply Forall_cons_2
    | solve_wf_node
    | solve_file_leaf ].

Lemma removeProjectNodes_destroy_asymmetry_witness :
  (exists hP tr',
     ProjectNode_removeProjectNodes 3 1 [2%positive] (mkState nested_projects [])
       = Val (tt, mkState hP tr') /\
     hP !! 2%positive = None) /\
  (exists s',
     SessionNode_removeProjectNodes 1 [2%positive] (mkState nested_projects [])
       = Val (tt, s') /\
     heap s' !! 2%positive = nested_projects !! 2%positive).
Proof.
  destruct (removeProjectNodes_destroy_asymmetry 3 nested_projects None 1 []
              [Tree 2 [3%positive] []]
              (mkFolderNode ProjectNodeType "/p" None [] [2%positive] [2%positive])
              [] [2%positive])
    as (_ & (hP & HP & _ & Hgone & _) & HS & Hstay).
  - solve_wf_tree.
  - solve_NoDup.
  - simpl. lia.
  - reflexivity.
  - discriminate.
  - solve_NoDup.
  - intros p Hp. exact Hp.
  - split.
    + exists hP. eexists. split; [exact HP|]. apply Hgone. by left.
    + eexists. split; [exact HS|]. apply Hstay. by left.
Defined.

(** ** FileNode::scanForFiles: termination and cancellation *)

Lemma visited_count_eq (c : string) (V : gset string) :
  (size V =? size ({[c]} ∪ V))%nat = true <-> c ∈ V.
Proof.
  rewrite Nat.eqb_eq. split.
  - intros Hsize. destruct (decide (c ∈ V)) as [|Hnot]; [done|].
    rewrite size_union, size_singleton in Hsize by set_solver. lia.
  - intros Hin. f_equal. set_solver.
Qed.

(** What a call adds to the state: the directories it lists are new and
    distinct, and they are what it adds to [visited]. *)
Definition scan_step (st st' : ScanState) : Prop :=
  exists new, listed st' = listed st ++ new /\ NoDup new /\
    (forall c, c ∈ new -> c ∉ visited st) /\
    visited st' = list_to_set new ∪ visited st.

Lemma scan_step_same (st st' : ScanState) :
  visited st' = visited st -> listed st' = listed st -> scan_step st st'.
Proof.
  intros Hv Hl.
  exists []. rewrite app_nil_r. split; [done|]. split; [constructor|].
  split; [intros c Hc; by apply elem_of_nil in Hc|].
  rewrite Hv. simpl. by rewrite (left_id_L ∅ (∪)).
Qed.

Lemma scan_step_refl (st : ScanState) : scan_step st st.
Proof. by apply scan_step_same. Qed.

Lemma scan_step_trans (st1 st2 st3 : ScanState) :
  scan_step st1 st2 -> scan_step st2 st3 -> scan_step st1 st3.
Proof.
  intros (n1 & Hl1 & Hnd1 & Hnew1 & Hv1) (n2 & Hl2 & Hnd2 & Hnew2 & Hv2).
  exists (n1 ++ n2). split; [|split; [|split]].
  - by rewrite Hl2, Hl1, app_assoc.
  - apply NoDup_app. split; [done|]. split; [|done].
    intros c Hc1 Hc2. apply (Hnew2 c Hc2). rewrite Hv1. set_solver.
  - intros c Hc. apply elem_of_app in Hc as [Hc|Hc]; [auto|].
    specialize (Hnew2 c Hc). rewrite Hv1 in Hnew2. set_solver.
  - rewrite Hv2, Hv1, list_to_set_app_L. set_solver.
Qed.

Lemma scan_step_visited (st st' : ScanState) :
  scan_step st st' -> visited st ⊆ visited st'.
Proof. intros (n & _ & _ & _ & ->). set_solver. Qed.

Lemma scan_step_poll (future : option (nat -> bool)) (st : ScanState) :
  scan_step st (poll future st).2.
Proof. destruct future; simpl; by apply scan_step_same. Qed.

Lemma unvisited_shrinks (U V V' : gset string) :
  V ⊆ V' -> (size (U ∖ V') <= size (U ∖ V))%nat.
Proof. intros H. apply subseteq_size. set_solver. Qed.

Section scan_termination.
Context {A : Type} (fs : FileSystem) (factory : FileName -> A)
        (future : option (nat -> bool)) (U : gset string).
Hypothesis canonical_finite : forall d, canonicalPath fs d ∈ U.

Lemma scan_entries_total (fuel : nat)
    (recurse : FileName -> ScanState -> result (list A * ScanState)) :
  (forall d st, (size (U ∖ visited st) < fuel)%nat ->
     exists r st', recurse d st = Val (r, st') /\ scan_step st st') ->
  forall directory entries files st,
    (size (U ∖ visited st) < fuel)%nat ->
    exists r st',
      scan_entries fs factory future recurse directory entries files st
        = Val (r, st') /\ scan_step st st'.
Proof.
  intros Hrec directory.
  induction entries as [|entry entries IH]; intros files st Hsize; simpl.
  - exists files, st. split; [done|apply scan_step_refl].
  - pose proof (scan_step_poll future st) as Hpoll.
    destruct (poll future st) as [canceled st1] eqn:Epoll. simpl in Hpoll.
    pose proof (unvisited_shrinks U _ _ (scan_step_visited _ _ Hpoll)) as Hs1.
    destruct canceled; [by exists files, st1|].
    destruct (negb (isVcsFileOrDirectory fs directory (absoluteFilePath entry))).
    + destruct (isDir entry).
      * destruct (Hrec (absoluteFilePath entry) st1 ltac:(lia))
          as (sub & st2 & -> & Hstep2).
        pose proof (unvisited_shrinks U _ _ (scan_step_visited _ _ Hstep2)).
        destruct (IH (files ++ sub) st2 ltac:(lia)) as (r & st' & -> & Hstep).
        exists r, st'. split; [done|].
        eauto using scan_step_trans.
      * destruct (IH (files ++ [factory (absoluteFilePath entry)]) st1 ltac:(lia))
          as (r & st' & -> & Hstep).
        exists r, st'. eauto using scan_step_trans.
    + destruct (IH files st1 ltac:(lia)) as (r & st' & -> & Hstep).
      exists r, st'. eauto using scan_step_trans.
Qed.

Lemma scanForFilesRecursively_total (fuel : nat) :
  forall directory st,
    (size (U ∖ visited st) < fuel)%nat ->
    exists r st',
      scanForFilesRecursively fs factory future fuel directory st = Val (r, st')
      /\ scan_step st st'.
Proof.
  induction fuel as [|fuel IH]; intros directory st Hsize; [lia|].
  simpl.
  destruct (size (visited st) =? size ({[canonicalPath fs directory]} ∪ visited st))%nat
    eqn:E.
  - exists [], st. split; [done|apply scan_step_refl].
  - assert (Hnew : canonicalPath fs directory ∉ visited st).
    { intros Hin. apply visited_count_eq in Hin. congruence. }
    set (st1 := mkScanState ({[canonicalPath fs directory]} ∪ visited st)
                  (polls st) (listed st ++ [canonicalPath fs directory])).
    assert (Hstep1 : scan_step st st1).
    { exists [canonicalPath fs directory]. split; [done|].
      split; [apply NoDup_singleton|]. split.
      - intros c Hc. by apply list_elem_of_singleton in Hc as ->.
      - simpl. set_solver. }
    assert (Hsize1 : (size (U ∖ visited st1) < size (U ∖ visited st))%nat).
    { apply subset_size. simpl.
      pose proof (canonical_finite directory). set_solver. }
    destruct (scan_entries_total fuel
                (scanForFilesRecursively fs factory future fuel) IH
                directory (entryInfoList fs directory) [] st1 ltac:(lia))
      as (r & st' & Hrun & Hstep).
    exists r, st'. split; [done|]. eauto using scan_step_trans.
Qed.

Lemma scanForFilesRecursively_visited (fuel : nat) (directory : FileName)
    (st : ScanState) :
  canonicalPath fs directory ∈ visited st ->
  scanForFilesRecursively fs factory future (S fuel) directory st = Val ([], st).
Proof. intros Hin. simpl. apply visited_count_eq in Hin. by rewrite Hin. Qed.

End scan_termination.

(** C6.  When the canonical paths of the directories are finitely many,
    [scanForFiles] returns, given fuel beyond their number, whatever links
    the tree contains; a directory whose canonical path is in [visited] ends
    the recursion at once, with no files and the state as it was; and no
    canonical path is listed twice: the directories listed are distinct, and
    they are exactly the visited ones. *)
Theorem scanForFiles_terminates {A : Type} (fs : FileSystem)
    (factory : FileName -> A) (isCanceled : nat -> bool) (U : gset string)
    (fuel : nat) (directory : FileName) :
  (forall d, canonicalPath fs d ∈ U) ->
  (size U < fuel)%nat ->
  (exists r st,
     scanForFiles fs factory isCanceled fuel directory = Val (r, st) /\
     NoDup (listed st) /\ visited st = list_to_set (listed st)) /\
  (forall fuel' d st, canonicalPath fs d ∈ visited st ->
     scanForFilesRecursively fs factory (Some isCanceled) (S fuel') d st
       = Val ([], st)).
Proof.
  intros Hfin Hfuel. split.
  - destruct (scanForFilesRecursively_total fs factory (Some isCanceled) U Hfin
                fuel directory (mkScanState ∅ 0 []))
      as (r & st & Hrun & new & Hl & Hnd & _ & Hv).
    { simpl. pose proof (unvisited_shrinks U ∅ ∅ ltac:(done)).
      assert (size (U ∖ ∅) <= size U)%nat by (apply subseteq_size; set_solver).
      lia. }
    exists r, st. split; [done|]. simpl in Hl, Hv. rewrite Hl, Hv.
    split; [done|]. set_solver.
  - intros fuel' d st Hin. by apply scanForFilesRecursively_visited.
Qed.

Section scan_cancellation.
Context {A : Type} (fs : FileSystem) (factory : FileName -> A)
        (isCanceled : nat -> bool).
Hypothesis flag_stays_set : stays_set isCanceled.

(** Once the flag is set, the loop returns the files it has, at its next
    look at the flag if there is an entry left. *)
Lemma scan_entries_canceled
    (recurse : FileName -> ScanState -> result (list A * ScanState))
    (directory : FileName) (entries : list QFileInfo) (files : list A)
    (st : ScanState) :
  isCanceled (polls st) = true ->
  exists st',
    scan_entries fs factory (Some isCanceled) recurse directory entries files st
      = Val (files, st') /\ isCanceled (polls st') = true.
Proof.
  intros Hset. destruct entries as [|entry entries]; simpl.
  - by exists st.
  - rewrite Hset. eexists. split; [done|]. simpl.
    apply (flag_stays_set (polls st)); [lia|done].
Qed.

End scan_cancellation.

(** The loop and the rounds of the uncancelled scan, side by side: under a
    flag that is not set before the [k]-th look, the loop returns the files
    it had and the files of the rounds that come before that look. *)
Section scan_partial.
Context {A : Type} (fs : FileSystem) (factory : FileName -> A)
        (isCanceled : nat -> bool) (U : gset string) (k : nat).
Hypothesis canonical_finite : forall d, canonicalPath fs d ∈ U.
Hypothesis flag_stays_set : stays_set isCanceled.
Hypothesis flag_low : forall i, (i < k)%nat -> isCanceled i = false.

Lemma files_of_rounds_app (l1 l2 : list (FileName * QFileInfo)) :
  files_of_rounds fs factory (l1 ++ l2)
    = files_of_rounds fs factory l1 ++ files_of_rounds fs factory l2.
Proof. apply omap_app. Qed.

Lemma scan_entries_rounds (fuel : nat)
    (recurse : FileName -> ScanState -> result (list A * ScanState))
    (rrounds : FileName -> gset string
               -> list (FileName * QFileInfo) * gset string) :
  (forall d st rs V',
     (size (U ∖ visited st) < fuel)%nat ->
     rrounds d (visited st) = (rs, V') ->
     ((k < polls st + length rs)%nat -> isCanceled k = true) ->
     exists st',
       recurse d st
         = Val (files_of_rounds fs factory (take (k - polls st) rs), st') /\
       ((polls st + length rs <= k)%nat ->
          polls st' = (polls st + length rs)%nat /\ visited st' = V' /\
          visited st ⊆ V') /\
       ((k < polls st + length rs)%nat -> isCanceled (polls st') = true)) ->
  forall directory entries files st rs V',
    (size (U ∖ visited st) < fuel)%nat ->
    rounds_of_entries fs rrounds directory entries (visited st) = (rs, V') ->
    ((k < polls st + length rs)%nat -> isCanceled k = true) ->
    exists st',
      scan_entries fs factory (Some isCanceled) recurse directory entries
        files st
        = Val (files ++ files_of_rounds fs factory (take (k - polls st) rs),
               st') /\
      ((polls st + length rs <= k)%nat ->
         polls st' = (polls st + length rs)%nat /\ visited st' = V' /\
         visited st ⊆ V') /\
      ((k < polls st + length rs)%nat -> isCanceled (polls st') = true).
Proof.
  intros Hrec directory.
  induction entries as [|entry entries IH]; intros files st rs V' Hsize Hrs Hgo.
  { simpl in Hrs. injection Hrs as <- <-. exists st. simpl.
    rewrite take_nil. unfold files_of_rounds. simpl. rewrite app_nil_r.
    split; [done|]. split.
    - intros _. split; [lia|]. by split.
    - intros Hk. apply (flag_stays_set k); [lia|]. by apply Hgo. }
  set (st1 := mkScanState (visited st) (S (polls st)) (listed st)).
  assert (Hpoll : poll (Some isCanceled) st = (isCanceled (polls st), st1))
    by done.
  cbn [scan_entries]. rewrite Hpoll.
  cbn [rounds_of_entries] in Hrs.
  assert (Hlen : exists r rs', rs = r :: rs').
  { destruct (negb (isVcsFileOrDirectory fs directory (absoluteFilePath entry))
              && isDir entry).
    - destruct (rrounds (absoluteFilePath entry) (visited st)) as [sub V1].
      destruct (rounds_of_entries fs rrounds directory entries V1) as [rest V2].
      injection Hrs as <- _. eauto.
    - destruct (rounds_of_entries fs rrounds directory entries (visited st))
        as [rest V2].
      injection Hrs as <- _. eauto. }
  destruct (isCanceled (polls st)) eqn:Eflag.
  { (* the flag is set: the loop returns what it has *)
    assert (Hk : (k <= polls st)%nat).
    { destruct (decide (polls st < k)%nat) as [Hlt|]; [|lia].
      rewrite (flag_low _ Hlt) in Eflag. done. }
    exists st1. replace (k - polls st)%nat with 0%nat by lia.
    rewrite take_0. unfold files_of_rounds. simpl. rewrite app_nil_r.
    split; [done|]. split.
    - destruct Hlen as (r & rs' & ->). simpl. lia.
    - intros _. simpl. apply (flag_stays_set (polls st)); [lia|done]. }
  assert (Hk : (polls st < k)%nat).
  { destruct (decide (polls st < k)%nat) as [|Hge]; [done|].
    destruct Hlen as (r & rs' & ->). simpl in Hgo.
    rewrite (flag_stays_set k (polls st)) in Eflag; [done|lia|].
    apply Hgo. lia. }
  replace (k - polls st)%nat with (S (k - S (polls st))) by lia.
  destruct (isVcsFileOrDirectory fs directory (absoluteFilePath entry)) eqn:Evcs;
    cbn [negb andb] in *.
  { (* an entry of the version control system *)
    destruct (rounds_of_entries fs rrounds directory entries (visited st))
      as [rest V2] eqn:Erest.
    injection Hrs as <- <-.
    destruct (IH files st1 rest V2 Hsize Erest) as (st' & Hrun & Hfull & Hcut).
    { intros Hlt. apply Hgo. simpl in *. lia. }
    exists st'. rewrite Hrun. split; [|split].
    - unfold files_of_rounds. simpl. unfold round_file. simpl.
      by rewrite Evcs.
    - intros Hle. simpl in *. destruct Hfull as (? & ? & ?); [lia|].
      split; [lia|]. by split.
    - intros Hlt. apply Hcut. simpl in *. lia. }
  destruct (isDir entry) eqn:Edir.
  - (* a directory *)
    destruct (rrounds (absoluteFilePath entry) (visited st)) as [sub V1] eqn:Esub.
    destruct (rounds_of_entries fs rrounds directory entries V1)
      as [rest V2] eqn:Erest.
    injection Hrs as <- <-.
    destruct (Hrec (absoluteFilePath entry) st1 sub V1 Hsize Esub)
      as (st2 & Hrun2 & Hfull2 & Hcut2).
    { intros Hlt. apply Hgo. simpl in *. rewrite length_app. lia. }
    change (polls st1) with (S (polls st)) in *.
    change (visited st1) with (visited st) in *.
    rewrite Hrun2.
    assert (Hhead : files_of_rounds fs factory
                      (take (S (k - S (polls st)))
                         ((directory, entry) :: sub ++ rest))
                    = files_of_rounds fs factory
                        (take (k - S (polls st)) (sub ++ rest))).
    { unfold files_of_rounds. simpl. unfold round_file. simpl.
      by rewrite Evcs, Edir. }
    rewrite Hhead. clear Hhead.
    destruct (decide (S (polls st) + length sub <= k)%nat) as [Hle|Hgt].
    + destruct Hfull2 as (Hp2 & Hv2 & Hsub2); [simpl; lia|].
      simpl in Hp2, Hsub2.
      destruct (IH (files ++ files_of_rounds fs factory
                               (take (k - S (polls st)) sub))
                  st2 rest V2) as (st' & Hrun & Hfull & Hcut).
      * rewrite Hv2. pose proof (unvisited_shrinks U _ _ Hsub2). lia.
      * by rewrite Hv2.
      * intros Hlt. apply Hgo. simpl. rewrite length_app. lia.
      * exists st'. rewrite Hrun. split; [|split].
        -- rewrite take_app, files_of_rounds_app, app_assoc.
           by replace (k - S (polls st) - length sub)%nat
             with (k - polls st2)%nat by lia.
        -- intros Hle'. simpl in Hle'. rewrite length_app in Hle'.
           destruct Hfull as (? & ? & ?); [lia|].
           split; [simpl; rewrite length_app; lia|]. split; [done|].
           rewrite <- Hv2 in *. set_solver.
        -- intros Hlt. apply Hcut. simpl in Hlt. rewrite length_app in Hlt.
           lia.
    + assert (Hset2 : isCanceled (polls st2) = true)
        by (apply Hcut2; simpl; lia).
      destruct (scan_entries_canceled fs factory isCanceled flag_stays_set
                  recurse directory entries
                  (files ++ files_of_rounds fs factory
                              (take (k - S (polls st)) sub))
                  st2 Hset2) as (st' & Hrun & Hset').
      exists st'. rewrite Hrun. split; [|split].
      * rewrite take_app.
        replace (k - S (polls st) - length sub)%nat with 0%nat by lia.
        by rewrite take_0, app_nil_r.
      * intros Hle'. simpl in Hle'. rewrite length_app in Hle'. lia.
      * done.
  - (* a file *)
    destruct (rounds_of_entries fs rrounds directory entries (visited st))
      as [rest V2] eqn:Erest.
    injection Hrs as <- <-.
    destruct (IH (files ++ [factory (absoluteFilePath entry)]) st1 rest V2
                Hsize Erest) as (st' & Hrun & Hfull & Hcut).
    { intros Hlt. apply Hgo. simpl in *. lia. }
    exists st'. rewrite Hrun. split; [|split].
    + unfold files_of_rounds. simpl. unfold round_file. simpl.
      rewrite Evcs, Edir. simpl. by rewrite <- app_assoc.
    + intros Hle. simpl in *. destruct Hfull as (? & ? & ?); [lia|].
      split; [lia|]. by split.
    + intros Hlt. apply Hcut. simpl in *. lia.
Qed.

Lemma scanForFilesRecursively_rounds (fuel : nat) :
  forall d st rs V',
    (size (U ∖ visited st) < fuel)%nat ->
    rounds fs fuel d (visited st) = (rs, V') ->
    ((k < polls st + length rs)%nat -> isCanceled k = true) ->
    exists st',
      scanForFilesRecursively fs factory (Some isCanceled) fuel d st
        = Val (files_of_rounds fs factory (take (k - polls st) rs), st') /\
      ((polls st + length rs <= k)%nat ->
         polls st' = (polls st + length rs)%nat /\ visited st' = V' /\
         visited st ⊆ V') /\
      ((k < polls st + length rs)%nat -> isCanceled (polls st') = true).
Proof.
  induction fuel as [|fuel IH]; intros d st rs V' Hsize Hrs Hgo; [lia|].
  cbn [scanForFilesRecursively]. cbn [rounds] in Hrs.
  destruct (size (visited st) =? size ({[canonicalPath fs d]} ∪ visited st))%nat
    eqn:E.
  { injection Hrs as <- <-. exists st. rewrite take_nil. split; [done|]. split.
    - intros _. split; [simpl; lia|]. by split.
    - intros Hlt. apply (flag_stays_set k); [simpl in Hlt; lia|].
      by apply Hgo. }
  assert (Hnew : canonicalPath fs d ∉ visited st).
  { intros Hin. apply visited_count_eq in Hin. congruence. }
  set (st1 := mkScanState ({[canonicalPath fs d]} ∪ visited st)
                (polls st) (listed st ++ [canonicalPath fs d])).
  assert (Hsize1 : (size (U ∖ visited st1) < size (U ∖ visited st))%nat).
  { apply subset_size. simpl.
    pose proof (canonical_finite d). set_solver. }
  destruct (scan_entries_rounds fuel
              (scanForFilesRecursively fs factory (Some isCanceled) fuel)
              (rounds fs fuel) IH d (entryInfoList fs d) [] st1 rs V')
    as (st' & Hrun & Hfull & Hcut); [lia|done|done|].
  exists st'. split; [done|]. split; [|done].
  intros Hle. destruct (Hfull Hle) as (? & ? & Hsub).
  split; [done|]. split; [done|]. simpl in Hsub. set_solver.
Qed.

End scan_partial.

(** C7.  The loop of the scan looks at the cancellation flag once at the
    head of every round, before the entry is touched: the scan that nothing
    cancels returns the files of all its rounds and has looked at the flag
    once per round.  Under a flag that is found set at the [k]-th look for
    the first time, the scan returns normally, and what it returns is
    exactly the files of the [k] rounds that came before that look, the
    files gathered so far, in their order: the front part of the files of
    the full scan.  A round that finds the flag set returns the files the
    loop has, untouched. *)
Theorem scanForFiles_canceled_partial {A : Type} (fs : FileSystem)
    (factory : FileName -> A) (isCanceled : nat -> bool) (U : gset string)
    (fuel : nat) (directory : FileName) (k : nat) :
  (forall d, canonicalPath fs d ∈ U) ->
  (size U < fuel)%nat ->
  first_set_at k isCanceled ->
  (exists sn,
     scanForFiles fs factory never_canceled fuel directory
       = Val (files_of_rounds fs factory (rounds fs fuel directory ∅).1, sn) /\
     polls sn = length (rounds fs fuel directory ∅).1) /\
  (exists st,
     scanForFiles fs factory isCanceled fuel directory
       = Val (files_of_rounds fs factory
                (take k (rounds fs fuel directory ∅).1), st)) /\
  files_of_rounds fs factory (take k (rounds fs fuel directory ∅).1)
    `prefix_of` files_of_rounds fs factory (rounds fs fuel directory ∅).1 /\
  (forall recurse dir entry entries files st,
     isCanceled (polls st) = true ->
     scan_entries fs factory (Some isCanceled) recurse dir (entry :: entries)
       files st
     = Val (files, mkScanState (visited st) (S (polls st)) (listed st))).
Proof.
  intros Hfin Hfuel [Hlow Hhigh].
  destruct (rounds fs fuel directory ∅) as [rs V'] eqn:Ers. simpl.
  assert (Hsize : (size (U ∖ visited (mkScanState ∅ 0 [])) < fuel)%nat).
  { simpl. assert (size (U ∖ ∅) <= size U)%nat
      by (apply subseteq_size; set_solver). lia. }
  split; [|split; [|split]].
  - destruct (scanForFilesRecursively_rounds fs factory never_canceled U
                (length rs) Hfin) with (fuel := fuel) (d := directory)
      (st := mkScanState ∅ 0 []) (rs := rs) (V' := V')
      as (sn & Hrun & Hfull & _); try done.
    { simpl. lia. }
    exists sn. unfold scanForFiles. rewrite Hrun. simpl.
    rewrite Nat.sub_0_r, firstn_all. split; [done|].
    by destruct Hfull as (? & _); [simpl; lia|].
  - destruct (scanForFilesRecursively_rounds fs factory isCanceled U k Hfin)
      with (fuel := fuel) (d := directory) (st := mkScanState ∅ 0 [])
           (rs := rs) (V' := V') as (st & Hrun & _); try done.
    { intros i j Hij Hi. apply Hhigh.
      destruct (decide (k <= i)%nat) as [|Hlt]; [lia|].
      rewrite Hlow in Hi by lia. done. }
    { intros _. by apply Hhigh. }
    exists st. unfold scanForFiles. rewrite Hrun. simpl.
    by rewrite Nat.sub_0_r.
  - exists (files_of_rounds fs factory (drop k rs)).
    by rewrite <- files_of_rounds_app, take_drop.
  - intros recurse dir entry entries files st Hflag. simpl. by rewrite Hflag.
Qed.

Lemma cyclic_fs_finite (d : string) : canonicalPath cyclic_fs d ∈ cyclic_fs_paths.
Proof.
  unfold cyclic_fs_paths. simpl.
  destruct (String.eqb d "/r" || String.eqb d "/r/d/up"); [set_solver|].
  destruct (String.eqb d "/r/d"); set_solver.
Qed.

Example scanForFiles_cyclic_fs :
  exists st, scanForFiles cyclic_fs id never_canceled 4 "/r"
             = Val (["/r/f"; "/r/d/g"], st)
             /\ listed st = ["/r"; "/r/d"].
Proof. eexists. split; vm_compute; reflexivity. Qed.

Example scanForFiles_cyclic_fs_canceled :
  exists st, scanForFiles cyclic_fs id canceled_from_third 4 "/r"
             = Val (["/r/f"], st).
Proof. eexists. vm_compute. reflexivity. Qed.

Example rounds_cyclic_fs :
  (rounds cyclic_fs 4 "/r" ∅).1
    = [("/r", mkFileInfo "/r/f" false); ("/r", mkFileInfo "/r/d" true);
       ("/r/d", mkFileInfo "/r/d/g" false); ("/r/d", mkFileInfo "/r/d/up" true)]
  /\ files_of_rounds cyclic_fs id (take 2 (rounds cyclic_fs 4 "/r" ∅).1)
      = ["/r/f"].
Proof. split; vm_compute; reflexivity. Qed.

Lemma scanForFiles_terminates_witness :
  exists r st,
    scanForFiles cyclic_fs id never_canceled 4 "/r" = Val (r, st) /\
    NoDup (listed st) /\ visited st = list_to_set (listed st).
Proof.
  apply (scanForFiles_terminates cyclic_fs id never_canceled cyclic_fs_paths 4 "/r").
  - exact cyclic_fs_finite.
  - vm_compute. lia.
Defined.

Lemma scanForFiles_canceled_partial_witness :
  (exists sn,
     scanForFiles cyclic_fs id never_canceled 4 "/r"
       = Val (files_of_rounds cyclic_fs id (rounds cyclic_fs 4 "/r" ∅).1, sn) /\
     polls sn = length (rounds cyclic_fs 4 "/r" ∅).1) /\
  (exists st,
     scanForFiles cyclic_fs id canceled_from_third 4 "/r"
       = Val (files_of_rounds cyclic_fs id
                (take 2 (rounds cyclic_fs 4 "/r" ∅).1), st)) /\
  files_of_rounds cyclic_fs id (take 2 (rounds cyclic_fs 4 "/r" ∅).1)
    `prefix_of` files_of_rounds cyclic_fs id (rounds cyclic_fs 4 "/r" ∅).1 /\
  (forall recurse dir entry entries files st,
     canceled_from_third (polls st) = true ->
     scan_entries cyclic_fs id (Some canceled_from_third) recurse dir
       (entry :: entries) files st
     = Val (files, mkScanState (visited st) (S (polls st)) (listed st))).
Proof.
  apply (scanForFiles_canceled_partial cyclic_fs id canceled_from_third
           cyclic_fs_paths 4 "/r" 2).
  - exact cyclic_fs_finite.
  - vm_compute. lia.
  - split; intros i Hi; unfold canceled_from_third.
    + apply Nat.leb_gt. lia.
    + apply Nat.leb_le. lia.
Defined.

(** ** trim *)

Lemma trim_S (fuel : nat) (self : positive) (keepers : gset positive) :
  trim (S fuel) self keepers =
    (let* n := deref self in
     match m_nodeType n with
     | FileNodeType => Node_trim self keepers
     | ProjectNodeType => ProjectNode_trim (trim fuel) fuel self keepers
     | _ => FolderNode_trim (trim fuel) fuel self keepers
     end).
Proof. done. Qed.

Lemma mapM_const {A B} (f : A -> M B) (l : list A) (s : state) (b : B) :
  (forall x, x ∈ l -> f x s = Val (b, s)) ->
  mapM f l s = Val (map (fun _ => b) l, s).
Proof.
  induction l as [|x l IH]; intros Hf; [done|].
  rewrite mapM_cons.
  rewrite (bind_Val _ _ _ _ _ (Hf x ltac:(by left))).
  rewrite (bind_Val _ _ _ _ _ (IH ltac:(intros y Hy; apply Hf; by right))).
  done.
Qed.

Lemma non_null_map_None {A} (l : list A) :
  non_null (map (fun _ => @None positive) l) = [].
Proof. by induction l. Qed.

Lemma settled_unfold (keepers : gset positive) (a : positive)
    (files : list positive) (folders : list tree) :
  settled keepers (Tree a files folders) <->
    a ∈ keepers \/
    (Forall (fun f => f ∈ keepers) files /\
     Forall (settled keepers) folders /\
     (files <> [] \/ folders <> [])).
Proof.
  simpl.
  assert (H : foldr (fun c P => settled keepers c /\ P) True folders
              <-> Forall (settled keepers) folders).
  { induction folders as [|c folders IH]; simpl.
    - split; [constructor|done].
    - rewrite IH, Forall_cons. done. }
  rewrite H. done.
Qed.

Lemma trim_file (fuel : nat) (a f : positive) (keepers : gset positive)
    (s : state) :
  file_leaf (heap s) a f -> (0 < fuel)%nat ->
  trim fuel f keepers s
    = Val (if decide (f ∈ keepers) then None else Some f, s).
Proof.
  intros (nf & Hnf & Hty & _) Hfuel. destruct fuel as [|fuel]; [lia|].
  rewrite trim_S, (bind_Val _ _ _ _ _ (deref_Val f s nf Hnf)), Hty. done.
Qed.

Lemma removeFileNodes_nil (fuel : nat) (self : positive) (l : list positive)
    (s : state) :
  managed (heap s) self l -> (length l < fuel)%nat ->
  removeFileNodes fuel self [] s = Val (tt, s).
Proof.
  intros Hm Hlen. unfold removeFileNodes.
  by rewrite (Q_ASSERT_managed _ _ l).
Qed.

Lemma removeFolderNodes_nil (fuel : nat) (self : positive) (l : list positive)
    (s : state) :
  managed (heap s) self l -> (length l < fuel)%nat ->
  removeFolderNodes fuel self [] s = Val (tt, s).
Proof.
  intros Hm Hlen. unfold removeFolderNodes.
  by rewrite (Q_ASSERT_managed _ _ l).
Qed.

(** [FolderNode::trim] on a folder whose files are all kept and whose
    folders all answer null. *)
Lemma FolderNode_trim_settled
    (trim : positive -> gset positive -> M (option positive)) (fuel : nat)
    (self : positive) (keepers : gset positive) (l : list positive)
    (s : state) (n : Node) :
  heap s !! self = Some n ->
  managed (heap s) self l -> (length l < fuel)%nat ->
  self ∈ keepers \/
    ((forall f, f ∈ m_fileNodes n -> trim f keepers s = Val (None, s)) /\
     (forall c, c ∈ m_folderNodes n -> trim c keepers s = Val (None, s)) /\
     (m_fileNodes n <> [] \/ m_folderNodes n <> [])) ->
  FolderNode_trim trim fuel self keepers s = Val (None, s).
Proof.
  intros Hn Hm Hlen Hcase. unfold FolderNode_trim.
  destruct (decide (self ∈ keepers)) as [|Hnot]; [done|].
  destruct Hcase as [?|(Hfiles & Hfolders & Hne)]; [done|].
  rewrite (bind_Val _ _ _ _ _ (deref_Val self s n Hn)).
  rewrite (bind_Val _ _ _ _ _ (mapM_const _ _ s None Hfiles)).
  rewrite non_null_map_None.
  rewrite (bind_Val _ _ _ _ _ (removeFileNodes_nil fuel self l s Hm Hlen)).
  rewrite (bind_Val _ _ _ _ _ (deref_Val self s n Hn)).
  rewrite (bind_Val _ _ _ _ _ (mapM_const _ _ s None Hfolders)).
  rewrite non_null_map_None.
  rewrite (bind_Val _ _ _ _ _ (removeFolderNodes_nil fuel self l s Hm Hlen)).
  rewrite !length_map. simpl length. unfold ret.
  destruct (m_fileNodes n) as [|f fs], (m_folderNodes n) as [|c cs]; simpl;
    try done.
  by destruct Hne.
Qed.

Lemma ProjectNode_removeProjectNodes_nil (fuel : nat) (self : positive)
    (s : state) :
  ProjectNode_removeProjectNodes fuel self [] s = Val (tt, s).
Proof. done. Qed.

Lemma ProjectNode_trim_settled
    (trim : positive -> gset positive -> M (option positive)) (fuel : nat)
    (self : positive) (keepers : gset positive) (l : list positive)
    (s : state) (n : Node) :
  heap s !! self = Some n ->
  managed (heap s) self l -> (length l < fuel)%nat ->
  self ∈ keepers \/
    ((forall f, f ∈ m_fileNodes n -> trim f keepers s = Val (None, s)) /\
     (forall c, c ∈ m_folderNodes n -> trim c keepers s = Val (None, s)) /\
     (m_fileNodes n <> [] \/ m_folderNodes n <> [])) ->
  (forall c, c ∈ m_projectNodes n -> c ∈ m_folderNodes n) ->
  ProjectNode_trim trim fuel self keepers s = Val (None, s).
Proof.
  intros Hn Hm Hlen Hcase Hsub. unfold ProjectNode_trim.
  destruct (decide (self ∈ keepers)) as [|Hnot]; [done|].
  destruct Hcase as [?|(Hfiles & Hfolders & Hne)]; [done|].
  rewrite (bind_Val _ _ _ _ _ (deref_Val self s n Hn)).
  assert (Hprojs : forall c, c ∈ m_projectNodes n ->
                      trim c keepers s = Val (None, s)) by auto.
  rewrite (bind_Val _ _ _ _ _ (mapM_const _ _ s None Hprojs)).
  rewrite non_null_map_None.
  rewrite (bind_Val _ _ _ _ _ (ProjectNode_removeProjectNodes_nil fuel self s)).
  rewrite (bind_Val _ _ _ _ _
             (FolderNode_trim_settled trim fuel self keepers l s n Hn Hm Hlen
                (or_intror (conj Hfiles (conj Hfolders Hne))))).
  done.
Qed.

Lemma wf_tree_managed_child (h : gmap positive Node) (a : positive)
    (l : list positive) (c : tree) :
  managed h a l -> wf_tree h (Some a) c -> managed h (root c) (a :: l).
Proof.
  intros Hm Hwf.
  inversion Hwf as [? ? nc ? ? Hc Hty Hpar Hses ? ? ? ? ? ? ? ?]; subst. simpl.
  apply (managed_child h a _ l nc); auto.
Qed.

Lemma trim_settled (keepers : gset positive) (t : tree) :
  forall fuel h par l tr,
    wf_tree h par t -> managed h (root t) l ->
    (2 * height t + length l < fuel)%nat ->
    settled keepers t ->
    trim fuel (root t) keepers (mkState h tr) = Val (None, mkState h tr).
Proof.
  induction t as [a files folders IH] using tree_ind.
  intros fuel h par l tr Hwf Hm Hfuel Hset.
  inversion Hwf as [? ? n ? ? Ha Hty Hpar Hses Hfiles Hfolders Hproj Hprojty Hsf Hsd Hleaf Hkids];
    subst.
  destruct fuel as [|fuel]; [lia|].
  pose proof (height_pos (Tree a (m_fileNodes n) folders)) as Hpos.
  simpl root in *. rewrite trim_S.
  rewrite (bind_Val _ _ _ _ _ (deref_Val a (mkState h tr) n Ha)).
  apply settled_unfold in Hset.
  assert (Hcase : a ∈ keepers \/
    ((forall f, f ∈ m_fileNodes n ->
        trim fuel f keepers (mkState h tr) = Val (None, mkState h tr)) /\
     (forall c, c ∈ m_folderNodes n ->
        trim fuel c keepers (mkState h tr) = Val (None, mkState h tr)) /\
     (m_fileNodes n <> [] \/ m_folderNodes n <> []))).
  { destruct Hset as [?|(Hf & Hd & Hne)]; [by left|]. right.
    split; [|split].
    - intros f Hf'. rewrite Forall_forall in Hleaf, Hf.
      rewrite (trim_file fuel a f keepers) by (auto || lia).
      by rewrite decide_True by auto.
    - intros c Hc. rewrite Hfolders in Hc.
      apply list_elem_of_fmap in Hc as (c' & -> & Hc').
      rewrite Forall_forall in IH, Hkids, Hd.
      apply (IH c' Hc' fuel h (Some a) (a :: l) tr); auto.
      + apply wf_tree_managed_child; auto.
      + pose proof (height_child a (m_fileNodes n) folders c' Hc').
        simpl length. lia.
    - destruct Hne as [?|Hne]; [by left|right].
      rewrite Hfolders. by destruct folders. }
  assert (Hlen : (length l < fuel)%nat) by lia.
  destruct (m_nodeType n) eqn:Etype; try done.
  - by apply (FolderNode_trim_settled _ _ _ _ l _ n).
  - by apply (FolderNode_trim_settled _ _ _ _ l _ n).
  - apply (ProjectNode_trim_settled _ _ _ _ l _ n); try done.
    intros c Hc. rewrite Hproj in Hc. rewrite Hfolders.
    by apply list_elem_of_filter in Hc as [_ ?].
  - by apply (FolderNode_trim_settled _ _ _ _ l _ n).
Qed.

Lemma leaves_settled (keepers : gset positive) (t : tree) :
  (forall x, x ∈ leaves t -> x ∈ keepers) -> settled keepers t.
Proof.
  induction t as [a files folders IH] using tree_ind. intros Hleaves.
  apply settled_unfold. simpl in Hleaves.
  destruct (is_nil files && is_nil folders) eqn:E.
  - left. apply Hleaves. by left.
  - right. split; [|split].
    + apply Forall_forall. intros f Hf. apply Hleaves, elem_of_app. by left.
    + apply Forall_forall. intros c Hc. rewrite Forall_forall in IH.
      apply IH; [done|]. intros x Hx. apply Hleaves, elem_of_app. right.
      apply elem_of_flat_map. eauto.
    + destruct files, folders; simpl in E; try done; auto.
Qed.

(** C4, as the code has it.  On a managed folder whose tree is well formed,
    [trim] with a keep set that contains every leaf below the folder (every
    file node and every folder without children) changes nothing, neither
    the store nor the notifications, and returns null. *)
Theorem trim_keeping_all_leaves (keepers : gset positive) (t : tree)
    (fuel : nat) (h : gmap positive Node) (par : option positive)
    (l : list positive) (tr : list Event) :
  wf_tree h par t -> managed h (root t) l ->
  (2 * height t + length l < fuel)%nat ->
  (forall x, x ∈ leaves t -> x ∈ keepers) ->
  trim fuel (root t) keepers (mkState h tr) = Val (None, mkState h tr).
Proof.
  intros Hwf Hm Hfuel Hleaves.
  apply (trim_settled keepers t fuel h par l tr); auto.
  by apply leaves_settled.
Qed.

Lemma small_project_managed_sub :
  managed (heap small_project) 3 [1%positive].
Proof.
  split; [|split].
  - eapply ancestors_step; [reflexivity|reflexivity|].
    eapply ancestors_root; reflexivity.
  - eexists. split; [reflexivity|discriminate].
  - apply Exists_cons_tl, Exists_cons_hd. reflexivity.
Qed.

Lemma trim_keeping_all_leaves_witness :
  trim 5 3 {[4%positive]} small_project = Val (None, small_project).
Proof.
  apply (trim_keeping_all_leaves {[4%positive]} (Tree 3 [4%positive] []) 5
           (heap small_project) (Some 1%positive) [1%positive] []).
  - solve_wf_tree.
  - exact small_project_managed_sub.
  - simpl. lia.
  - intros x Hx. simpl in Hx. apply list_elem_of_singleton in Hx as ->.
    by apply elem_of_singleton.
Defined.

(** C4, as the spec has it, fails: the folder [/p/sub] of the small project
    holds one file; trimmed with that file as keep set, it is left as it was,
    but the call returns null, not the folder. *)
Lemma trim_keeping_all_leaves_not_self :
  (forall x, x ∈ leaves (Tree 3 [4%positive] []) -> x ∈ ({[4%positive]} : gset positive)) /\
  ~ exists s', trim 5 3 {[4%positive]} small_project = Val (Some 3%positive, s').
Proof.
  split.
  - intros x Hx. simpl in Hx. apply list_elem_of_singleton in Hx as ->.
    by apply elem_of_singleton.
  - intros [s' H]. vm_compute in H. discriminate.
Qed.

(** ** trim in general *)

Lemma skeleton_agree (h h' : gmap positive Node) (x : positive) :
  h' !! x = h !! x -> skeleton h' x = skeleton h x.
Proof. unfold skeleton. by intros ->. Qed.

Lemma pruned_in_frame (keepers : gset positive) (h h1 h' : gmap positive Node)
    (par : option positive) (c : tree) :
  pruned_in keepers h h1 par c ->
  (forall x, x ∈ nodes c -> h' !! x = h1 !! x) ->
  pruned_in keepers h h' par c.
Proof.
  intros (Hwf & Hgone & Hsk) Hagree. split; [|split].
  - apply (wf_tree_frame h1); [done|].
    intros x Hx. by apply Hagree, (nodes_prune_elem_of keepers).
  - intros x Hx Hnot. rewrite Hagree by done. auto.
  - intros x Hx. rewrite <- Hsk by done.
    by apply skeleton_agree, Hagree, (nodes_prune_elem_of keepers).
Qed.

Lemma pruned_in_frame_l (keepers : gset positive) (h h1 h' : gmap positive Node)
    (par : option positive) (c : tree) :
  pruned_in keepers h1 h' par c ->
  (forall x, x ∈ nodes c -> h1 !! x = h !! x) ->
  pruned_in keepers h h' par c.
Proof.
  intros (Hwf & Hgone & Hsk) Hagree. split; [done|]. split; [done|].
  intros x Hx. rewrite Hsk by done.
  by apply skeleton_agree, Hagree, (nodes_prune_elem_of keepers).
Qed.

Lemma managed_agree (h h' : gmap positive Node) (a : positive)
    (l : list positive) :
  managed h a l -> (forall x, x ∈ a :: l -> h' !! x = h !! x) ->
  managed h' a l.
Proof.
  intros Hm Hagree. apply (managed_frame h); [done|].
  intros x Hx. by apply skeleton_agree, Hagree.
Qed.

(** [Utils::transform] with [trim] over the folders of a node, one after
    the other. *)
Lemma trim_children (keepers : gset positive) (fuel : nat) (a : positive)
    (l : list positive) (cs : list tree) :
  (forall c, c ∈ cs -> forall h tr,
     wf_tree h (Some a) c -> managed h (root c) (a :: l) ->
     exists h' tr',
       trim fuel (root c) keepers (mkState h tr)
         = Val (trim_answer keepers c, mkState h' tr') /\
       trimmed keepers h h' (Some a) c) ->
  NoDup (flat_map nodes cs) ->
  a ∉ flat_map nodes cs ->
  Forall (fun x => x ∉ flat_map nodes cs) l ->
  forall h tr,
    Forall (wf_tree h (Some a)) cs -> managed h a l ->
    exists h' tr',
      mapM (fun c => trim fuel c keepers) (map root cs) (mkState h tr)
        = Val (map (trim_answer keepers) cs, mkState h' tr') /\
      Forall (pruned_in keepers h h' (Some a)) cs /\
      (forall x, x ∉ flat_map nodes cs -> h' !! x = h !! x).
Proof.
  induction cs as [|c cs IH]; intros Hspec Hnd Ha Hl h tr Hwf Hm.
  - exists h, tr. split; [done|]. split; [constructor|done].
  - apply Forall_cons in Hwf as [Hc Hwf].
    simpl in Hnd. apply NoDup_app in Hnd as (Hnd_c & Hdisj & Hnd_cs).
    simpl in Ha. apply not_elem_of_app in Ha as [Ha_c Ha_cs].
    destruct (Hspec c ltac:(by left) h tr Hc
                (wf_tree_managed_child h a l c Hm Hc))
      as (h1 & tr1 & Hrun1 & Hpr1 & Hframe1).
    assert (Hl_c : forall x, x ∈ l -> x ∉ nodes c).
    { intros x Hx Hin. rewrite Forall_forall in Hl.
      apply (Hl x Hx). simpl. apply elem_of_app. by left. }
    assert (Hl_cs : Forall (fun x => x ∉ flat_map nodes cs) l).
    { apply Forall_forall. intros x Hx Hin. rewrite Forall_forall in Hl.
      apply (Hl x Hx). simpl. apply elem_of_app. by right. }
    destruct (IH ltac:(intros c' Hc'; apply Hspec; by right) Hnd_cs Ha_cs Hl_cs
                h1 tr1) as (h' & tr' & Hrun & Hpr & Hframe).
    { apply Forall_forall. intros c' Hc'. rewrite Forall_forall in Hwf.
      apply (wf_tree_frame h); [by apply Hwf|].
      intros x Hx. apply Hframe1. intros Hin.
      apply (Hdisj x Hin). by apply (nodes_child c'). }
    { apply (managed_agree h); [done|].
      intros x Hx. apply Hframe1.
      apply elem_of_cons in Hx as [->|Hx]; auto. }
    exists h', tr'. split; [|split].
    + cbn [map]. rewrite mapM_cons.
      rewrite (bind_Val _ _ _ _ _ Hrun1), (bind_Val _ _ _ _ _ Hrun). done.
    + apply Forall_cons. split.
      * apply (pruned_in_frame _ _ h1); [done|].
        intros x Hx. apply Hframe. by apply Hdisj.
      * apply Forall_forall. intros c' Hc'. rewrite Forall_forall in Hpr.
        apply (pruned_in_frame_l _ _ h1); [by apply Hpr|].
        intros x Hx. apply Hframe1. intros Hin.
        apply (Hdisj x Hin). by apply (nodes_child c').
    + intros x Hx. simpl in Hx. apply not_elem_of_app in Hx as [Hx1 Hx2].
      rewrite Hframe by done. by apply Hframe1.
Qed.

Lemma mapM_pure {A B} (f : A -> M B) (g : A -> B) (l : list A) (s : state) :
  (forall x, x ∈ l -> f x s = Val (g x, s)) ->
  mapM f l s = Val (map g l, s).
Proof.
  induction l as [|x l IH]; intros Hf; [done|].
  rewrite mapM_cons.
  rewrite (bind_Val _ _ _ _ _ (Hf x ltac:(by left))).
  rewrite (bind_Val _ _ _ _ _ (IH ltac:(intros y Hy; apply Hf; by right))).
  done.
Qed.

Lemma skeleton_insert (h : gmap positive Node) (a : positive) (n n' : Node) :
  h !! a = Some n -> m_nodeType n' = m_nodeType n ->
  m_parentFolderNode n' = m_parentFolderNode n ->
  m_filePath n' = m_filePath n ->
  forall h0, skeleton (<[a := n']> h0) a = skeleton h a.
Proof.
  intros Hn Hty Hpar Hpath h0. unfold skeleton.
  rewrite lookup_insert_eq, Hn. simpl. by rewrite Hty, Hpar, Hpath.
Qed.

(** [FolderNode::trim] on a folder outside the keep set, none of whose
    sub-projects is to go. *)
Lemma FolderNode_trim_spec (keepers : gset positive) (fuel : nat)
    (a : positive) (l : list positive) (h : gmap positive Node)
    (par : option positive) (files : list positive) (folders : list tree)
    (n : Node) (tr : list Event) :
  wf_tree h par (Tree a files folders) ->
  NoDup (nodes (Tree a files folders)) ->
  managed h a l ->
  Forall (fun x => x ∉ nodes (Tree a files folders)) l ->
  (length l < fuel)%nat ->
  (height (Tree a files folders) <= fuel)%nat ->
  h !! a = Some n -> a ∉ keepers ->
  (forall c, c ∈ folders -> forall h tr,
     wf_tree h (Some a) c -> managed h (root c) (a :: l) ->
     exists h' tr',
       trim fuel (root c) keepers (mkState h tr)
         = Val (trim_answer keepers c, mkState h' tr') /\
       trimmed keepers h h' (Some a) c) ->
  (forall c, c ∈ folders -> isProjectAt h (root c) = true ->
     has_keeper keepers c = true) ->
  exists h' tr',
    FolderNode_trim (trim fuel) fuel a keepers (mkState h tr)
      = Val (trim_answer keepers (Tree a files folders), mkState h' tr') /\
    trimmed keepers h h' par (Tree a files folders).
Proof.
  intros Hwf Hnd Hm Hl Hlen Hheight Hn HaK Hchild Hprojkeep.
  inversion Hwf as [? ? n0 ? ? Ha Hty Hpar Hses Hfiles Hfolders Hproj Hprojty Hsf Hsd Hleaf Hkids];
    subst.
  assert (n0 = n) as -> by congruence. clear Ha.
  pose proof Hnd as Hnd_all.
  simpl in Hnd. apply NoDup_cons in Hnd as [Ha_notin Hnd].
  apply NoDup_app in Hnd as (Hnd_files & Hdisj & Hnd_kids).
  assert (Ha_files : a ∉ m_fileNodes n)
    by (intros ?; apply Ha_notin, elem_of_app; by left).
  assert (Ha_kids : a ∉ flat_map nodes folders)
    by (intros ?; apply Ha_notin, elem_of_app; by right).
  assert (Hl_a : forall x, x ∈ l -> x <> a).
  { intros x Hx ->. rewrite Forall_forall in Hl. apply (Hl a Hx). by left. }
  assert (Hl_files : forall x, x ∈ l -> x ∉ m_fileNodes n).
  { intros x Hx Hin. rewrite Forall_forall in Hl. apply (Hl x Hx).
    right. apply elem_of_app. by left. }
  assert (Hl_kids : forall x, x ∈ l -> x ∉ flat_map nodes folders).
  { intros x Hx Hin. rewrite Forall_forall in Hl. apply (Hl x Hx).
    right. apply elem_of_app. by right. }
  assert (Hnd_roots : NoDup (map root folders))
    by (by apply StronglySorted_lt_NoDup).
  set (files := m_fileNodes n) in *.
  set (dropF := filter (fun x => ~ x ∈ keepers) files).
  set (keptF := filter (fun x => x ∈ keepers) files).
  set (dropD := map root (filter (fun c => has_keeper keepers c = false) folders)).
  (* the files *)
  assert (Hfuel_pos : (0 < fuel)%nat).
  { pose proof (height_pos (Tree a files folders)). lia. }
  assert (Hrun_files :
    mapM (fun c => trim fuel c keepers) files (mkState h tr)
      = Val (map (fun x => if decide (x ∈ keepers) then None else Some (id x))
               files, mkState h tr)).
  { apply mapM_pure. intros f Hf. rewrite Forall_forall in Hleaf.
    by apply (trim_file fuel a); [apply Hleaf|]. }
  assert (HdropF_sub : forall f, f ∈ dropF -> f ∈ files).
  { intros f Hf. by apply list_elem_of_filter in Hf as [_ ?]. }
  pose proof (removeFileNodes_spec fuel a l h n tr dropF Hn Hm Hlen Hsf
                ltac:(by apply NoDup_filter) HdropF_sub
                ltac:(apply Forall_forall; intros f Hf;
                      rewrite Forall_forall in Hleaf; auto)) as Hrun_rmF.
  fold files in Hrun_rmF. unfold dropF at 2 in Hrun_rmF.
  rewrite list_difference_filter_not in Hrun_rmF. fold keptF in Hrun_rmF.
  set (n1 := set_fileNodes keptF n) in *.
  set (h1 := <[a := n1]> (delete_all dropF h)) in *.
  set (tr1 := tr ++ _) in Hrun_rmF.
  assert (Hh1 : forall x, x <> a -> x ∉ dropF -> h1 !! x = h !! x).
  { intros x Hxa Hx. unfold h1. rewrite lookup_insert_ne by done.
    rewrite lookup_delete_all. by rewrite decide_False. }
  assert (Hh1_gone : forall x, x ∈ dropF -> h1 !! x = None).
  { intros x Hx. unfold h1.
    rewrite lookup_insert_ne by (intros <-; by apply Ha_files, HdropF_sub).
    rewrite lookup_delete_all. by rewrite decide_True. }
  assert (Hh1_kids : forall x, x ∈ flat_map nodes folders -> h1 !! x = h !! x).
  { intros x Hx. apply Hh1; [by intros ->|].
    intros Hin. by apply (Hdisj x (HdropF_sub x Hin)). }
  assert (Hh1_a : h1 !! a = Some n1) by apply lookup_insert_eq.
  assert (Hm1 : managed h1 a l).
  { apply (managed_frame h); [done|]. intros x Hx.
    apply elem_of_cons in Hx as [->|Hx].
    - by apply (skeleton_insert h a n).
    - apply skeleton_agree, Hh1; [by apply Hl_a|].
      intros Hin. by apply (Hl_files x Hx), HdropF_sub. }
  (* the folders *)
  destruct (trim_children keepers fuel a l folders Hchild Hnd_kids Ha_kids
              ltac:(apply Forall_forall; exact Hl_kids) h1 tr1)
    as (h2 & tr2 & Hrun_kids & Hpruned & Hh2); [|done|].
  { apply Forall_forall. intros c Hc. rewrite Forall_forall in Hkids.
    apply (wf_tree_frame h); [by apply Hkids|].
    intros x Hx. by apply Hh1_kids, (nodes_child c). }
  rewrite Forall_forall in Hpruned.
  assert (Hh2_a : h2 !! a = Some n1) by (by rewrite Hh2).
  assert (Hroot_sk : forall c, c ∈ folders ->
            skeleton h2 (root c) = skeleton h (root c)).
  { intros c Hc. destruct (Hpruned c Hc) as (_ & _ & Hsk).
    rewrite Hsk by (rewrite <- (root_prune keepers c); apply root_in_nodes).
    apply skeleton_agree, Hh1_kids, (nodes_child c); auto using root_in_nodes. }
  set (folders2 := map (prune keepers) folders).
  assert (Hwf2 : wf_tree h2 (m_parentFolderNode n) (Tree a keptF folders2)).
  { apply wf_tree_intro with n1; try done.
    - unfold folders2. by rewrite map_root_prune.
    - unfold folders2. rewrite map_root_prune. simpl. rewrite Hproj.
      apply filter_ext_elem_of. intros r Hr.
      apply list_elem_of_fmap in Hr as (c & -> & Hc).
      by rewrite (isProjectAt_skeleton h h2) by auto.
    - by apply StronglySorted_filter.
    - unfold folders2. by rewrite map_root_prune.
    - apply Forall_forall. intros f Hf.
      apply list_elem_of_filter in Hf as [HfK Hf].
      rewrite Forall_forall in Hleaf.
      apply (file_leaf_frame h); [|by apply Hleaf].
      rewrite Hh2 by (by apply Hdisj).
      apply Hh1; [by intros ->|].
      intros Hin. by apply list_elem_of_filter in Hin as [? _].
    - apply Forall_forall. intros c' Hc'.
      apply list_elem_of_fmap in Hc' as (c & -> & Hc).
      by destruct (Hpruned c Hc) as (? & _). }
  assert (Hsub2 : nodes (Tree a keptF folders2)
                  `sublist_of` nodes (Tree a files folders)).
  { simpl. apply sublist_skip, sublist_app; [apply sublist_filter|].
    apply flat_map_prune_sublist. }
  assert (Hnd2 : NoDup (nodes (Tree a keptF folders2)))
    by (exact (sublist_NoDup _ _ Hnd_all Hsub2)).
  assert (Hm2 : managed h2 a l).
  { apply (managed_agree h1); [done|]. intros x Hx. apply Hh2.
    apply elem_of_cons in Hx as [->|Hx]; auto. }
  assert (Hheight2 : (height (Tree a keptF folders2) <= fuel)%nat).
  { etrans; [|exact Hheight]. apply height_children_le.
    intros c' Hc'. apply list_elem_of_fmap in Hc' as (c & -> & Hc).
    exists c. split; [done|apply height_prune]. }
  assert (HdropD_sub : forall p, p ∈ dropD -> p ∈ map root folders2).
  { intros p Hp. unfold folders2. rewrite map_root_prune.
    apply list_elem_of_fmap in Hp as (c & -> & Hc).
    apply list_elem_of_filter in Hc as [_ Hc].
    apply list_elem_of_fmap. eauto. }
  pose proof (removeFolderNodes_spec fuel a l h2 (m_parentFolderNode n) keptF
                folders2 n1 tr2 dropD Hwf2 Hnd2 Hm2 Hlen Hheight2 Hh2_a
                ltac:(eapply sublist_NoDup; [exact Hnd_roots|];
                      apply (fmap_sublist root), sublist_filter) HdropD_sub)
    as Hrun_rmD.
  change (m_folderNodes n1) with (m_folderNodes n) in Hrun_rmD.
  rewrite Hfolders in Hrun_rmD.
  set (n3 := set_folderNodes (list_difference (map root folders) dropD) n1) in *.
  set (DD := flat_map (fun r => nodes (subtree_at folders2 r)) dropD) in *.
  set (h3 := <[a := n3]> (delete_all DD h2)) in *.
  set (tr3 := tr2 ++ _) in Hrun_rmD.
  exists h3, tr3. split.
  { unfold FolderNode_trim. rewrite decide_False by done.
    rewrite (bind_Val _ _ _ _ _ (deref_Val a (mkState h tr) n Hn)).
    fold files. rewrite (bind_Val _ _ _ _ _ Hrun_files).
    rewrite (non_null_map_decide (fun x => x ∈ keepers) id), map_id.
    fold dropF. rewrite (bind_Val _ _ _ _ _ Hrun_rmF).
    rewrite (bind_Val _ _ _ _ _ (deref_Val a (mkState h1 tr1) n1 Hh1_a)).
    change (m_folderNodes n1) with (m_folderNodes n). rewrite Hfolders.
    rewrite (bind_Val _ _ _ _ _ Hrun_kids).
    unfold trim_answer at 1 2 3.
    rewrite (non_null_map_bool (has_keeper keepers) root).
    fold dropD. rewrite (bind_Val _ _ _ _ _ Hrun_rmD).
    unfold ret. rewrite !length_map. f_equal. f_equal.
    rewrite <- (trim_answer_folder keepers a files folders HaK).
    fold dropF. unfold dropD. by rewrite !length_map. }
  (* the store left *)
  assert (HDD : forall x, x ∈ DD <-> x ∈ dropD).
  { intros x. unfold DD. rewrite elem_of_flat_map. split.
    - intros (r & Hr & Hx). pose proof Hr as Hr'.
      apply list_elem_of_fmap in Hr as (c & -> & Hc).
      apply list_elem_of_filter in Hc as [Hk Hc].
      unfold folders2 in Hx.
      rewrite (subtree_at_prune keepers folders c Hnd_roots Hc) in Hx.
      rewrite (prune_no_keeper _ _ Hk) in Hx. simpl in Hx.
      by apply list_elem_of_singleton in Hx as ->.
    - intros Hx. exists x. split; [done|].
      apply root_in_subtree. by apply HdropD_sub. }
  assert (Hh3 : forall x, x <> a -> x ∉ dropD -> h3 !! x = h2 !! x).
  { intros x Hxa Hx. unfold h3. rewrite lookup_insert_ne by done.
    rewrite lookup_delete_all. rewrite decide_False; [done|]. by rewrite HDD. }
  assert (Hh3_gone : forall x, x <> a -> h2 !! x = None \/ x ∈ dropD ->
                       h3 !! x = None).
  { intros x Hxa Hx. unfold h3. rewrite lookup_insert_ne by done.
    rewrite lookup_delete_all. destruct (decide (x ∈ DD)) as [|Hnot]; [done|].
    destruct Hx as [?|Hx]; [done|]. by apply HDD in Hx. }
  assert (HdropD_kids : forall x, x ∈ dropD -> exists c, c ∈ folders /\
            has_keeper keepers c = false /\ x = root c).
  { intros x Hx. apply list_elem_of_fmap in Hx as (c & -> & Hc).
    apply list_elem_of_filter in Hc as [? ?]. eauto. }
  assert (Hprune_eq : prune keepers (Tree a files folders)
            = Tree a keptF (map (prune keepers)
                 (filter (fun c => has_keeper keepers c = true) folders))).
  { by rewrite prune_unfold, decide_False. }
  split; [split; [|split]|].
  - rewrite Hprune_eq, <- (filter_roots_prune keepers folders Hnd_roots).
    fold dropD. fold folders2.
    apply (wf_tree_after_removal h2 _ a keptF folders2 n1 n3 dropD);
      try done.
    + unfold folders2. by rewrite map_root_prune.
    + unfold folders2. rewrite map_root_prune. simpl. rewrite Hproj.
      rewrite <- filter_list_difference.
      rewrite list_difference_disjoint.
      * apply filter_ext_elem_of. intros r Hr.
        apply list_elem_of_fmap in Hr as (c & -> & Hc).
        by rewrite (isProjectAt_skeleton h h2) by auto.
      * intros r Hr Hdrop. apply list_elem_of_filter in Hr as [Hp Hr].
        destruct (HdropD_kids r Hdrop) as (c & Hc & Hk & ->).
        rewrite (isProjectAt_skeleton h h2) in Hp by auto.
        by rewrite (Hprojkeep c Hc Hp) in Hk.
  - intros x Hx Hnot. rewrite Hprune_eq in Hnot. simpl in Hx, Hnot.
    apply not_elem_of_cons in Hnot as [Hxa Hnot].
    apply not_elem_of_app in Hnot as [HnotF HnotD].
    apply elem_of_cons in Hx as [?|Hx]; [done|].
    apply Hh3_gone; [done|].
    apply elem_of_app in Hx as [Hx|Hx].
    + left. rewrite Hh2 by (by apply Hdisj). apply Hh1_gone.
      apply list_elem_of_filter. split; [|done].
      intros HxK. apply HnotF. by apply list_elem_of_filter.
    + apply elem_of_flat_map in Hx as (c & Hc & Hx).
      destruct (Hpruned c Hc) as (_ & Hgone & _).
      destruct (has_keeper keepers c) eqn:Hk.
      * left. apply Hgone; [done|]. intros Hin. apply HnotD.
        apply elem_of_flat_map. exists (prune keepers c). split; [|done].
        apply list_elem_of_fmap. exists c. split; [done|].
        by apply list_elem_of_filter.
      * destruct (decide (x = root c)) as [->|Hne].
        -- right. apply list_elem_of_fmap. exists c. split; [done|].
           by apply list_elem_of_filter.
        -- left. apply Hgone; [done|]. rewrite (prune_no_keeper _ _ Hk).
           simpl. by intros ->%list_elem_of_singleton.
  - intros x Hx. rewrite Hprune_eq in Hx. simpl in Hx.
    apply elem_of_cons in Hx as [->|Hx].
    { unfold h3. by apply (skeleton_insert h a n). }
    apply elem_of_app in Hx as [Hx|Hx].
    + apply list_elem_of_filter in Hx as [HxK Hx].
      assert (x <> a) by (by intros ->).
      apply skeleton_agree. rewrite Hh3; [|done|].
      * rewrite Hh2 by (by apply Hdisj). apply Hh1; [done|].
        intros Hin. by apply list_elem_of_filter in Hin as [? _].
      * intros Hdrop. destruct (HdropD_kids x Hdrop) as (c & Hc & _ & ->).
        apply (Hdisj (root c) Hx), (nodes_child c); auto using root_in_nodes.
    + apply elem_of_flat_map in Hx as (c' & Hc' & Hx).
      apply list_elem_of_fmap in Hc' as (c & -> & Hc).
      apply list_elem_of_filter in Hc as [Hk Hc].
      destruct (Hpruned c Hc) as (_ & _ & Hsk).
      pose proof (nodes_prune_elem_of _ _ _ Hx) as Hxc.
      assert (x <> a) by (intros ->; by apply Ha_kids, (nodes_child c)).
      transitivity (skeleton h2 x).
      * apply skeleton_agree, Hh3; [done|].
        intros Hdrop. destruct (HdropD_kids x Hdrop) as (c0 & Hc0 & Hk0 & ->).
        apply (NoDup_flat_map_disjoint nodes folders c c0 (root c0));
          auto using root_in_nodes.
        intros ->. congruence.
      * rewrite Hsk by done. apply skeleton_agree, Hh1_kids, (nodes_child c); auto.
  - intros x Hx. simpl in Hx. apply not_elem_of_cons in Hx as [Hxa Hx].
    apply not_elem_of_app in Hx as [HxF HxD].
    rewrite Hh3; [|done|].
    + rewrite Hh2 by done. apply Hh1; [done|]. intros Hin. by apply HxF, HdropF_sub.
    + intros Hdrop. destruct (HdropD_kids x Hdrop) as (c & Hc & _ & ->).
      apply HxD, (nodes_child c); auto using root_in_nodes.
Qed.

Lemma trimmed_reshaped (keepers : gset positive) (h h' : gmap positive Node)
    (par : option positive) (t : tree) :
  trimmed keepers h h' par t <-> reshaped h h' par t (prune keepers t).
Proof. unfold trimmed, pruned_in, reshaped. tauto. Qed.

Lemma reshaped_trans (h h1 h2 : gmap positive Node) (par : option positive)
    (t t1 t2 : tree) :
  reshaped h h1 par t t1 -> reshaped h1 h2 par t1 t2 ->
  (forall x, x ∈ nodes t1 -> x ∈ nodes t) ->
  (forall x, x ∈ nodes t2 -> x ∈ nodes t1) ->
  reshaped h h2 par t t2.
Proof.
  intros (_ & Hgone1 & Hsk1 & Hout1) (Hwf2 & Hgone2 & Hsk2 & Hout2) Hsub1 Hsub2.
  split; [done|]. split; [|split].
  - intros x Hx Hnot. destruct (decide (x ∈ nodes t1)) as [Hin|Hnin].
    + by apply Hgone2.
    + rewrite Hout2 by done. by apply Hgone1.
  - intros x Hx. rewrite Hsk2 by done. apply Hsk1. by apply Hsub2.
  - intros x Hx. rewrite Hout2 by (intros ?; by apply Hx, Hsub1).
    by apply Hout1.
Qed.

(** [ProjectNode::trim] on a project outside the keep set. *)
Lemma ProjectNode_trim_spec (keepers : gset positive) (fuel : nat)
    (a : positive) (l : list positive) (h : gmap positive Node)
    (par : option positive) (files : list positive) (folders : list tree)
    (n : Node) (tr : list Event) :
  wf_tree h par (Tree a files folders) ->
  NoDup (nodes (Tree a files folders)) ->
  managed h a l ->
  Forall (fun x => x ∉ nodes (Tree a files folders)) l ->
  (length l < fuel)%nat ->
  (height (Tree a files folders) <= fuel)%nat ->
  h !! a = Some n -> a ∉ keepers ->
  (forall c0, c0 ∈ folders -> forall c, c = c0 \/ c = prune keepers c0 ->
     forall h tr,
     wf_tree h (Some a) c -> managed h (root c) (a :: l) ->
     exists h' tr',
       trim fuel (root c) keepers (mkState h tr)
         = Val (trim_answer keepers c, mkState h' tr') /\
       trimmed keepers h h' (Some a) c) ->
  exists h' tr',
    ProjectNode_trim (trim fuel) fuel a keepers (mkState h tr)
      = Val (trim_answer keepers (Tree a files folders), mkState h' tr') /\
    trimmed keepers h h' par (Tree a files folders).
Proof.
  intros Hwf Hnd Hm Hl Hlen Hheight Hn HaK Hchild.
  inversion Hwf as [? ? n0 ? ? Ha Hty Hpar Hses Hfiles Hfolders Hproj Hprojty Hsf Hsd Hleaf Hkids];
    subst.
  assert (n0 = n) as -> by congruence. clear Ha.
  pose proof Hnd as Hnd_all.
  simpl in Hnd. apply NoDup_cons in Hnd as [Ha_notin Hnd].
  apply NoDup_app in Hnd as (Hnd_files & Hdisj & Hnd_kids).
  assert (Ha_files : a ∉ m_fileNodes n)
    by (intros ?; apply Ha_notin, elem_of_app; by left).
  assert (Ha_kids : a ∉ flat_map nodes folders)
    by (intros ?; apply Ha_notin, elem_of_app; by right).
  assert (Hl_all : forall x, x ∈ l -> x ∉ nodes (Tree a (m_fileNodes n) folders)).
  { intros x Hx. rewrite Forall_forall in Hl. by apply Hl. }
  assert (Hl_kids : forall x, x ∈ l -> x ∉ flat_map nodes folders).
  { intros x Hx Hin. apply (Hl_all x Hx). right. apply elem_of_app. by right. }
  assert (Hnd_roots : NoDup (map root folders))
    by (by apply StronglySorted_lt_NoDup).
  rewrite Forall_forall in Hleaf. rewrite Forall_forall in Hkids.
  set (files := m_fileNodes n) in *.
  set (T := Tree a files folders) in *.
  set (isP := fun r => isProjectAt h r).
  set (P := filter (fun c => isP (root c) = true) folders).
  assert (HP_sub : forall c, c ∈ P -> c ∈ folders).
  { intros c Hc. by apply list_elem_of_filter in Hc as [_ ?]. }
  assert (HP_dec : forall c, c ∈ folders -> c ∈ P \/ c ∉ P).
  { intros c Hc. destruct (isP (root c)) eqn:Hp.
    - left. by apply list_elem_of_filter.
    - right. intros [Hp' _]%list_elem_of_filter. congruence. }
  assert (HprojP : m_projectNodes n = map root P).
  { rewrite Hproj. unfold P, isP. by rewrite map_filter_comm. }
  assert (HsubP : forall x, x ∈ flat_map nodes P -> x ∈ flat_map nodes folders).
  { apply sublist_subseteq, sublist_flat_map, sublist_filter. }
  (* the sub-projects *)
  destruct (trim_children keepers fuel a l P
              (fun c Hc => Hchild c (HP_sub c Hc) c (or_introl eq_refl))
              ltac:(eapply sublist_NoDup; [exact Hnd_kids|];
                    apply sublist_flat_map, sublist_filter)
              ltac:(intros ?; by apply Ha_kids, HsubP)
              ltac:(apply Forall_forall; intros x Hx ?;
                    by apply (Hl_kids x Hx), HsubP)
              h tr
              ltac:(apply Forall_forall; intros c Hc; by apply Hkids, HP_sub)
              Hm)
    as (h1 & tr1 & Hrun1 & Hpruned1 & Hh1).
  rewrite Forall_forall in Hpruned1.
  set (dropP := map root (filter (fun c => has_keeper keepers c = false) P)).
  set (g := prune_if keepers isP).
  set (folders1 := map g folders).
  assert (Hg_P : forall c, c ∈ P -> g c = prune keepers c).
  { intros c Hc. apply list_elem_of_filter in Hc as [Hp _].
    unfold g, prune_if. by rewrite Hp. }
  assert (Hg_notP : forall c, c ∈ folders -> c ∉ P -> g c = c).
  { intros c Hc HcP. unfold g, prune_if.
    destruct (isP (root c)) eqn:Hp; [|done].
    exfalso. apply HcP. by apply list_elem_of_filter. }
  assert (Hout : forall c, c ∈ folders -> c ∉ P ->
            forall x, x ∈ nodes c -> x ∉ flat_map nodes P).
  { intros c Hc HcP x Hx Hin.
    apply elem_of_flat_map in Hin as (c' & Hc' & Hx').
    apply (NoDup_flat_map_disjoint nodes folders c c' x); auto.
    by intros ->. }
  assert (Hh1_a : h1 !! a = Some n).
  { rewrite Hh1; [done|]. intros ?. by apply Ha_kids, HsubP. }
  assert (Hsk1 : forall c, c ∈ folders -> forall x, x ∈ nodes (g c) ->
            skeleton h1 x = skeleton h x).
  { intros c Hc x Hx. destruct (HP_dec c Hc) as [HcP|HcP].
    - rewrite (Hg_P c HcP) in Hx. by apply (Hpruned1 c HcP).
    - rewrite (Hg_notP c Hc HcP) in Hx. apply skeleton_agree, Hh1.
      by apply (Hout c). }
  assert (Hwf_kids1 : Forall (wf_tree h1 (Some a)) folders1).
  { apply Forall_forall. intros c' Hc'.
    apply list_elem_of_fmap in Hc' as (c & -> & Hc).
    destruct (HP_dec c Hc) as [HcP|HcP].
    - rewrite (Hg_P c HcP). by apply (Hpruned1 c HcP).
    - rewrite (Hg_notP c Hc HcP). apply (wf_tree_frame h); [by apply Hkids|].
      intros x Hx. by apply Hh1, (Hout c). }
  assert (Hroots1 : map root folders1 = map root folders)
    by apply map_root_prune_if.
  assert (Hwf1 : wf_tree h1 (m_parentFolderNode n) (Tree a files folders1)).
  { apply wf_tree_intro with n; try done.
    - by rewrite Hroots1.
    - rewrite Hroots1, Hproj. apply filter_ext_elem_of. intros r Hr.
      apply list_elem_of_fmap in Hr as (c & -> & Hc).
      rewrite (isProjectAt_skeleton h h1); [done|].
      apply (Hsk1 c Hc). rewrite <- (root_prune_if keepers isP c).
      apply root_in_nodes.
    - by rewrite Hroots1.
    - apply Forall_forall. intros f Hf.
      apply (file_leaf_frame h); [|by apply Hleaf].
      apply Hh1. intros Hin. by apply (Hdisj f Hf), HsubP. }
  assert (Hsub1 : nodes (Tree a files folders1) `sublist_of` nodes T).
  { simpl. apply sublist_skip, sublist_app; [done|].
    apply flat_map_prune_if_sublist. }
  assert (Hnd1 : NoDup (flat_map nodes folders1)).
  { eapply sublist_NoDup; [exact Hnd_kids|]. apply flat_map_prune_if_sublist. }
  (* the sub-projects without a keeper are removed *)
  assert (HdropP_kids : forall r, r ∈ dropP -> exists c,
            c ∈ folders /\ c ∈ P /\ has_keeper keepers c = false /\ r = root c).
  { intros r Hr. apply list_elem_of_fmap in Hr as (c & -> & Hc).
    apply list_elem_of_filter in Hc as [? ?]. exists c. auto. }
  assert (HdropP_roots : forall r, r ∈ dropP -> r ∈ map root folders).
  { intros r Hr. destruct (HdropP_kids r Hr) as (c & Hc & _ & _ & ->).
    apply list_elem_of_fmap. eauto. }
  assert (HdropP_nodes : forall r, r ∈ dropP -> r ∈ flat_map nodes folders).
  { intros r Hr. destruct (HdropP_kids r Hr) as (c & Hc & _ & _ & ->).
    apply (nodes_child c); auto using root_in_nodes. }
  set (D := fun r => nodes (subtree_at folders1 r)).
  assert (HD : forall r, r ∈ dropP -> D r = [r]).
  { intros r Hr. destruct (HdropP_kids r Hr) as (c & Hc & HcP & Hk & ->).
    unfold D, folders1, g. rewrite subtree_at_prune_if by done.
    fold g. by rewrite (Hg_P c HcP), (prune_no_keeper _ _ Hk). }
  assert (Hnd_dropP : NoDup dropP).
  { eapply sublist_NoDup; [exact Hnd_roots|].
    apply (fmap_sublist root). etrans; apply sublist_filter. }
  assert (Hheights : Forall (fun c => (height c < fuel)%nat) folders1).
  { apply Forall_forall. intros c' Hc'.
    apply list_elem_of_fmap in Hc' as (c & -> & Hc).
    assert (Hle : (height (g c) <= height c)%nat) by apply height_prune_if.
    pose proof (height_child a files folders c Hc) as Hlt.
    eapply Nat.le_lt_trans; [exact Hle|].
    eapply Nat.lt_le_trans; [exact Hlt|exact Hheight]. }
  pose proof (removeProjectNodes_spec (destroy fuel) D a h1 n tr1 dropP
    ltac:(intros r h' Hr Hag tr';
          apply (destroy_subtree fuel a folders1 h1 tr' Hwf_kids1 Hnd1 Hheights);
          [rewrite Hroots1; by apply HdropP_roots|exact Hag])
    ltac:(intros r Hr; rewrite (HD r Hr);
          intros ->%list_elem_of_singleton; by apply Ha_kids, HdropP_nodes)
    ltac:(apply (NoDup_subtrees folders1 dropP Hnd1 Hnd_dropP);
          intros r Hr; rewrite Hroots1; by apply HdropP_roots)
    Hh1_a
    ltac:(rewrite Hproj; by apply StronglySorted_filter)
    ltac:(by rewrite Hfolders)
    Hnd_dropP
    ltac:(intros p Hp; split;
          [rewrite HprojP; apply list_elem_of_fmap;
           apply list_elem_of_fmap in Hp as (c & -> & Hc);
           apply list_elem_of_filter in Hc as [_ Hc]; eauto
          |rewrite Hfolders; by apply HdropP_roots])) as Hrun_rm.
  fold (ProjectNode_removeProjectNodes fuel a dropP) in Hrun_rm.
  set (n2 := set_folderNodes _ _) in Hrun_rm.
  set (DD := flat_map D dropP) in *.
  set (h2 := <[a := n2]> (delete_all DD h1)) in *.
  set (tr2 := tr1 ++ _) in Hrun_rm.
  assert (HDD : forall x, x ∈ DD <-> x ∈ dropP).
  { intros x. unfold DD. rewrite elem_of_flat_map. split.
    - intros (r & Hr & Hx). rewrite (HD r Hr) in Hx.
      by apply list_elem_of_singleton in Hx as ->.
    - intros Hx. exists x. split; [done|]. rewrite (HD x Hx). by left. }
  assert (Hh2_a : h2 !! a = Some n2) by apply lookup_insert_eq.
  assert (Hh2 : forall x, x <> a -> x ∉ dropP -> h2 !! x = h1 !! x).
  { intros x Hxa Hx. unfold h2. rewrite lookup_insert_ne by done.
    rewrite lookup_delete_all. rewrite decide_False; [done|]. by rewrite HDD. }
  assert (Hh2_gone : forall x, x <> a -> h1 !! x = None \/ x ∈ dropP ->
                       h2 !! x = None).
  { intros x Hxa Hx. unfold h2. rewrite lookup_insert_ne by done.
    rewrite lookup_delete_all. destruct (decide (x ∈ DD)) as [|Hnot]; [done|].
    destruct Hx as [?|Hx]; [done|]. by apply HDD in Hx. }
  set (folders2 := filter (fun c => root c ∉ dropP) folders1).
  set (T2 := Tree a files folders2).
  assert (Hwf2 : wf_tree h2 (m_parentFolderNode n) T2).
  { apply (wf_tree_after_removal h1 _ a files folders1 n n2 dropP);
      try done.
    - eapply sublist_NoDup; [exact Hnd_all|exact Hsub1].
    - intros p Hp. rewrite Hroots1. by apply HdropP_roots.
    - simpl. by rewrite Hfolders, Hroots1.
    - simpl. rewrite Hroots1, Hproj, filter_list_difference.
      apply filter_ext_elem_of. intros r Hr.
      apply list_elem_of_difference in Hr as [Hr _].
      apply list_elem_of_fmap in Hr as (c & -> & Hc).
      rewrite (isProjectAt_skeleton h h1); [done|].
      apply (Hsk1 c Hc). rewrite <- (root_prune_if keepers isP c).
      apply root_in_nodes. }
  assert (Hfolders2 : forall c', c' ∈ folders2 <-> exists c,
            c ∈ folders /\ c' = g c /\
            ~ (isP (root c) = true /\ has_keeper keepers c = false)).
  { intros c'. unfold folders2, folders1. rewrite list_elem_of_filter.
    rewrite list_elem_of_fmap. split.
    - intros (Hnot & c & -> & Hc). exists c. split; [done|]. split; [done|].
      intros Hpk. apply Hnot. unfold g. rewrite root_prune_if.
      by apply (dropped_project keepers isP folders c Hnd_roots Hc).
    - intros (c & Hc & -> & Hnot). split; [|eauto].
      unfold g. rewrite root_prune_if. intros Hin. apply Hnot.
      by apply (dropped_project keepers isP folders c Hnd_roots Hc). }
  assert (Hsub2 : nodes T2 `sublist_of` nodes T).
  { etrans; [|exact Hsub1]. simpl.
    apply sublist_skip, sublist_app; [done|].
    apply sublist_flat_map, sublist_filter. }
  assert (Hin2 : forall x, x ∈ nodes T2 -> x ∈ nodes T)
    by apply sublist_subseteq, Hsub2.
  assert (Hshape : reshaped h h2 (m_parentFolderNode n) T T2).
  { split; [done|]. split; [|split].
    - intros x Hx Hnot. simpl in Hx, Hnot.
      apply not_elem_of_cons in Hnot as [Hxa Hnot].
      apply not_elem_of_app in Hnot as [HnotF HnotD].
      apply elem_of_cons in Hx as [?|Hx]; [done|].
      apply elem_of_app in Hx as [?|Hx]; [done|].
      apply Hh2_gone; [done|].
      apply elem_of_flat_map in Hx as (c & Hc & Hx).
      destruct (decide (isP (root c) = true /\ has_keeper keepers c = false))
        as [[Hp Hk]|Hkeep].
      + assert (HcP : c ∈ P) by (by apply list_elem_of_filter).
        destruct (decide (x = root c)) as [->|Hne].
        * right. by apply (dropped_project keepers isP folders c Hnd_roots Hc).
        * left. apply (Hpruned1 c HcP); [done|].
          rewrite (prune_no_keeper _ _ Hk). simpl.
          by intros ->%list_elem_of_singleton.
      + assert (Hxg : x ∉ nodes (g c)).
        { intros Hin. apply HnotD, elem_of_flat_map. exists (g c).
          split; [|done]. apply Hfolders2. eauto. }
        destruct (HP_dec c Hc) as [HcP|HcP].
        * left. rewrite (Hg_P c HcP) in Hxg. by apply (Hpruned1 c HcP).
        * by rewrite (Hg_notP c Hc HcP) in Hxg.
    - intros x Hx. simpl in Hx. apply elem_of_cons in Hx as [->|Hx].
      { unfold h2. by apply (skeleton_insert h a n). }
      apply elem_of_app in Hx as [Hx|Hx].
      + assert (x <> a) by (by intros ->).
        apply skeleton_agree. rewrite Hh2; [|done|].
        * apply Hh1. intros Hin. by apply (Hdisj x Hx), HsubP.
        * intros Hin. by apply (Hdisj x Hx), HdropP_nodes.
      + apply elem_of_flat_map in Hx as (c' & Hc' & Hx).
        apply Hfolders2 in Hc' as (c & Hc & -> & Hkeep).
        assert (Hxc : x ∈ nodes c)
          by (by apply (sublist_subseteq _ _ (nodes_prune_if_sublist keepers isP c))).
        assert (x <> a) by (intros ->; by apply Ha_kids, (nodes_child c)).
        transitivity (skeleton h1 x); [|by apply (Hsk1 c Hc)].
        apply skeleton_agree, Hh2; [done|]. intros Hdrop.
        destruct (HdropP_kids x Hdrop) as (c0 & Hc0 & Hc0P & Hk0 & ->).
        apply (NoDup_flat_map_disjoint nodes folders c c0 (root c0));
          auto using root_in_nodes.
        intros ->. apply Hkeep. split; [|done].
        by apply list_elem_of_filter in Hc0P as [? _].
    - intros x Hx. simpl in Hx. apply not_elem_of_cons in Hx as [Hxa Hx].
      apply not_elem_of_app in Hx as [HxF HxD].
      rewrite Hh2; [|done|].
      + apply Hh1. intros Hin. by apply HxD, HsubP.
      + intros Hin. by apply HxD, HdropP_nodes. }
  (* the files and the folders left *)
  destruct Hshape as (_ & Hgone2 & Hskel2 & Hframe2).
  destruct (FolderNode_trim_spec keepers fuel a l h2 (m_parentFolderNode n)
              files folders2 n2 tr2 Hwf2
              ltac:(eapply sublist_NoDup; [exact Hnd_all|exact Hsub2])
              ltac:(apply (managed_frame h); [done|];
                    intros x [->|Hx]%elem_of_cons;
                    [by apply (skeleton_insert h a n)
                    |by apply skeleton_agree, Hframe2, Hl_all])
              ltac:(apply Forall_forall; intros x Hx Hin;
                    by apply (Hl_all x Hx), Hin2)
              Hlen
              ltac:(etrans; [|exact Hheight]; apply height_children_le;
                    intros c' Hc'; apply Hfolders2 in Hc' as (c & Hc & -> & _);
                    exists c; split; [done|apply height_prune_if])
              Hh2_a HaK)
    as (h3 & tr3 & Hrun3 & Htrimmed3).
  { intros c' Hc'. apply Hfolders2 in Hc' as (c & Hc & -> & _).
    apply (Hchild c Hc). unfold g, prune_if. destruct (isP (root c)); auto. }
  { intros c' Hc' Hp'. pose proof Hc' as Hc2.
    apply Hfolders2 in Hc' as (c & Hc & -> & Hkeep).
    unfold g. rewrite has_keeper_prune_if.
    destruct (has_keeper keepers c) eqn:Hk; [done|].
    exfalso. apply Hkeep. split; [|done].
    rewrite <- Hp'. symmetry. unfold g. rewrite root_prune_if.
    apply isProjectAt_skeleton, Hskel2. simpl. right.
    apply elem_of_app. right. apply elem_of_flat_map. exists (g c).
    split; [exact Hc2|].
    rewrite <- (root_prune_if keepers isP c). apply root_in_nodes. }
  exists h3, tr3. split.
  - unfold ProjectNode_trim. rewrite decide_False by done.
    rewrite (bind_Val _ _ _ _ _ (deref_Val a (mkState h tr) n Hn)).
    rewrite HprojP, (bind_Val _ _ _ _ _ Hrun1).
    unfold trim_answer at 1 2.
    rewrite (non_null_map_bool (has_keeper keepers) root).
    fold dropP. rewrite (bind_Val _ _ _ _ _ Hrun_rm).
    rewrite (bind_Val _ _ _ _ _ Hrun3).
    unfold trim_answer, T, T2, folders2, folders1, dropP, P, g.
    rewrite (has_keeper_after_projects keepers isP a files folders Hnd_roots HaK).
    destruct (has_keeper keepers (Tree a files folders)) eqn:Hk; [done|].
    simpl. unfold ret.
    rewrite (no_keeper_all_projects keepers _ a files folders Hk).
    by rewrite !length_map, Nat.eqb_refl.
  - apply trimmed_reshaped. unfold T at 2.
    rewrite <- (prune_after_projects keepers isP a files folders Hnd_roots HaK).
    apply (reshaped_trans h h2 h3 _ T T2); [done| |done|].
    + by apply trimmed_reshaped.
    + apply sublist_subseteq, nodes_prune_sublist.
Qed.

Lemma trimmed_kept (keepers : gset positive) (h : gmap positive Node)
    (par : option positive) (t : tree) :
  wf_tree h par t -> root t ∈ keepers -> trimmed keepers h h par t.
Proof.
  intros Hwf Hk. destruct t as [a files folders]. simpl in Hk.
  unfold trimmed, pruned_in. rewrite prune_unfold, decide_True by done.
  repeat split; done.
Qed.

(** [trim] prunes the tree below the node it is called on, and answers
    null when the tree holds a node to keep. *)
Lemma trim_spec (keepers : gset positive) (m : nat) :
  forall t fuel h par l tr,
    (height t <= m)%nat ->
    wf_tree h par t -> NoDup (nodes t) -> managed h (root t) l ->
    Forall (fun x => x ∉ nodes t) l ->
    (2 * height t + length l < fuel)%nat ->
    exists h' tr',
      trim fuel (root t) keepers (mkState h tr)
        = Val (trim_answer keepers t, mkState h' tr') /\
      trimmed keepers h h' par t.
Proof.
  induction m as [|m IH]; intros t fuel h par l tr Hm Hwf Hnd Hman Hl Hfuel.
  { pose proof (height_pos t). lia. }
  destruct t as [a files folders].
  pose proof Hwf as Hwf'.
  inversion Hwf' as [? ? n ? ? Ha Hty Hpar Hses Hfiles Hfolders Hproj Hprojty Hsf Hsd Hleaf Hkids];
    subst.
  destruct fuel as [|fuel]; [lia|].
  pose proof (height_pos (Tree a (m_fileNodes n) folders)) as Hpos.
  simpl root in *. rewrite trim_S.
  rewrite (bind_Val _ _ _ _ _ (deref_Val a (mkState h tr) n Ha)).
  assert (Hlen : (length l < fuel)%nat) by lia.
  assert (Hheight : (height (Tree a (m_fileNodes n) folders) <= fuel)%nat) by lia.
  destruct (decide (a ∈ keepers)) as [HaK|HaK].
  { exists h, tr. split; [|by apply trimmed_kept].
    assert (Hans : trim_answer keepers (Tree a (m_fileNodes n) folders) = None).
    { unfold trim_answer.
      rewrite (proj2 (has_keeper_unfold keepers a (m_fileNodes n) folders));
        [done|by left]. }
    rewrite Hans.
    destruct (m_nodeType n) eqn:Etype; try done;
      unfold FolderNode_trim, ProjectNode_trim; by rewrite decide_True. }
  assert (Ha_kids : a ∉ flat_map nodes folders).
  { simpl in Hnd. apply NoDup_cons in Hnd as [Hnot _].
    intros ?. apply Hnot, elem_of_app. by right. }
  assert (Hnd_kids : NoDup (flat_map nodes folders)).
  { simpl in Hnd. apply NoDup_cons in Hnd as [_ Hnd'].
    by apply NoDup_app in Hnd' as (_ & _ & ?). }
  assert (Hchild : forall c0, c0 ∈ folders ->
            forall c, c = c0 \/ c = prune keepers c0 ->
            forall h tr,
              wf_tree h (Some a) c -> managed h (root c) (a :: l) ->
              exists h' tr',
                trim fuel (root c) keepers (mkState h tr)
                  = Val (trim_answer keepers c, mkState h' tr') /\
                trimmed keepers h h' (Some a) c).
  { intros c0 Hc0 c Hc h0 tr0 Hwf0 Hman0.
    pose proof (height_child a (m_fileNodes n) folders c0 Hc0) as Hlt.
    assert (Hle : (height c <= height c0)%nat).
    { destruct Hc as [->| ->]; [done|apply height_prune]. }
    assert (Hsub : forall x, x ∈ nodes c -> x ∈ nodes c0).
    { destruct Hc as [->| ->]; [done|]. intros x. apply nodes_prune_elem_of. }
    apply (IH c fuel h0 (Some a) (a :: l) tr0); try done.
    - lia.
    - destruct Hc as [->| ->]; [|apply nodes_prune_NoDup];
        by apply (NoDup_flat_map_elem nodes folders).
    - apply Forall_cons. split.
      + intros Hin. by apply Ha_kids, (nodes_child c0), Hsub.
      + apply Forall_forall. intros x Hx Hin. rewrite Forall_forall in Hl.
        apply (Hl x Hx). right. apply elem_of_app. right.
        by apply (nodes_child c0), Hsub.
    - simpl length. lia. }
  assert (Hfolder :
    (exists h' tr',
       FolderNode_trim (trim fuel) fuel a keepers (mkState h tr)
         = Val (trim_answer keepers (Tree a (m_fileNodes n) folders),
                mkState h' tr') /\
       trimmed keepers h h' (m_parentFolderNode n)
         (Tree a (m_fileNodes n) folders)) \/
    m_nodeType n = ProjectNodeType).
  { destruct (decide (m_nodeType n = ProjectNodeType)) as [?|Hnp]; [by right|].
    left. apply (FolderNode_trim_spec keepers fuel a l h _ _ _ n tr); try done.
    - intros c Hc. by apply (Hchild c Hc c); left.
    - intros c Hc Hp. exfalso.
      assert (Hin : root c ∈ m_projectNodes n).
      { rewrite Hproj. apply list_elem_of_filter. split; [done|].
        apply list_elem_of_fmap. eauto. }
      destruct Hprojty as [?|Hs]; [by intros Heq; rewrite Heq in Hin; inversion Hin|done|].
      destruct Hman as (_ & (n' & Hn' & Hns) & _). congruence. }
  destruct (m_nodeType n) eqn:Etype; try done;
    try (by destruct Hfolder as [?|?]).
  by apply (ProjectNode_trim_spec keepers fuel a l h _ _ _ n tr).
Qed.

(** C3, as the code has it.  On a managed folder or project whose tree is
    well formed, [trim] returns null if and only if the node or a node below
    it is in the keep set, and the node itself otherwise.  It leaves the
    tree pruned as [prune] says, and the store outside the tree as it was: a
    folder that is in the keep set stays as it is, with all its children,
    those outside the keep set too; a folder that is not in the keep set
    loses its file nodes outside the keep set and its folders below which no
    node is in the keep set, and its other folders are pruned in the same
    way.  On a file node of the folder, [trim] returns null if and only if
    the file node is in the keep set, and the file node itself otherwise,
    the store unchanged. *)
Theorem trim_null_iff_keeper (keepers : gset positive) (t : tree)
    (fuel : nat) (h : gmap positive Node) (par : option positive)
    (l : list positive) (tr : list Event) :
  wf_tree h par t -> NoDup (nodes t) -> managed h (root t) l ->
  Forall (fun x => x ∉ nodes t) l ->
  (2 * height t + length l < fuel)%nat ->
  (exists r h' tr',
     trim fuel (root t) keepers (mkState h tr) = Val (r, mkState h' tr') /\
     (r = None <-> exists x, x ∈ nodes t /\ x ∈ keepers) /\
     (r <> None -> r = Some (root t)) /\
     trimmed keepers h h' par t) /\
  (forall f, f ∈ tree_files t ->
     trim fuel f keepers (mkState h tr)
       = Val (if decide (f ∈ keepers) then None else Some f, mkState h tr)).
Proof.
  intros Hwf Hnd Hm Hl Hfuel. split.
  - destruct (trim_spec keepers (height t) t fuel h par l tr (Nat.le_refl _)
                Hwf Hnd Hm Hl Hfuel) as (h' & tr' & Hrun & Htrimmed).
    exists (trim_answer keepers t), h', tr'. split; [done|].
    unfold trim_answer. rewrite <- has_keeper_elem.
    destruct (has_keeper keepers t); (split; [by split|]); by split.
  - intros f Hf.
    inversion Hwf as [? ? n ? ? Ha Hty Hpar Hses Hfiles Hfolders Hproj Hprojty Hsf Hsd Hleaf Hkids];
      subst.
    rewrite Forall_forall in Hleaf.
    apply (trim_file fuel a); [by apply Hleaf|lia].
Qed.

Lemma small_project_managed : managed (heap small_project) 1 [].
Proof.
  split; [|split].
  - eapply ancestors_root; reflexivity.
  - eexists. split; [reflexivity|discriminate].
  - apply Exists_cons_hd. reflexivity.
Qed.

Lemma trim_null_iff_keeper_witness :
  (exists r h' tr',
     trim 5 1 {[4%positive]} small_project = Val (r, mkState h' tr') /\
     (r = None <->
        exists x, x ∈ [1; 2; 3; 4]%positive /\ x ∈ ({[4%positive]} : gset positive)) /\
     (r <> None -> r = Some 1%positive) /\
     trimmed {[4%positive]} (heap small_project) h' None
       (Tree 1 [2%positive] [Tree 3 [4%positive] []])) /\
  (forall f, f ∈ [2%positive] ->
     trim 5 f {[4%positive]} small_project
       = Val (if decide (f ∈ ({[4%positive]} : gset positive))
              then None else Some f, small_project)).
Proof.
  apply (trim_null_iff_keeper {[4%positive]}
           (Tree 1 [2%positive] [Tree 3 [4%positive] []]) 5
           (heap small_project) None [] []).
  - solve_wf_tree.
  - solve_NoDup.
  - exact small_project_managed.
  - apply Forall_nil_2.
  - simpl. lia.
Defined.

(** A folder in the keep set keeps its children: with the folder [/p/sub]
    of the small project to keep, [trim] on the project takes the file
    [/p/a.cpp] and leaves the file [/p/sub/b.cpp], which is not in the keep
    set. *)
Example trim_keeps_children_of_kept_folder :
  prune {[3%positive]} small_project_tree = Tree 1 [] [Tree 3 [4%positive] []] /\
  exists h' tr',
    trim 5 1 {[3%positive]} small_project = Val (None, mkState h' tr') /\
    h' !! 2%positive = None /\
    h' !! 4%positive = heap small_project !! 4%positive.
Proof.
  split; [by vm_compute|]. eexists _, _. split; [by vm_compute|].
  split; by vm_compute.
Qed.

(** C3, as the spec has it, fails: the file node [/p/sub/b.cpp] of the small
    project is in the keep set, and [trim] returns null for it; with the
    empty keep set, [trim] returns the file node. *)
Lemma trim_null_for_kept_node :
  ((4%positive ∈ ({[4%positive]} : gset positive)) /\
   trim 5 4 {[4%positive]} small_project = Val (None, small_project)) /\
  ((4%positive ∉ (∅ : gset positive)) /\
   trim 5 4 ∅ small_project = Val (Some 4%positive, small_project)).
Proof.
  split; (split; [set_solver|by vm_compute]).
Qed.

(** ** The order of paths, sorting and the comparison of sorted lists *)

Lemma ltb_Lt (a b : string) :
  String.ltb a b = true <-> OrderedTypeEx.String_as_OT.lt a b.
Proof.
  rewrite <- OrderedTypeEx.String_as_OT.cmp_lt.
  unfold String.ltb, OrderedTypeEx.String_as_OT.cmp.
  destruct (String.compare a b); split; congruence.
Qed.

Lemma ltb_irrefl (a : string) : String.ltb a a = false.
Proof.
  destruct (String.ltb a a) eqn:E; [|done].
  apply ltb_Lt in E. by destruct (OrderedTypeEx.String_as_OT.lt_not_eq _ _ E).
Qed.

Lemma ltb_trans (a b c : string) :
  String.ltb a b = true -> String.ltb b c = true -> String.ltb a c = true.
Proof.
  rewrite !ltb_Lt. apply OrderedTypeEx.String_as_OT.lt_trans.
Qed.

Lemma ltb_trichotomy (a b : string) :
  String.ltb a b = false -> String.ltb b a = false -> a = b.
Proof.
  unfold String.ltb. rewrite (String.compare_antisym a b).
  destruct (String.compare b a) eqn:E; simpl; try done.
  intros _ _. symmetry. by apply String.compare_eq_iff.
Qed.

Lemma ltb_asym (a b : string) : String.ltb a b = true -> String.ltb b a = false.
Proof.
  intros Hab. destruct (String.ltb b a) eqn:Hba; [|done].
  pose proof (ltb_trans _ _ _ Hab Hba) as H. by rewrite ltb_irrefl in H.
Qed.

#[global] Instance path_le_refl : Reflexive path_le.
Proof. intros a. apply ltb_irrefl. Qed.

#[global] Instance path_le_total : Total path_le.
Proof.
  intros a b. unfold path_le. destruct (String.ltb b a) eqn:E; [|by left].
  right. by apply ltb_asym.
Qed.

#[global] Instance path_le_antisym : AntiSymm (=) path_le.
Proof. intros a b Hab Hba. by apply ltb_trichotomy. Qed.

#[global] Instance path_le_trans : Transitive path_le.
Proof.
  intros a b c Hab Hbc. unfold path_le in *.
  destruct (String.ltb c a) eqn:Hca; [|done].
  destruct (String.ltb a b) eqn:Hlt.
  - pose proof (ltb_trans _ _ _ Hca Hlt). congruence.
  - rewrite (ltb_trichotomy _ _ Hlt Hab) in Hca. congruence.
Qed.

Lemma sortByPath_alive (h : gmap positive Node) (a b : positive) :
  is_Some (h !! a) -> is_Some (h !! b) ->
  sortByPath h a b = String.ltb (path_of h a) (path_of h b).
Proof.
  intros [na Ha] [nb Hb]. unfold sortByPath, path_of. by rewrite Ha, Hb.
Qed.

#[global] Instance not_after_sortByPath_total h : Total (not_after (sortByPath h)).
Proof.
  intros a b. unfold not_after, sortByPath.
  destruct (h !! a) as [na|], (h !! b) as [nb|]; auto.
  apply (path_le_total (m_filePath na) (m_filePath nb)).
Qed.

Lemma sort_by_Permutation (lt : positive -> positive -> bool) (l : list positive) :
  sort_by lt l ≡ₚ l.
Proof. apply merge_sort_Permutation. Qed.

Lemma Sorted_fmap_elem {A B} (f : A -> B) (R1 : relation A) (R2 : relation B)
    (l : list A) :
  (forall x y, x ∈ l -> y ∈ l -> R1 x y -> R2 (f x) (f y)) ->
  Sorted R1 l -> Sorted R2 (map f l).
Proof.
  intros Hf Hs. induction Hs as [|x l Hs IH Hhd]; [constructor|].
  simpl. constructor.
  - apply IH. intros y z Hy Hz. apply Hf; by right.
  - destruct Hhd as [|y l' Hxy]; constructor.
    apply Hf; [by left|by right; left|done].
Qed.

(** Sorted by [Node::sortByPath], a list of live nodes ascends by path. *)
Lemma sort_by_path_sorted (h : gmap positive Node) (l : list positive) :
  Forall (fun a => is_Some (h !! a)) l ->
  StronglySorted path_le (map (path_of h) (sort_by (sortByPath h) l)).
Proof.
  intros Hl. apply Sorted_StronglySorted; [apply _|].
  apply (Sorted_fmap_elem _ (not_after (sortByPath h))).
  - intros x y Hx Hy. unfold not_after, path_le.
    rewrite sortByPath_alive; [done| |].
    + rewrite Forall_forall in Hl. apply Hl.
      by rewrite <- (sort_by_Permutation (sortByPath h) l).
    + rewrite Forall_forall in Hl. apply Hl.
      by rewrite <- (sort_by_Permutation (sortByPath h) l).
  - apply Sorted_merge_sort. apply _.
Qed.

(** Two nodes neither of which sorts before the other. *)
Definition same_rank (lt : positive -> positive -> bool) (a b : positive) : Prop :=
  lt a b = false /\ lt b a = false.

Lemma compareSortedLists_nil_r (lt : positive -> positive -> bool)
    (oldList : list positive) :
  compareSortedLists lt oldList [] = (oldList, []).
Proof. by destruct oldList. Qed.

Lemma compareSortedLists_cons (lt : positive -> positive -> bool)
    (o n : positive) (oldList newList : list positive) :
  compareSortedLists lt (o :: oldList) (n :: newList) =
    if lt o n then
      let '(removed, added) := compareSortedLists lt oldList (n :: newList) in
      (o :: removed, added)
    else if lt n o then
      let '(removed, added) := compareSortedLists lt (o :: oldList) newList in
      (removed, n :: added)
    else compareSortedLists lt oldList newList.
Proof. done. Qed.

(** Lists that agree rank by rank have nothing to delete and nothing to
    add. *)
Lemma compareSortedLists_same (lt : positive -> positive -> bool)
    (oldList newList : list positive) :
  Forall2 (same_rank lt) oldList newList ->
  compareSortedLists lt oldList newList = ([], []).
Proof.
  induction 1 as [|o n oldList newList [Hon Hno] _ IH]; [done|].
  by rewrite compareSortedLists_cons, Hon, Hno.
Qed.

Lemma compareSortedLists_app (lt : positive -> positive -> bool)
    (o1 n1 o2 n2 : list positive) :
  Forall2 (same_rank lt) o1 n1 ->
  compareSortedLists lt (o1 ++ o2) (n1 ++ n2) = compareSortedLists lt o2 n2.
Proof.
  induction 1 as [|o n o1 n1 [Hon Hno] _ IH]; [done|].
  simpl app. by rewrite compareSortedLists_cons, Hon, Hno.
Qed.

(** One old node more, which sorts before what follows it: that node is to
    delete. *)
Lemma compareSortedLists_one_gone (lt : positive -> positive -> bool)
    (x : positive) (o1 n1 o2 n2 : list positive) :
  Forall2 (same_rank lt) o1 n1 -> Forall2 (same_rank lt) o2 n2 ->
  Forall (fun n => lt x n = true) n2 ->
  compareSortedLists lt (o1 ++ x :: o2) (n1 ++ n2) = ([x], []).
Proof.
  intros H1 H2 Hx. rewrite (compareSortedLists_app lt _ _ _ _ H1).
  destruct H2 as [|o n o2 n2 Hon H2]; [done|].
  apply Forall_cons in Hx as [Hx _].
  rewrite compareSortedLists_cons, Hx.
  assert (Hrest : Forall2 (same_rank lt) (o :: o2) (n :: n2)) by by constructor.
  by rewrite (compareSortedLists_same lt _ _ Hrest).
Qed.

(** In general the comparison splits both lists: what is kept of the one
    agrees rank by rank with what is kept of the other. *)
Lemma compareSortedLists_split (lt : positive -> positive -> bool)
    (oldList newList : list positive) :
  exists keptOld keptNew,
    oldList ≡ₚ keptOld ++ (compareSortedLists lt oldList newList).1 /\
    newList ≡ₚ keptNew ++ (compareSortedLists lt oldList newList).2 /\
    Forall2 (same_rank lt) keptOld keptNew.
Proof.
  revert newList. induction oldList as [|o oldList IHo]; intros newList.
  { exists [], []. by repeat split. }
  induction newList as [|n newList IHn].
  { exists [], []. by repeat split. }
  rewrite compareSortedLists_cons.
  destruct (lt o n) eqn:Hon; [|destruct (lt n o) eqn:Hno].
  - destruct (IHo (n :: newList)) as (ko & kn & Ho & Hn & Hk).
    destruct (compareSortedLists lt oldList (n :: newList)) as [removed added].
    simpl in *. exists ko, kn. split; [|done].
    by rewrite Ho, <- Permutation_middle.
  - destruct IHn as (ko & kn & Ho & Hn & Hk).
    destruct (compareSortedLists lt (o :: oldList) newList) as [removed added].
    simpl in *. exists ko, kn. split; [done|]. split; [|done].
    by rewrite Hn, <- Permutation_middle.
  - destruct (IHo newList) as (ko & kn & Ho & Hn & Hk).
    exists (o :: ko), (n :: kn). simpl. split; [by constructor|].
    split; by constructor.
Qed.

Lemma same_rank_path (h : gmap positive Node) (a b : positive) :
  is_Some (h !! a) -> is_Some (h !! b) ->
  same_rank (sortByPath h) a b <-> path_of h a = path_of h b.
Proof.
  intros Ha Hb. unfold same_rank.
  rewrite !sortByPath_alive by done. split.
  - intros [H1 H2]. by apply ltb_trichotomy.
  - intros ->. by rewrite ltb_irrefl.
Qed.

Lemma same_rank_paths (h : gmap positive Node) (l k : list positive) :
  Forall (fun a => is_Some (h !! a)) l -> Forall (fun a => is_Some (h !! a)) k ->
  Forall2 (same_rank (sortByPath h)) l k <->
    map (path_of h) l = map (path_of h) k.
Proof.
  revert k. induction l as [|a l IH]; intros [|b k] Hl Hk; simpl.
  - split; [done|constructor].
  - split; [by inversion 1|done].
  - split; [by inversion 1|done].
  - apply Forall_cons in Hl as [Ha Hl]. apply Forall_cons in Hk as [Hb Hk].
    split.
    + inversion 1 as [|? ? ? ? Hab Hrest]; subst. f_equal.
      * by apply same_rank_path.
      * by apply IH.
    + intros [= Hab Hrest]. constructor.
      * by apply same_rank_path.
      * by apply IH.
Qed.

Lemma path_lt_of_le_ne (a b : string) :
  path_le a b -> a <> b -> String.ltb a b = true.
Proof.
  intros Hle Hne. destruct (String.ltb a b) eqn:E; [done|].
  destruct Hne. by apply ltb_trichotomy.
Qed.

(** The partitions when the incoming paths are the old paths but one: the
    old node of that path is to delete, and nothing is to add. *)
Lemma partition_one_gone (h : gmap positive Node) (x : positive)
    (oldFiles files : list positive) :
  Forall (fun a => is_Some (h !! a)) oldFiles ->
  Forall (fun a => is_Some (h !! a)) files ->
  NoDup oldFiles -> x ∈ oldFiles ->
  (forall y, y ∈ oldFiles -> path_of h y = path_of h x -> y = x) ->
  map (path_of h) files ≡ₚ map (path_of h) (filter (fun y => y <> x) oldFiles) ->
  compareSortedLists (sortByPath h) (sort_by (sortByPath h) oldFiles)
    (sort_by (sortByPath h) files) = ([x], []).
Proof.
  intros Hold Hnew Hnd Hx Huniq Hperm.
  set (lt := sortByPath h).
  pose proof (sort_by_Permutation lt oldFiles) as HpermO.
  pose proof (sort_by_Permutation lt files) as HpermN.
  pose proof (sort_by_path_sorted h oldFiles Hold) as HsortedO.
  pose proof (sort_by_path_sorted h files Hnew) as HsortedN.
  fold lt in HsortedO, HsortedN.
  assert (HaliveO : Forall (fun a => is_Some (h !! a)) (sort_by lt oldFiles))
    by (by rewrite HpermO).
  assert (HaliveN : Forall (fun a => is_Some (h !! a)) (sort_by lt files))
    by (by rewrite HpermN).
  assert (HndO : NoDup (sort_by lt oldFiles)) by (by rewrite HpermO).
  assert (HxO : x ∈ sort_by lt oldFiles) by (by rewrite HpermO).
  assert (Huniq' : forall y, y ∈ sort_by lt oldFiles ->
            path_of h y = path_of h x -> y = x).
  { intros y Hy. apply Huniq. by rewrite <- HpermO. }
  assert (Hperm' : map (path_of h) (sort_by lt files)
            ≡ₚ map (path_of h) (filter (fun y => y <> x) (sort_by lt oldFiles))).
  { by rewrite HpermN, HpermO. }
  clear Hperm HpermN Huniq.
  destruct (list_elem_of_split _ _ HxO) as (o1 & o2 & Hsplit).
  rewrite Hsplit in *. clear HxO.
  apply NoDup_app in HndO as (_ & Hx1 & Hnd2).
  apply NoDup_cons in Hnd2 as [Hx2 _].
  assert (Hfilter : filter (fun y => y <> x) (o1 ++ x :: o2) = o1 ++ o2).
  { rewrite filter_app, filter_cons, decide_False by (by intros ?).
    rewrite !filter_all; [done|..]; intros y Hy Heq; subst y;
      first [done | apply (Hx1 x Hy); by left]. }
  rewrite Hfilter in Hperm'.
  rewrite map_app in HsortedO. simpl in HsortedO.
  apply StronglySorted_app in HsortedO as (Hle12 & Hs1 & Hs2).
  apply StronglySorted_inv in Hs2 as [Hs2 Hx_le].
  assert (Hs12 : StronglySorted path_le (map (path_of h) (o1 ++ o2))).
  { rewrite map_app. apply StronglySorted_app_2; [|done|done].
    intros a b Ha Hb. apply Hle12; [done|by right]. }
  pose proof (StronglySorted_unique path_le _ _ HsortedN Hs12 Hperm') as Heq.
  rewrite map_app in Heq.
  apply (fmap_app_inv (path_of h)) in Heq as (n1 & n2 & Hn1 & Hn2 & HN).
  rewrite HN in *.
  apply Forall_app in HaliveN as [Halive1 Halive2].
  apply Forall_app in HaliveO as [HaliveO1 HaliveO2].
  apply Forall_cons in HaliveO2 as [Hx_alive HaliveO2].
  apply compareSortedLists_one_gone.
  - by apply (same_rank_paths h).
  - by apply (same_rank_paths h).
  - apply Forall_forall. intros n Hn.
    rewrite Forall_forall in Halive2.
    unfold lt. rewrite sortByPath_alive by auto.
    assert (Hin : path_of h n ∈ map (path_of h) o2).
    { rewrite Hn2. apply list_elem_of_fmap. eauto. }
    apply list_elem_of_fmap in Hin as (o & Ho & Hoin).
    apply path_lt_of_le_ne.
    + rewrite Forall_forall in Hx_le. apply Hx_le. rewrite Ho.
      apply list_elem_of_fmap. eauto.
    + intros Heq. rewrite Ho in Heq. symmetry in Heq.
      apply Huniq' in Heq; [by subst|].
      apply elem_of_app. right. by right.
Qed.

(** ** buildTree: the old files, the incoming files *)

Lemma mapM_pure_map {A B C} (f : A -> M B) (r : C -> A) (g : C -> B)
    (cs : list C) (s : state) :
  (forall c, c ∈ cs -> f (r c) s = Val (g c, s)) ->
  mapM f (map r cs) s = Val (map g cs, s).
Proof.
  induction cs as [|c cs IH]; intros Hf; [done|].
  simpl map. rewrite mapM_cons.
  rewrite (bind_Val _ _ _ _ _ (Hf c ltac:(by left))).
  rewrite (bind_Val _ _ _ _ _ (IH ltac:(intros y Hy; apply Hf; by right))).
  done.
Qed.

Lemma recursiveFileNodes_holds (t : tree) :
  forall fuel h par tr,
    holds h par t -> (height t <= fuel)%nat ->
    recursiveFileNodes fuel (root t) (mkState h tr)
      = Val (all_files t, mkState h tr).
Proof.
  induction t as [a files folders IH] using tree_ind.
  intros fuel h par tr Hwf Hfuel.
  inversion Hwf as [? ? n ? ? Ha Hty Hpar Hses Hfiles Hfolders Hsf Hsd Hleaf Hkids];
    subst.
  pose proof (height_pos (Tree a (m_fileNodes n) folders)) as Hpos.
  destruct fuel as [|fuel]; [lia|].
  simpl root. cbn [recursiveFileNodes].
  rewrite (bind_Val _ _ _ _ _ (deref_Val a (mkState h tr) n Ha)).
  rewrite Hfolders.
  assert (Hbelow : forall c, c ∈ folders ->
            recursiveFileNodes fuel (root c) (mkState h tr)
              = Val (all_files c, mkState h tr)).
  { intros c Hc. rewrite Forall_forall in IH. rewrite Forall_forall in Hkids.
    apply (IH c Hc fuel h (Some a) tr); [by apply Hkids|].
    pose proof (height_child a (m_fileNodes n) folders c Hc). lia. }
  rewrite (bind_Val _ _ _ _ _
             (mapM_pure_map (recursiveFileNodes fuel) root all_files folders
                (mkState h tr) Hbelow)).
  simpl. by rewrite flat_map_concat_map.
Qed.

Lemma recursiveFileNodes_spec (t : tree) :
  forall fuel h par tr,
    wf_tree h par t -> (height t <= fuel)%nat ->
    recursiveFileNodes fuel (root t) (mkState h tr)
      = Val (all_files t, mkState h tr).
Proof.
  intros fuel h par tr Hwf. apply (recursiveFileNodes_holds t fuel h par).
  by apply wf_tree_holds.
Qed.

Lemma all_files_nodes (t : tree) (x : positive) : x ∈ all_files t -> x ∈ nodes t.
Proof.
  induction t as [a files folders IH] using tree_ind. simpl.
  intros [Hx|Hx]%elem_of_app; right; apply elem_of_app; [by left|right].
  apply elem_of_flat_map in Hx as (c & Hc & Hx).
  apply elem_of_flat_map. exists c. split; [done|].
  rewrite Forall_forall in IH. by apply IH.
Qed.

(** A file node of the tree is a file child of a folder of the tree. *)
Lemma all_files_parent_holds (t : tree) :
  forall h par x, holds h par t -> x ∈ all_files t ->
    exists d nd, file_leaf h d x /\ d ∈ nodes t /\ h !! d = Some nd /\
      m_nodeType nd <> FileNodeType /\ x ∈ m_fileNodes nd.
Proof.
  induction t as [a files folders IH] using tree_ind. intros h par x Hwf Hx.
  inversion Hwf as [? ? n ? ? Ha Hty Hpar Hses Hfiles Hfolders Hsf Hsd Hleaf Hkids];
    subst.
  simpl in Hx. apply elem_of_app in Hx as [Hx|Hx].
  - exists a, n. rewrite Forall_forall in Hleaf.
    split; [by apply Hleaf|]. split; [by left|done].
  - apply elem_of_flat_map in Hx as (c & Hc & Hx).
    rewrite Forall_forall in IH, Hkids.
    destruct (IH c Hc h (Some a) x (Hkids c Hc) Hx) as (d & nd & ? & Hd & ?).
    exists d, nd. split; [done|]. split; [|done].
    right. apply elem_of_app. right. by apply (nodes_child c).
Qed.

Lemma all_files_parent (t : tree) :
  forall h par x, wf_tree h par t -> x ∈ all_files t ->
    exists d nd, file_leaf h d x /\ d ∈ nodes t /\ h !! d = Some nd /\
      m_nodeType nd <> FileNodeType /\ x ∈ m_fileNodes nd.
Proof.
  intros h par x Hwf. apply (all_files_parent_holds t h par).
  by apply wf_tree_holds.
Qed.

Lemma all_files_alive_holds (t : tree) (h : gmap positive Node)
    (par : option positive) :
  holds h par t -> Forall (fun a => is_Some (h !! a)) (all_files t).
Proof.
  intros Hwf. apply Forall_forall. intros x Hx.
  destruct (all_files_parent_holds t h par x Hwf Hx)
    as (d & nd & (nf & Hnf & _) & _).
  eauto.
Qed.

Lemma all_files_alive (t : tree) (h : gmap positive Node) (par : option positive) :
  wf_tree h par t -> Forall (fun a => is_Some (h !! a)) (all_files t).
Proof. intros Hwf. apply (all_files_alive_holds t h par), wf_tree_holds, Hwf. Qed.

Lemma all_files_NoDup (t : tree) : NoDup (nodes t) -> NoDup (all_files t).
Proof.
  induction t as [a files folders IH] using tree_ind. simpl.
  intros [_ Hnd]%NoDup_cons.
  apply NoDup_app in Hnd as (Hnd_files & Hdisj & Hnd_kids).
  apply NoDup_app. split; [done|]. split.
  - intros x Hx Hin. apply (Hdisj x Hx).
    apply elem_of_flat_map in Hin as (c & Hc & Hin).
    apply (nodes_child c); [done|]. by apply all_files_nodes.
  - clear Hdisj. induction folders as [|c folders IHf]; [constructor|].
    simpl in *. apply Forall_cons in IH as [IHc IH].
    apply NoDup_app in Hnd_kids as (Hc & Hdisj & Hrest).
    apply NoDup_app. split; [by apply IHc|]. split; [|by apply IHf].
    intros x Hx Hin. apply (Hdisj x); [by apply all_files_nodes|].
    apply elem_of_flat_map in Hin as (c' & Hc' & Hin).
    apply (nodes_child c'); [done|]. by apply all_files_nodes.
Qed.

(** [qDeleteAll] on file nodes. *)
Lemma destroy_file (fuel : nat) (f : positive) (nf : Node)
    (h : gmap positive Node) (tr : list Event) :
  h !! f = Some nf -> m_fileNodes nf = [] -> m_folderNodes nf = [] ->
  (0 < fuel)%nat ->
  destroy fuel f (mkState h tr) = Val (tt, mkState (delete f h) tr).
Proof.
  intros Hnf Hf1 Hf2 Hfuel.
  destruct fuel as [|fuel]; [lia|]. rewrite destroy_S.
  rewrite (bind_Val _ _ _ _ _ (deref_Val f (mkState h tr) nf Hnf)).
  rewrite Hf1, Hf2. simpl forM_. rewrite !ret_bind.
  by rewrite (free_Val f _ nf).
Qed.

Lemma destroy_loose_files (fuel : nat) (files : list positive) :
  forall h tr,
    (0 < fuel)%nat -> NoDup files -> Forall (loose_file h) files ->
    forM_ files (destroy fuel) (mkState h tr)
      = Val (tt, mkState (delete_all files h) tr).
Proof.
  induction files as [|f files IH]; intros h tr Hfuel Hnd Hloose; [done|].
  apply NoDup_cons in Hnd as [Hf Hnd].
  apply Forall_cons in Hloose as [(nf & Hnf & _ & _ & Hf1 & Hf2 & _) Hloose].
  rewrite forM__cons.
  rewrite (bind_Val _ _ _ _ _ (destroy_file fuel f nf h tr Hnf Hf1 Hf2 Hfuel)).
  rewrite IH; [done|done|done|].
  apply Forall_forall. intros g Hg. rewrite Forall_forall in Hloose.
  destruct (Hloose g Hg) as (ng & Hng & Hrest). exists ng. split; [|done].
  rewrite lookup_delete_ne; [done|]. by intros ->.
Qed.

Lemma list_difference_filter (l k : list positive) :
  list_difference l k = filter (fun x => x ∉ k) l.
Proof.
  induction l as [|x l IH]; [done|]. simpl. rewrite filter_cons.
  destruct (decide_rel elem_of x k) as [Hin|Hnin].
  - by rewrite decide_False by (by intros ?).
  - by rewrite decide_True, IH by done.
Qed.

(** [removeFileNodes] on the root of a tree. *)
Lemma removeFileNodes_reshaped (fuel : nat) (a : positive) (l : list positive)
    (h : gmap positive Node) (par : option positive) (files : list positive)
    (folders : list tree) (tr : list Event) (fns : list positive) :
  wf_tree h par (Tree a files folders) ->
  NoDup (nodes (Tree a files folders)) ->
  managed h a l -> (length l < fuel)%nat ->
  NoDup fns -> (forall f, f ∈ fns -> f ∈ files) ->
  exists h' tr',
    removeFileNodes fuel a fns (mkState h tr) = Val (tt, mkState h' tr') /\
    reshaped h h' par (Tree a files folders)
      (Tree a (list_difference files fns) folders).
Proof.
  intros Hwf Hnd Hm Hlen Hnd_fns Hsub.
  inversion Hwf as [? ? n ? ? Ha Hty Hpar Hses Hfiles Hfolders Hproj Hprojty Hsf Hsd Hleaf Hkids];
    subst.
  simpl in Hnd. apply NoDup_cons in Hnd as [Ha_notin Hnd].
  apply NoDup_app in Hnd as (Hnd_files & Hdisj & Hnd_kids).
  rewrite Forall_forall in Hleaf. rewrite Forall_forall in Hkids.
  pose proof (removeFileNodes_spec fuel a l h n tr fns Ha Hm Hlen Hsf Hnd_fns
                Hsub ltac:(apply Forall_forall; auto)) as Hrun.
  set (n' := set_fileNodes (list_difference (m_fileNodes n) fns) n) in *.
  set (h' := <[a := n']> (delete_all fns h)) in *.
  eexists h', _. split; [exact Hrun|].
  assert (Hh' : forall x, x <> a -> x ∉ fns -> h' !! x = h !! x).
  { intros x Hxa Hx. unfold h'. rewrite lookup_insert_ne by done.
    rewrite lookup_delete_all. by rewrite decide_False. }
  assert (Ha_fns : a ∉ fns).
  { intros Hin. apply Ha_notin, elem_of_app. left. by apply Hsub. }
  assert (Hh'_kids : forall x, x ∈ flat_map nodes folders -> h' !! x = h !! x).
  { intros x Hx. apply Hh'.
    - intros ->. apply Ha_notin, elem_of_app. by right.
    - intros Hin. by apply (Hdisj x (Hsub x Hin)). }
  split; [|split; [|split]].
  - apply wf_tree_intro with n'; try done.
    + apply lookup_insert_eq.
    + simpl. rewrite Hproj. apply filter_ext_elem_of. intros r Hr.
      apply list_elem_of_fmap in Hr as (c & -> & Hc).
      rewrite (isProjectAt_skeleton h h'); [done|].
      apply skeleton_agree, Hh'_kids, (nodes_child c); auto using root_in_nodes.
    + simpl. rewrite list_difference_filter. by apply StronglySorted_filter.
    + apply Forall_forall. intros f Hf.
      apply list_elem_of_difference in Hf as [Hf Hnot].
      apply (file_leaf_frame h); [|by apply Hleaf].
      apply Hh'; [|done]. intros ->. apply Ha_notin, elem_of_app. by left.
    + apply Forall_forall. intros c Hc.
      apply (wf_tree_frame h); [by apply Hkids|].
      intros x Hx. by apply Hh'_kids, (nodes_child c).
  - intros x Hx Hnot. simpl in Hx, Hnot.
    apply not_elem_of_cons in Hnot as [Hxa Hnot].
    apply not_elem_of_app in Hnot as [HnotF HnotD].
    apply elem_of_cons in Hx as [?|Hx]; [done|].
    apply elem_of_app in Hx as [Hx|Hx]; [|done].
    unfold h'. rewrite lookup_insert_ne by done.
    rewrite lookup_delete_all. rewrite decide_True; [done|].
    destruct (decide (x ∈ fns)) as [|Hnin]; [done|].
    destruct HnotF. by apply list_elem_of_difference.
  - intros x Hx. simpl in Hx. apply elem_of_cons in Hx as [->|Hx].
    { unfold h'. by apply (skeleton_insert h a n). }
    apply elem_of_app in Hx as [Hx|Hx].
    + apply list_elem_of_difference in Hx as [Hx Hnot].
      apply skeleton_agree, Hh'; [|done].
      intros ->. apply Ha_notin, elem_of_app. by left.
    + by apply skeleton_agree, Hh'_kids.
  - intros x Hx. simpl in Hx. apply not_elem_of_cons in Hx as [Hxa Hx].
    apply not_elem_of_app in Hx as [HxF HxD].
    apply Hh'; [done|]. intros Hin. by apply HxF, Hsub.
Qed.

(** [removeFolderNodes] on the root of a tree, for folders that are not
    projects. *)
Lemma removeFolderNodes_reshaped (fuel : nat) (a : positive) (l : list positive)
    (h : gmap positive Node) (par : option positive) (files : list positive)
    (folders : list tree) (tr : list Event) (drop : list positive) :
  wf_tree h par (Tree a files folders) ->
  NoDup (nodes (Tree a files folders)) ->
  managed h a l -> (length l < fuel)%nat ->
  (height (Tree a files folders) <= fuel)%nat ->
  NoDup drop -> (forall r, r ∈ drop -> r ∈ map root folders) ->
  (forall r, r ∈ drop -> isProjectAt h r = false) ->
  exists h' tr',
    removeFolderNodes fuel a drop (mkState h tr) = Val (tt, mkState h' tr') /\
    reshaped h h' par (Tree a files folders)
      (Tree a files (filter (fun c => root c ∉ drop) folders)).
Proof.
  intros Hwf Hnd Hm Hlen Hheight Hnd_drop Hsub Hnp.
  pose proof Hwf as Hwf'.
  inversion Hwf' as [? ? n ? ? Ha Hty Hpar Hses Hfiles Hfolders Hproj Hprojty Hsf Hsd Hleaf Hkids];
    subst.
  pose proof (removeFolderNodes_spec fuel a l h _ _ folders n tr drop
                Hwf Hnd Hm Hlen Hheight Ha Hnd_drop Hsub) as Hrun.
  set (n' := set_folderNodes (list_difference (m_folderNodes n) drop) n) in *.
  set (DD := flat_map (fun r => nodes (subtree_at folders r)) drop) in *.
  set (h' := <[a := n']> (delete_all DD h)) in *.
  eexists h', _. split; [exact Hrun|].
  assert (Hwf2 : wf_tree h' (m_parentFolderNode n)
            (Tree a (m_fileNodes n) (filter (fun c => root c ∉ drop) folders))).
  { apply (wf_tree_after_removal h _ a _ folders n n' drop); try done.
    - simpl. by rewrite Hfolders.
    - simpl. rewrite Hproj, <- filter_list_difference.
      rewrite list_difference_disjoint; [done|].
      intros r Hr Hdrop. apply list_elem_of_filter in Hr as [Hp _].
      rewrite (Hnp r Hdrop) in Hp. done. }
  simpl in Hnd. apply NoDup_cons in Hnd as [Ha_notin Hnd].
  apply NoDup_app in Hnd as (Hnd_files & Hdisj & Hnd_kids).
  assert (HDD : forall x, x ∈ DD <->
            exists c, c ∈ folders /\ root c ∈ drop /\ x ∈ nodes c).
  { intros x. unfold DD. rewrite elem_of_flat_map. split.
    - intros (r & Hr & Hx).
      destruct (subtree_at_elem_of folders r (Hsub r Hr)) as [Hc Hroot].
      exists (subtree_at folders r). by rewrite Hroot.
    - intros (c & Hc & Hr & Hx). exists (root c). split; [done|].
      rewrite subtree_at_root; [done| |done].
      by apply StronglySorted_lt_NoDup. }
  assert (Hh' : forall x, x <> a -> x ∉ DD -> h' !! x = h !! x).
  { intros x Hxa Hx. unfold h'. rewrite lookup_insert_ne by done.
    rewrite lookup_delete_all. by rewrite decide_False. }
  split; [done|]. split; [|split].
  - intros x Hx Hnot. simpl in Hx, Hnot.
    apply not_elem_of_cons in Hnot as [Hxa Hnot].
    apply not_elem_of_app in Hnot as [HnotF HnotD].
    apply elem_of_cons in Hx as [?|Hx]; [done|].
    apply elem_of_app in Hx as [Hx|Hx]; [done|].
    unfold h'. rewrite lookup_insert_ne by done.
    rewrite lookup_delete_all. rewrite decide_True; [done|].
    apply elem_of_flat_map in Hx as (c & Hc & Hx).
    apply HDD. exists c. split; [done|]. split; [|done].
    destruct (decide (root c ∈ drop)) as [|Hnin]; [done|].
    destruct HnotD. apply elem_of_flat_map. exists c. split; [|done].
    by apply list_elem_of_filter.
  - intros x Hx. simpl in Hx. apply elem_of_cons in Hx as [->|Hx].
    { unfold h'. by apply (skeleton_insert h a n). }
    apply skeleton_agree, Hh'.
    + intros ->. apply Ha_notin. apply elem_of_app in Hx as [?|Hx];
        apply elem_of_app; [by left|right].
      apply elem_of_flat_map in Hx as (c & Hc & Hx).
      apply list_elem_of_filter in Hc as [_ Hc]. by apply (nodes_child c).
    + intros (c' & Hc' & Hr' & Hx')%HDD.
      apply elem_of_app in Hx as [Hx|Hx].
      * by apply (Hdisj x Hx), (nodes_child c').
      * apply elem_of_flat_map in Hx as (c & Hc & Hx).
        apply list_elem_of_filter in Hc as [Hr Hc].
        apply (NoDup_flat_map_disjoint nodes folders c c' x); auto.
        by intros ->.
  - intros x Hx. simpl in Hx. apply not_elem_of_cons in Hx as [Hxa Hx].
    apply not_elem_of_app in Hx as [HxF HxD].
    apply Hh'; [done|]. intros (c' & Hc' & _ & Hx')%HDD.
    by apply HxD, (nodes_child c').
Qed.

(** ** Removing files deep in the tree *)

Lemma root_prune_at (d : positive) (fns : list positive) (t : tree) :
  root (prune_at d fns t) = root t.
Proof. destruct t as [a files folders]. simpl. by destruct (decide (a = d)). Qed.

Lemma map_root_replace_child (c' : tree) (folders : list tree) :
  map root (replace_child c' folders) = map root folders.
Proof.
  unfold replace_child. rewrite map_map. apply map_ext. intros c.
  by destruct (decide (root c = root c')).
Qed.

Lemma elem_of_replace_child (c' : tree) (folders : list tree) (y : tree) :
  y ∈ replace_child c' folders ->
  (y = c' /\ exists c, c ∈ folders /\ root c = root c') \/
  (y ∈ folders /\ root y <> root c').
Proof.
  unfold replace_child. intros (c & -> & Hc)%list_elem_of_fmap.
  destruct (decide (root c = root c')); [left|right]; eauto.
Qed.

Lemma replace_child_elem_of (c c' : tree) (folders : list tree) :
  c ∈ folders -> root c' = root c -> c' ∈ replace_child c' folders.
Proof.
  intros Hc Hroot. unfold replace_child. apply list_elem_of_fmap.
  exists c. by rewrite decide_True.
Qed.

Lemma flat_map_ext_elem {A B} (f g : A -> list B) (l : list A) :
  (forall x, x ∈ l -> f x = g x) -> flat_map f l = flat_map g l.
Proof.
  induction l as [|x l IH]; intros Hfg; [done|]. simpl.
  rewrite (Hfg x) by (by left). f_equal. apply IH. intros y Hy. apply Hfg.
  by right.
Qed.

Lemma flat_map_replace {A} (P : A -> Prop) `{!forall x, Decision (P x)}
    (c' : A) (l : list A) :
  flat_map (fun x => if decide (P x) then [c'] else [x]) l
    = map (fun x => if decide (P x) then c' else x) l.
Proof.
  induction l as [|x l IH]; [done|]. simpl. rewrite IH.
  by destruct (decide (P x)).
Qed.

Lemma flat_map_drop {A} (P : A -> Prop) `{!forall x, Decision (P x)}
    (l : list A) :
  flat_map (fun x => if decide (P x) then [] else [x]) l
    = filter (fun x => ~ P x) l.
Proof.
  induction l as [|x l IH]; [done|]. simpl. rewrite IH, filter_cons.
  destruct (decide (P x)).
  - by rewrite decide_False by auto.
  - by rewrite decide_True by auto.
Qed.

(** Below a folder other than [d], [prune_at] works on the one child that
    holds [d]. *)
Lemma prune_at_child (d : positive) (fns : list positive) (a : positive)
    (files : list positive) (folders : list tree) (c : tree) :
  a <> d -> NoDup (flat_map nodes folders) -> c ∈ folders -> d ∈ nodes c ->
  prune_at d fns (Tree a files folders) =
    Tree a files
      (if is_empty_tree (prune_at d fns c)
       then filter (fun x => root x ∉ [root c]) folders
       else replace_child (prune_at d fns c) folders).
Proof.
  intros Had Hnd Hc Hd. simpl. rewrite decide_False by done. f_equal.
  assert (Hroots : NoDup (map root folders)).
  { clear Hc. induction folders as [|x folders IH]; [constructor|].
    simpl in *. apply NoDup_app in Hnd as (_ & Hdisj & Hnd).
    constructor; [|by apply IH].
    intros (y & Hxy & Hy)%list_elem_of_fmap.
    apply (Hdisj (root x)); [apply root_in_nodes|].
    rewrite Hxy. apply (nodes_child y); auto using root_in_nodes. }
  assert (Hholder : forall x, x ∈ folders ->
            (d ∈ nodes x <-> root x = root c)).
  { intros x Hx. split.
    - intros Hdx. destruct (decide (root x = root c)) as [|Hne]; [done|].
      destruct (NoDup_flat_map_disjoint nodes folders x c d); auto.
      by intros ->.
    - intros Heq. by rewrite (root_inj_in folders x c Hroots Hx Hc Heq). }
  destruct (is_empty_tree (prune_at d fns c)) eqn:Hempty.
  - rewrite <- (flat_map_drop (fun x => root x ∈ [root c])).
    apply flat_map_ext_elem. intros x Hx.
    destruct (decide (d ∈ nodes x)) as [Hdx|Hdx].
    + pose proof (proj1 (Hholder x Hx) Hdx) as Heq.
      rewrite (root_inj_in folders x c Hroots Hx Hc Heq), Hempty.
      rewrite decide_True; [done|by left].
    + rewrite decide_False; [done|].
      intros Hin%list_elem_of_singleton. by apply Hdx, (Hholder x Hx).
  - unfold replace_child. rewrite root_prune_at.
    rewrite <- (flat_map_replace (fun x => root x = root c)).
    apply flat_map_ext_elem. intros x Hx.
    destruct (decide (d ∈ nodes x)) as [Hdx|Hdx].
    + pose proof (proj1 (Hholder x Hx) Hdx) as Heq.
      rewrite (root_inj_in folders x c Hroots Hx Hc Heq), Hempty.
      by rewrite decide_True.
    + rewrite decide_False; [done|]. intros Heq. by apply Hdx, (Hholder x Hx).
Qed.

Lemma filter_replace_child (c c' : tree) (folders : list tree) :
  root c' = root c ->
  filter (fun x => root x ∉ [root c]) (replace_child c' folders)
    = filter (fun x => root x ∉ [root c]) folders.
Proof.
  intros Hroot. induction folders as [|x folders IH]; [done|].
  simpl. rewrite !filter_cons, IH.
  destruct (decide (root x = root c')) as [Heq|Hne].
  - rewrite !decide_False; [done| |].
    + rewrite Heq, Hroot. intros Hnot. apply Hnot. by left.
    + rewrite Hroot. intros Hnot. apply Hnot. by left.
  - done.
Qed.

(** A child of the root reshaped, the tree is reshaped. *)
Lemma reshaped_replace_child (h h1 : gmap positive Node)
    (par : option positive) (a : positive) (files : list positive)
    (folders : list tree) (c c' : tree) :
  wf_tree h par (Tree a files folders) ->
  NoDup (nodes (Tree a files folders)) ->
  c ∈ folders -> reshaped h h1 (Some a) c c' ->
  root c' = root c -> (forall x, x ∈ nodes c' -> x ∈ nodes c) ->
  reshaped h h1 par (Tree a files folders)
    (Tree a files (replace_child c' folders)).
Proof.
  intros Hwf Hnd Hc (Hwfc & Hgone & Hskel & Hframe) Hroot Hsub.
  inversion Hwf as [? ? n ? ? Ha Hty Hpar Hses Hfiles Hfolders Hproj Hprojty Hsf Hsd Hleaf Hkids];
    subst.
  simpl in Hnd. apply NoDup_cons in Hnd as [Ha_notin Hnd].
  apply NoDup_app in Hnd as (Hnd_files & Hdisj & Hnd_kids).
  rewrite Forall_forall in Hleaf. rewrite Forall_forall in Hkids.
  assert (Hroots : NoDup (map root folders))
    by (by apply StronglySorted_lt_NoDup).
  assert (Ha1 : h1 !! a = Some n).
  { rewrite Hframe; [done|]. intros Hin. apply Ha_notin, elem_of_app. right.
    by apply (nodes_child c). }
  assert (Hother : forall y x, y ∈ folders -> root y <> root c ->
            x ∈ nodes y -> h1 !! x = h !! x).
  { intros y x Hy Hne Hx. apply Hframe. intros Hin.
    apply (NoDup_flat_map_disjoint nodes folders y c x); auto.
    by intros ->. }
  assert (Hsk_roots : forall y, y ∈ folders ->
            skeleton h1 (root y) = skeleton h (root y)).
  { intros y Hy. destruct (decide (root y = root c)) as [Heq|Hne].
    - rewrite Heq, <- Hroot. apply Hskel, root_in_nodes.
    - apply skeleton_agree, (Hother y); auto using root_in_nodes. }
  split; [|split; [|split]].
  - apply wf_tree_intro with n; try done.
    + by rewrite map_root_replace_child.
    + rewrite map_root_replace_child, Hproj. apply filter_ext_elem_of.
      intros r Hr. apply list_elem_of_fmap in Hr as (y & -> & Hy).
      by rewrite (isProjectAt_skeleton h h1) by auto.
    + by rewrite map_root_replace_child.
    + apply Forall_forall. intros f Hf.
      apply (file_leaf_frame h); [|by apply Hleaf].
      apply Hframe. intros Hin. by apply (Hdisj f Hf), (nodes_child c).
    + apply Forall_forall. intros y Hy.
      apply elem_of_replace_child in Hy as [[-> _]|[Hy Hne]]; [done|].
      apply (wf_tree_frame h); [by apply Hkids|].
      intros x Hx. apply (Hother y); [done| |done]. by rewrite <- Hroot.
  - intros x Hx Hnot. simpl in Hx, Hnot.
    apply not_elem_of_cons in Hnot as [Hxa Hnot].
    apply not_elem_of_app in Hnot as [HnotF HnotD].
    apply elem_of_cons in Hx as [?|Hx]; [done|].
    apply elem_of_app in Hx as [?|Hx]; [done|].
    apply elem_of_flat_map in Hx as (y & Hy & Hx).
    destruct (decide (root y = root c)) as [Heq|Hne].
    + rewrite (root_inj_in folders y c Hroots Hy Hc Heq) in Hx.
      apply Hgone; [done|]. intros Hin. apply HnotD, elem_of_flat_map.
      exists c'. split; [|done]. by apply (replace_child_elem_of c).
    + destruct HnotD. apply elem_of_flat_map. exists y. split; [|done].
      unfold replace_child. apply list_elem_of_fmap. exists y.
      rewrite decide_False; [done|]. by rewrite Hroot.
  - intros x Hx. simpl in Hx. apply elem_of_cons in Hx as [->|Hx].
    { unfold skeleton. by rewrite Ha1, Ha. }
    apply elem_of_app in Hx as [Hx|Hx].
    + apply skeleton_agree, Hframe. intros Hin.
      by apply (Hdisj x Hx), (nodes_child c).
    + apply elem_of_flat_map in Hx as (y & Hy & Hx).
      apply elem_of_replace_child in Hy as [[-> _]|[Hy Hne]]; [by apply Hskel|].
      apply skeleton_agree, (Hother y); [done| |done]. by rewrite <- Hroot.
  - intros x Hx. apply Hframe. intros Hin. apply Hx. simpl. right.
    apply elem_of_app. right. by apply (nodes_child c).
Qed.

Lemma nodes_prune_at_sublist (d : positive) (fns : list positive) (t : tree) :
  nodes (prune_at d fns t) `sublist_of` nodes t.
Proof.
  induction t as [a files folders IH] using tree_ind. simpl.
  destruct (decide (a = d)) as [_|_]; simpl; apply sublist_skip, sublist_app.
  - rewrite list_difference_filter. apply sublist_filter.
  - done.
  - done.
  - induction folders as [|c folders IHf]; [done|].
    apply Forall_cons in IH as [IHc IH]. simpl.
    rewrite flat_map_app. apply sublist_app; [|by apply IHf].
    destruct (decide (d ∈ nodes c)); [|by simpl; rewrite app_nil_r].
    destruct (is_empty_tree (prune_at d fns c)); simpl.
    + apply sublist_nil_l.
    + by rewrite app_nil_r.
Qed.

Lemma height_prune_at (d : positive) (fns : list positive) (t : tree) :
  (height (prune_at d fns t) <= height t)%nat.
Proof.
  induction t as [a files folders IH] using tree_ind. simpl prune_at.
  destruct (decide (a = d)) as [_|_].
  - apply height_children_le. intros c Hc. exists c. split; [done|lia].
  - apply height_children_le. intros c' Hc'.
    apply elem_of_flat_map in Hc' as (c & Hc & Hc').
    rewrite Forall_forall in IH. exists c. split; [done|].
    destruct (decide (d ∈ nodes c)).
    + destruct (is_empty_tree (prune_at d fns c)).
      * by apply elem_of_nil in Hc'.
      * apply list_elem_of_singleton in Hc' as ->. by apply IH.
    + by apply list_elem_of_singleton in Hc' as ->.
Qed.

Lemma replace_child_sublist (c' : tree) (folders : list tree) :
  (forall x, x ∈ folders -> root x = root c' ->
     nodes c' `sublist_of` nodes x) ->
  flat_map nodes (replace_child c' folders) `sublist_of` flat_map nodes folders.
Proof.
  induction folders as [|x folders IH]; intros Hsub; [done|]. simpl.
  apply sublist_app.
  - destruct (decide (root x = root c')); [|done]. apply Hsub; [by left|done].
  - apply IH. intros y Hy. apply Hsub. by right.
Qed.

Lemma remove_empty_parents_S (n fuel : nat) (self parent : positive) :
  remove_empty_parents (S n) fuel self parent =
    (let* p := deref parent in
     if is_nil (m_folderNodes p) && is_nil (m_fileNodes p) then
       match m_parentFolderNode p with
       | None => raise UndefinedBehaviour
       | Some grandparent =>
           removeFolderNodes fuel grandparent [parent] ;;
           if decide (grandparent = self) then ret tt
           else remove_empty_parents n fuel self grandparent
       end
     else ret tt).
Proof. done. Qed.

Lemma is_empty_tree_node (h : gmap positive Node) (par : option positive)
    (t : tree) (n : Node) :
  wf_tree h par t -> h !! root t = Some n ->
  is_nil (m_folderNodes n) && is_nil (m_fileNodes n) = is_empty_tree t /\
  m_parentFolderNode n = par.
Proof.
  intros Hwf Hn.
  inversion Hwf as [? ? n0 ? ? Ha Hty Hpar Hses Hfiles Hfolders Hproj Hprojty Hsf Hsd Hleaf Hkids];
    subst.
  simpl in Hn. assert (n0 = n) as -> by congruence.
  split; [|done]. unfold is_empty_tree. simpl. rewrite Hfolders.
  by destruct folders.
Qed.

Lemma is_empty_tree_eq (t : tree) :
  is_empty_tree t = true -> t = Tree (root t) [] [].
Proof.
  destruct t as [a files folders]. unfold is_empty_tree. simpl.
  by destruct folders, files.
Qed.

Lemma reshaped_None (h h' : gmap positive Node) (par : option positive)
    (t t' : tree) (x : positive) :
  reshaped h h' par t t' -> h !! x = None -> h' !! x = None.
Proof.
  intros (_ & Hgone & Hsk & Hframe) Hx.
  destruct (decide (x ∈ nodes t')) as [Hin'|Hnin'].
  - specialize (Hsk x Hin'). unfold skeleton in Hsk. rewrite Hx in Hsk.
    by destruct (h' !! x).
  - destruct (decide (x ∈ nodes t)) as [Hin|Hnin]; [by apply Hgone|].
    by rewrite Hframe.
Qed.

(** A node below a child that [prune_at] leaves in the tree is left in the
    child, which is not empty then. *)
Lemma prune_at_kept_below (d : positive) (fns : list positive) (a : positive)
    (files : list positive) (folders : list tree) (c : tree) (y : positive) :
  NoDup (nodes (Tree a files folders)) -> a <> d -> c ∈ folders ->
  d ∈ nodes c -> y ∈ nodes c ->
  y ∈ nodes (prune_at d fns (Tree a files folders)) ->
  y ∈ nodes (prune_at d fns c) /\ is_empty_tree (prune_at d fns c) = false.
Proof.
  intros Hnd Had Hc Hd Hy Hin.
  simpl in Hnd. apply NoDup_cons in Hnd as [Ha_notin Hnd].
  apply NoDup_app in Hnd as (_ & Hdisj & Hnd_kids).
  rewrite (prune_at_child d fns a files folders c Had Hnd_kids Hc Hd) in Hin.
  simpl in Hin. apply elem_of_cons in Hin as [->|Hin].
  { destruct Ha_notin. apply elem_of_app. right. by apply (nodes_child c). }
  apply elem_of_app in Hin as [Hin|Hin].
  { destruct (Hdisj y Hin). by apply (nodes_child c). }
  apply elem_of_flat_map in Hin as (z & Hz & Hyz).
  destruct (is_empty_tree (prune_at d fns c)) eqn:Hempty.
  - apply list_elem_of_filter in Hz as [Hne Hz].
    destruct (NoDup_flat_map_disjoint nodes folders z c y); auto.
    intros ->. apply Hne. by left.
  - apply elem_of_replace_child in Hz as [[-> _]|[Hz Hne]]; [done|].
    rewrite root_prune_at in Hne.
    destruct (NoDup_flat_map_disjoint nodes folders z c y); auto.
    by intros ->.
Qed.

Lemma no_subprojects_lost (h : gmap positive Node) (t : tree) (d : positive)
    (fns : list positive) :
  no_subprojects h t ->
  forall y, y ∈ nodes t -> y ∉ nodes (prune_at d fns t) ->
    isProjectAt h y = false.
Proof.
  intros Hno y Hy Hnot. apply Hno; [done|]. intros ->. apply Hnot.
  rewrite <- (root_prune_at d fns t). apply root_in_nodes.
Qed.

(** The loop of [buildTree] over one folder [d] and its deleted files
    [fns], seen from a tree [t] that holds [d]: the files go, then, from [d]
    upwards, the folders left empty, none of which is a project; when [t] is
    not the tree of the folder [buildTree] was called on, the loop is left
    about to look at the root of [t]. *)
Lemma remove_deleted_climb (d : positive) (fns : list positive) (self : positive)
    (fuel : nat) (t : tree) :
  forall h par l tr,
    wf_tree h par t -> NoDup (nodes t) -> managed h (root t) l ->
    Forall (fun x => x ∉ nodes t) l ->
    (forall y, y ∈ nodes t -> y ∉ nodes (prune_at d fns t) ->
       isProjectAt h y = false) ->
    (height t + length l < fuel)%nat ->
    self = root t \/ self ∈ l ->
    d ∈ nodes t ->
    (exists nd, h !! d = Some nd /\ m_nodeType nd <> FileNodeType /\
       forall f, f ∈ fns -> f ∈ m_fileNodes nd) ->
    NoDup fns ->
    exists k h1 tr1,
      (k < height t)%nat /\
      reshaped h h1 par t (prune_at d fns t) /\
      (forall f, f ∈ fns -> h1 !! f = None) /\
      forall n,
        (removeFileNodes fuel d fns ;;
         if decide (d = self) then ret tt
         else remove_empty_parents (k + S n) fuel self d) (mkState h tr)
        = (if decide (root t = self) then ret tt
           else remove_empty_parents (S n) fuel self (root t)) (mkState h1 tr1).
Proof.
  induction t as [a files folders IH] using tree_ind.
  intros h par l tr Hwf Hnd Hm Hl Hno Hfuel Hself Hd (nd & Hnd_d & Hty_d & Hfns)
    Hnd_fns.
  pose proof Hwf as Hwf'.
  inversion Hwf' as [? ? n ? ? Ha Hty Hpar Hses Hfiles Hfolders Hproj Hprojty Hsf Hsd Hleaf Hkids];
    subst.
  pose proof (height_pos (Tree a (m_fileNodes n) folders)) as Hpos.
  simpl root in *.
  destruct (decide (a = d)) as [<-|Had].
  { (* the files are the root's *)
    assert (nd = n) as -> by congruence.
    destruct (removeFileNodes_reshaped fuel a l h _ _ folders tr fns
                Hwf Hnd Hm ltac:(lia) Hnd_fns Hfns)
      as (h1 & tr1 & Hrun & Hshape).
    exists 0%nat, h1, tr1. split; [lia|]. split.
    { simpl. by rewrite decide_True. }
    split; [|intros k; by rewrite (bind_Val _ _ _ _ _ Hrun)].
    intros f Hf. destruct Hshape as (_ & Hgone & _).
    simpl in Hnd. apply NoDup_cons in Hnd as [Ha_notin Hnd].
    apply NoDup_app in Hnd as (_ & Hdisj & _).
    apply Hgone; simpl.
    - right. apply elem_of_app. left. by apply Hfns.
    - intros [->|Hin]%elem_of_cons.
      + apply Ha_notin, elem_of_app. left. by apply Hfns.
      + apply elem_of_app in Hin as [Hin|Hin].
        * by apply list_elem_of_difference in Hin as [_ ?].
        * by apply (Hdisj f (Hfns f Hf)). }
  (* the files are below a child *)
  pose proof Hnd as Hnd_all.
  simpl in Hnd. apply NoDup_cons in Hnd as [Ha_notin Hnd].
  apply NoDup_app in Hnd as (Hnd_files & Hdisj & Hnd_kids).
  rewrite Forall_forall in Hleaf. rewrite Forall_forall in Hkids.
  rewrite Forall_forall in IH. rewrite Forall_forall in Hl.
  simpl in Hd. apply elem_of_cons in Hd as [?|Hd]; [done|].
  apply elem_of_app in Hd as [Hd|Hd].
  { destruct (Hleaf d Hd) as (nf & Hnf & Hfile & _). congruence. }
  apply elem_of_flat_map in Hd as (c & Hc & Hd).
  assert (Ha_c : a ∉ nodes c).
  { intros Hin. apply Ha_notin, elem_of_app. right. by apply (nodes_child c). }
  assert (Hl_c : forall x, x ∈ l -> x ∉ nodes c).
  { intros x Hx Hin. apply (Hl x Hx). simpl. right. apply elem_of_app. right.
    by apply (nodes_child c). }
  assert (Hself_c : self <> root c).
  { intros ->. destruct Hself as [Heq|Hin].
    - apply Ha_c. rewrite <- Heq. apply root_in_nodes.
    - apply (Hl_c _ Hin), root_in_nodes. }
  pose proof (height_child a (m_fileNodes n) folders c Hc) as Hheight_c.
  assert (Hin_c : forall y, y ∈ nodes c ->
            y ∈ nodes (Tree a (m_fileNodes n) folders)).
  { intros y Hy. simpl. right. apply elem_of_app. right.
    by apply (nodes_child c). }
  assert (Hno_c : forall y, y ∈ nodes c -> y ∉ nodes (prune_at d fns c) ->
            isProjectAt h y = false).
  { intros y Hy Hnot. apply Hno; [by apply Hin_c|]. intros Hin.
    by destruct (prune_at_kept_below d fns a _ folders c y Hnd_all Had Hc Hd
                   Hy Hin). }
  destruct (IH c Hc h (Some a) (a :: l) tr (Hkids c Hc)
              (NoDup_flat_map_elem nodes folders c Hnd_kids Hc)
              (wf_tree_managed_child h a l c Hm (Hkids c Hc))
              ltac:(apply Forall_cons; split;
                    [done|apply Forall_forall; exact Hl_c])
              Hno_c ltac:(simpl length; lia)
              ltac:(right; destruct Hself as [->|?]; [by left|by right])
              Hd ltac:(eauto) Hnd_fns)
    as (kc & h1 & tr1 & Hkc & Hshape_c & Hfns_c & Hrun_c).
  set (c' := prune_at d fns c) in *.
  assert (Hroot' : root c' = root c) by apply root_prune_at.
  assert (Hsub_c : forall x, x ∈ nodes c' -> x ∈ nodes c).
  { apply sublist_subseteq, nodes_prune_at_sublist. }
  pose proof (reshaped_replace_child h h1 _ a _ folders c c' Hwf Hnd_all Hc
                Hshape_c Hroot' Hsub_c) as Hshape1.
  set (T1 := Tree a (m_fileNodes n) (replace_child c' folders)) in *.
  assert (Hsub1 : nodes T1 `sublist_of` nodes (Tree a (m_fileNodes n) folders)).
  { simpl. apply sublist_skip, sublist_app; [done|].
    apply replace_child_sublist. intros x Hx Heq.
    rewrite (root_inj_in folders x c) by
      (auto using StronglySorted_lt_NoDup; congruence).
    apply nodes_prune_at_sublist. }
  assert (Hheight1 : (height T1 <= height (Tree a (m_fileNodes n) folders))%nat).
  { apply height_children_le. intros y Hy.
    apply elem_of_replace_child in Hy as [[-> _]|[Hy _]].
    - exists c. split; [done|apply height_prune_at].
    - exists y. split; [done|lia]. }
  destruct Hshape_c as (Hwf_c' & Hgone_c & Hsk_c & Hframe_c).
  assert (Ha1 : h1 !! a = Some n) by (by rewrite Hframe_c).
  destruct (wf_tree_child_alive h1 (Some a) c' Hwf_c') as [nc Hnc].
  destruct (is_empty_tree_node h1 (Some a) c' nc Hwf_c' Hnc)
    as [Hempty_nc Hpar_nc].
  rewrite Hroot' in Hnc.
  assert (Hne_self : root c <> self) by (by intros ?).
  exists (S kc).
  destruct (is_empty_tree c') eqn:Hempty.
  - (* the child is left empty: it goes *)
    assert (Hnp_c : isProjectAt h (root c) = false).
    { apply Hno; [apply Hin_c, root_in_nodes|]. intros Hin.
      destruct (prune_at_kept_below d fns a _ folders c (root c) Hnd_all Had
                  Hc Hd (root_in_nodes c) Hin) as [_ Hfalse].
      fold c' in Hfalse. congruence. }
    destruct (removeFolderNodes_reshaped fuel a l h1 _ _
                (replace_child c' folders) tr1 [root c]
                (proj1 Hshape1)
                (sublist_NoDup _ _ Hnd_all Hsub1)
                ltac:(apply (managed_frame h); [done|];
                      intros x [->|Hx]%elem_of_cons;
                      [unfold skeleton; by rewrite Ha1, Ha
                      |by apply skeleton_agree, Hframe_c, Hl_c])
                ltac:(lia) ltac:(fold T1; lia)
                ltac:(apply NoDup_singleton)
                ltac:(intros r ->%list_elem_of_singleton;
                      rewrite map_root_replace_child;
                      apply list_elem_of_fmap; eauto)
                ltac:(intros r ->%list_elem_of_singleton;
                      rewrite (isProjectAt_skeleton h h1); [done|];
                      rewrite <- Hroot'; apply Hsk_c, root_in_nodes))
      as (h2 & tr2 & Hrun2 & Hshape2).
    exists h2, tr2. split; [lia|]. split; [|split].
    + rewrite (prune_at_child d fns a _ folders c Had Hnd_kids Hc Hd).
      fold c'. rewrite Hempty.
      rewrite <- (filter_replace_child c c' folders Hroot').
      apply (reshaped_trans h h1 h2 _ _ T1); [done|done| |].
      * by apply sublist_subseteq.
      * apply sublist_subseteq. simpl. apply sublist_skip, sublist_app; [done|].
        apply sublist_flat_map, sublist_filter.
    + intros f Hf. by apply (reshaped_None h1 h2 _ _ _ f Hshape2), Hfns_c.
    + intros k. replace (S kc + S k)%nat with (kc + S (S k))%nat by lia.
      rewrite Hrun_c, decide_False by done.
      rewrite remove_empty_parents_S.
      rewrite (bind_Val _ _ _ _ _ (deref_Val (root c) (mkState h1 tr1) nc Hnc)).
      rewrite Hempty_nc, Hpar_nc.
      by rewrite (bind_Val _ _ _ _ _ Hrun2).
  - (* the child is not empty: the loop ends *)
    exists h1, tr1. split; [lia|]. split; [|split; [done|]].
    + rewrite (prune_at_child d fns a _ folders c Had Hnd_kids Hc Hd).
      fold c'. by rewrite Hempty.
    + intros k. replace (S kc + S k)%nat with (kc + S (S k))%nat by lia.
      rewrite Hrun_c, decide_False by done.
      rewrite remove_empty_parents_S.
      rewrite (bind_Val _ _ _ _ _ (deref_Val (root c) (mkState h1 tr1) nc Hnc)).
      rewrite Hempty_nc. unfold root.
      destruct (decide (a = self)) as [|_]; [done|].
      rewrite remove_empty_parents_S.
      rewrite (bind_Val _ _ _ _ _ (deref_Val a (mkState h1 tr1) n Ha1)).
      rewrite Hfolders. destruct folders; [|done].
      by apply elem_of_nil in Hc.
Qed.

Lemma wf_tree_not_loose (t : tree) :
  forall h par y, wf_tree h par t -> y ∈ nodes t -> ~ loose_file h y.
Proof.
  induction t as [a files folders IH] using tree_ind.
  intros h par y Hwf Hy Hloose.
  pose proof Hloose as (ny & Hny & Hfile & Hnopar & _).
  inversion Hwf as [? ? n ? ? Ha Hty Hpar Hses Hfiles Hfolders Hproj Hprojty Hsf Hsd Hleaf Hkids];
    subst.
  simpl in Hy. apply elem_of_cons in Hy as [->|Hy]; [congruence|].
  apply elem_of_app in Hy as [Hy|Hy].
  - rewrite Forall_forall in Hleaf.
    destruct (Hleaf y Hy) as (nf & Hnf & _ & Hp & _). congruence.
  - apply elem_of_flat_map in Hy as (c & Hc & Hy).
    rewrite Forall_forall in IH. rewrite Forall_forall in Hkids.
    by apply (IH c Hc h (Some a) y (Hkids c Hc) Hy).
Qed.

Lemma loose_file_alive (h : gmap positive Node) (files : list positive) :
  Forall (loose_file h) files -> Forall (fun a => is_Some (h !! a)) files.
Proof.
  intros Hloose. eapply Forall_impl; [exact Hloose|].
  intros f (nf & Hnf & _). eauto.
Qed.

Lemma delete_all_Permutation (l k : list positive) (h : gmap positive Node) :
  l ≡ₚ k -> delete_all l h = delete_all k h.
Proof. intros Hperm. apply delete_all_ext. intros a. by rewrite Hperm. Qed.

(** The head of [buildTree] on the tree of a folder. *)
Lemma partitions_holds (t : tree) (fuel : nat) (h : gmap positive Node)
    (par : option positive) (tr : list Event) (files : list positive) :
  holds h par t -> (height t <= fuel)%nat ->
  partitions fuel (root t) files (mkState h tr)
    = Val ((sort_by (sortByPath h) files,
            compareSortedLists (sortByPath h)
              (sort_by (sortByPath h) (all_files t))
              (sort_by (sortByPath h) files)),
           mkState h tr).
Proof.
  intros Hwf Hfuel. unfold partitions.
  rewrite (bind_Val _ _ _ _ _ (recursiveFileNodes_holds t fuel h par tr Hwf Hfuel)).
  by rewrite (bind_Val _ _ _ _ _
                (read_Val (fun h => Val h) (mkState h tr) h eq_refl)).
Qed.

Lemma partitions_spec (t : tree) (fuel : nat) (h : gmap positive Node)
    (par : option positive) (tr : list Event) (files : list positive) :
  wf_tree h par t -> (height t <= fuel)%nat ->
  partitions fuel (root t) files (mkState h tr)
    = Val ((sort_by (sortByPath h) files,
            compareSortedLists (sortByPath h)
              (sort_by (sortByPath h) (all_files t))
              (sort_by (sortByPath h) files)),
           mkState h tr).
Proof.
  intros Hwf. apply (partitions_holds t fuel h par). by apply wf_tree_holds.
Qed.

Section buildTree_removal.

Variable E : Platform.
Hypothesis E_lawful : lawful E.

Lemma hash_order_empty : hash_order E ∅ = [].
Proof.
  apply Permutation_nil_r. rewrite (proj2 E_lawful ∅).
  by rewrite map_to_list_empty.
Qed.

Lemma hash_order_singleton (key : option positive) (fns : list positive) :
  hash_order E {[key := fns]} = [(key, fns)].
Proof.
  apply Permutation_singleton_r. rewrite (proj2 E_lawful _).
  by rewrite map_to_list_singleton.
Qed.

End buildTree_removal.

Lemma example_platform_lawful : lawful example_platform.
Proof.
  split.
  - intros h. simpl. apply not_elem_of_dom, (is_fresh (dom h)).
  - done.
Qed.

Example prune_at_small_project :
  prune_at 3 [4%positive] small_project_tree = Tree 1 [2%positive] [].
Proof. by vm_compute. Qed.

(** ** Removing from a tree with sub-projects *)

(** *** Removing files, and folders without children *)

Lemma destroy_childless (fuel : nat) (r : positive) (h : gmap positive Node)
    (nr : Node) (tr : list Event) :
  h !! r = Some nr -> m_folderNodes nr = [] -> m_fileNodes nr = [] ->
  (0 < fuel)%nat ->
  destroy fuel r (mkState h tr) = Val (tt, mkState (delete r h) tr).
Proof.
  intros Hnr Hfolders Hfiles Hfuel.
  destruct fuel as [|fuel]; [lia|]. rewrite destroy_S.
  rewrite (bind_Val _ _ _ _ _ (deref_Val r (mkState h tr) nr Hnr)).
  rewrite Hfolders, Hfiles. simpl forM_. rewrite !ret_bind.
  by rewrite (free_Val r _ nr).
Qed.

(** [removeFolderNodes] of folders that have no children. *)
Lemma removeFolderNodes_childless (fuel : nat) (self : positive)
    (l : list positive) (h : gmap positive Node) (n : Node) (tr : list Event)
    (subFolders : list positive) :
  h !! self = Some n -> managed h self l -> (length l < fuel)%nat ->
  StronglySorted Pos.lt (m_folderNodes n) -> NoDup subFolders ->
  (forall p, p ∈ subFolders -> p ∈ m_folderNodes n) ->
  (forall p, p ∈ subFolders -> p <> self /\
     exists np, h !! p = Some np /\ m_folderNodes np = [] /\
       m_fileNodes np = []) ->
  removeFolderNodes fuel self subFolders (mkState h tr)
  = Val (tt,
         mkState
           (<[self := set_folderNodes
                        (list_difference (m_folderNodes n) subFolders) n]>
              (delete_all subFolders h))
           (tr ++ if is_nil subFolders then []
                  else [FoldersAboutToBeRemoved self (sort_ptr subFolders);
                        FoldersRemoved self])).
Proof.
  intros Hn Hm Hlen Hsorted Hnd Hsub Hempty.
  unfold removeFolderNodes. rewrite (Q_ASSERT_managed _ _ l) by done.
  destruct subFolders as [|p0 ps] eqn:Esub.
  { simpl. rewrite list_difference_nil_r, set_folderNodes_id, app_nil_r.
    by rewrite insert_id. }
  assert (Hnil : is_nil (p0 :: ps) = false) by done.
  rewrite <- Esub in *. clear Esub. rewrite Hnil.
  set (tr1 := tr ++ [FoldersAboutToBeRemoved self (sort_ptr subFolders)]).
  assert (Hemit : emit (FoldersAboutToBeRemoved self (sort_ptr subFolders))
                    (mkState h tr) = Val (tt, mkState h tr1)) by done.
  rewrite (bind_Val _ _ _ _ _ Hemit).
  destruct (erase_loop_steps (removeFolderNodes_step fuel self)
              (fun cur done =>
                 mkState (<[self := set_folderNodes cur n]>
                            (delete_all (flat_map (fun x => [x]) done) h)) tr1)
              (fun x => [x]) (fun r => r ∈ subFolders)) with
      (toRemove := sort_ptr subFolders) (done := @nil positive)
      (cur := m_folderNodes n) (it := 0%nat) as (st & Hloop).
  - intros it r cur done Hr Hcur Hin Hnd'.
    apply (removeFolderNodes_step_spec fuel self h n tr1 (fun x => [x])
             (fun r => r ∈ subFolders)); auto.
    + intros r' h' Hr' Hagree. simpl.
      destruct (Hempty r' Hr') as (_ & np & Hnp & Hf1 & Hf2).
      apply (destroy_childless fuel r' h' np); [|done|done|lia].
      rewrite Hagree; [done|by left].
    + intros r' Hr' Hin'. apply list_elem_of_singleton in Hin'.
      by destruct (Hempty r' Hr') as (Hne & _).
    + intros r' Hr'. split; [by left|].
      destruct (Hempty r' Hr') as (_ & np & Hnp & _). eauto.
  - apply Forall_forall. intros r. apply sort_ptr_elem_of.
  - by apply sort_ptr_sorted.
  - done.
  - apply Forall_forall. intros r Hr.
    apply (proj1 (sort_ptr_elem_of _ _)) in Hr. unfold drop. by apply Hsub.
  - simpl. rewrite flat_map_singleton. apply sort_ptr_sorted in Hnd.
    by apply StronglySorted_lt_NoDup.
  - simpl in Hloop. rewrite set_folderNodes_id, insert_id in Hloop by done.
    rewrite (bind_Val _ _ _ _ _ Hloop).
    unfold emit. cbn [heap trace]. unfold tr1. rewrite <- app_assoc. simpl.
    do 3 f_equal.
    rewrite (list_difference_ext _ (sort_ptr subFolders) subFolders)
      by apply sort_ptr_elem_of.
    f_equal. rewrite flat_map_singleton. apply delete_all_ext. intros a.
    apply sort_ptr_elem_of.
Qed.

(** [removeFileNodes] on the root of a tree. *)
Lemma removeFileNodes_cut (fuel : nat) (a : positive) (l : list positive)
    (h : gmap positive Node) (par : option positive) (files : list positive)
    (folders : list tree) (tr : list Event) (fns : list positive) :
  holds h par (Tree a files folders) ->
  NoDup (nodes (Tree a files folders)) ->
  managed h a l -> (length l < fuel)%nat ->
  NoDup fns -> (forall f, f ∈ fns -> f ∈ files) ->
  exists h' tr',
    removeFileNodes fuel a fns (mkState h tr) = Val (tt, mkState h' tr') /\
    cut h h' par (Tree a files folders)
      (Tree a (list_difference files fns) folders).
Proof.
  intros Hh Hnd Hm Hlen Hnd_fns Hsub.
  inversion Hh as [? ? n ? ? Ha Hty Hpar Hses Hfiles Hfolders Hsf Hsd Hleaf Hkids];
    subst.
  simpl in Hnd. apply NoDup_cons in Hnd as [Ha_notin Hnd].
  apply NoDup_app in Hnd as (Hnd_files & Hdisj & Hnd_kids).
  rewrite Forall_forall in Hleaf. rewrite Forall_forall in Hkids.
  pose proof (removeFileNodes_spec fuel a l h n tr fns Ha Hm Hlen Hsf Hnd_fns
                Hsub ltac:(apply Forall_forall; auto)) as Hrun.
  set (n' := set_fileNodes (list_difference (m_fileNodes n) fns) n) in *.
  set (h' := <[a := n']> (delete_all fns h)) in *.
  eexists h', _. split; [exact Hrun|].
  assert (Hh' : forall x, x <> a -> x ∉ fns -> h' !! x = h !! x).
  { intros x Hxa Hx. unfold h'. rewrite lookup_insert_ne by done.
    rewrite lookup_delete_all. by rewrite decide_False. }
  assert (Ha_fns : a ∉ fns).
  { intros Hin. apply Ha_notin, elem_of_app. left. by apply Hsub. }
  assert (Hh'_kids : forall x, x ∈ flat_map nodes folders -> h' !! x = h !! x).
  { intros x Hx. apply Hh'.
    - intros ->. apply Ha_notin, elem_of_app. by right.
    - intros Hin. by apply (Hdisj x (Hsub x Hin)). }
  assert (Hh'_files : forall x, x ∈ list_difference (m_fileNodes n) fns ->
            h' !! x = h !! x).
  { intros x Hx. apply list_elem_of_difference in Hx as [Hx Hnot].
    apply Hh'; [|done]. intros ->. apply Ha_notin, elem_of_app. by left. }
  split; [|split; [|split]].
  - apply holds_intro with n'; try done.
    + apply lookup_insert_eq.
    + simpl. rewrite list_difference_filter. by apply StronglySorted_filter.
    + apply Forall_forall. intros f Hf.
      apply (file_leaf_frame h); [by apply Hh'_files|].
      apply list_elem_of_difference in Hf as [Hf _]. by apply Hleaf.
    + apply Forall_forall. intros c Hc.
      apply (holds_frame h); [by apply Hkids|].
      intros x Hx. by apply Hh'_kids, (nodes_child c).
  - intros x Hx Hnot. simpl in Hx, Hnot.
    apply not_elem_of_cons in Hnot as [Hxa Hnot].
    apply not_elem_of_app in Hnot as [HnotF HnotD].
    apply elem_of_cons in Hx as [?|Hx]; [done|].
    apply elem_of_app in Hx as [Hx|Hx]; [|done].
    unfold h'. rewrite lookup_insert_ne by done.
    rewrite lookup_delete_all. rewrite decide_True; [done|].
    destruct (decide (x ∈ fns)) as [|Hnin]; [done|].
    destruct HnotF. by apply list_elem_of_difference.
  - intros x Hx. simpl in Hx. apply elem_of_cons in Hx as [->|Hx].
    { exists n, n'. split; [done|].
      split; [apply lookup_insert_eq|]. unfold n', same_but_children.
      by destruct n. }
    assert (Hx' : h' !! x = h !! x).
    { apply elem_of_app in Hx as [Hx|Hx]; auto. }
    assert (His : is_Some (h !! x)).
    { apply elem_of_app in Hx as [Hx|Hx].
      - apply list_elem_of_difference in Hx as [Hx _].
        destruct (Hleaf x Hx) as (nf & Hnf & _). eauto.
      - apply elem_of_flat_map in Hx as (c & Hc & Hx).
        by apply (holds_alive c h (Some a)); auto. }
    destruct His as [nx Hnx]. exists nx, nx. rewrite Hx'.
    split; [done|]. split; [done|apply same_but_children_refl].
  - intros x Hx. simpl in Hx. apply not_elem_of_cons in Hx as [Hxa Hx].
    apply not_elem_of_app in Hx as [HxF HxD].
    apply Hh'; [done|]. intros Hin. by apply HxF, Hsub.
Qed.

(** [removeFolderNodes] of one folder without children, on the root of a
    tree. *)
Lemma removeFolderNodes_cut (fuel : nat) (a : positive) (l : list positive)
    (h : gmap positive Node) (par : option positive) (files : list positive)
    (folders : list tree) (tr : list Event) (r : positive) :
  holds h par (Tree a files folders) ->
  NoDup (nodes (Tree a files folders)) ->
  managed h a l -> (length l < fuel)%nat ->
  Tree r [] [] ∈ folders ->
  exists h' tr',
    removeFolderNodes fuel a [r] (mkState h tr) = Val (tt, mkState h' tr') /\
    cut h h' par (Tree a files folders)
      (Tree a files (filter (fun c => root c ∉ [r]) folders)).
Proof.
  intros Hh Hnd Hm Hlen Hr.
  inversion Hh as [? ? n ? ? Ha Hty Hpar Hses Hfiles Hfolders Hsf Hsd Hleaf Hkids];
    subst.
  simpl in Hnd. apply NoDup_cons in Hnd as [Ha_notin Hnd].
  apply NoDup_app in Hnd as (Hnd_files & Hdisj & Hnd_kids).
  rewrite Forall_forall in Hleaf. rewrite Forall_forall in Hkids.
  assert (Hroots : NoDup (map root folders))
    by (by apply StronglySorted_lt_NoDup).
  assert (Hr_kids : r ∈ flat_map nodes folders).
  { apply (nodes_child (Tree r [] [])); [done|]. by left. }
  assert (Hra : r <> a).
  { intros ->. apply Ha_notin, elem_of_app. by right. }
  pose proof (Hkids _ Hr) as Hh_r.
  inversion Hh_r as [? ? nr ? ? Hnr _ _ _ Hr_files Hr_folders _ _ _ _]; subst.
  simpl in Hr_folders.
  assert (Hr_root : r ∈ map root folders).
  { apply list_elem_of_fmap. by exists (Tree r [] []). }
  pose proof (removeFolderNodes_childless fuel a l h n tr [r] Ha Hm Hlen
                ltac:(by rewrite Hfolders) ltac:(apply NoDup_singleton)
                ltac:(intros p ->%list_elem_of_singleton; by rewrite Hfolders)
                ltac:(intros p ->%list_elem_of_singleton; split; [done|];
                      by exists nr)) as Hrun.
  set (n' := set_folderNodes (list_difference (m_folderNodes n) [r]) n) in *.
  set (h' := <[a := n']> (delete_all [r] h)) in *.
  eexists h', _. split; [exact Hrun|].
  assert (Hh' : forall x, x <> a -> x <> r -> h' !! x = h !! x).
  { intros x Hxa Hxr. unfold h'. rewrite lookup_insert_ne by done.
    rewrite lookup_delete_all. rewrite decide_False; [done|].
    by intros ->%list_elem_of_singleton. }
  assert (Hkept : forall c x, c ∈ folders -> root c ∉ [r] -> x ∈ nodes c ->
            h' !! x = h !! x).
  { intros c x Hc Hroot Hx. apply Hh'.
    - intros ->. apply Ha_notin, elem_of_app. right. by apply (nodes_child c).
    - intros ->.
      apply (NoDup_flat_map_disjoint nodes folders c (Tree r [] []) r); auto.
      + intros ->. apply Hroot. by left.
      + by left. }
  assert (Hfile : forall f, f ∈ m_fileNodes n -> h' !! f = h !! f).
  { intros f Hf. apply Hh'.
    - intros ->. apply Ha_notin, elem_of_app. by left.
    - intros ->. by apply (Hdisj r). }
  assert (Hmap : map root (filter (fun c => root c ∉ [r]) folders)
                 = list_difference (map root folders) [r])
    by apply map_filter_list_difference.
  split; [|split; [|split]].
  - apply holds_intro with n'; try done.
    + apply lookup_insert_eq.
    + simpl. by rewrite Hmap, Hfolders.
    + rewrite Hmap, list_difference_filter. by apply StronglySorted_filter.
    + apply Forall_forall. intros f Hf.
      apply (file_leaf_frame h); [by apply Hfile|by apply Hleaf].
    + apply Forall_forall. intros c Hc.
      apply list_elem_of_filter in Hc as [Hnot Hc].
      apply (holds_frame h); [by apply Hkids|].
      intros x Hx. by apply (Hkept c).
  - intros x Hx Hnot. simpl in Hx, Hnot.
    apply not_elem_of_cons in Hnot as [Hxa Hnot].
    apply not_elem_of_app in Hnot as [HnotF HnotD].
    apply elem_of_cons in Hx as [?|Hx]; [done|].
    apply elem_of_app in Hx as [Hx|Hx]; [done|].
    apply elem_of_flat_map in Hx as (c & Hc & Hx).
    destruct (decide (root c ∈ [r])) as [Hin|Hnin].
    + apply list_elem_of_singleton in Hin.
      assert (c = Tree r [] []) as ->
        by (by apply (root_inj_in folders)).
      simpl in Hx. apply list_elem_of_singleton in Hx as ->.
      unfold h'. rewrite lookup_insert_ne by done.
      rewrite lookup_delete_all. rewrite decide_True; [done|by left].
    + destruct HnotD. apply elem_of_flat_map. exists c. split; [|done].
      by apply list_elem_of_filter.
  - intros x Hx. simpl in Hx. apply elem_of_cons in Hx as [->|Hx].
    { exists n, n'. split; [done|].
      split; [apply lookup_insert_eq|]. unfold n', same_but_children.
      by destruct n. }
    assert (Hx' : h' !! x = h !! x).
    { apply elem_of_app in Hx as [Hx|Hx]; [by apply Hfile|].
      apply elem_of_flat_map in Hx as (c & Hc & Hx).
      apply list_elem_of_filter in Hc as [Hnot Hc]. by apply (Hkept c). }
    destruct (holds_alive _ h _ x Hh) as [nx Hnx].
    { simpl. right. apply elem_of_app in Hx as [Hx|Hx];
        apply elem_of_app; [by left|right].
      apply elem_of_flat_map in Hx as (c & Hc & Hx).
      apply list_elem_of_filter in Hc as [_ Hc]. by apply (nodes_child c). }
    exists nx, nx. rewrite Hx'.
    split; [done|]. split; [done|apply same_but_children_refl].
  - intros x Hx. simpl in Hx. apply not_elem_of_cons in Hx as [Hxa Hx].
    apply not_elem_of_app in Hx as [HxF HxD].
    apply Hh'; [done|]. by intros ->.
Qed.

(** A child of the root cut, the tree is cut. *)
Lemma cut_replace_child (h h1 : gmap positive Node)
    (par : option positive) (a : positive) (files : list positive)
    (folders : list tree) (c c' : tree) :
  holds h par (Tree a files folders) ->
  NoDup (nodes (Tree a files folders)) ->
  c ∈ folders -> cut h h1 (Some a) c c' ->
  root c' = root c -> (forall x, x ∈ nodes c' -> x ∈ nodes c) ->
  cut h h1 par (Tree a files folders)
    (Tree a files (replace_child c' folders)).
Proof.
  intros Hh Hnd Hc (Hhc & Hgone & Hsame & Hframe) Hroot Hsub.
  pose proof Hh as Hh0.
  inversion Hh as [? ? n ? ? Ha Hty Hpar Hses Hfiles Hfolders Hsf Hsd Hleaf Hkids];
    subst.
  simpl in Hnd. apply NoDup_cons in Hnd as [Ha_notin Hnd].
  apply NoDup_app in Hnd as (Hnd_files & Hdisj & Hnd_kids).
  rewrite Forall_forall in Hleaf. rewrite Forall_forall in Hkids.
  assert (Hroots : NoDup (map root folders))
    by (by apply StronglySorted_lt_NoDup).
  assert (Ha1 : h1 !! a = Some n).
  { rewrite Hframe; [done|]. intros Hin. apply Ha_notin, elem_of_app. right.
    by apply (nodes_child c). }
  assert (Hother : forall y x, y ∈ folders -> root y <> root c ->
            x ∈ nodes y -> h1 !! x = h !! x).
  { intros y x Hy Hne Hx. apply Hframe. intros Hin.
    apply (NoDup_flat_map_disjoint nodes folders y c x); auto.
    by intros ->. }
  split; [|split; [|split]].
  - apply holds_intro with n; try done.
    + by rewrite map_root_replace_child.
    + by rewrite map_root_replace_child.
    + apply Forall_forall. intros f Hf.
      apply (file_leaf_frame h); [|by apply Hleaf].
      apply Hframe. intros Hin. by apply (Hdisj f Hf), (nodes_child c).
    + apply Forall_forall. intros y Hy.
      apply elem_of_replace_child in Hy as [[-> _]|[Hy Hne]]; [done|].
      apply (holds_frame h); [by apply Hkids|].
      intros x Hx. apply (Hother y); [done| |done]. by rewrite <- Hroot.
  - intros x Hx Hnot. simpl in Hx, Hnot.
    apply not_elem_of_cons in Hnot as [Hxa Hnot].
    apply not_elem_of_app in Hnot as [HnotF HnotD].
    apply elem_of_cons in Hx as [?|Hx]; [done|].
    apply elem_of_app in Hx as [?|Hx]; [done|].
    apply elem_of_flat_map in Hx as (y & Hy & Hx).
    destruct (decide (root y = root c)) as [Heq|Hne].
    + rewrite (root_inj_in folders y c Hroots Hy Hc Heq) in Hx.
      apply Hgone; [done|]. intros Hin. apply HnotD, elem_of_flat_map.
      exists c'. split; [|done]. by apply (replace_child_elem_of c).
    + destruct HnotD. apply elem_of_flat_map. exists y. split; [|done].
      unfold replace_child. apply list_elem_of_fmap. exists y.
      rewrite decide_False; [done|]. by rewrite Hroot.
  - intros x Hx. simpl in Hx. apply elem_of_cons in Hx as [->|Hx].
    { exists n, n. split; [done|]. split; [done|].
      apply same_but_children_refl. }
    assert (Hcase : x ∈ nodes c' \/
              ((x ∉ nodes c) /\
               (x ∈ nodes (Tree a (m_fileNodes n) folders)))).
    { apply elem_of_app in Hx as [Hx|Hx].
      - right. split.
        + intros Hin. by apply (Hdisj x Hx), (nodes_child c).
        + simpl. right. apply elem_of_app. by left.
      - apply elem_of_flat_map in Hx as (y & Hy & Hx).
        apply elem_of_replace_child in Hy as [[-> _]|[Hy Hne]]; [by left|].
        right. split.
        + intros Hin.
          apply (NoDup_flat_map_disjoint nodes folders y c x); auto.
          intros ->. by apply Hne.
        + simpl. right. apply elem_of_app. right. by apply (nodes_child y). }
    destruct Hcase as [Hin|[Hnin Hin]]; [by apply Hsame|].
    destruct (holds_alive _ h _ x Hh0 Hin) as [nx Hnx].
    exists nx, nx. rewrite Hframe by done.
    split; [done|]. split; [done|apply same_but_children_refl].
  - intros x Hx. apply Hframe. intros Hin. apply Hx. simpl. right.
    apply elem_of_app. right. by apply (nodes_child c).
Qed.

(** The loop of [buildTree] over one folder [d] and its deleted files
    [fns], seen from a tree [t] that holds [d], whatever sub-projects the
    tree has: the files go, then, from [d] upwards, the folders left empty,
    sub-projects among them; when [t] is not the tree of the folder
    [buildTree] was called on, the loop is left about to look at the root
    of [t]. *)
Lemma remove_deleted_climb_cut (d : positive) (fns : list positive)
    (self : positive) (fuel : nat) (t : tree) :
  forall h par l tr,
    holds h par t -> NoDup (nodes t) -> managed h (root t) l ->
    Forall (fun x => x ∉ nodes t) l ->
    (height t + length l < fuel)%nat ->
    self = root t \/ self ∈ l ->
    d ∈ nodes t ->
    (exists nd, h !! d = Some nd /\ m_nodeType nd <> FileNodeType /\
       forall f, f ∈ fns -> f ∈ m_fileNodes nd) ->
    NoDup fns ->
    exists k h1 tr1,
      (k < height t)%nat /\
      cut h h1 par t (prune_at d fns t) /\
      (forall f, f ∈ fns -> h1 !! f = None) /\
      forall n,
        (removeFileNodes fuel d fns ;;
         if decide (d = self) then ret tt
         else remove_empty_parents (k + S n) fuel self d) (mkState h tr)
        = (if decide (root t = self) then ret tt
           else remove_empty_parents (S n) fuel self (root t)) (mkState h1 tr1).
Proof.
  induction t as [a files folders IH] using tree_ind.
  intros h par l tr Hh Hnd Hm Hl Hfuel Hself Hd (nd & Hnd_d & Hty_d & Hfns)
    Hnd_fns.
  pose proof Hh as Hh'.
  inversion Hh' as [? ? n ? ? Ha Hty Hpar Hses Hfiles Hfolders Hsf Hsd Hleaf Hkids];
    subst.
  pose proof (height_pos (Tree a (m_fileNodes n) folders)) as Hpos.
  simpl root in *.
  destruct (decide (a = d)) as [<-|Had].
  { (* the files are the root's *)
    assert (nd = n) as -> by congruence.
    destruct (removeFileNodes_cut fuel a l h _ _ folders tr fns
                Hh Hnd Hm ltac:(lia) Hnd_fns Hfns)
      as (h1 & tr1 & Hrun & Hshape).
    exists 0%nat, h1, tr1. split; [lia|]. split.
    { simpl. by rewrite decide_True. }
    split; [|intros k; by rewrite (bind_Val _ _ _ _ _ Hrun)].
    intros f Hf. destruct Hshape as (_ & Hgone & _).
    simpl in Hnd. apply NoDup_cons in Hnd as [Ha_notin Hnd].
    apply NoDup_app in Hnd as (_ & Hdisj & _).
    apply Hgone; simpl.
    - right. apply elem_of_app. left. by apply Hfns.
    - intros [->|Hin]%elem_of_cons.
      + apply Ha_notin, elem_of_app. left. by apply Hfns.
      + apply elem_of_app in Hin as [Hin|Hin].
        * by apply list_elem_of_difference in Hin as [_ ?].
        * by apply (Hdisj f (Hfns f Hf)). }
  (* the files are below a child *)
  pose proof Hnd as Hnd_all.
  simpl in Hnd. apply NoDup_cons in Hnd as [Ha_notin Hnd].
  apply NoDup_app in Hnd as (Hnd_files & Hdisj & Hnd_kids).
  rewrite Forall_forall in Hleaf. rewrite Forall_forall in Hkids.
  rewrite Forall_forall in IH. rewrite Forall_forall in Hl.
  simpl in Hd. apply elem_of_cons in Hd as [?|Hd]; [done|].
  apply elem_of_app in Hd as [Hd|Hd].
  { destruct (Hleaf d Hd) as (nf & Hnf & Hfile & _). congruence. }
  apply elem_of_flat_map in Hd as (c & Hc & Hd).
  assert (Ha_c : a ∉ nodes c).
  { intros Hin. apply Ha_notin, elem_of_app. right. by apply (nodes_child c). }
  assert (Hl_c : forall x, x ∈ l -> x ∉ nodes c).
  { intros x Hx Hin. apply (Hl x Hx). simpl. right. apply elem_of_app. right.
    by apply (nodes_child c). }
  assert (Hself_c : self <> root c).
  { intros ->. destruct Hself as [Heq|Hin].
    - apply Ha_c. rewrite <- Heq. apply root_in_nodes.
    - apply (Hl_c _ Hin), root_in_nodes. }
  pose proof (height_child a (m_fileNodes n) folders c Hc) as Hheight_c.
  destruct (IH c Hc h (Some a) (a :: l) tr (Hkids c Hc)
              (NoDup_flat_map_elem nodes folders c Hnd_kids Hc)
              (holds_managed_child h a l c Hm (Hkids c Hc))
              ltac:(apply Forall_cons; split;
                    [done|apply Forall_forall; exact Hl_c])
              ltac:(simpl length; lia)
              ltac:(right; destruct Hself as [->|?]; [by left|by right])
              Hd ltac:(eauto) Hnd_fns)
    as (kc & h1 & tr1 & Hkc & Hshape_c & Hfns_c & Hrun_c).
  set (c' := prune_at d fns c) in *.
  assert (Hroot' : root c' = root c) by apply root_prune_at.
  assert (Hsub_c : forall x, x ∈ nodes c' -> x ∈ nodes c).
  { apply sublist_subseteq, nodes_prune_at_sublist. }
  pose proof (cut_replace_child h h1 _ a _ folders c c' Hh Hnd_all Hc
                Hshape_c Hroot' Hsub_c) as Hshape1.
  set (T1 := Tree a (m_fileNodes n) (replace_child c' folders)) in *.
  assert (Hsub1 : nodes T1 `sublist_of` nodes (Tree a (m_fileNodes n) folders)).
  { simpl. apply sublist_skip, sublist_app; [done|].
    apply replace_child_sublist. intros x Hx Heq.
    rewrite (root_inj_in folders x c) by
      (auto using StronglySorted_lt_NoDup; congruence).
    apply nodes_prune_at_sublist. }
  destruct Hshape_c as (Hh_c' & Hgone_c & Hsame_c & Hframe_c).
  assert (Ha1 : h1 !! a = Some n) by (by rewrite Hframe_c).
  destruct (holds_child_alive h1 (Some a) c' Hh_c') as [nc Hnc].
  destruct (is_empty_tree_holds h1 (Some a) c' nc Hh_c' Hnc)
    as [Hempty_nc Hpar_nc].
  rewrite Hroot' in Hnc.
  assert (Hne_self : root c <> self) by (by intros ?).
  exists (S kc).
  destruct (is_empty_tree c') eqn:Hempty.
  - (* the child is left empty: it goes *)
    assert (Hc'_in : Tree (root c) [] [] ∈ replace_child c' folders).
    { rewrite <- Hroot', <- (is_empty_tree_eq c' Hempty).
      by apply (replace_child_elem_of c). }
    destruct (removeFolderNodes_cut fuel a l h1 _ _
                (replace_child c' folders) tr1 (root c)
                (proj1 Hshape1)
                (sublist_NoDup _ _ Hnd_all Hsub1)
                ltac:(apply (managed_frame h); [done|];
                      intros x [->|Hx]%elem_of_cons;
                      [unfold skeleton; by rewrite Ha1, Ha
                      |by apply skeleton_agree, Hframe_c, Hl_c])
                ltac:(lia) Hc'_in)
      as (h2 & tr2 & Hrun2 & Hshape2).
    exists h2, tr2. split; [lia|]. split; [|split].
    + rewrite (prune_at_child d fns a _ folders c Had Hnd_kids Hc Hd).
      fold c'. rewrite Hempty.
      rewrite <- (filter_replace_child c c' folders Hroot').
      apply (cut_trans h h1 h2 _ _ T1); [done|done| |].
      * by apply sublist_subseteq.
      * apply sublist_subseteq. simpl. apply sublist_skip, sublist_app; [done|].
        apply sublist_flat_map, sublist_filter.
    + intros f Hf. by apply (cut_None h1 h2 _ _ _ f Hshape2), Hfns_c.
    + intros k. replace (S kc + S k)%nat with (kc + S (S k))%nat by lia.
      rewrite Hrun_c, decide_False by done.
      rewrite remove_empty_parents_S.
      rewrite (bind_Val _ _ _ _ _ (deref_Val (root c) (mkState h1 tr1) nc Hnc)).
      rewrite Hempty_nc, Hpar_nc.
      by rewrite (bind_Val _ _ _ _ _ Hrun2).
  - (* the child is not empty: the loop ends *)
    exists h1, tr1. split; [lia|]. split; [|split; [done|]].
    + rewrite (prune_at_child d fns a _ folders c Had Hnd_kids Hc Hd).
      fold c'. by rewrite Hempty.
    + intros k. replace (S kc + S k)%nat with (kc + S (S k))%nat by lia.
      rewrite Hrun_c, decide_False by done.
      rewrite remove_empty_parents_S.
      rewrite (bind_Val _ _ _ _ _ (deref_Val (root c) (mkState h1 tr1) nc Hnc)).
      rewrite Hempty_nc. unfold root.
      destruct (decide (a = self)) as [|_]; [done|].
      rewrite remove_empty_parents_S.
      rewrite (bind_Val _ _ _ _ _ (deref_Val a (mkState h1 tr1) n Ha1)).
      rewrite Hfolders. destruct folders; [|done].
      by apply elem_of_nil in Hc.
Qed.

Section buildTree_removal_chain.

Variable E : Platform.
Hypothesis E_lawful : lawful E.

(** C2.  [buildTree] on a folder whose tree is well formed, sub-projects or
    not, with incoming files whose paths are those of the files below the
    folder but for one file [x] of the folder [d]: the incoming nodes are
    destroyed, [x] is removed from [d], and so is, from [d] upwards, every
    folder this leaves without files and folders, a sub-project too; the
    folder [buildTree] was called on stays.  The store holds the tree
    [prune_at d [x] t] then: what is not in it is gone, what is in it is as
    it was but for its lists of file nodes and folder nodes, and what was
    outside the tree is as it was.  When no folder that goes is a project,
    the tree is well formed again; the pointer to a sub-project that goes
    stays in [m_projectNodes] of its parent. *)
Theorem buildTree_removes_empty_chain (t : tree) (fuel : nat)
    (h : gmap positive Node) (par : option positive) (l : list positive)
    (tr : list Event) (files : list positive) (x d : positive)
    (overrideBaseDir : FileName) :
  wf_tree h par t -> NoDup (nodes t) -> managed h (root t) l ->
  Forall (fun a => a ∉ nodes t) l ->
  (height t + length l < fuel)%nat ->
  NoDup files -> Forall (loose_file h) files ->
  Forall (fun a => a ∉ files) l ->
  x ∈ all_files t -> file_leaf h d x ->
  (forall y, y ∈ all_files t -> path_of h y = path_of h x -> y = x) ->
  map (path_of h) files
    ≡ₚ map (path_of h) (filter (fun y => y <> x) (all_files t)) ->
  exists h' tr',
    buildTree E fuel (root t) files overrideBaseDir (mkState h tr)
      = Val (tt, mkState h' tr') /\
    cut (delete_all files h) h' par t (prune_at d [x] t) /\
    h' !! x = None /\ is_Some (h' !! root t) /\
    ((forall y, y ∈ nodes t -> y ∉ nodes (prune_at d [x] t) ->
        isProjectAt h y = false) ->
     reshaped (delete_all files h) h' par t (prune_at d [x] t)).
Proof.
  intros Hwf Hnd Hm Hl Hfuel Hnd_files Hloose Hl_files Hx Hleaf Huniq Hperm.
  pose proof (height_pos t) as Hpos.
  set (fs := sort_by (sortByPath h) files).
  assert (Hfs : fs ≡ₚ files) by apply sort_by_Permutation.
  assert (Hparts : partitions fuel (root t) files (mkState h tr)
            = Val ((fs, ([x], [])), mkState h tr)).
  { rewrite (partitions_spec t fuel h par tr files Hwf) by lia.
    rewrite (partition_one_gone h x (all_files t) files); auto.
    - by apply (all_files_alive t h par).
    - by apply loose_file_alive.
    - by apply all_files_NoDup. }
  set (h0 := delete_all files h).
  assert (Hdestroy : forM_ (subtractSortedList fs []) (destroy fuel)
            (mkState h tr) = Val (tt, mkState h0 tr)).
  { unfold subtractSortedList. rewrite list_difference_nil_r.
    rewrite (destroy_loose_files fuel fs h tr); [|lia|by rewrite Hfs|by rewrite Hfs].
    unfold h0. by rewrite (delete_all_Permutation fs files). }
  assert (Hh0 : forall y, y ∈ nodes t -> h0 !! y = h !! y).
  { intros y Hy. unfold h0. rewrite lookup_delete_all.
    rewrite decide_False; [done|]. intros Hin.
    rewrite Forall_forall in Hloose.
    by apply (wf_tree_not_loose t h par y Hwf Hy), Hloose. }
  assert (Hh0_l : forall y, y ∈ l -> h0 !! y = h !! y).
  { intros y Hy. unfold h0. rewrite lookup_delete_all.
    rewrite decide_False; [done|]. rewrite Forall_forall in Hl_files. auto. }
  destruct (all_files_parent t h par x Hwf Hx)
    as (d' & nd & Hleaf' & Hd & Hnd_d & Hty_d & Hx_d).
  assert (d' = d) as ->.
  { destruct Hleaf as (nx & Hnx & _ & Hp & _).
    destruct Hleaf' as (nx' & Hnx' & _ & Hp' & _). congruence. }
  destruct Hleaf as (nx & Hnx & _ & Hpx & _).
  pose proof (all_files_nodes t x Hx) as Hx_t.
  assert (Hwf0 : wf_tree h0 par t) by (by apply (wf_tree_frame h)).
  assert (Hm0 : managed h0 (root t) l).
  { apply (managed_agree h); [done|].
    intros y [->|Hy]%elem_of_cons; [apply Hh0, root_in_nodes|by apply Hh0_l]. }
  assert (Hd0 : exists nd, h0 !! d = Some nd /\ m_nodeType nd <> FileNodeType /\
            forall f, f ∈ [x] -> f ∈ m_fileNodes nd).
  { exists nd. rewrite Hh0 by done. split; [done|]. split; [done|].
    by intros f ->%list_elem_of_singleton. }
  destruct (remove_deleted_climb_cut d [x] (root t) fuel t h0 par l tr
              (wf_tree_holds t h0 par Hwf0) Hnd Hm0 Hl Hfuel
              ltac:(by left) Hd Hd0 ltac:(apply NoDup_singleton))
    as (k & h1 & tr1 & Hk & Hshape & Hgone & Hrun).
  assert (Hloop : remove_deleted fuel (root t) (Some d, [x]) (mkState h0 tr)
            = Val (tt, mkState h1 tr1)).
  { specialize (Hrun (fuel - k - 1)%nat).
    replace (k + S (fuel - k - 1))%nat with fuel in Hrun by lia.
    etrans; [exact Hrun|]. by destruct (decide (root t = root t)). }
  exists h1, tr1. split; [|split; [done|split; [|split]]].
  - unfold buildTree.
    rewrite (bind_Val _ _ _ _ _ Hparts).
    rewrite (bind_Val _ _ _ _ _ Hdestroy).
    simpl foldM at 1. rewrite ret_bind, (hash_order_empty E E_lawful).
    simpl forM_ at 1. rewrite ret_bind.
    assert (Hmapping :
      foldM (fun (m : FolderMapping) fn =>
               let* f := deref fn in
               ret (mapping_append m (m_parentFolderNode f) fn))
            [x] ∅ (mkState h0 tr)
      = Val ({[Some d := [x]]}, mkState h0 tr)).
    { unfold foldM, bind, deref, ret. simpl heap.
      rewrite (Hh0 x Hx_t), Hnx. unfold mapping_append.
      rewrite lookup_empty, Hpx. simpl app. by rewrite insert_empty. }
    rewrite (bind_Val _ _ _ _ _ Hmapping), (hash_order_singleton E E_lawful).
    rewrite forM__cons. by rewrite (bind_Val _ _ _ _ _ Hloop).
  - apply Hgone. by left.
  - destruct Hshape as (Hh1 & _).
    rewrite <- (root_prune_at d [x] t). by apply (holds_child_alive h1 par).
  - intros Hnp.
    destruct (remove_deleted_climb d [x] (root t) fuel t h0 par l tr
                Hwf0 Hnd Hm0 Hl
                ltac:(intros y Hy Hnot;
                      rewrite (isProjectAt_agree h h0) by auto; by apply Hnp)
                Hfuel ltac:(by left) Hd Hd0 ltac:(apply NoDup_singleton))
      as (k' & h1' & tr1' & Hk' & Hshape' & _ & Hrun').
    specialize (Hrun' (fuel - k' - 1)%nat).
    replace (k' + S (fuel - k' - 1))%nat with fuel in Hrun' by lia.
    assert (Hloop' : remove_deleted fuel (root t) (Some d, [x]) (mkState h0 tr)
              = Val (tt, mkState h1' tr1')).
    { etrans; [exact Hrun'|]. by destruct (decide (root t = root t)). }
    rewrite Hloop in Hloop'. injection Hloop' as <- <-. exact Hshape'.
Qed.

End buildTree_removal_chain.

Lemma nested_projects_managed : managed nested_projects 1 [].
Proof.
  split; [|split].
  - eapply ancestors_root; reflexivity.
  - eexists. split; [reflexivity|discriminate].
  - apply Exists_cons_hd. reflexivity.
Qed.

Lemma buildTree_removes_empty_chain_witness :
  exists h' tr',
    buildTree example_platform 5 1 [] "" nested_projects_rescan
      = Val (tt, mkState h' tr') /\
    cut (delete_all [] nested_projects) h' None nested_projects_tree
      (prune_at 2 [3%positive] nested_projects_tree) /\
    h' !! 3%positive = None /\ is_Some (h' !! 1%positive) /\
    ((forall y, y ∈ nodes nested_projects_tree ->
        y ∉ nodes (prune_at 2 [3%positive] nested_projects_tree) ->
        isProjectAt nested_projects y = false) ->
     reshaped (delete_all [] nested_projects) h' None nested_projects_tree
       (prune_at 2 [3%positive] nested_projects_tree)).
Proof.
  apply (buildTree_removes_empty_chain example_platform example_platform_lawful
           nested_projects_tree 5 nested_projects None [] [] [] 3 2 "").
  - solve_wf_tree.
  - solve_NoDup.
  - exact nested_projects_managed.
  - apply Forall_nil_2.
  - simpl. lia.
  - apply NoDup_nil_2.
  - apply Forall_nil_2.
  - apply Forall_nil_2.
  - simpl. set_solver.
  - solve_file_leaf.
  - intros y Hy Hpath. simpl in Hy.
    repeat (apply elem_of_cons in Hy as [->|Hy]; [try done|]).
    by apply elem_of_nil in Hy.
  - done.
Defined.

(** The chain of the spec's example: the file [/p/sub/b.cpp] is gone from
    the scan, and with it goes the folder [/p/sub]; the project stays. *)
Example buildTree_small_project_chain :
  prune_at 3 [4%positive] small_project_tree = Tree 1 [2%positive] [] /\
  exists h' tr',
    buildTree example_platform 5 1 [5%positive] "" small_project_rescan
      = Val (tt, mkState h' tr') /\
    h' !! 4%positive = None /\ h' !! 3%positive = None /\
    (m_folderNodes <$> h' !! 1%positive) = Some [] /\
    (m_fileNodes <$> h' !! 1%positive) = Some [2%positive].
Proof.
  split; [by vm_compute|]. eexists _, _. split; [by vm_compute|].
  repeat split; by vm_compute.
Qed.

(** A sub-project that is left empty goes like a folder, and its pointer
    stays in the list of sub-projects of its parent. *)
Example buildTree_emptied_sub_project :
  prune_at 2 [3%positive] nested_projects_tree = Tree 1 [] [] /\
  exists h' tr',
    buildTree example_platform 5 1 [] "" nested_projects_rescan
      = Val (tt, mkState h' tr') /\
    h' !! 3%positive = None /\ h' !! 2%positive = None /\
    (m_folderNodes <$> h' !! 1%positive) = Some [] /\
    (m_projectNodes <$> h' !! 1%positive) = Some [2%positive].
Proof.
  split; [by vm_compute|]. eexists _, _. split; [by vm_compute|].
  repeat split; by vm_compute.
Qed.

(** ** Adding files and folders deep in the tree *)

Lemma replace_child_id (c : tree) (folders : list tree) :
  NoDup (map root folders) -> c ∈ folders -> replace_child c folders = folders.
Proof.
  intros Hnd Hc. unfold replace_child. rewrite <- (map_id folders) at 2.
  apply map_ext_in. intros x Hx%list_elem_of_In.
  destruct (decide (root x = root c)) as [Heq|]; [|done].
  symmetry. by apply (root_inj_in folders).
Qed.

(** A child of the root grown, the tree is grown. *)
Lemma attached_replace_child (h h1 : gmap positive Node)
    (par : option positive) (a : positive) (files : list positive)
    (folders : list tree) (c c' : tree) :
  wf_tree h par (Tree a files folders) ->
  NoDup (nodes (Tree a files folders)) ->
  c ∈ folders -> attached h h1 (Some a) c c' ->
  root c' = root c ->
  (forall x, x ∈ nodes c' -> x ∈ nodes c \/ x ∉ nodes (Tree a files folders)) ->
  attached h h1 par (Tree a files folders)
    (Tree a files (replace_child c' folders)).
Proof.
  intros Hwf Hnd Hc (Hwfc & Hkeep & Hskel & Hframe & Hnp & Hpaths) Hroot Hnew.
  inversion Hwf as [? ? n ? ? Ha Hty Hpar Hses Hfiles Hfolders Hproj Hprojty Hsf Hsd Hleaf Hkids];
    subst.
  pose proof Hnd as Hnd_all.
  simpl in Hnd. apply NoDup_cons in Hnd as [Ha_notin Hnd].
  apply NoDup_app in Hnd as (Hnd_files & Hdisj & Hnd_kids).
  rewrite Forall_forall in Hleaf. rewrite Forall_forall in Hkids.
  assert (Hroots : NoDup (map root folders))
    by (by apply StronglySorted_lt_NoDup).
  assert (Hout : forall x, x ∈ nodes (Tree a (m_fileNodes n) folders) ->
            x ∉ nodes c -> h1 !! x = h !! x).
  { intros x Hx Hnot. apply Hframe. intros Hin.
    by destruct (Hnew x Hin). }
  assert (Ha1 : h1 !! a = Some n).
  { rewrite Hout; [done|by left|]. intros Hin. apply Ha_notin, elem_of_app.
    right. by apply (nodes_child c). }
  assert (Hother : forall y x, y ∈ folders -> root y <> root c ->
            x ∈ nodes y -> h1 !! x = h !! x).
  { intros y x Hy Hne Hx. apply Hout.
    - simpl. right. apply elem_of_app. right. by apply (nodes_child y).
    - intros Hin.
      apply (NoDup_flat_map_disjoint nodes folders y c x); auto.
      by intros ->. }
  assert (Hsk_roots : forall y, y ∈ folders ->
            skeleton h1 (root y) = skeleton h (root y)).
  { intros y Hy. destruct (decide (root y = root c)) as [Heq|Hne].
    - rewrite Heq. apply Hskel, root_in_nodes.
    - apply skeleton_agree, (Hother y); auto using root_in_nodes. }
  split; [|split; [|split; [|split; [|split; [|done]]]]].
  - apply wf_tree_intro with n; try done.
    + by rewrite map_root_replace_child.
    + rewrite map_root_replace_child, Hproj. apply filter_ext_elem_of.
      intros r Hr. apply list_elem_of_fmap in Hr as (y & -> & Hy).
      by rewrite (isProjectAt_skeleton h h1) by auto.
    + by rewrite map_root_replace_child.
    + apply Forall_forall. intros f Hf.
      apply (file_leaf_frame h); [|by apply Hleaf].
      apply Hout.
      * simpl. right. apply elem_of_app. by left.
      * intros Hin. by apply (Hdisj f Hf), (nodes_child c).
    + apply Forall_forall. intros y Hy.
      apply elem_of_replace_child in Hy as [[-> _]|[Hy Hne]]; [done|].
      apply (wf_tree_frame h); [by apply Hkids|].
      intros x Hx. apply (Hother y); [done| |done]. by rewrite <- Hroot.
  - intros x Hx. simpl in Hx. simpl.
    apply elem_of_cons in Hx as [->|Hx]; [by left|right].
    apply elem_of_app in Hx as [Hx|Hx]; apply elem_of_app; [by left|right].
    apply elem_of_flat_map in Hx as (y & Hy & Hx).
    apply elem_of_flat_map.
    destruct (decide (root y = root c)) as [Heq|Hne].
    + rewrite (root_inj_in folders y c Hroots Hy Hc Heq) in Hx.
      exists c'. split; [by apply (replace_child_elem_of c)|by apply Hkeep].
    + exists y. split; [|done]. unfold replace_child.
      apply list_elem_of_fmap. exists y.
      rewrite decide_False; [done|]. by rewrite Hroot.
  - intros x Hx. simpl in Hx. apply elem_of_cons in Hx as [->|Hx].
    { unfold skeleton. by rewrite Ha1, Ha. }
    destruct (decide (x ∈ nodes c)) as [Hin|Hnin]; [by apply Hskel|].
    apply skeleton_agree, Hout; [by right|done].
  - intros x Hx. apply Hframe. intros Hin. apply Hx. simpl. right.
    apply elem_of_app. right. apply elem_of_flat_map. exists c'.
    split; [by apply (replace_child_elem_of c)|done].
  - intros x Hx Hnot. simpl in Hx.
    apply elem_of_cons in Hx as [->|Hx]; [destruct Hnot; by left|].
    apply elem_of_app in Hx as [Hx|Hx].
    { destruct Hnot. simpl. right. apply elem_of_app. by left. }
    apply elem_of_flat_map in Hx as (y & Hy & Hx).
    apply elem_of_replace_child in Hy as [[-> _]|[Hy Hne]].
    + apply Hnp; [done|]. intros Hin. apply Hnot. simpl. right.
      apply elem_of_app. right. by apply (nodes_child c).
    + destruct Hnot. simpl. right. apply elem_of_app. right.
      by apply (nodes_child y).
Qed.

Lemma root_update_at (d : positive) (f : tree -> tree) (t : tree) :
  (forall s, root (f s) = root s) -> root (update_at d f t) = root t.
Proof.
  intros Hf. destruct t as [a files folders]. simpl.
  destruct (decide (a = d)); [apply Hf|done].
Qed.

Lemma update_at_notin (d : positive) (f : tree -> tree) (t : tree) :
  d ∉ nodes t -> update_at d f t = t.
Proof.
  induction t as [a files folders IH] using tree_ind. intros Hd. simpl.
  rewrite decide_False by (intros ->; apply Hd; by left). f_equal.
  rewrite <- (map_id folders) at 2. apply map_ext_in.
  intros c Hc%list_elem_of_In. rewrite Forall_forall in IH. apply IH; [done|].
  intros Hin. apply Hd. simpl. right. apply elem_of_app. right.
  by apply (nodes_child c).
Qed.

Lemma folders_of_nodes (t : tree) (x : positive) :
  x ∈ folders_of t -> x ∈ nodes t.
Proof.
  induction t as [a files folders IH] using tree_ind. simpl.
  intros [->|Hx]%elem_of_cons; [by left|right].
  apply elem_of_app. right.
  apply elem_of_flat_map in Hx as (c & Hc & Hx).
  apply elem_of_flat_map. exists c. split; [done|].
  rewrite Forall_forall in IH. by apply IH.
Qed.

(** Below a folder other than [d], [update_at] works on the one child that
    holds [d]. *)
Lemma update_at_child (d : positive) (f : tree -> tree) (a : positive)
    (files : list positive) (folders : list tree) (c : tree) :
  (forall s, root (f s) = root s) ->
  a <> d -> NoDup (flat_map nodes folders) -> NoDup (map root folders) ->
  c ∈ folders -> d ∈ nodes c ->
  update_at d f (Tree a files folders) =
    Tree a files (replace_child (update_at d f c) folders).
Proof.
  intros Hf Had Hnd Hroots Hc Hd. simpl. rewrite decide_False by done. f_equal.
  unfold replace_child. apply map_ext_in. intros x Hx%list_elem_of_In.
  rewrite (root_update_at d f c Hf).
  destruct (decide (root x = root c)) as [Heq|Hne].
  - by rewrite (root_inj_in folders x c Hroots Hx Hc Heq).
  - apply update_at_notin. intros Hin.
    apply (NoDup_flat_map_disjoint nodes folders x c d); auto. by intros ->.
Qed.

(** What is done to the tree of the folder [d] is done to the tree that
    holds [d]. *)
Lemma deep_op {R} (op : M R) (f : tree -> tree) (d : positive)
    (P_new : positive -> Prop) (Q : R -> Prop) (h : gmap positive Node)
    (tr : list Event) (t : tree) :
  (forall s, root (f s) = root s) ->
  forall par l,
    wf_tree h par t -> NoDup (nodes t) -> managed h (root t) l ->
    Forall (fun x => x ∉ nodes t) l -> d ∈ folders_of t ->
    (forall x, P_new x -> x ∉ nodes t) ->
    (forall S par_d l_d,
       root S = d -> wf_tree h par_d S -> NoDup (nodes S) ->
       managed h d l_d -> Forall (fun x => x ∉ nodes S) l_d ->
       (length l_d + height S <= length l + height t)%nat ->
       (forall x, x ∈ nodes S -> x ∈ nodes t) ->
       exists r s',
         op (mkState h tr) = Val (r, s') /\
         attached h (heap s') par_d S (f S) /\
         (forall x, x ∈ nodes (f S) -> x ∈ nodes S \/ P_new x) /\ Q r) ->
    exists r s',
      op (mkState h tr) = Val (r, s') /\
      attached h (heap s') par t (update_at d f t) /\
      (forall x, x ∈ nodes (update_at d f t) -> x ∈ nodes t \/ P_new x) /\
      Q r.
Proof.
  intros Hf. induction t as [a files folders IH] using tree_ind.
  intros par l Hwf Hnd Hm Hl Hd Hnew Hlocal.
  destruct (decide (a = d)) as [Had|Had].
  { simpl update_at. rewrite decide_True by done.
    apply (Hlocal (Tree a files folders) par l); auto.
    by subst d. }
  pose proof Hwf as Hwf'.
  inversion Hwf' as [? ? n ? ? Ha Hty Hpar Hses Hfiles Hfolders Hproj Hprojty Hsf Hsd Hleaf Hkids];
    subst.
  pose proof Hnd as Hnd_all.
  simpl in Hnd. apply NoDup_cons in Hnd as [Ha_notin Hnd].
  apply NoDup_app in Hnd as (Hnd_files & Hdisj & Hnd_kids).
  rewrite Forall_forall in Hkids. rewrite Forall_forall in IH.
  rewrite Forall_forall in Hl.
  simpl in Hd. apply elem_of_cons in Hd as [?|Hd]; [done|].
  apply elem_of_flat_map in Hd as (c & Hc & Hd).
  assert (Hsub_c : forall x, x ∈ nodes c ->
            x ∈ nodes (Tree a (m_fileNodes n) folders)).
  { intros x Hx. simpl. right. apply elem_of_app. right.
    by apply (nodes_child c). }
  pose proof (height_child a (m_fileNodes n) folders c Hc) as Hheight_c.
  destruct (IH c Hc (Some a) (a :: l) (Hkids c Hc)
              (NoDup_flat_map_elem nodes folders c Hnd_kids Hc)
              (wf_tree_managed_child h a l c Hm (Hkids c Hc))
              ltac:(apply Forall_cons; split;
                    [intros Hin; apply Ha_notin, elem_of_app; right;
                     by apply (nodes_child c)
                    |apply Forall_forall; intros x Hx Hin;
                     by apply (Hl x Hx), Hsub_c])
              Hd
              ltac:(intros x Hx Hin; by apply (Hnew x Hx), Hsub_c))
    as (r & s' & Hrun & Hatt & Hnew_c & HQ).
  { intros S par_d l_d HS Hwf_S Hnd_S Hm_S Hl_S Hbound Hsub.
    apply (Hlocal S par_d l_d); auto.
    simpl length in Hbound. lia. }
  exists r, s'. split; [done|].
  rewrite (update_at_child d f a _ folders c Hf Had Hnd_kids
             ltac:(by apply StronglySorted_lt_NoDup) Hc
             (folders_of_nodes c d Hd)).
  split; [|split; [|done]].
  - apply (attached_replace_child h (heap s') _ a _ folders c); auto.
    + apply root_update_at, Hf.
    + intros x Hx. destruct (Hnew_c x Hx) as [?|Hp]; [by left|right].
      by apply Hnew.
  - intros x Hx. simpl in Hx. apply elem_of_cons in Hx as [->|Hx]; [left; by left|].
    apply elem_of_app in Hx as [Hx|Hx].
    { left. simpl. right. apply elem_of_app. by left. }
    apply elem_of_flat_map in Hx as (y & Hy & Hx).
    apply elem_of_replace_child in Hy as [[-> _]|[Hy _]].
    + destruct (Hnew_c x Hx) as [?|?]; [left|by right]. by apply Hsub_c.
    + left. simpl. right. apply elem_of_app. right. by apply (nodes_child y).
Qed.

(** *** addFileNodes *)

Lemma lookup_adopt (d : positive) (fns : list positive)
    (h : gmap positive Node) (x : positive) :
  adopt d fns h !! x =
    if decide (x ∈ fns) then set_parentFolderNode (Some d) <$> h !! x
    else h !! x.
Proof.
  revert h. induction fns as [|f fns IH]; intros h.
  { by rewrite decide_False by apply not_elem_of_nil. }
  change (adopt d (f :: fns) h)
    with (adopt d fns (alter (set_parentFolderNode (Some d)) f h)).
  rewrite IH, !lookup_alter.
  destruct (decide (x ∈ fns)) as [Hin|Hnin];
    destruct (decide (x ∈ f :: fns)) as [Hin'|Hnin'];
    destruct (decide (f = x)) as [->|Hne]; try done;
    first [ by destruct (h !! x)
          | destruct Hnin'; by right
          | destruct Hnin'; by left
          | apply elem_of_cons in Hin' as [?|?]; congruence ].
Qed.

Lemma foldl_insert_node_Permutation (fns l : list positive) :
  foldl insert_node l fns ≡ₚ l ++ fns.
Proof.
  revert l. induction fns as [|f fns IH]; intros l; simpl.
  { by rewrite app_nil_r. }
  rewrite IH, insert_node_Permutation. by rewrite <- Permutation_middle.
Qed.

Lemma foldl_insert_node_sorted (fns l : list positive) :
  StronglySorted Pos.le l -> StronglySorted Pos.le (foldl insert_node l fns).
Proof.
  revert l. induction fns as [|f fns IH]; intros l Hl; [done|].
  simpl. by apply IH, insert_node_sorted.
Qed.

Lemma set_fileNodes_twice (l k : list positive) (n : Node) :
  set_fileNodes l (set_fileNodes k n) = set_fileNodes l n.
Proof. done. Qed.

(** The loop of [addFileNodes]. *)
Lemma addFileNodes_loop (d : positive) (fns : list positive) :
  forall h n tr,
    h !! d = Some n -> d ∉ fns -> NoDup fns ->
    Forall (fun f => is_Some (h !! f)) fns ->
    forM_ fns (fun file =>
      let* f := deref file in
      QTC_ASSERT (negb (is_some (m_parentFolderNode f))) qDebug ;;
      modify file (set_parentFolderNode (Some d)) ;;
      let* n := deref d in
      modify d (set_fileNodes (insert_node (m_fileNodes n) file)))
      (mkState h tr)
    = Val (tt,
           mkState (<[d := set_fileNodes (foldl insert_node (m_fileNodes n) fns) n]>
                      (adopt d fns h)) tr).
Proof.
  induction fns as [|f fns IH]; intros h n tr Hd Hnot Hnd Halive.
  { simpl. by rewrite set_fileNodes_id, insert_id. }
  apply NoDup_cons in Hnd as [Hf Hnd].
  apply Forall_cons in Halive as [[nf Hnf] Halive].
  apply not_elem_of_cons in Hnot as [Hdf Hnot].
  rewrite forM__cons.
  set (h1 := <[f := set_parentFolderNode (Some d) nf]> h).
  set (n1 := set_fileNodes (insert_node (m_fileNodes n) f) n).
  set (h2 := <[d := n1]> h1).
  assert (Hstep :
    (let* f0 := deref f in
     QTC_ASSERT (negb (is_some (m_parentFolderNode f0))) qDebug ;;
     modify f (set_parentFolderNode (Some d)) ;;
     let* n0 := deref d in
     modify d (set_fileNodes (insert_node (m_fileNodes n0) f)))
      (mkState h tr) = Val (tt, mkState h2 tr)).
  { rewrite (bind_Val _ _ _ _ _ (deref_Val f (mkState h tr) nf Hnf)).
    rewrite (bind_Val _ _ _ _ _ (QTC_ASSERT_qDebug _ _)).
    rewrite (bind_Val _ _ _ _ _ (modify_Val f _ (mkState h tr) nf Hnf)).
    simpl heap. simpl trace. fold h1.
    assert (Hd1 : h1 !! d = Some n)
      by (unfold h1; by rewrite lookup_insert_ne by done).
    rewrite (bind_Val _ _ _ _ _ (deref_Val d (mkState h1 tr) n Hd1)).
    by rewrite (modify_Val d _ (mkState h1 tr) n Hd1). }
  rewrite (bind_Val _ _ _ _ _ Hstep).
  rewrite (IH h2 n1 tr); [| |done|done|].
  - f_equal. f_equal. f_equal. simpl foldl. unfold n1.
    rewrite set_fileNodes_twice. simpl m_fileNodes.
    apply map_eq. intros x.
    destruct (decide (x = d)) as [->|Hxd].
    { by rewrite !lookup_insert_eq. }
    rewrite !lookup_insert_ne by done.
    rewrite !lookup_adopt. unfold h2, h1.
    destruct (decide (x = f)) as [->|Hxf].
    + rewrite decide_False by done. rewrite decide_True by (by left).
      rewrite lookup_insert_ne by done. rewrite lookup_insert_eq.
      by rewrite Hnf.
    + rewrite lookup_insert_ne by done. rewrite lookup_insert_ne by done.
      destruct (decide (x ∈ fns)).
      * by rewrite decide_True by (by right).
      * rewrite decide_False; [done|].
        intros [?|?]%elem_of_cons; congruence.
  - apply lookup_insert_eq.
  - apply Forall_forall. intros g Hg. rewrite Forall_forall in Halive.
    unfold h2, h1. destruct (decide (g = d)) as [->|Hgd].
    { rewrite lookup_insert_eq. eauto. }
    rewrite lookup_insert_ne by done.
    destruct (decide (g = f)) as [->|Hgf].
    { rewrite lookup_insert_eq. eauto. }
    rewrite lookup_insert_ne by done. auto.
Qed.

(** [addFileNodes] on the root of a tree, with file nodes that hang in no
    tree. *)
Lemma addFileNodes_local (fuel : nat) (d : positive) (l_d : list positive)
    (h : gmap positive Node) (par_d : option positive)
    (files : list positive) (folders : list tree) (tr : list Event)
    (fns : list positive) :
  wf_tree h par_d (Tree d files folders) ->
  NoDup (nodes (Tree d files folders)) ->
  managed h d l_d -> (length l_d < fuel)%nat ->
  NoDup fns -> Forall (loose_file h) fns ->
  exists s',
    addFileNodes fuel d fns (mkState h tr) = Val (tt, s') /\
    attached h (heap s') par_d (Tree d files folders)
      (add_files fns (Tree d files folders)) /\
    (forall x, x ∈ nodes (add_files fns (Tree d files folders)) ->
       x ∈ nodes (Tree d files folders) \/ x ∈ fns).
Proof.
  intros Hwf Hnd Hm Hlen Hnd_fns Hloose.
  pose proof Hwf as Hwf'.
  inversion Hwf' as [? ? n ? ? Ha Hty Hpar Hses Hfiles Hfolders Hproj Hprojty Hsf Hsd Hleaf Hkids];
    subst.
  rewrite Forall_forall in Hloose. rewrite Forall_forall in Hleaf.
  rewrite Forall_forall in Hkids.
  assert (Hout : forall f, f ∈ fns -> f ∉ nodes (Tree d (m_fileNodes n) folders)).
  { intros f Hf Hin. by apply (wf_tree_not_loose _ h _ f Hwf Hin), Hloose. }
  simpl in Hnd. apply NoDup_cons in Hnd as [Hd_notin Hnd].
  apply NoDup_app in Hnd as (Hnd_files & Hdisj & Hnd_kids).
  set (F := foldl insert_node (m_fileNodes n) fns).
  set (h' := <[d := set_fileNodes F n]> (adopt d fns h)).
  assert (HF : F ≡ₚ m_fileNodes n ++ fns) by apply foldl_insert_node_Permutation.
  assert (Hd_fns : d ∉ fns).
  { intros Hin. apply (Hout d Hin). by left. }
  assert (Hrun : addFileNodes fuel d fns (mkState h tr)
            = Val (tt, mkState h' (tr ++ if is_nil fns then []
                                       else [FilesAboutToBeAdded d fns;
                                             FilesAdded d]))).
  { unfold addFileNodes. rewrite (Q_ASSERT_managed _ _ l_d) by done.
    destruct (is_nil fns) eqn:Hnil.
    { assert (Hfns : fns = []) by (by destruct fns).
      unfold h', F. rewrite Hfns. simpl.
      by rewrite set_fileNodes_id, insert_id, app_nil_r. }
    set (tr1 := tr ++ [FilesAboutToBeAdded d fns]).
    assert (Hemit : emit (FilesAboutToBeAdded d fns) (mkState h tr)
              = Val (tt, mkState h tr1)) by done.
    rewrite (bind_Val _ _ _ _ _ Hemit).
    rewrite (bind_Val _ _ _ _ _
               (addFileNodes_loop d fns h n tr1 Ha Hd_fns Hnd_fns
                  ltac:(apply Forall_forall; intros f Hf;
                        destruct (Hloose f Hf) as (nf & Hnf & _); eauto))).
    unfold emit. simpl. unfold tr1. by rewrite <- app_assoc. }
  eexists. split; [exact Hrun|]. simpl heap.
  assert (Hh' : forall x, x <> d -> x ∉ fns -> h' !! x = h !! x).
  { intros x Hxd Hx. unfold h'. rewrite lookup_insert_ne by done.
    rewrite lookup_adopt. by rewrite decide_False. }
  assert (Hh'_kids : forall x, x ∈ flat_map nodes folders -> h' !! x = h !! x).
  { intros x Hx. apply Hh'.
    - intros ->. apply Hd_notin, elem_of_app. by right.
    - intros Hin. apply (Hout x Hin). simpl. right. apply elem_of_app. by right. }
  assert (Hh'_files : forall x, x ∈ m_fileNodes n -> h' !! x = h !! x).
  { intros x Hx. apply Hh'.
    - intros ->. apply Hd_notin, elem_of_app. by left.
    - intros Hin. apply (Hout x Hin). simpl. right. apply elem_of_app. by left. }
  assert (Hnew : forall x, x ∈ nodes (add_files fns (Tree d (m_fileNodes n) folders)) ->
            x ∈ nodes (Tree d (m_fileNodes n) folders) \/ x ∈ fns).
  { intros x Hx. simpl in Hx. fold F in Hx. simpl.
    apply elem_of_cons in Hx as [->|Hx]; [left; by left|].
    apply elem_of_app in Hx as [Hx|Hx].
    - rewrite HF in Hx. apply elem_of_app in Hx as [Hx|Hx]; [left|by right].
      right. apply elem_of_app. by left.
    - left. right. apply elem_of_app. by right. }
  split; [|done].
  split; [|split; [|split; [|split; [|split]]]].
  - unfold add_files. simpl. fold F.
    apply wf_tree_intro with (set_fileNodes F n); try done.
    + apply lookup_insert_eq.
    + simpl. rewrite Hproj. apply filter_ext_elem_of. intros r Hr.
      apply list_elem_of_fmap in Hr as (c & -> & Hc).
      rewrite (isProjectAt_agree h h'); [done|].
      apply Hh'_kids, (nodes_child c); auto using root_in_nodes.
    + apply StronglySorted_le_lt.
      * by apply foldl_insert_node_sorted, StronglySorted_lt_le.
      * rewrite HF. apply NoDup_app. split; [done|]. split; [|done].
        intros x Hx Hin. apply (Hout x Hin). simpl. right.
        apply elem_of_app. by left.
    + apply Forall_forall. intros f Hf. rewrite HF in Hf.
      apply elem_of_app in Hf as [Hf|Hf].
      * apply (file_leaf_frame h); [by apply Hh'_files|by apply Hleaf].
      * destruct (Hloose f Hf) as (nf & Hnf & Hfile & _ & Hf1 & Hf2 & Hf3).
        exists (set_parentFolderNode (Some d) nf). split; [|done].
        unfold h'. rewrite lookup_insert_ne by (by intros ->).
        rewrite lookup_adopt, decide_True by done. by rewrite Hnf.
    + apply Forall_forall. intros c Hc.
      apply (wf_tree_frame h); [by apply Hkids|].
      intros x Hx. by apply Hh'_kids, (nodes_child c).
  - intros x Hx. simpl in Hx. simpl. fold F.
    apply elem_of_cons in Hx as [->|Hx]; [by left|right].
    apply elem_of_app in Hx as [Hx|Hx]; apply elem_of_app; [left|by right].
    rewrite HF. apply elem_of_app. by left.
  - intros x Hx. simpl in Hx. apply elem_of_cons in Hx as [->|Hx].
    { unfold h'. by apply (skeleton_insert h d n). }
    apply skeleton_agree.
    apply elem_of_app in Hx as [Hx|Hx]; [by apply Hh'_files|by apply Hh'_kids].
  - intros x Hx. unfold add_files in Hx. simpl in Hx. fold F in Hx.
    apply not_elem_of_cons in Hx as [Hxd Hx].
    apply not_elem_of_app in Hx as [HxF HxD].
    apply Hh'; [done|]. intros Hin. apply HxF. rewrite HF.
    apply elem_of_app. by right.
  - intros x Hx Hnot. destruct (Hnew x Hx) as [?|Hin]; [done|].
    destruct (Hloose x Hin) as (nf & Hnf & Hfile & _).
    unfold isProjectAt, h'. rewrite lookup_insert_ne by (by intros ->).
    rewrite lookup_adopt, decide_True by done. rewrite Hnf. simpl.
    apply bool_decide_eq_false.
    change (m_nodeType nf <> ProjectNodeType). by rewrite Hfile.
  - intros x _. unfold path_of, h'.
    destruct (decide (x = d)) as [->|Hxd].
    { by rewrite lookup_insert_eq, Ha. }
    rewrite lookup_insert_ne by done. rewrite lookup_adopt.
    destruct (decide (x ∈ fns)); [|done]. by destruct (h !! x).
Qed.

Lemma root_add_files (fns : list positive) (s : tree) :
  root (add_files fns s) = root s.
Proof. done. Qed.

Lemma root_add_folder (tmp : positive) (s : tree) :
  root (add_folder tmp s) = root s.
Proof. done. Qed.

(** [addFileNodes] on a folder of the tree. *)
Lemma addFileNodes_deep (fuel : nat) (d : positive) (fns : list positive)
    (t : tree) (h : gmap positive Node) (par : option positive)
    (l : list positive) (tr : list Event) :
  wf_tree h par t -> NoDup (nodes t) -> managed h (root t) l ->
  Forall (fun x => x ∉ nodes t) l -> d ∈ folders_of t ->
  (length l + height t <= fuel)%nat ->
  NoDup fns -> Forall (loose_file h) fns ->
  exists s',
    addFileNodes fuel d fns (mkState h tr) = Val (tt, s') /\
    attached h (heap s') par t (update_at d (add_files fns) t) /\
    (forall x, x ∈ nodes (update_at d (add_files fns) t) ->
       x ∈ nodes t \/ x ∈ fns).
Proof.
  intros Hwf Hnd Hm Hl Hd Hfuel Hnd_fns Hloose.
  destruct (deep_op (addFileNodes fuel d fns) (add_files fns) d
              (fun x => x ∈ fns) (fun _ => True) h tr t
              (root_add_files fns) par l
              Hwf Hnd Hm Hl Hd) as ([] & s' & Hrun & Hatt & Hnew & _).
  - intros x Hx Hin. rewrite Forall_forall in Hloose.
    by apply (wf_tree_not_loose t h par x Hwf Hin), Hloose.
  - intros S par_d l_d HS Hwf_S Hnd_S Hm_S Hl_S Hbound Hsub.
    destruct S as [d' files folders]. simpl in HS. subst d'.
    pose proof (height_pos (Tree d files folders)).
    destruct (addFileNodes_local fuel d l_d h par_d files folders tr fns
                Hwf_S Hnd_S Hm_S ltac:(lia) Hnd_fns Hloose)
      as (s' & Hrun & Hatt & Hnew).
    by exists tt, s'.
  - by exists s'.
Qed.

(** *** Folders of the tree, in the store *)

Lemma NoDup_roots (folders : list tree) :
  NoDup (flat_map nodes folders) -> NoDup (map root folders).
Proof.
  induction folders as [|x folders IH]; intros Hnd; [constructor|].
  simpl in *. apply NoDup_app in Hnd as (_ & Hdisj & Hnd).
  constructor; [|by apply IH].
  intros (y & Hxy & Hy)%list_elem_of_fmap.
  apply (Hdisj (root x)); [apply root_in_nodes|].
  rewrite Hxy. apply (nodes_child y); auto using root_in_nodes.
Qed.

Lemma flat_map_nil {A B} (g : A -> list B) (l : list A) :
  (forall x, x ∈ l -> g x = []) -> flat_map g l = [].
Proof.
  induction l as [|x l IH]; intros Hg; [done|]. simpl.
  rewrite (Hg x) by (by left). apply IH. intros y Hy. apply Hg. by right.
Qed.

Lemma files_at_notin (d : positive) (t : tree) :
  d ∉ folders_of t -> files_at d t = [].
Proof.
  induction t as [a files folders IH] using tree_ind. intros Hd. simpl.
  rewrite decide_False by (intros ->; apply Hd; by left).
  apply flat_map_nil. intros c Hc. rewrite Forall_forall in IH.
  apply IH; [done|]. intros Hin. apply Hd. simpl. right.
  apply elem_of_flat_map. eauto.
Qed.

Lemma flat_map_only {B} (g : tree -> list B) (l : list tree) (c : tree) :
  NoDup (map root l) -> c ∈ l ->
  (forall x, x ∈ l -> root x <> root c -> g x = []) ->
  flat_map g l = g c.
Proof.
  induction l as [|x l IH]; intros Hnd Hc Hg.
  { by apply elem_of_nil in Hc. }
  simpl in Hnd. apply NoDup_cons in Hnd as [Hx Hnd]. simpl.
  destruct (decide (root x = root c)) as [Heq|Hne].
  - assert (x = c) as ->.
    { apply elem_of_cons in Hc as [->|Hc]; [done|].
      destruct Hx. rewrite Heq. apply list_elem_of_fmap. eauto. }
    rewrite (flat_map_nil g l); [by rewrite app_nil_r|].
    intros y Hy. apply Hg; [by right|]. intros Heq'. apply Hx.
    rewrite <- Heq'. apply list_elem_of_fmap. eauto.
  - rewrite (Hg x) by (by left || done). simpl. apply IH; [done| |].
    + apply elem_of_cons in Hc as [->|Hc]; [done|done].
    + intros y Hy. apply Hg. by right.
Qed.

Lemma files_at_child (d : positive) (a : positive) (files : list positive)
    (folders : list tree) (c : tree) :
  NoDup (nodes (Tree a files folders)) -> c ∈ folders -> d ∈ folders_of c ->
  files_at d (Tree a files folders) = files_at d c.
Proof.
  intros Hnd Hc Hd. simpl in Hnd. apply NoDup_cons in Hnd as [Ha_notin Hnd].
  apply NoDup_app in Hnd as (_ & _ & Hnd_kids). simpl.
  rewrite decide_False.
  2:{ intros ->. apply Ha_notin, elem_of_app. right.
      apply (nodes_child c); [done|]. by apply folders_of_nodes. }
  apply flat_map_only; [by apply NoDup_roots|done|].
  intros x Hx Hne. apply files_at_notin. intros Hin.
    apply (NoDup_flat_map_disjoint nodes folders x c d); auto.
    + by intros ->.
    + by apply folders_of_nodes.
    + by apply folders_of_nodes.
Qed.

Lemma folders_of_files_at_holds (t : tree) :
  forall h par d,
    holds h par t -> NoDup (nodes t) -> d ∈ folders_of t ->
    exists nd, h !! d = Some nd /\ m_nodeType nd <> FileNodeType /\
      m_fileNodes nd = files_at d t /\
      (forall c, c ∈ m_folderNodes nd ->
         c ∈ folders_of t /\ exists nc, h !! c = Some nc).
Proof.
  induction t as [a files folders IH] using tree_ind.
  intros h par d Hwf Hnd Hd.
  inversion Hwf as [? ? n ? ? Ha Hty Hpar Hses Hfiles Hfolders Hsf Hsd Hleaf Hkids];
    subst.
  rewrite Forall_forall in Hkids. rewrite Forall_forall in IH.
  simpl in Hnd. apply NoDup_cons in Hnd as [Ha_notin Hnd].
  apply NoDup_app in Hnd as (Hnd_files & Hdisj & Hnd_kids).
  simpl in Hd. apply elem_of_cons in Hd as [->|Hd].
  - exists n. split; [done|]. split; [done|]. split.
    + simpl. by rewrite decide_True.
    + intros c Hc. rewrite Hfolders in Hc.
      apply list_elem_of_fmap in Hc as (y & -> & Hy). split.
      * simpl. right. apply elem_of_flat_map. exists y. split; [done|].
        destruct y. by left.
      * destruct (holds_child_alive h (Some a) y (Hkids y Hy)). eauto.
  - apply elem_of_flat_map in Hd as (c & Hc & Hd).
    destruct (IH c Hc h (Some a) d (Hkids c Hc)
                (NoDup_flat_map_elem nodes folders c Hnd_kids Hc) Hd)
      as (nd & Hnd_d & Hty_d & Hfiles_d & Hkids_d).
    exists nd. split; [done|]. split; [done|]. split.
    + rewrite Hfiles_d. symmetry. apply (files_at_child d a); auto.
      simpl. apply NoDup_cons. split; [done|]. apply NoDup_app. auto.
    + intros y Hy. destruct (Hkids_d y Hy) as [Hin Halive]. split; [|done].
      simpl. right. apply elem_of_flat_map. eauto.
Qed.

Lemma folders_of_files_at (t : tree) :
  forall h par d,
    wf_tree h par t -> NoDup (nodes t) -> d ∈ folders_of t ->
    exists nd, h !! d = Some nd /\ m_nodeType nd <> FileNodeType /\
      m_fileNodes nd = files_at d t /\
      (forall c, c ∈ m_folderNodes nd ->
         c ∈ folders_of t /\ exists nc, h !! c = Some nc).
Proof.
  intros h par d Hwf. apply (folders_of_files_at_holds t h par).
  by apply wf_tree_holds.
Qed.

(** *** Finding or creating one folder *)

Lemma find_by_path_spec (l : list positive) (directory : string) (s : state) :
  Forall (fun c => is_Some (heap s !! c)) l ->
  exists r, find_by_path l directory s = Val (r, s) /\
    (forall c, r = Some c -> c ∈ l).
Proof.
  induction l as [|c l IH]; intros Halive.
  { exists None. split; [done|]. by intros c [=]. }
  apply Forall_cons in Halive as [[nc Hnc] Halive].
  destruct (IH Halive) as (r & Hrun & Hr).
  cbn [find_by_path]. rewrite (bind_Val _ _ _ _ _ (deref_Val c s nc Hnc)).
  destruct (String.eqb (m_filePath nc) directory).
  - exists (Some c). split; [done|]. intros c' [= <-]. by left.
  - exists r. split; [done|]. intros c' Hc'. right. by apply Hr.
Qed.

Lemma folderNode_spec (self : positive) (directory : string) (s : state)
    (n : Node) :
  heap s !! self = Some n ->
  Forall (fun c => is_Some (heap s !! c)) (m_folderNodes n) ->
  exists r, folderNode self directory s = Val (r, s) /\
    (forall c, r = Some c -> c ∈ m_folderNodes n).
Proof.
  intros Hn Halive. unfold folderNode.
  rewrite (bind_Val _ _ _ _ _ (deref_Val self s n Hn)).
  by apply find_by_path_spec.
Qed.

Lemma insert_node_pos (l : list positive) (x : positive) :
  insert_node l x = take (insert_pos l x) l ++ x :: drop (insert_pos l x) l.
Proof.
  unfold insert_node, insert_pos.
  destruct (last l) as [y|]; [destruct (y <? x)%positive|];
    by rewrite ?firstn_all, ?drop_all.
Qed.

Lemma map_root_insert_tree (c : tree) (folders : list tree) :
  map root (insert_tree c folders) = insert_node (map root folders) (root c).
Proof.
  rewrite insert_node_pos. unfold insert_tree.
  rewrite map_app, map_cons.
  change (map root) with (fmap (M := list) root).
  by rewrite fmap_take, fmap_drop.
Qed.

Lemma insert_tree_Permutation (c : tree) (folders : list tree) :
  insert_tree c folders ≡ₚ c :: folders.
Proof.
  unfold insert_tree. rewrite <- Permutation_middle.
  by rewrite take_drop.
Qed.

Lemma filter_insert_node (P : positive -> Prop) `{!forall x, Decision (P x)}
    (l : list positive) (x : positive) :
  ~ P x -> filter P (insert_node l x) = filter P l.
Proof.
  intros Hx. rewrite insert_node_pos, filter_app, filter_cons.
  rewrite decide_False by done.
  by rewrite <- filter_app, take_drop.
Qed.

Lemma setDisplayName_loose (self : positive) (name : string) (s : state)
    (n : Node) :
  heap s !! self = Some n -> m_parentFolderNode n = None ->
  setDisplayName self name s
    = Val (tt, mkState (<[self := if String.eqb (m_displayName n) name then n
                                   else set_displayName name n]> (heap s))
                       (trace s)).
Proof.
  intros Hn Hpar. unfold setDisplayName.
  rewrite (bind_Val _ _ _ _ _ (deref_Val self s n Hn)).
  destruct (String.eqb (m_displayName n) name).
  { rewrite insert_id by done. by destruct s. }
  assert (H1 : emitNodeSortKeyAboutToChange self s = Val (tt, s)).
  { unfold emitNodeSortKeyAboutToChange.
    rewrite (bind_Val _ _ _ _ _ (deref_Val self s n Hn)). by rewrite Hpar. }
  rewrite (bind_Val _ _ _ _ _ H1).
  rewrite (bind_Val _ _ _ _ _ (modify_Val self _ s n Hn)).
  set (s1 := mkState (<[self := set_displayName name n]> (heap s)) (trace s)).
  assert (Hn1 : heap s1 !! self = Some (set_displayName name n))
    by apply lookup_insert_eq.
  assert (H2 : emitNodeSortKeyChanged self s1 = Val (tt, s1)).
  { unfold emitNodeSortKeyChanged.
    rewrite (bind_Val _ _ _ _ _ (deref_Val self s1 _ Hn1)). simpl.
    by rewrite Hpar. }
  rewrite (bind_Val _ _ _ _ _ H2).
  unfold emitNodeUpdated.
  rewrite (bind_Val _ _ _ _ _ (deref_Val self s1 _ Hn1)). simpl.
  by rewrite Hpar.
Qed.

Lemma fresh_folder_shape (E : Platform) (path : FileName) (part : string) :
  m_nodeType (fresh_folder E path part) = FolderNodeType /\
  m_parentFolderNode (fresh_folder E path part) = None /\
  m_fileNodes (fresh_folder E path part) = [] /\
  m_folderNodes (fresh_folder E path part) = [] /\
  m_projectNodes (fresh_folder E path part) = [].
Proof. unfold fresh_folder. simpl. by destruct (String.eqb _ part). Qed.

(** The branch of [recursiveFindOrCreateFolderNode] that creates a folder:
    the run. *)
Lemma findOrCreate_step_new (E : Platform) (fuel : nat) (p : positive)
    (path : FileName) (part : string) (l_p : list positive)
    (h : gmap positive Node) (n : Node) (tr : list Event) :
  h !! allocate E h = None ->
  h !! p = Some n -> managed h p l_p -> (length l_p < fuel)%nat ->
  folderNode p (appendPath E path part) (mkState h tr)
    = Val (None, mkState h tr) ->
  findOrCreate_step E fuel (p, path) part (mkState h tr)
    = Val ((allocate E h, appendPath E path part),
           mkState
             (<[p := set_folderNodes
                       (insert_node (m_folderNodes n) (allocate E h)) n]>
                (<[allocate E h :=
                     set_parentFolderNode (Some p)
                       (fresh_folder E (appendPath E path part) part)]> h))
             (tr ++ [FoldersAboutToBeAdded p [allocate E h]; FoldersAdded p])).
Proof.
  intros Hfresh Hp Hm Hlen Hfind.
  set (tmp := allocate E h) in *. set (path' := appendPath E path part) in *.
  assert (Htmp_p : tmp <> p) by (intros ->; congruence).
  unfold findOrCreate_step. fold path'.
  rewrite (bind_Val _ _ _ _ _ Hfind).
  set (n0 := mkNode FolderNodeType path' (-1) (DefaultFolderPriority E) true
               None (toUserOutput E path') [] [] []).
  assert (Hnew : new_FolderNode E path' (mkState h tr)
            = Val (tmp, mkState (<[tmp := n0]> h) tr)) by done.
  rewrite (bind_Val _ _ _ _ _ Hnew).
  set (nt := fresh_folder E path' part).
  destruct (fresh_folder_shape E path' part)
    as (Hnt_ty & Hnt_par & Hnt_f & Hnt_d & Hnt_p).
  fold nt in Hnt_ty, Hnt_par, Hnt_f, Hnt_d, Hnt_p.
  assert (Hname : setDisplayName tmp part (mkState (<[tmp := n0]> h) tr)
            = Val (tt, mkState (<[tmp := nt]> h) tr)).
  { rewrite (setDisplayName_loose tmp part _ n0);
      [|apply lookup_insert_eq|done].
    simpl heap. by rewrite insert_insert_eq. }
  rewrite (bind_Val _ _ _ _ _ Hname).
  set (h2 := <[tmp := nt]> h).
  assert (Hh2 : forall x, x <> tmp -> h2 !! x = h !! x).
  { intros x Hx. unfold h2. by rewrite lookup_insert_ne. }
  assert (Hm2 : managed h2 p l_p).
  { apply (managed_agree h); [done|]. intros x Hx. apply Hh2. intros ->.
    destruct Hm as (Hanc & _).
    destruct (ancestors_all_alive h p l_p Hanc tmp Hx) as [? ?]. congruence. }
  assert (Hadd : addFolderNodes fuel p [tmp] (mkState h2 tr)
    = Val (tt,
           mkState (<[p := set_folderNodes (insert_node (m_folderNodes n) tmp) n]>
                      (<[tmp := set_parentFolderNode (Some p) nt]> h))
                   (tr ++ [FoldersAboutToBeAdded p [tmp]; FoldersAdded p]))).
  { unfold addFolderNodes. rewrite (Q_ASSERT_managed _ _ l_p) by done.
    change (is_nil [tmp]) with false. cbv iota.
    set (tr1 := tr ++ [FoldersAboutToBeAdded p [tmp]]).
    assert (Hemit : emit (FoldersAboutToBeAdded p [tmp]) (mkState h2 tr)
              = Val (tt, mkState h2 tr1)) by done.
    rewrite (bind_Val _ _ _ _ _ Hemit).
    set (h3 := <[tmp := set_parentFolderNode (Some p) nt]> h).
    set (h4 := <[p := set_folderNodes (insert_node (m_folderNodes n) tmp) n]> h3).
    assert (Hbody :
      forM_ [tmp] (fun folder =>
        let* f := deref folder in
        QTC_ASSERT (negb (is_some (m_parentFolderNode f))) qDebug ;;
        modify folder (set_parentFolderNode (Some p)) ;;
        let* n := deref p in
        modify p (set_folderNodes (insert_node (m_folderNodes n) folder)) ;;
        let* f' := deref folder in
        QTC_ASSERT (negb (asProjectNode f')) qDebug) (mkState h2 tr1)
      = Val (tt, mkState h4 tr1)).
    { rewrite forM__cons.
      assert (Hstep :
        (let* f := deref tmp in
         QTC_ASSERT (negb (is_some (m_parentFolderNode f))) qDebug ;;
         modify tmp (set_parentFolderNode (Some p)) ;;
         let* n := deref p in
         modify p (set_folderNodes (insert_node (m_folderNodes n) tmp)) ;;
         let* f' := deref tmp in
         QTC_ASSERT (negb (asProjectNode f')) qDebug) (mkState h2 tr1)
        = Val (tt, mkState h4 tr1)).
      { assert (Htmp2 : h2 !! tmp = Some nt) by apply lookup_insert_eq.
        rewrite (bind_Val _ _ _ _ _ (deref_Val tmp (mkState h2 tr1) nt Htmp2)).
        rewrite (bind_Val _ _ _ _ _ (QTC_ASSERT_qDebug _ _)).
        rewrite (bind_Val _ _ _ _ _ (modify_Val tmp _ (mkState h2 tr1) nt Htmp2)).
        simpl heap. simpl trace. unfold h2. rewrite insert_insert_eq. fold h3.
        assert (Hp3 : h3 !! p = Some n)
          by (unfold h3; by rewrite lookup_insert_ne).
        rewrite (bind_Val _ _ _ _ _ (deref_Val p (mkState h3 tr1) n Hp3)).
        rewrite (bind_Val _ _ _ _ _ (modify_Val p _ (mkState h3 tr1) n Hp3)).
        simpl heap. simpl trace. fold h4.
        assert (Htmp4 : h4 !! tmp = Some (set_parentFolderNode (Some p) nt)).
        { unfold h4, h3. rewrite lookup_insert_ne by done.
          apply lookup_insert_eq. }
        rewrite (bind_Val _ _ _ _ _ (deref_Val tmp (mkState h4 tr1) _ Htmp4)).
        apply QTC_ASSERT_qDebug. }
      by rewrite (bind_Val _ _ _ _ _ Hstep). }
    rewrite (bind_Val _ _ _ _ _ Hbody).
    unfold emit. simpl. unfold tr1. by rewrite <- app_assoc. }
  by rewrite (bind_Val _ _ _ _ _ Hadd).
Qed.

Lemma wf_tree_alive (t : tree) :
  forall h par x, wf_tree h par t -> x ∈ nodes t -> is_Some (h !! x).
Proof.
  induction t as [a files folders IH] using tree_ind.
  intros h par x Hwf Hx.
  inversion Hwf as [? ? n ? ? Ha Hty Hpar Hses Hfiles Hfolders Hproj Hprojty Hsf Hsd Hleaf Hkids];
    subst.
  simpl in Hx. apply elem_of_cons in Hx as [->|Hx]; [eauto|].
  apply elem_of_app in Hx as [Hx|Hx].
  - rewrite Forall_forall in Hleaf.
    destruct (Hleaf x Hx) as (nf & Hnf & _). eauto.
  - apply elem_of_flat_map in Hx as (c & Hc & Hx).
    rewrite Forall_forall in IH. rewrite Forall_forall in Hkids.
    by apply (IH c Hc h (Some a) x (Hkids c Hc)).
Qed.

(** The branch that creates a folder, on the folder [p] of the tree. *)
Lemma addFolder_local (E : Platform) (fuel : nat) (p : positive)
    (path : FileName) (part : string) (l_p : list positive)
    (h : gmap positive Node) (par_p : option positive)
    (files : list positive) (folders : list tree) (tr : list Event) :
  h !! allocate E h = None ->
  wf_tree h par_p (Tree p files folders) ->
  NoDup (nodes (Tree p files folders)) ->
  managed h p l_p -> (length l_p < fuel)%nat ->
  folderNode p (appendPath E path part) (mkState h tr)
    = Val (None, mkState h tr) ->
  exists s',
    findOrCreate_step E fuel (p, path) part (mkState h tr)
      = Val ((allocate E h, appendPath E path part), s') /\
    attached h (heap s') par_p (Tree p files folders)
      (add_folder (allocate E h) (Tree p files folders)) /\
    (forall x, x ∈ nodes (add_folder (allocate E h) (Tree p files folders)) ->
       x ∈ nodes (Tree p files folders) \/ x = allocate E h).
Proof.
  intros Hfresh Hwf Hnd Hm Hlen Hfind.
  pose proof Hwf as Hwf'.
  inversion Hwf' as [? ? n ? ? Ha Hty Hpar Hses Hfiles Hfolders Hproj Hprojty Hsf Hsd Hleaf Hkids];
    subst.
  rewrite (findOrCreate_step_new E fuel p path part l_p h n tr
             Hfresh Ha Hm Hlen Hfind).
  set (tmp := allocate E h) in *. set (path' := appendPath E path part) in *.
  set (nt := fresh_folder E path' part).
  destruct (fresh_folder_shape E path' part)
    as (Hnt_ty & Hnt_par & Hnt_f & Hnt_d & Hnt_p).
  fold nt in Hnt_ty, Hnt_par, Hnt_f, Hnt_d, Hnt_p.
  set (F := insert_node (m_folderNodes n) tmp).
  set (h' := <[p := set_folderNodes F n]>
               (<[tmp := set_parentFolderNode (Some p) nt]> h)).
  assert (Htmp_out : tmp ∉ nodes (Tree p (m_fileNodes n) folders)).
  { intros Hin. destruct (wf_tree_alive _ _ _ _ Hwf Hin) as [? ?]. congruence. }
  assert (Htmp_p : tmp <> p) by (intros ->; congruence).
  assert (Hh' : forall x, x <> p -> x <> tmp -> h' !! x = h !! x).
  { intros x Hxp Hxt. unfold h'. by rewrite !lookup_insert_ne. }
  assert (Hh'_in : forall x, x ∈ m_fileNodes n ++ flat_map nodes folders ->
            h' !! x = h !! x).
  { simpl in Hnd. apply NoDup_cons in Hnd as [Hp_notin _].
    intros x Hx. apply Hh'.
    - by intros ->.
    - intros ->. apply Htmp_out. simpl. by right. }
  assert (Htmp_roots : tmp ∉ map root folders).
  { intros Hin. apply list_elem_of_fmap in Hin as (c & Hc1 & Hc).
    apply Htmp_out. simpl. right. apply elem_of_app. right.
    apply elem_of_flat_map. exists c. split; [done|]. rewrite Hc1.
    apply root_in_nodes. }
  assert (Htmp' : h' !! tmp = Some (set_parentFolderNode (Some p) nt)).
  { unfold h'. rewrite lookup_insert_ne by done. apply lookup_insert_eq. }
  assert (Hnotproj : isProjectAt h' tmp = false).
  { unfold isProjectAt. rewrite Htmp'. apply bool_decide_eq_false.
    change (m_nodeType nt <> ProjectNodeType). by rewrite Hnt_ty. }
  assert (Hnew : forall x,
            x ∈ nodes (add_folder tmp (Tree p (m_fileNodes n) folders)) ->
            x ∈ nodes (Tree p (m_fileNodes n) folders) \/ x = tmp).
  { intros x Hx. unfold add_folder in Hx. simpl in Hx. simpl.
    apply elem_of_cons in Hx as [->|Hx]; [left; by left|].
    apply elem_of_app in Hx as [Hx|Hx].
    { left. right. apply elem_of_app. by left. }
    apply elem_of_flat_map in Hx as (c & Hc & Hx).
    rewrite insert_tree_Permutation in Hc.
    apply elem_of_cons in Hc as [->|Hc].
    - right. simpl in Hx. by apply list_elem_of_singleton in Hx.
    - left. right. apply elem_of_app. right. apply elem_of_flat_map. eauto. }
  eexists. split; [reflexivity|]. simpl heap. fold F. fold h'.
  split; [|done].
  split; [|split; [|split; [|split; [|split]]]].
  - unfold add_folder. simpl.
    apply wf_tree_intro with (set_folderNodes F n); try done.
    + apply lookup_insert_eq.
    + simpl. unfold F. by rewrite Hfolders, map_root_insert_tree.
    + simpl. rewrite Hproj, map_root_insert_tree. simpl root.
      rewrite filter_insert_node by (by rewrite Hnotproj).
      apply filter_ext_elem_of. intros r Hr.
      apply list_elem_of_fmap in Hr as (c & -> & Hc).
      rewrite (isProjectAt_agree h h'); [done|].
      apply Hh'_in, elem_of_app. right. apply elem_of_flat_map.
      exists c. split; [done|apply root_in_nodes].
    + rewrite map_root_insert_tree. simpl root.
      apply StronglySorted_le_lt.
      * apply (foldl_insert_node_sorted [tmp]).
        by apply StronglySorted_lt_le.
      * rewrite (foldl_insert_node_Permutation [tmp] (map root folders)).
        apply NoDup_app. split; [by apply StronglySorted_lt_NoDup|].
        split; [|apply NoDup_singleton].
        by intros x Hx ->%list_elem_of_singleton.
    + apply Forall_forall. intros f Hf. rewrite Forall_forall in Hleaf.
      apply (file_leaf_frame h); [|by apply Hleaf].
      apply Hh'_in, elem_of_app. by left.
    + apply Forall_forall. intros c Hc. rewrite insert_tree_Permutation in Hc.
      apply elem_of_cons in Hc as [->|Hc].
      * apply wf_tree_intro with (set_parentFolderNode (Some p) nt);
          try done; simpl; try constructor.
        -- by rewrite Hnt_ty.
        -- intros _. by rewrite Hnt_ty.
      * rewrite Forall_forall in Hkids.
        apply (wf_tree_frame h); [by apply Hkids|].
        intros x Hx. apply Hh'_in, elem_of_app. right.
        apply elem_of_flat_map. eauto.
  - intros x Hx. simpl in Hx. unfold add_folder. simpl.
    apply elem_of_cons in Hx as [->|Hx]; [by left|right].
    apply elem_of_app in Hx as [Hx|Hx]; apply elem_of_app; [by left|right].
    apply elem_of_flat_map in Hx as (c & Hc & Hx).
    apply elem_of_flat_map. exists c. split; [|done].
    rewrite insert_tree_Permutation. by right.
  - intros x Hx. simpl in Hx. apply elem_of_cons in Hx as [->|Hx].
    { unfold h'. by apply (skeleton_insert _ p n). }
    apply skeleton_agree. by apply Hh'_in.
  - intros x Hx. apply Hh'.
    + intros ->. apply Hx. unfold add_folder. simpl. by left.
    + intros ->. apply Hx. unfold add_folder. simpl. right.
      apply elem_of_app. right. apply elem_of_flat_map.
      exists (Tree tmp [] []). split; [|by left].
      rewrite insert_tree_Permutation. by left.
  - intros x Hx Hnot. destruct (Hnew x Hx) as [?|Heq]; [done|].
    by rewrite Heq.
  - intros x [nx Hx]. unfold path_of, h'.
    destruct (decide (x = p)) as [->|Hxp].
    { by rewrite lookup_insert_eq, Ha. }
    rewrite lookup_insert_ne by done.
    rewrite lookup_insert_ne by (intros ->; congruence). done.
Qed.
(** ** Trees that grow: the tree after one operation *)

Lemma replace_child_notin (c' : tree) (folders : list tree) :
  root c' ∉ map root folders -> replace_child c' folders = folders.
Proof.
  induction folders as [|x folders IH]; [done|]. intros Hnot. simpl in *.
  apply not_elem_of_cons in Hnot as [Hne Hnot].
  rewrite decide_False by done. by rewrite IH.
Qed.

Lemma flat_map_replace_child_perm {B} (g : tree -> list B) (c c' : tree)
    (folders : list tree) (extra : list B) :
  NoDup (map root folders) -> c ∈ folders -> root c' = root c ->
  g c' ≡ₚ extra ++ g c ->
  flat_map g (replace_child c' folders) ≡ₚ extra ++ flat_map g folders.
Proof.
  intros Hnd Hc Hroot Hg.
  induction folders as [|x folders IH]; [by apply elem_of_nil in Hc|].
  simpl in Hnd. apply NoDup_cons in Hnd as [Hx Hnd]. simpl.
  destruct (decide (root x = root c')) as [Heq|Hne].
  - assert (x = c) as ->.
    { apply elem_of_cons in Hc as [->|Hc]; [done|]. destruct Hx.
      rewrite Heq, Hroot. apply list_elem_of_fmap. eauto. }
    rewrite replace_child_notin by (by rewrite Hroot).
    by rewrite Hg, <- app_assoc.
  - apply elem_of_cons in Hc as [->|Hc]; [by rewrite Hroot in Hne|].
    rewrite (IH Hnd Hc). by rewrite !app_assoc, (Permutation_app_comm (g x)).
Qed.

(** What a tree holds, for a count that adds up over the folders. *)
Lemma update_at_measure {B} (g : tree -> list B)
    (g0 : positive -> list positive -> list B) (f : tree -> tree)
    (d : positive) (extra : list B) :
  (forall a files folders,
     g (Tree a files folders) = g0 a files ++ flat_map g folders) ->
  (forall s, root (f s) = root s) ->
  (forall s, root s = d -> g (f s) ≡ₚ extra ++ g s) ->
  forall t, NoDup (nodes t) -> d ∈ folders_of t ->
    g (update_at d f t) ≡ₚ extra ++ g t.
Proof.
  intros Hg Hroot Hf. induction t as [a files folders IH] using tree_ind.
  intros Hnd Hd.
  destruct (decide (a = d)) as [Had|Had].
  { simpl update_at. rewrite decide_True by done. by apply Hf. }
  simpl in Hd. apply elem_of_cons in Hd as [?|Hd]; [done|].
  apply elem_of_flat_map in Hd as (c & Hc & Hd).
  pose proof Hnd as Hnd_all.
  simpl in Hnd. apply NoDup_cons in Hnd as [_ Hnd].
  apply NoDup_app in Hnd as (_ & _ & Hnd_kids).
  rewrite (update_at_child d f a files folders c); auto using NoDup_roots,
    folders_of_nodes.
  rewrite !Hg.
  rewrite (flat_map_replace_child_perm g c (update_at d f c) folders extra).
  - by rewrite !app_assoc, (Permutation_app_comm (g0 a files)).
  - by apply NoDup_roots.
  - done.
  - by apply root_update_at.
  - rewrite Forall_forall in IH. apply IH; [done| |done].
    by apply (NoDup_flat_map_elem nodes folders).
Qed.

Lemma nodes_add_folder (tmp : positive) (s : tree) :
  nodes (add_folder tmp s) ≡ₚ [tmp] ++ nodes s.
Proof.
  destruct s as [a files folders]. unfold add_folder. simpl.
  rewrite insert_tree_Permutation. simpl.
  rewrite <- Permutation_middle. apply Permutation_swap.
Qed.

Lemma folders_of_add_folder (tmp : positive) (s : tree) :
  folders_of (add_folder tmp s) ≡ₚ [tmp] ++ folders_of s.
Proof.
  destruct s as [a files folders]. unfold add_folder. simpl.
  rewrite insert_tree_Permutation. simpl. apply Permutation_swap.
Qed.

Lemma all_files_add_folder (tmp : positive) (s : tree) :
  all_files (add_folder tmp s) ≡ₚ [] ++ all_files s.
Proof.
  destruct s as [a files folders]. unfold add_folder. simpl.
  by rewrite insert_tree_Permutation.
Qed.

Lemma nodes_add_files (fns : list positive) (s : tree) :
  nodes (add_files fns s) ≡ₚ fns ++ nodes s.
Proof.
  destruct s as [a files folders]. unfold add_files. simpl.
  rewrite foldl_insert_node_Permutation.
  rewrite <- Permutation_middle. apply Permutation_skip.
  by rewrite <- !app_assoc, (app_assoc files), (Permutation_app_comm files),
    <- app_assoc.
Qed.

Lemma folders_of_add_files (fns : list positive) (s : tree) :
  folders_of (add_files fns s) ≡ₚ [] ++ folders_of s.
Proof. by destruct s. Qed.

Lemma all_files_add_files (fns : list positive) (s : tree) :
  all_files (add_files fns s) ≡ₚ fns ++ all_files s.
Proof.
  destruct s as [a files folders]. unfold add_files. simpl.
  rewrite foldl_insert_node_Permutation.
  by rewrite (Permutation_app_comm files), <- app_assoc.
Qed.

Lemma height_bound (a : positive) (files : list positive)
    (folders : list tree) (m : nat) :
  (forall c, c ∈ folders -> (height c <= m)%nat) ->
  (height (Tree a files folders) <= S m)%nat.
Proof.
  intros H. simpl. apply le_n_S.
  induction folders as [|c folders IH]; simpl; [lia|].
  apply Nat.max_lub.
  - apply H. by left.
  - apply IH. intros y Hy. apply H. by right.
Qed.

Lemma height_update_at (d : positive) (f : tree -> tree) (k : nat) (t : tree) :
  (forall s, (height (f s) <= height s + k)%nat) ->
  (height (update_at d f t) <= height t + k)%nat.
Proof.
  intros Hf. induction t as [a files folders IH] using tree_ind.
  simpl update_at. destruct (decide (a = d)); [apply Hf|].
  pose proof (height_pos (Tree a files folders)).
  replace (height (Tree a files folders) + k)%nat
    with (S (height (Tree a files folders) - 1 + k)) by lia.
  apply height_bound. intros c' Hc'.
  apply list_elem_of_fmap in Hc' as (c & -> & Hc).
  rewrite Forall_forall in IH.
  pose proof (IH c Hc). pose proof (height_child a files folders c Hc). lia.
Qed.

Lemma height_add_folder (tmp : positive) (s : tree) :
  (height (add_folder tmp s) <= height s + 1)%nat.
Proof.
  destruct s as [a files folders]. unfold add_folder.
  unfold root, tree_files, tree_folders.
  pose proof (height_pos (Tree a files folders)).
  replace (height (Tree a files folders) + 1)%nat
    with (S (height (Tree a files folders))) by lia.
  apply height_bound. intros c Hc. rewrite insert_tree_Permutation in Hc.
  apply elem_of_cons in Hc as [->|Hc]; [simpl; lia|].
  pose proof (height_child a files folders c Hc). lia.
Qed.

Lemma height_add_files (fns : list positive) (s : tree) :
  (height (add_files fns s) <= height s + 0)%nat.
Proof. destruct s. simpl. lia. Qed.

(** *** Sound trees after an operation *)

Lemma sound_sound_when (h : gmap positive Node) (par : option positive)
    (l : list positive) (t : tree) :
  sound h par l t <-> sound_when true h par l t.
Proof.
  unfold sound, sound_when. split.
  - intros (? & ? & ? & ? & ?).
    split; [done|]. split; [done|]. split; [done|]. by split.
  - intros (? & ? & ? & ? & Hnp).
    split; [done|]. split; [done|]. split; [done|]. split; [done|].
    by apply Hnp.
Qed.

Lemma attached_sound_when (strict : bool) (h h' : gmap positive Node)
    (par : option positive) (l : list positive) (t t' : tree)
    (news : list positive) :
  sound_when strict h par l t -> attached h h' par t t' -> root t' = root t ->
  nodes t' ≡ₚ news ++ nodes t -> NoDup news ->
  (forall x, x ∈ news -> (x ∉ nodes t) /\ (x ∉ l)) ->
  sound_when strict h' par l t'.
Proof.
  intros (Hwf & Hnd & Hm & Hl & Hnp) (Hwf' & Hkeep & Hskel & Hframe & Hnew & Hpaths)
    Hroot Hnodes Hnd_news Hnews.
  rewrite Forall_forall in Hl.
  assert (Hl' : forall x, x ∈ l -> x ∉ nodes t').
  { intros x Hx Hin. rewrite Hnodes in Hin.
    apply elem_of_app in Hin as [Hin|Hin]; [by apply (Hnews x Hin)|].
    by apply (Hl x Hx). }
  split; [done|]. split; [|split; [|split]].
  - rewrite Hnodes. apply NoDup_app. split; [done|]. split; [|done].
    intros x Hx. by apply Hnews.
  - rewrite Hroot. apply (managed_frame h); [done|].
    intros x [->|Hx]%elem_of_cons; [apply Hskel, root_in_nodes|].
    apply skeleton_agree, Hframe. by apply Hl'.
  - apply Forall_forall. intros x Hx. by apply Hl'.
  - intros Hstrict y Hy Hne. destruct (decide (y ∈ nodes t)) as [Hin|Hnin].
    + rewrite (isProjectAt_skeleton h h') by (by apply Hskel).
      apply (Hnp Hstrict); [done|]. by rewrite <- Hroot.
    + by apply Hnew.
Qed.

Lemma attached_sound (h h' : gmap positive Node) (par : option positive)
    (l : list positive) (t t' : tree) (news : list positive) :
  sound h par l t -> attached h h' par t t' -> root t' = root t ->
  nodes t' ≡ₚ news ++ nodes t -> NoDup news ->
  (forall x, x ∈ news -> (x ∉ nodes t) /\ (x ∉ l)) ->
  sound h' par l t'.
Proof.
  intros Hs%sound_sound_when Hatt Hroot Hnodes Hnd Hnews.
  by apply sound_sound_when, (attached_sound_when true h h' par l t t' news).
Qed.

Lemma attached_extends (h h' : gmap positive Node) (par : option positive)
    (t t' : tree) (news fnews added : list positive) :
  attached h h' par t t' -> root t' = root t ->
  nodes t' ≡ₚ news ++ nodes t ->
  folders_of t' ≡ₚ fnews ++ folders_of t ->
  all_files t' ≡ₚ added ++ all_files t ->
  (forall x, x ∈ news -> h !! x = None \/ x ∈ added) ->
  extends h h' added t t'.
Proof.
  intros (Hwf' & Hkeep & Hskel & Hframe & Hnew & Hpaths) Hroot Hnodes Hfolders Hfiles
    Hnews.
  split; [done|]. split; [|split; [done|split]].
  - intros x Hx. rewrite Hfolders. apply elem_of_app. by right.
  - intros x [nx Hx] Hout Hadd.
    assert (Hx' : x ∉ nodes t').
    { intros Hin. rewrite Hnodes in Hin.
      apply elem_of_app in Hin as [Hin|Hin]; [|done].
      destruct (Hnews x Hin); [congruence|done]. }
    split; [by apply Hframe|done].
  - intros x Hx. split; [|by apply Hpaths].
    destruct (decide (x ∈ nodes t')) as [Hin|Hnin].
    + by apply (wf_tree_alive t' h' par).
    + by rewrite Hframe.
Qed.

Lemma extends_refl (h : gmap positive Node) (t : tree) : extends h h [] t t.
Proof. by repeat split. Qed.

Lemma extends_trans (h h1 h2 : gmap positive Node) (a1 a2 : list positive)
    (t t1 t2 : tree) :
  extends h h1 a1 t t1 -> extends h1 h2 a2 t1 t2 ->
  extends h h2 (a2 ++ a1) t t2.
Proof.
  intros (Hr1 & Hf1 & Ha1 & Hfr1 & Hp1) (Hr2 & Hf2 & Ha2 & Hfr2 & Hp2).
  split; [congruence|]. split; [auto|]. split.
  { by rewrite Ha2, Ha1, app_assoc. }
  split.
  - intros x Hx Hout Hadd. apply not_elem_of_app in Hadd as [Hadd2 Hadd1].
    destruct (Hfr1 x Hx Hout Hadd1) as [Heq1 Hout1].
    destruct (Hfr2 x) as [Heq2 Hout2]; [by rewrite Heq1|done|done|].
    split; [congruence|done].
  - intros x Hx. destruct (Hp1 x Hx) as [Hx1 Heq1].
    destruct (Hp2 x Hx1) as [Hx2 Heq2]. split; [done|congruence].
Qed.

Lemma extends_perm (h h' : gmap positive Node) (a a' : list positive)
    (t t' : tree) :
  a ≡ₚ a' -> extends h h' a t t' -> extends h h' a' t t'.
Proof.
  intros Ha (Hr & Hf & Hall & Hfr & Hp).
  split; [done|]. split; [done|]. split; [by rewrite <- Ha|].
  split; [|done]. intros x Hx Hout Hadd. apply Hfr; [done|done|].
  by rewrite Ha.
Qed.

Lemma loose_file_agree (h h' : gmap positive Node) (f : positive) :
  h' !! f = h !! f -> loose_file h f -> loose_file h' f.
Proof. intros Heq (nf & Hnf & H). exists nf. by rewrite Heq. Qed.

(** *** One part of the path: the folder found, or made *)

Section find_or_create.

Variable E : Platform.
Hypothesis E_lawful : lawful E.
Variable strict : bool.

Lemma findOrCreate_step_when (fuel : nat) (p : positive) (path : FileName)
    (part : string) (h : gmap positive Node) (tr : list Event)
    (par : option positive) (l : list positive) (t : tree) :
  sound_when strict h par l t -> p ∈ folders_of t ->
  (length l + height t < fuel)%nat ->
  exists p' h' tr' t',
    findOrCreate_step E fuel (p, path) part (mkState h tr)
      = Val ((p', appendPath E path part), mkState h' tr') /\
    sound_when strict h' par l t' /\ extends h h' [] t t' /\ p' ∈ folders_of t' /\
    (height t' <= height t + 1)%nat.
Proof.
  intros Hsound Hp Hfuel.
  pose proof Hsound as (Hwf & Hnd & Hm & Hl & Hnp).
  destruct (folders_of_files_at t h par p Hwf Hnd Hp)
    as (np & Hnp_p & Hty & Hfiles & Hkids).
  destruct (folderNode_spec p (appendPath E path part) (mkState h tr) np
              Hnp_p) as (r & Hfind & Hr).
  { apply Forall_forall. intros c Hc. destruct (Hkids c Hc) as (_ & nc & Hnc).
    simpl. eauto. }
  destruct r as [c|].
  { exists c, h, tr, t. split.
    - unfold findOrCreate_step. by rewrite (bind_Val _ _ _ _ _ Hfind).
    - split; [done|]. split; [apply extends_refl|].
      split; [|lia]. by apply (Hkids c), Hr. }
  destruct E_lawful as [Hfresh _]. specialize (Hfresh h).
  set (tmp := allocate E h) in *.
  assert (Htmp : tmp ∉ nodes t).
  { intros Hin. destruct (wf_tree_alive t h par tmp Hwf Hin). congruence. }
  destruct (deep_op (findOrCreate_step E fuel (p, path) part)
              (add_folder tmp) p (fun x => x = tmp)
              (fun r => r = (tmp, appendPath E path part)) h tr t
              (root_add_folder tmp) par l Hwf Hnd Hm Hl Hp)
    as (r & [h' tr'] & Hrun & Hatt & Hnew & ->).
  { by intros x ->. }
  { intros S par_d l_d HS Hwf_S Hnd_S Hm_S Hl_S Hbound Hsub.
    destruct S as [d' files folders]. simpl in HS. subst d'.
    pose proof (height_pos (Tree p files folders)).
    destruct (addFolder_local E fuel p path part l_d h par_d files folders tr
                Hfresh Hwf_S Hnd_S Hm_S ltac:(lia) Hfind)
      as (s' & Hrun & Hatt & Hnew).
    by exists (tmp, appendPath E path part), s'. }
  simpl heap in Hatt.
  set (t' := update_at p (add_folder tmp) t) in *.
  assert (Hroot : root t' = root t) by apply root_update_at, root_add_folder.
  assert (Hnodes : nodes t' ≡ₚ [tmp] ++ nodes t).
  { apply (update_at_measure nodes (fun a files => a :: files));
      auto using root_add_folder, nodes_add_folder. }
  assert (Hfolders : folders_of t' ≡ₚ [tmp] ++ folders_of t).
  { apply (update_at_measure folders_of (fun a files => [a]));
      auto using root_add_folder, folders_of_add_folder. }
  assert (Hall : all_files t' ≡ₚ [] ++ all_files t).
  { apply (update_at_measure all_files (fun a files => files));
      auto using root_add_folder, all_files_add_folder. }
  exists tmp, h', tr', t'. split; [done|].
  split; [|split; [|split]].
  - apply (attached_sound_when strict h h' par l t t' [tmp]); auto.
    + apply NoDup_singleton.
    + intros x ->%list_elem_of_singleton. split; [done|].
      intros Hin. destruct Hm as (Hanc & _).
      destruct (ancestors_all_alive h (root t) l Hanc tmp) as [? ?];
        [by right|congruence].
  - apply (attached_extends h h' par t t' [tmp] [tmp] []); auto.
    intros x ->%list_elem_of_singleton. by left.
  - rewrite Hfolders. by left.
  - apply height_update_at. intros s. apply height_add_folder.
Qed.

Lemma findOrCreate_loop_when (fuel : nat) (par : option positive)
    (l : list positive) (parts : list string) :
  forall p path h tr t,
    sound_when strict h par l t -> p ∈ folders_of t ->
    (length l + height t + length parts <= fuel)%nat ->
    exists st h' tr' t',
      foldM (findOrCreate_step E fuel) parts (p, path) (mkState h tr)
        = Val (st, mkState h' tr') /\
      sound_when strict h' par l t' /\ extends h h' [] t t' /\ fst st ∈ folders_of t' /\
      (height t' <= height t + length parts)%nat.
Proof.
  induction parts as [|part parts IH]; intros p path h tr t Hsound Hp Hfuel.
  { exists (p, path), h, tr, t. simpl.
    split; [done|]. split; [done|]. split; [apply extends_refl|].
    split; [done|lia]. }
  simpl length in Hfuel.
  destruct (findOrCreate_step_when fuel p path part h tr par l t Hsound Hp
              ltac:(lia)) as (p1 & h1 & tr1 & t1 & Hrun1 & Hs1 & He1 & Hp1 & Hh1).
  destruct (IH p1 (appendPath E path part) h1 tr1 t1 Hs1 Hp1 ltac:(lia))
    as (st & h2 & tr2 & t2 & Hrun2 & Hs2 & He2 & Hp2 & Hh2).
  exists st, h2, tr2, t2. split.
  { simpl foldM. by rewrite (bind_Val _ _ _ _ _ Hrun1). }
  split; [done|]. split; [apply (extends_trans _ _ _ _ _ _ _ _ He1 He2)|].
  split; [done|]. simpl length. lia.
Qed.

(** [recursiveFindOrCreateFolderNode] on the root of a sound tree. *)
Lemma recursiveFindOrCreateFolderNode_when (fuel : nat) (self : positive)
    (directory : string) (overrideBaseDir : FileName)
    (h : gmap positive Node) (tr : list Event) (par : option positive)
    (l : list positive) (t : tree) :
  sound_when strict h par l t -> root t = self ->
  (length l + height t
   + length (relative_parts E (base_path h self overrideBaseDir) directory)
   <= fuel)%nat ->
  exists folder h' tr' t',
    recursiveFindOrCreateFolderNode E fuel self directory overrideBaseDir
      (mkState h tr) = Val (folder, mkState h' tr') /\
    sound_when strict h' par l t' /\ extends h h' [] t t' /\ folder ∈ folders_of t' /\
    (height t' <= height t
       + length (relative_parts E (base_path h self overrideBaseDir) directory))%nat.
Proof.
  intros Hsound Hroot Hfuel.
  pose proof Hsound as (Hwf & _).
  destruct (wf_tree_alive t h par self Hwf) as [n Hn].
  { rewrite <- Hroot. apply root_in_nodes. }
  assert (Hbase : base_path h self overrideBaseDir
            = if String.eqb overrideBaseDir EmptyString then m_filePath n
              else overrideBaseDir).
  { unfold base_path, path_of. by rewrite Hn. }
  rewrite Hbase in *.
  destruct (findOrCreate_loop_when fuel par l
              (relative_parts E
                 (if String.eqb overrideBaseDir EmptyString then m_filePath n
                  else overrideBaseDir) directory)
              self
              (if String.eqb overrideBaseDir EmptyString then m_filePath n
               else overrideBaseDir) h tr t Hsound)
    as (st & h' & tr' & t' & Hrun & Hs' & He' & Hp' & Hh'); [|done|].
  { rewrite <- Hroot. destruct t. simpl. by left. }
  exists (fst st), h', tr', t'. split; [|done].
  unfold recursiveFindOrCreateFolderNode.
  rewrite (bind_Val _ _ _ _ _ (deref_Val self (mkState h tr) n Hn)).
  by rewrite (bind_Val _ _ _ _ _ Hrun).
Qed.

End find_or_create.

(** [recursiveFindOrCreateFolderNode] on the root of a sound tree. *)
Lemma recursiveFindOrCreateFolderNode_spec (E : Platform) (E_lawful : lawful E)
    (fuel : nat) (self : positive)
    (directory : string) (overrideBaseDir : FileName)
    (h : gmap positive Node) (tr : list Event) (par : option positive)
    (l : list positive) (t : tree) :
  sound h par l t -> root t = self ->
  (length l + height t
   + length (relative_parts E (base_path h self overrideBaseDir) directory)
   <= fuel)%nat ->
  exists folder h' tr' t',
    recursiveFindOrCreateFolderNode E fuel self directory overrideBaseDir
      (mkState h tr) = Val (folder, mkState h' tr') /\
    sound h' par l t' /\ extends h h' [] t t' /\ folder ∈ folders_of t' /\
    (height t' <= height t
       + length (relative_parts E (base_path h self overrideBaseDir) directory))%nat.
Proof.
  intros Hs%sound_sound_when Hroot Hfuel.
  destruct (recursiveFindOrCreateFolderNode_when E E_lawful true fuel self
              directory overrideBaseDir h tr par l t Hs Hroot Hfuel)
    as (folder & h' & tr' & t' & Hrun & Hs' & Hrest).
  exists folder, h', tr', t'. split; [done|]. split; [|done].
  by apply sound_sound_when.
Qed.
(** ** Trees that shrink: the tree after [removeFileNodes] and the loop over
    the empty parents *)

Lemma flat_map_flat_map {A B C} (g : B -> list C) (F : A -> list B)
    (l : list A) :
  flat_map g (flat_map F l) = flat_map (fun x => flat_map g (F x)) l.
Proof.
  induction l as [|x l IH]; [done|]. simpl. by rewrite flat_map_app, IH.
Qed.

Lemma files_at_empty (d : positive) (t : tree) :
  is_empty_tree t = true -> files_at d t = [].
Proof.
  destruct t as [a files folders]. unfold is_empty_tree. simpl.
  intros [Hfolders Hfiles]%andb_true_iff.
  destruct folders; [|done]. destruct files; [|done].
  by destruct (decide (a = d)).
Qed.

Lemma all_files_empty (t : tree) : is_empty_tree t = true -> all_files t = [].
Proof.
  destruct t as [a files folders]. unfold is_empty_tree. simpl.
  intros [Hfolders Hfiles]%andb_true_iff.
  destruct folders; [|done]. by destruct files.
Qed.

(** The files of the other folders stay. *)
Lemma files_at_prune_at (d d' : positive) (fns : list positive) (t : tree) :
  d' <> d -> files_at d' (prune_at d fns t) = files_at d' t.
Proof.
  intros Hne. induction t as [a files folders IH] using tree_ind.
  simpl prune_at. destruct (decide (a = d)) as [->|Had].
  { simpl. by rewrite !decide_False by done. }
  simpl files_at. destruct (decide (a = d')); [done|].
  rewrite flat_map_flat_map. apply flat_map_ext_elem. intros c Hc.
  rewrite Forall_forall in IH. specialize (IH c Hc).
  destruct (decide (d ∈ nodes c)); [|simpl; by rewrite app_nil_r].
  cbv zeta. destruct (is_empty_tree (prune_at d fns c)) eqn:Hempty.
  - simpl. by rewrite <- IH, files_at_empty.
  - simpl. by rewrite app_nil_r.
Qed.

Lemma list_difference_Permutation (l k : list positive) :
  NoDup l -> NoDup k -> (forall x, x ∈ k -> x ∈ l) ->
  l ≡ₚ k ++ list_difference l k.
Proof.
  intros Hl Hk Hsub. apply NoDup_Permutation; [done| |].
  - apply NoDup_app. split; [done|]. split.
    + intros x Hx Hin. by apply list_elem_of_difference in Hin as [_ ?].
    + by apply NoDup_list_difference.
  - intros x. rewrite elem_of_app, list_elem_of_difference.
    split.
    + intros Hx. destruct (decide (x ∈ k)); [by left|by right].
    + intros [Hx|[Hx _]]; auto.
Qed.

Lemma flat_map_split_child {B} (g : tree -> list B) (c : tree)
    (folders : list tree) :
  NoDup (map root folders) -> c ∈ folders ->
  flat_map g folders
    ≡ₚ g c ++ flat_map g (filter (fun x => root x ∉ [root c]) folders).
Proof.
  intros Hnd Hc. induction folders as [|x folders IH];
    [by apply elem_of_nil in Hc|].
  simpl in Hnd. apply NoDup_cons in Hnd as [Hx Hnd]. simpl.
  rewrite filter_cons.
  destruct (decide (root x ∉ [root c])) as [Hne|Heq].
  - apply elem_of_cons in Hc as [->|Hc].
    { destruct Hne. by left. }
    simpl. rewrite (IH Hnd Hc).
    by rewrite !app_assoc, (Permutation_app_comm (g x)).
  - assert (Hroot : root x = root c).
    { destruct (decide (root x = root c)) as [?|Hn]; [done|].
      destruct Heq. intros Hin%list_elem_of_singleton. by apply Hn. }
    assert (x = c) as ->.
    { apply elem_of_cons in Hc as [->|Hc]; [done|]. destruct Hx.
      rewrite Hroot. apply list_elem_of_fmap. eauto. }
    rewrite filter_all; [done|]. intros y Hy.
    intros Hin%list_elem_of_singleton. apply Hx. rewrite <- Hin.
    apply list_elem_of_fmap. eauto.
Qed.

Lemma filter_replace_child_others (c c' : tree) (folders : list tree) :
  root c' = root c ->
  filter (fun x => root x ∉ [root c]) (replace_child c' folders)
    = filter (fun x => root x ∉ [root c]) folders.
Proof.
  intros Hroot. induction folders as [|x folders IH]; [done|]. simpl.
  rewrite !filter_cons.
  destruct (decide (root x = root c')) as [Heq|Hne].
  - rewrite decide_False by (rewrite Hroot; set_solver).
    rewrite decide_False by (rewrite Heq, Hroot; set_solver). done.
  - rewrite !decide_True by (rewrite <- Hroot; set_solver).
    by rewrite IH.
Qed.

Lemma flat_map_replace_split {B} (g : tree -> list B) (c c' : tree)
    (folders : list tree) :
  NoDup (map root folders) -> c ∈ folders -> root c' = root c ->
  flat_map g (replace_child c' folders)
    ≡ₚ g c' ++ flat_map g (filter (fun x => root x ∉ [root c]) folders).
Proof.
  intros Hnd Hc Hroot.
  rewrite (flat_map_split_child g c' (replace_child c' folders)).
  - by rewrite Hroot, filter_replace_child_others.
  - by rewrite map_root_replace_child.
  - by apply (replace_child_elem_of c).
Qed.

(** The files of the tree are the files removed and the files that stay. *)
Lemma all_files_prune_at (d : positive) (fns : list positive) (t : tree) :
  NoDup (nodes t) -> d ∈ folders_of t -> NoDup fns ->
  (forall f, f ∈ fns -> f ∈ files_at d t) ->
  all_files t ≡ₚ fns ++ all_files (prune_at d fns t).
Proof.
  induction t as [a files folders IH] using tree_ind.
  intros Hnd Hd Hnd_fns Hfns.
  pose proof Hnd as Hnd_all.
  simpl in Hnd. apply NoDup_cons in Hnd as [_ Hnd].
  apply NoDup_app in Hnd as (Hnd_files & _ & Hnd_kids).
  destruct (decide (a = d)) as [Had|Had].
  { simpl prune_at. rewrite decide_True by done. simpl.
    simpl in Hfns. rewrite decide_True in Hfns by done.
    rewrite (list_difference_Permutation files fns) at 1 by done.
    by rewrite app_assoc. }
  simpl in Hd. apply elem_of_cons in Hd as [?|Hd]; [done|].
  apply elem_of_flat_map in Hd as (c & Hc & Hd).
  rewrite (files_at_child d a files folders c Hnd_all Hc Hd) in Hfns.
  rewrite Forall_forall in IH.
  pose proof (IH c Hc (NoDup_flat_map_elem nodes folders c Hnd_kids Hc) Hd
                Hnd_fns Hfns) as IHc.
  rewrite (prune_at_child d fns a files folders c Had Hnd_kids Hc
             (folders_of_nodes c d Hd)).
  simpl all_files.
  rewrite (flat_map_split_child all_files c folders) by
    (by (apply NoDup_roots) || done).
  destruct (is_empty_tree (prune_at d fns c)) eqn:Hempty.
  - rewrite (all_files_empty _ Hempty), app_nil_r in IHc. rewrite IHc.
    by rewrite !app_assoc, (Permutation_app_comm files).
  - rewrite (flat_map_replace_split all_files c (prune_at d fns c) folders);
      [|by apply NoDup_roots|done|apply root_prune_at].
    rewrite IHc. rewrite !app_assoc.
    by rewrite (Permutation_app_comm files).
Qed.

Lemma reshaped_sound (h h1 : gmap positive Node) (par : option positive)
    (l : list positive) (t t1 : tree) :
  sound h par l t -> reshaped h h1 par t t1 -> root t1 = root t ->
  nodes t1 `sublist_of` nodes t ->
  sound h1 par l t1.
Proof.
  intros (Hwf & Hnd & Hm & Hl & Hnp) (Hwf1 & Hgone & Hskel & Hframe) Hroot
    Hsub.
  rewrite Forall_forall in Hl.
  assert (Hin : forall x, x ∈ nodes t1 -> x ∈ nodes t).
  { intros x Hx. by apply (elem_of_sublist _ _ _ Hx Hsub). }
  split; [done|]. split; [|split; [|split]].
  - exact (sublist_NoDup _ _ Hnd Hsub).
  - rewrite Hroot. apply (managed_frame h); [done|].
    intros x [->|Hx]%elem_of_cons.
    + apply Hskel. rewrite <- Hroot. apply root_in_nodes.
    + apply skeleton_agree, Hframe. by apply Hl.
  - apply Forall_forall. intros x Hx Hx1. by apply (Hl x Hx), Hin.
  - intros y Hy Hne. rewrite (isProjectAt_skeleton h h1) by (by apply Hskel).
    apply Hnp; [by apply Hin|]. by rewrite <- Hroot.
Qed.

Lemma shrunk_refl (h : gmap positive Node) (t : tree) : shrunk h h [] t t.
Proof. by repeat split. Qed.

Lemma shrunk_trans (h h1 h2 : gmap positive Node) (r1 r2 : list positive)
    (t t1 t2 : tree) :
  shrunk h h1 r1 t t1 -> shrunk h1 h2 r2 t1 t2 ->
  shrunk h h2 (r1 ++ r2) t t2.
Proof.
  intros (Hr1 & Ha1 & Hk1 & Hf1 & Hh1) (Hr2 & Ha2 & Hk2 & Hf2 & Hh2).
  split; [congruence|]. split; [by rewrite Ha1, Ha2, app_assoc|].
  split; [|split; [|lia]].
  - intros x Hx. destruct (Hk2 x Hx) as [Hx1 Hs2].
    destruct (Hk1 x Hx1) as [Hx0 Hs1]. split; [done|congruence].
  - intros x Hx. rewrite Hf2, Hf1; [done|done|].
    intros Hx1. by apply Hx, Hk1.
Qed.

Lemma reshaped_shrunk (h h1 : gmap positive Node) (par : option positive)
    (removed : list positive) (t t1 : tree) :
  reshaped h h1 par t t1 -> root t1 = root t ->
  nodes t1 `sublist_of` nodes t ->
  all_files t ≡ₚ removed ++ all_files t1 ->
  (height t1 <= height t)%nat ->
  shrunk h h1 removed t t1.
Proof.
  intros (Hwf1 & Hgone & Hskel & Hframe) Hroot Hsub Hall Hh.
  split; [done|]. split; [done|]. split; [|done].
  intros x Hx. split; [by apply (elem_of_sublist _ _ _ Hx Hsub)|by apply Hskel].
Qed.

(** The folder of a file of the tree. *)
Lemma all_files_folder (t : tree) :
  forall h par x, wf_tree h par t -> NoDup (nodes t) -> x ∈ all_files t ->
    exists d, d ∈ folders_of t /\ x ∈ files_at d t /\ file_leaf h d x.
Proof.
  induction t as [a files folders IH] using tree_ind.
  intros h par x Hwf Hnd Hx.
  inversion Hwf as [? ? n ? ? Ha Hty Hpar Hses Hfiles Hfolders Hproj Hprojty Hsf Hsd Hleaf Hkids];
    subst.
  simpl in Hx. apply elem_of_app in Hx as [Hx|Hx].
  - exists a. split; [by left|]. split.
    + simpl. by rewrite decide_True.
    + rewrite Forall_forall in Hleaf. by apply Hleaf.
  - apply elem_of_flat_map in Hx as (c & Hc & Hx).
    rewrite Forall_forall in IH. rewrite Forall_forall in Hkids.
    pose proof Hnd as Hnd_all.
    simpl in Hnd. apply NoDup_cons in Hnd as [_ Hnd].
    apply NoDup_app in Hnd as (_ & _ & Hnd_kids).
    destruct (IH c Hc h (Some a) x (Hkids c Hc)
                (NoDup_flat_map_elem nodes folders c Hnd_kids Hc) Hx)
      as (d & Hd & Hxd & Hleaf_x).
    exists d. split; [|split; [|done]].
    + simpl. right. apply elem_of_flat_map. eauto.
    + by rewrite (files_at_child d a (m_fileNodes n) folders c Hnd_all Hc Hd).
Qed.
(** ** The loops of [buildTree] *)

(** *** The folder mappings *)

Lemma mapping_append_files (m : FolderMapping) (key : option positive)
    (fn : positive) :
  flat_map snd (map_to_list (mapping_append m key fn))
    ≡ₚ fn :: flat_map snd (map_to_list m).
Proof.
  unfold mapping_append. destruct (m !! key) as [v|] eqn:Hkey; simpl.
  - rewrite <- insert_delete_eq.
    rewrite map_to_list_insert by apply lookup_delete_eq.
    rewrite <- (map_to_list_delete m key v Hkey). simpl.
    rewrite <- app_assoc. simpl. by rewrite <- Permutation_middle.
  - by rewrite map_to_list_insert.
Qed.

Lemma mapping_append_keys (P : option positive -> Prop) (m : FolderMapping)
    (key : option positive) (fn : positive) :
  P key -> map_Forall (fun k _ => P k) m ->
  map_Forall (fun k _ => P k) (mapping_append m key fn).
Proof.
  intros Hkey Hm k v Hk. unfold mapping_append in Hk.
  destruct (decide (k = key)) as [->|Hne]; [done|].
  rewrite lookup_insert_ne in Hk by done. by apply (Hm k v).
Qed.

Lemma new_folders_ext (E : Platform) (h h' : gmap positive Node)
    (self : positive) (overrideBaseDir : FileName) (files : list positive) :
  (forall x, x ∈ self :: files -> path_of h' x = path_of h x) ->
  new_folders E h' self overrideBaseDir files
    = new_folders E h self overrideBaseDir files.
Proof.
  intros Hp. unfold new_folders. f_equal. apply map_ext_in. intros f Hf.
  apply list_elem_of_In in Hf.
  unfold parts_of, base_path.
  rewrite (Hp f) by (by right). by rewrite (Hp self) by (by left).
Qed.

Section buildTree_phases.

Variable E : Platform.
Hypothesis E_lawful : lawful E.

Variables (fuel : nat) (self : positive) (overrideBaseDir : FileName).
Variables (par : option positive) (l : list positive).
Variable strict : bool.

(** The loop that finds or makes the folders of the files to add. *)
Lemma addedFolderMapping_when (added : list positive) :
  forall (m : FolderMapping) h tr t,
    sound_when strict h par l t -> root t = self ->
    Forall (fun f => is_Some (h !! f)) added ->
    map_Forall (fun k _ => exists d, k = Some d /\ d ∈ folders_of t) m ->
    (length l + height t + new_folders E h self overrideBaseDir added
     <= fuel)%nat ->
    exists (m' : FolderMapping) h' tr' t',
      foldM (fun (m : FolderMapping) fn =>
               let* f := deref fn in
               let parentDir := absolutePath E (m_filePath f) in
               let* folder := recursiveFindOrCreateFolderNode E fuel self
                                parentDir overrideBaseDir in
               ret (mapping_append m (Some folder) fn))
            added m (mkState h tr) = Val (m', mkState h' tr') /\
      sound_when strict h' par l t' /\ extends h h' [] t t' /\
      map_Forall (fun k _ => exists d, k = Some d /\ d ∈ folders_of t') m' /\
      flat_map snd (map_to_list m')
        ≡ₚ added ++ flat_map snd (map_to_list m) /\
      (height t' <= height t
         + new_folders E h self overrideBaseDir added)%nat.
Proof.
  induction added as [|fn added IH]; intros m h tr t Hsound Hroot Halive Hkeys
    Hfuel.
  { exists m, h, tr, t. simpl.
    split; [done|]. split; [done|]. split; [apply extends_refl|].
    split; [done|]. split; [done|]. unfold new_folders. simpl. lia. }
  apply Forall_cons in Halive as [[f Hf] Halive].
  assert (Hsplit : new_folders E h self overrideBaseDir (fn :: added)
            = (length (parts_of E h self overrideBaseDir fn)
               + new_folders E h self overrideBaseDir added)%nat) by done.
  rewrite Hsplit in Hfuel.
  assert (Hpath : m_filePath f = path_of h fn).
  { unfold path_of. by rewrite Hf. }
  destruct (recursiveFindOrCreateFolderNode_when E E_lawful strict fuel self
              (absolutePath E (m_filePath f)) overrideBaseDir h tr par l t
              Hsound Hroot)
    as (folder & h1 & tr1 & t1 & Hrun1 & Hs1 & He1 & Hfolder & Hh1).
  { rewrite Hpath. fold (parts_of E h self overrideBaseDir fn). lia. }
  rewrite Hpath in Hh1. fold (parts_of E h self overrideBaseDir fn) in Hh1.
  pose proof He1 as (Hroot1 & Hfold1 & _ & _ & Hpaths1).
  assert (Hself_alive : is_Some (h !! self)).
  { destruct Hsound as (Hwf & _). apply (wf_tree_alive t h par); [done|].
    rewrite <- Hroot. apply root_in_nodes. }
  assert (Hnf : new_folders E h1 self overrideBaseDir added
            = new_folders E h self overrideBaseDir added).
  { apply new_folders_ext. intros x [->|Hx]%elem_of_cons.
    - by apply Hpaths1.
    - rewrite Forall_forall in Halive. by apply Hpaths1, Halive. }
  destruct (IH (mapping_append m (Some folder) fn) h1 tr1 t1 Hs1)
    as (m' & h2 & tr2 & t2 & Hrun2 & Hs2 & He2 & Hkeys2 & Hfiles2 & Hh2).
  { congruence. }
  { apply Forall_forall. intros x Hx. rewrite Forall_forall in Halive.
    by apply Hpaths1, Halive. }
  { apply (mapping_append_keys
             (fun k => exists d, k = Some d /\ d ∈ folders_of t1)); [by eauto|].
    intros k v Hk. destruct (Hkeys k v Hk) as (d & -> & Hd). eauto. }
  { rewrite Hnf. lia. }
  exists m', h2, tr2, t2. split.
  { assert (Hbody :
      (let* f := deref fn in
       let parentDir := absolutePath E (m_filePath f) in
       let* folder := recursiveFindOrCreateFolderNode E fuel self
                        parentDir overrideBaseDir in
       ret (mapping_append m (Some folder) fn)) (mkState h tr)
      = Val (mapping_append m (Some folder) fn, mkState h1 tr1)).
    { rewrite (bind_Val _ _ _ _ _ (deref_Val fn (mkState h tr) f Hf)).
      cbv zeta. by rewrite (bind_Val _ _ _ _ _ Hrun1). }
    rewrite foldM_cons. rewrite (bind_Val _ _ _ _ _ Hbody). exact Hrun2. }
  split; [done|]. split; [apply (extends_trans _ _ _ _ _ _ _ _ He1 He2)|].
  split; [done|]. split.
  { rewrite Hfiles2, mapping_append_files. simpl.
    by rewrite <- Permutation_middle. }
  rewrite Hsplit. rewrite Hnf in Hh2. lia.
Qed.

(** The loop over [addedFolderMapping]. *)
Lemma add_added_loop_when (es : list (option positive * list positive)) :
  forall h tr t,
    sound_when strict h par l t ->
    (forall k fns, (k, fns) ∈ es -> exists d, k = Some d /\ d ∈ folders_of t) ->
    NoDup (flat_map snd es) -> Forall (loose_file h) (flat_map snd es) ->
    Forall (fun x => x ∉ flat_map snd es) l ->
    (length l + height t <= fuel)%nat ->
    exists h' tr' t',
      forM_ es (add_added fuel) (mkState h tr) = Val (tt, mkState h' tr') /\
      sound_when strict h' par l t' /\ extends h h' (flat_map snd es) t t' /\
      (height t' <= height t)%nat.
Proof.
  induction es as [|[k fns] es IH]; intros h tr t Hsound Hkeys Hnd Hloose Hl
    Hfuel.
  { exists h, tr, t. split; [done|]. split; [done|].
    split; [apply extends_refl|done]. }
  simpl in Hnd, Hloose, Hl.
  apply NoDup_app in Hnd as (Hnd_fns & Hdisj & Hnd_es).
  apply Forall_app in Hloose as [Hloose_fns Hloose_es].
  destruct (Hkeys k fns) as (d & -> & Hd); [by left|].
  pose proof Hsound as (Hwf & Hnd_t & Hm & Hl_t & Hnp).
  destruct (addFileNodes_deep fuel d fns t h par l tr Hwf Hnd_t Hm Hl_t Hd
              Hfuel Hnd_fns Hloose_fns) as ([h1 tr1] & Hrun1 & Hatt & Hnew).
  simpl heap in Hatt.
  set (t1 := update_at d (add_files fns) t) in *.
  assert (Hroot : root t1 = root t) by apply root_update_at, root_add_files.
  assert (Hnodes : nodes t1 ≡ₚ fns ++ nodes t).
  { apply (update_at_measure nodes (fun a files => a :: files));
      auto using root_add_files, nodes_add_files. }
  assert (Hfolders : folders_of t1 ≡ₚ [] ++ folders_of t).
  { apply (update_at_measure folders_of (fun a files => [a]));
      auto using root_add_files, folders_of_add_files. }
  assert (Hall : all_files t1 ≡ₚ fns ++ all_files t).
  { apply (update_at_measure all_files (fun a files => files));
      auto using root_add_files, all_files_add_files. }
  assert (Hh1 : (height t1 <= height t + 0)%nat).
  { apply height_update_at. intros s. apply height_add_files. }
  rewrite Forall_forall in Hloose_fns. rewrite Forall_forall in Hloose_es.
  rewrite Forall_forall in Hl.
  assert (Hs1 : sound_when strict h1 par l t1).
  { apply (attached_sound_when strict h h1 par l t t1 fns); auto.
    intros x Hx. split.
    - intros Hin. by apply (wf_tree_not_loose t h par x Hwf Hin), Hloose_fns.
    - intros Hin. apply (Hl x Hin), elem_of_app. by left. }
  assert (He1 : extends h h1 fns t t1).
  { apply (attached_extends h h1 par t t1 fns [] fns); auto. }
  pose proof He1 as (_ & Hfold1 & _ & Hframe1 & _).
  destruct (IH h1 tr1 t1 Hs1)
    as (h2 & tr2 & t2 & Hrun2 & Hs2 & He2 & Hh2).
  { intros k' fns' Hin. destruct (Hkeys k' fns') as (d' & -> & Hd');
      [by right|]. eauto. }
  { done. }
  { apply Forall_forall. intros x Hx.
    destruct (Hloose_es x Hx) as (nx & Hnx & Hrest).
    destruct (Hframe1 x) as [Heq _].
    - eauto.
    - intros Hin. apply (wf_tree_not_loose t h par x Hwf Hin).
      by apply Hloose_es.
    - intros Hin. by apply (Hdisj x Hin).
    - apply (loose_file_agree h); [done|by apply Hloose_es]. }
  { apply Forall_forall. intros x Hx Hin. apply (Hl x Hx), elem_of_app.
    by right. }
  { lia. }
  exists h2, tr2, t2. split.
  { rewrite forM__cons.
    assert (Hstep : add_added fuel (Some d, fns) (mkState h tr)
              = Val (tt, mkState h1 tr1)) by exact Hrun1.
    by rewrite (bind_Val _ _ _ _ _ Hstep). }
  split; [done|]. split; [|lia].
  apply (extends_perm h h2 (flat_map snd es ++ fns)).
  { simpl. apply Permutation_app_comm. }
  apply (extends_trans _ _ _ _ _ _ _ _ He1 He2).
Qed.

(** The loop that sorts the files to remove by their folders; it changes
    nothing. *)
Lemma deletedFolderMapping_spec (deleted : list positive)
    (h : gmap positive Node) (tr : list Event) (t : tree) :
  wf_tree h par t -> NoDup (nodes t) ->
  forall (m : FolderMapping),
    (forall f, f ∈ deleted -> f ∈ all_files t) ->
    map_Forall (fun k v => exists d, k = Some d /\ v <> [] /\
                  forall f, f ∈ v -> f ∈ files_at d t) m ->
    exists (m' : FolderMapping),
      foldM (fun (m : FolderMapping) fn =>
               let* f := deref fn in
               ret (mapping_append m (m_parentFolderNode f) fn))
            deleted m (mkState h tr) = Val (m', mkState h tr) /\
      map_Forall (fun k v => exists d, k = Some d /\ v <> [] /\
                    forall f, f ∈ v -> f ∈ files_at d t) m' /\
      flat_map snd (map_to_list m')
        ≡ₚ deleted ++ flat_map snd (map_to_list m).
Proof.
  intros Hwf Hnd. induction deleted as [|fn deleted IH]; intros m Hdel Hm.
  { by exists m. }
  destruct (all_files_folder t h par fn Hwf Hnd) as (d & Hd & Hfn & Hleaf).
  { apply Hdel. by left. }
  destruct Hleaf as (nf & Hnf & _ & Hparent & _).
  destruct (IH (mapping_append m (Some d) fn)) as (m' & Hrun & Hm' & Hfiles).
  { intros f Hf. apply Hdel. by right. }
  { intros k v Hk. unfold mapping_append in Hk.
    destruct (decide (k = Some d)) as [->|Hne].
    - rewrite lookup_insert_eq in Hk. injection Hk as <-.
      exists d. split; [done|]. split; [by destruct (default [] (m !! Some d))|].
      intros f [Hf|Hf]%elem_of_app.
      + destruct (m !! Some d) as [v0|] eqn:Hv0; [|by apply elem_of_nil in Hf].
        destruct (Hm _ _ Hv0) as (d0 & [= <-] & _ & Hall). by apply Hall.
      + by apply list_elem_of_singleton in Hf as ->.
    - rewrite lookup_insert_ne in Hk by done. by apply (Hm k v). }
  exists m'. split; [|split; [done|]].
  - assert (Hbody :
      (let* f := deref fn in
       ret (mapping_append m (m_parentFolderNode f) fn)) (mkState h tr)
      = Val (mapping_append m (Some d) fn, mkState h tr)).
    { rewrite (bind_Val _ _ _ _ _ (deref_Val fn (mkState h tr) nf Hnf)).
      by rewrite Hparent. }
    rewrite foldM_cons. by rewrite (bind_Val _ _ _ _ _ Hbody).
  - rewrite Hfiles, mapping_append_files. simpl.
    by rewrite <- Permutation_middle.
Qed.

(** The loop over [deletedFolderMapping]. *)
Lemma remove_deleted_loop (es : list (option positive * list positive)) :
  forall h tr t,
    sound h par l t -> root t = self ->
    (height t + length l < fuel)%nat ->
    NoDup (map fst es) -> NoDup (flat_map snd es) ->
    (forall k fns, (k, fns) ∈ es ->
       exists d, k = Some d /\ fns <> [] /\
         forall f, f ∈ fns -> f ∈ files_at d t) ->
    exists h' tr' t',
      forM_ es (remove_deleted fuel self) (mkState h tr)
        = Val (tt, mkState h' tr') /\
      sound h' par l t' /\ shrunk h h' (flat_map snd es) t t'.
Proof.
  induction es as [|[k fns] es IH]; intros h tr t Hsound Hroot Hfuel Hnd_keys
    Hnd_files Hkeys.
  { exists h, tr, t. split; [done|]. split; [done|apply shrunk_refl]. }
  simpl in Hnd_keys, Hnd_files.
  apply NoDup_cons in Hnd_keys as [Hk_notin Hnd_keys].
  apply NoDup_app in Hnd_files as (Hnd_fns & _ & Hnd_es).
  destruct (Hkeys k fns) as (d & -> & Hnonempty & Hfns); [by left|].
  pose proof Hsound as (Hwf & Hnd_t & Hm & Hl_t & Hnp).
  assert (Hd : d ∈ folders_of t).
  { destruct (decide (d ∈ folders_of t)) as [?|Hnot]; [done|].
    destruct fns as [|f fns]; [done|].
    specialize (Hfns f ltac:(by left)).
    rewrite (files_at_notin d t Hnot) in Hfns. by apply elem_of_nil in Hfns. }
  destruct (folders_of_files_at t h par d Hwf Hnd_t Hd)
    as (nd & Hnd_d & Hty_d & Hfiles_d & _).
  destruct (remove_deleted_climb d fns self fuel t h par l tr Hwf Hnd_t Hm
              Hl_t (no_subprojects_lost h t d fns Hnp) Hfuel ltac:(by left)
              (folders_of_nodes t d Hd)
              ltac:(exists nd; split; [done|]; split; [done|];
                    intros f Hf; rewrite Hfiles_d; by apply Hfns)
              Hnd_fns)
    as (k & h1 & tr1 & Hk & Hshape & Hgone & Hrun).
  set (t1 := prune_at d fns t) in *.
  assert (Hroot1 : root t1 = root t) by apply root_prune_at.
  assert (Hsub1 : nodes t1 `sublist_of` nodes t)
    by apply nodes_prune_at_sublist.
  assert (Hh1 : (height t1 <= height t)%nat) by apply height_prune_at.
  assert (Hs1 : sound h1 par l t1) by (by apply (reshaped_sound h h1 par l t)).
  assert (Hshrunk1 : shrunk h h1 fns t t1).
  { apply (reshaped_shrunk h h1 par fns t t1); auto.
    by apply all_files_prune_at. }
  destruct (IH h1 tr1 t1 Hs1 ltac:(congruence) ltac:(lia) Hnd_keys Hnd_es)
    as (h2 & tr2 & t2 & Hrun2 & Hs2 & Hshrunk2).
  { intros k' fns' Hin.
    destruct (Hkeys k' fns') as (d' & -> & Hne' & Hfns'); [by right|].
    exists d'. split; [done|]. split; [done|].
    intros f Hf. unfold t1. rewrite files_at_prune_at; [by apply Hfns'|].
    intros ->. apply Hk_notin. apply list_elem_of_fmap.
    by exists (Some d, fns'). }
  exists h2, tr2, t2. split.
  { rewrite forM__cons.
    assert (Hstep : remove_deleted fuel self (Some d, fns) (mkState h tr)
              = Val (tt, mkState h1 tr1)).
    { specialize (Hrun (fuel - k - 1)%nat).
      replace (k + S (fuel - k - 1))%nat with fuel in Hrun by lia.
      etrans; [exact Hrun|]. by destruct (decide (root t = self)). }
    by rewrite (bind_Val _ _ _ _ _ Hstep). }
  split; [done|]. apply (shrunk_trans _ _ _ _ _ _ _ _ Hshrunk1 Hshrunk2).
Qed.

(** The loop over [deletedFolderMapping], on a tree with sub-projects. *)
Lemma remove_deleted_loop_cut (es : list (option positive * list positive)) :
  forall h tr t,
    held h par l t -> root t = self ->
    (height t + length l < fuel)%nat ->
    NoDup (map fst es) -> NoDup (flat_map snd es) ->
    (forall k fns, (k, fns) ∈ es ->
       exists d, k = Some d /\ fns <> [] /\
         forall f, f ∈ fns -> f ∈ files_at d t) ->
    exists h' tr' t',
      forM_ es (remove_deleted fuel self) (mkState h tr)
        = Val (tt, mkState h' tr') /\
      held h' par l t' /\ shrunk h h' (flat_map snd es) t t'.
Proof.
  induction es as [|[k fns] es IH]; intros h tr t Hheld Hroot Hfuel Hnd_keys
    Hnd_files Hkeys.
  { exists h, tr, t. split; [done|]. split; [done|apply shrunk_refl]. }
  simpl in Hnd_keys, Hnd_files.
  apply NoDup_cons in Hnd_keys as [Hk_notin Hnd_keys].
  apply NoDup_app in Hnd_files as (Hnd_fns & _ & Hnd_es).
  destruct (Hkeys k fns) as (d & -> & Hnonempty & Hfns); [by left|].
  pose proof Hheld as (Hh & Hnd_t & Hm & Hl_t).
  assert (Hd : d ∈ folders_of t).
  { destruct (decide (d ∈ folders_of t)) as [?|Hnot]; [done|].
    destruct fns as [|f fns]; [done|].
    specialize (Hfns f ltac:(by left)).
    rewrite (files_at_notin d t Hnot) in Hfns. by apply elem_of_nil in Hfns. }
  destruct (folders_of_files_at_holds t h par d Hh Hnd_t Hd)
    as (nd & Hnd_d & Hty_d & Hfiles_d & _).
  destruct (remove_deleted_climb_cut d fns self fuel t h par l tr Hh Hnd_t Hm
              Hl_t Hfuel ltac:(by left) (folders_of_nodes t d Hd)
              ltac:(exists nd; split; [done|]; split; [done|];
                    intros f Hf; rewrite Hfiles_d; by apply Hfns)
              Hnd_fns)
    as (k & h1 & tr1 & Hk & Hshape & Hgone & Hrun).
  set (t1 := prune_at d fns t) in *.
  assert (Hroot1 : root t1 = root t) by apply root_prune_at.
  assert (Hsub1 : nodes t1 `sublist_of` nodes t)
    by apply nodes_prune_at_sublist.
  assert (Hin1 : forall x, x ∈ nodes t1 -> x ∈ nodes t).
  { intros x Hx. by apply (elem_of_sublist _ _ _ Hx Hsub1). }
  assert (Hh1 : (height t1 <= height t)%nat) by apply height_prune_at.
  rewrite Forall_forall in Hl_t.
  assert (Hs1 : held h1 par l t1).
  { pose proof Hshape as (Hholds1 & _ & _ & Hframe1).
    split; [done|]. split; [exact (sublist_NoDup _ _ Hnd_t Hsub1)|]. split.
    - rewrite Hroot1. apply (managed_frame h); [done|].
      intros x [->|Hx]%elem_of_cons.
      + apply (cut_skeleton h h1 par t t1); [done|].
        rewrite <- Hroot1. apply root_in_nodes.
      + apply skeleton_agree, Hframe1. by apply Hl_t.
    - apply Forall_forall. intros x Hx Hx1. by apply (Hl_t x Hx), Hin1. }
  assert (Hshrunk1 : shrunk h h1 fns t t1).
  { split; [done|]. split; [by apply all_files_prune_at|].
    split; [|split; [by destruct Hshape as (_ & _ & _ & ?)|done]].
    intros x Hx. split; [by apply Hin1|].
    by apply (cut_skeleton h h1 par t t1). }
  destruct (IH h1 tr1 t1 Hs1 ltac:(congruence) ltac:(lia) Hnd_keys Hnd_es)
    as (h2 & tr2 & t2 & Hrun2 & Hs2 & Hshrunk2).
  { intros k' fns' Hin.
    destruct (Hkeys k' fns') as (d' & -> & Hne' & Hfns'); [by right|].
    exists d'. split; [done|]. split; [done|].
    intros f Hf. unfold t1. rewrite files_at_prune_at; [by apply Hfns'|].
    intros ->. apply Hk_notin. apply list_elem_of_fmap.
    by exists (Some d, fns'). }
  exists h2, tr2, t2. split.
  { rewrite forM__cons.
    assert (Hstep : remove_deleted fuel self (Some d, fns) (mkState h tr)
              = Val (tt, mkState h1 tr1)).
    { specialize (Hrun (fuel - k - 1)%nat).
      replace (k + S (fuel - k - 1))%nat with fuel in Hrun by lia.
      etrans; [exact Hrun|]. by destruct (decide (root t = self)). }
    by rewrite (bind_Val _ _ _ _ _ Hstep). }
  split; [done|]. apply (shrunk_trans _ _ _ _ _ _ _ _ Hshrunk1 Hshrunk2).
Qed.

(** The loop over [deletedFolderMapping], sub-projects or not. *)
Lemma remove_deleted_loop_when
    (es : list (option positive * list positive)) (h : gmap positive Node)
    (tr : list Event) (t : tree) :
  sound_when strict h par l t -> root t = self ->
  (height t + length l < fuel)%nat ->
  NoDup (map fst es) -> NoDup (flat_map snd es) ->
  (forall k fns, (k, fns) ∈ es ->
     exists d, k = Some d /\ fns <> [] /\
       forall f, f ∈ fns -> f ∈ files_at d t) ->
  exists h' tr' t',
    forM_ es (remove_deleted fuel self) (mkState h tr)
      = Val (tt, mkState h' tr') /\
    sound_after strict h' par l t' /\ shrunk h h' (flat_map snd es) t t'.
Proof.
  intros Hs Hroot Hfuel Hnd_keys Hnd_files Hkeys.
  destruct strict.
  - apply sound_sound_when in Hs. by apply remove_deleted_loop.
  - destruct Hs as (Hwf & Hnd & Hm & Hl & _).
    apply remove_deleted_loop_cut; auto.
    split; [by apply wf_tree_holds|]. by split.
Qed.

End buildTree_phases.
(** ** [buildTree] as a whole *)

Lemma partition_same (h : gmap positive Node) (oldFiles files : list positive) :
  Forall (fun a => is_Some (h !! a)) oldFiles ->
  Forall (fun a => is_Some (h !! a)) files ->
  map (path_of h) files ≡ₚ map (path_of h) oldFiles ->
  compareSortedLists (sortByPath h) (sort_by (sortByPath h) oldFiles)
    (sort_by (sortByPath h) files) = ([], []).
Proof.
  intros Hold Hnew Hperm.
  set (lt := sortByPath h).
  pose proof (sort_by_Permutation lt oldFiles) as HpermO.
  pose proof (sort_by_Permutation lt files) as HpermN.
  pose proof (sort_by_path_sorted h oldFiles Hold) as HsortedO.
  pose proof (sort_by_path_sorted h files Hnew) as HsortedN.
  fold lt in HsortedO, HsortedN.
  apply compareSortedLists_same, (same_rank_paths h).
  - by rewrite HpermO.
  - by rewrite HpermN.
  - apply (StronglySorted_unique path_le); [done|done|].
    by rewrite HpermO, HpermN.
Qed.

Lemma sound_when_agree (strict : bool) (h h' : gmap positive Node)
    (par : option positive) (l : list positive) (t : tree) :
  sound_when strict h par l t ->
  (forall x, x ∈ nodes t ++ l -> h' !! x = h !! x) ->
  sound_when strict h' par l t.
Proof.
  intros (Hwf & Hnd & Hm & Hl & Hnp) Hagree.
  split; [|split; [done|split; [|split; [done|]]]].
  - apply (wf_tree_frame h); [done|]. intros x Hx. apply Hagree, elem_of_app.
    by left.
  - apply (managed_agree h); [done|]. intros x [->|Hx]%elem_of_cons;
      apply Hagree, elem_of_app; [left; apply root_in_nodes|by right].
  - intros Hstrict y Hy Hne.
    rewrite (isProjectAt_agree h h'); [by apply (Hnp Hstrict)|].
    apply Hagree, elem_of_app. by left.
Qed.

Lemma new_folders_app (E : Platform) (h : gmap positive Node) (self : positive)
    (overrideBaseDir : FileName) (l k : list positive) :
  new_folders E h self overrideBaseDir (l ++ k)
    = (new_folders E h self overrideBaseDir l
       + new_folders E h self overrideBaseDir k)%nat.
Proof. unfold new_folders. by rewrite map_app, sum_list_with_app. Qed.

Lemma new_folders_perm (E : Platform) (h : gmap positive Node) (self : positive)
    (overrideBaseDir : FileName) (l k : list positive) :
  l ≡ₚ k ->
  new_folders E h self overrideBaseDir l = new_folders E h self overrideBaseDir k.
Proof. intros Hperm. unfold new_folders. by rewrite Hperm. Qed.

Lemma map_path_Permutation (h h' : gmap positive Node) (l k : list positive) :
  l ≡ₚ k -> (forall x, x ∈ k -> path_of h' x = path_of h x) ->
  map (path_of h') l ≡ₚ map (path_of h) k.
Proof.
  intros Hperm Hpaths. rewrite Hperm.
  rewrite (map_ext_in (path_of h') (path_of h) k); [done|].
  intros x Hx. by apply Hpaths, list_elem_of_In.
Qed.

Lemma path_of_skeleton (h h' : gmap positive Node) (x : positive) :
  skeleton h' x = skeleton h x -> path_of h' x = path_of h x.
Proof.
  unfold skeleton, path_of.
  destruct (h' !! x), (h !! x); simpl; try done. by intros [= _ _ ->].
Qed.

Lemma flat_map_Permutation {A B} (f : A -> list B) (l k : list A) :
  l ≡ₚ k -> flat_map f l ≡ₚ flat_map f k.
Proof.
  induction 1 as [|x l k _ IH|x y l|l k j _ IH1 _ IH2]; simpl.
  - done.
  - by rewrite IH.
  - by rewrite !app_assoc, (Permutation_app_comm (f y)).
  - by rewrite IH1.
Qed.

Section buildTree_sync.

Variable E : Platform.
Hypothesis E_lawful : lawful E.

(** [buildTree] on a folder whose files have the paths of the incoming
    files: the partitions are empty, the incoming nodes are destroyed, and
    nothing else happens: no object of the tree changes and no notification
    is sent. *)
Lemma buildTree_no_change_holds (t : tree) (fuel : nat)
    (h : gmap positive Node) (par : option positive) (tr : list Event)
    (files : list positive) (overrideBaseDir : FileName) :
  holds h par t -> (height t <= fuel)%nat -> (0 < fuel)%nat ->
  NoDup files -> Forall (loose_file h) files ->
  map (path_of h) files ≡ₚ map (path_of h) (all_files t) ->
  partitions fuel (root t) files (mkState h tr)
    = Val ((sort_by (sortByPath h) files, ([], [])), mkState h tr) /\
  buildTree E fuel (root t) files overrideBaseDir (mkState h tr)
    = Val (tt, mkState (delete_all files h) tr).
Proof.
  intros Hwf Hfuel Hpos Hnd Hloose Hpaths.
  assert (Hparts : partitions fuel (root t) files (mkState h tr)
            = Val ((sort_by (sortByPath h) files, ([], [])), mkState h tr)).
  { rewrite (partitions_holds t fuel h par tr files Hwf Hfuel).
    rewrite partition_same; [done| |by apply loose_file_alive|done].
    apply (all_files_alive_holds t h par Hwf). }
  split; [done|].
  set (fs := sort_by (sortByPath h) files) in *.
  assert (Hfs : fs ≡ₚ files) by apply sort_by_Permutation.
  unfold buildTree. rewrite (bind_Val _ _ _ _ _ Hparts).
  assert (Hdestroy : forM_ (subtractSortedList fs []) (destroy fuel)
            (mkState h tr) = Val (tt, mkState (delete_all files h) tr)).
  { unfold subtractSortedList. rewrite list_difference_nil_r.
    rewrite (destroy_loose_files fuel fs h tr);
      [|done|by rewrite Hfs|by rewrite Hfs].
    by rewrite (delete_all_Permutation fs files). }
  rewrite (bind_Val _ _ _ _ _ Hdestroy).
  simpl foldM at 1. rewrite ret_bind, (hash_order_empty E E_lawful).
  simpl forM_ at 1. rewrite ret_bind.
  simpl foldM at 1. rewrite ret_bind, (hash_order_empty E E_lawful). done.
Qed.

Lemma buildTree_no_change (t : tree) (fuel : nat) (h : gmap positive Node)
    (par : option positive) (tr : list Event) (files : list positive)
    (overrideBaseDir : FileName) :
  wf_tree h par t -> (height t <= fuel)%nat -> (0 < fuel)%nat ->
  NoDup files -> Forall (loose_file h) files ->
  map (path_of h) files ≡ₚ map (path_of h) (all_files t) ->
  partitions fuel (root t) files (mkState h tr)
    = Val ((sort_by (sortByPath h) files, ([], [])), mkState h tr) /\
  buildTree E fuel (root t) files overrideBaseDir (mkState h tr)
    = Val (tt, mkState (delete_all files h) tr).
Proof.
  intros Hwf. apply (buildTree_no_change_holds t fuel h par).
  by apply wf_tree_holds.
Qed.

(** [buildTree] brings the files below the folder in line with the incoming
    list.  On a folder whose tree is sound, sub-projects or not, with
    incoming file nodes that hang in no tree, [buildTree] returns; the store
    holds a tree then that has the root it had, and the paths of its files
    are the paths of the incoming files, as often as they come in.  Its
    files are files it had or incoming nodes, it is deeper by the new
    folders at most, and the objects outside the tree and the incoming list
    are as they were.  The tree is sound again when there was no
    sub-project. *)
Lemma buildTree_first_run_when (strict : bool) (t : tree) (fuel : nat)
    (h : gmap positive Node) (par : option positive) (l : list positive)
    (tr : list Event) (files : list positive) (overrideBaseDir : FileName) :
  sound_when strict h par l t ->
  NoDup files -> Forall (loose_file h) files ->
  Forall (fun a => a ∉ files) l ->
  (length l + height t + new_folders E h (root t) overrideBaseDir files
   < fuel)%nat ->
  exists h' tr' t',
    buildTree E fuel (root t) files overrideBaseDir (mkState h tr)
      = Val (tt, mkState h' tr') /\
    sound_after strict h' par l t' /\ root t' = root t /\
    map (path_of h') (all_files t') ≡ₚ map (path_of h) files /\
    (forall x, x ∈ all_files t' -> x ∈ all_files t \/ x ∈ files) /\
    (forall x, is_Some (h !! x) -> x ∉ nodes t -> x ∉ files ->
       h' !! x = h !! x) /\
    (height t' <= height t
       + new_folders E h (root t) overrideBaseDir files)%nat.
Proof.
  intros Hsound Hnd Hloose Hl_files Hfuel.
  pose proof Hsound as (Hwf & Hnd_t & Hm & Hl & Hnp).
  rewrite Forall_forall in Hloose. rewrite Forall_forall in Hl_files.
  set (lt := sortByPath h).
  set (fs := sort_by lt files). set (olds := sort_by lt (all_files t)).
  assert (Hfs : fs ≡ₚ files) by apply sort_by_Permutation.
  assert (Holds : olds ≡ₚ all_files t) by apply sort_by_Permutation.
  pose proof (partitions_spec t fuel h par tr files Hwf ltac:(lia)) as Hparts.
  fold lt in Hparts. fold fs in Hparts. fold olds in Hparts.
  destruct (compareSortedLists_split lt olds fs)
    as (keptOld & keptNew & HpO & HpN & Hrank).
  destruct (compareSortedLists lt olds fs) as [deleted added] eqn:Hcmp.
  simpl in HpO, HpN.
  assert (Hnd_fs : NoDup fs) by (by rewrite Hfs).
  assert (Hadded_files : forall x, x ∈ added -> x ∈ files).
  { intros x Hx. rewrite <- Hfs, HpN. apply elem_of_app. by right. }
  assert (Hnd_added : NoDup added).
  { rewrite HpN in Hnd_fs. by apply NoDup_app in Hnd_fs as (_ & _ & ?). }
  assert (Hnot_tree : forall x, x ∈ files -> x ∉ nodes t).
  { intros x Hx Hin. by apply (wf_tree_not_loose t h par x Hwf Hin), Hloose. }
  (* the incoming nodes that are not added are destroyed *)
  set (gone := subtractSortedList fs added).
  assert (Hgone : forall x, x ∈ gone -> x ∈ files /\ (x ∉ added)).
  { intros x Hx. apply list_elem_of_difference in Hx as [Hx1 Hx2].
    split; [by rewrite <- Hfs|done]. }
  set (hA := delete_all gone h).
  assert (Hdestroy : forM_ gone (destroy fuel) (mkState h tr)
            = Val (tt, mkState hA tr)).
  { apply destroy_loose_files; [lia|by apply NoDup_list_difference|].
    apply Forall_forall. intros x Hx. by apply Hloose, Hgone. }
  assert (HhA : forall x, x ∉ gone -> hA !! x = h !! x).
  { intros x Hx. unfold hA. rewrite lookup_delete_all.
    by rewrite decide_False. }
  assert (HsA : sound_when strict hA par l t).
  { apply (sound_when_agree strict h); [done|]. intros x Hx. apply HhA.
    intros Hin.
    apply Hgone in Hin as [Hin _].
    apply elem_of_app in Hx as [Hx|Hx]; [by apply (Hnot_tree x)|].
    by apply (Hl_files x). }
  assert (Hadded_A : forall x, x ∈ added -> hA !! x = h !! x).
  { intros x Hx. apply HhA. intros Hin. by apply Hgone in Hin as [_ ?]. }
  assert (Hself : root t ∈ nodes t) by apply root_in_nodes.
  assert (Hself_A : hA !! root t = h !! root t).
  { apply HhA. intros Hin. apply Hgone in Hin as [Hin _].
    by apply (Hnot_tree _ Hin). }
  assert (Hnf_added :
    (new_folders E hA (root t) overrideBaseDir added
     <= new_folders E h (root t) overrideBaseDir files)%nat).
  { rewrite (new_folders_ext E h hA).
    - rewrite <- (new_folders_perm E h _ _ fs files Hfs).
      rewrite (new_folders_perm E h _ _ fs _ HpN), new_folders_app. lia.
    - intros x [->|Hx]%elem_of_cons; unfold path_of;
        [by rewrite Hself_A|by rewrite Hadded_A]. }
  (* the folders of the files to add *)
  destruct (addedFolderMapping_when E E_lawful fuel (root t) overrideBaseDir
              par l strict added ∅ hA tr t HsA eq_refl)
    as (mB & hB & trB & tB & HrunB & HsB & HeB & HkeysB & HfilesB & HhB).
  { apply Forall_forall. intros x Hx. rewrite Hadded_A by done.
    destruct (Hloose x (Hadded_files x Hx)) as (nx & Hnx & _). eauto. }
  { apply map_Forall_empty. }
  { lia. }
  rewrite map_to_list_empty, app_nil_r in HfilesB.
  pose proof HeB as (HrootB & HfoldB & HallB & HframeB & HpathsB).
  (* the files are added *)
  set (esC := hash_order E mB).
  assert (HesC : esC ≡ₚ map_to_list mB) by apply (proj2 E_lawful).
  assert (HfilesC : flat_map snd esC ≡ₚ added).
  { by rewrite (flat_map_Permutation snd _ _ HesC). }
  assert (Hadded_B : forall x, x ∈ added -> hB !! x = h !! x /\ (x ∉ nodes tB)).
  { intros x Hx. destruct (HframeB x) as [Heq Hout].
    - rewrite Hadded_A by done.
      destruct (Hloose x (Hadded_files x Hx)) as (nx & Hnx & _). eauto.
    - by apply Hnot_tree, Hadded_files.
    - apply not_elem_of_nil.
    - split; [by rewrite Heq, Hadded_A|done]. }
  destruct (add_added_loop_when fuel par l strict esC hB trB tB HsB)
    as (hC & trC & tC & HrunC & HsC & HeC & HhC).
  { intros k fns Hin. rewrite HesC in Hin.
    apply elem_of_map_to_list in Hin. by apply (HkeysB k fns). }
  { by rewrite HfilesC. }
  { apply Forall_forall. intros x Hx. rewrite HfilesC in Hx.
    apply (loose_file_agree h); [by apply Hadded_B|].
    by apply Hloose, Hadded_files. }
  { apply Forall_forall. intros x Hx Hin. rewrite HfilesC in Hin.
    by apply (Hl_files x Hx), Hadded_files. }
  { lia. }
  pose proof HeC as (HrootC & HfoldC & HallC & HframeC & HpathsC).
  pose proof HsC as (HwfC & HndC & _).
  assert (HallC' : all_files tC ≡ₚ added ++ all_files t).
  { by rewrite HallC, HallB, HfilesC. }
  (* the files to remove, by their folders *)
  assert (Hdeleted : forall x, x ∈ deleted -> x ∈ all_files t).
  { intros x Hx. rewrite <- Holds, HpO. apply elem_of_app. by right. }
  assert (Hnd_deleted : NoDup deleted).
  { assert (Hnd_olds : NoDup olds).
    { rewrite Holds. by apply all_files_NoDup. }
    rewrite HpO in Hnd_olds. by apply NoDup_app in Hnd_olds as (_ & _ & ?). }
  destruct (deletedFolderMapping_spec par deleted hC trC tC HwfC HndC ∅)
    as (mD & HrunDm & HkeysD & HfilesD).
  { intros x Hx. rewrite HallC'. apply elem_of_app. right. by apply Hdeleted. }
  { apply map_Forall_empty. }
  rewrite map_to_list_empty, app_nil_r in HfilesD.
  set (esD := hash_order E mD).
  assert (HesD : esD ≡ₚ map_to_list mD) by apply (proj2 E_lawful).
  assert (HfilesD' : flat_map snd esD ≡ₚ deleted).
  { by rewrite (flat_map_Permutation snd _ _ HesD). }
  destruct (remove_deleted_loop_when fuel (root t) par l strict esD hC trC tC
              HsC)
    as (hD & trD & tD & HrunD & HsD & Hshrunk).
  { congruence. }
  { lia. }
  { rewrite HesD. apply NoDup_fst_map_to_list. }
  { by rewrite HfilesD'. }
  { intros k fns Hin. rewrite HesD in Hin.
    apply elem_of_map_to_list in Hin. by apply (HkeysD k fns). }
  destruct Hshrunk as (HrootD & HallD & HkeepD & HframeD & HheightD).
  exists hD, trD, tD. split.
  { unfold buildTree. rewrite (bind_Val _ _ _ _ _ Hparts). cbv beta iota.
    fold gone. rewrite (bind_Val _ _ _ _ _ Hdestroy).
    rewrite (bind_Val _ _ _ _ _ HrunB). fold esC.
    rewrite (bind_Val _ _ _ _ _ HrunC).
    rewrite (bind_Val _ _ _ _ _ HrunDm). exact HrunD. }
  split; [done|]. split; [congruence|].
  assert (HfilesT : all_files tD ≡ₚ added ++ keptOld).
  { apply (Permutation_app_inv_l deleted).
    rewrite <- HfilesD', <- HallD, HallC', <- Holds, HpO, HfilesD'.
    rewrite (Permutation_app_comm keptOld).
    by rewrite !app_assoc, (Permutation_app_comm deleted). }
  assert (Hkept_old : forall x, x ∈ keptOld -> x ∈ all_files t).
  { intros x Hx. rewrite <- Holds, HpO. apply elem_of_app. by left. }
  assert (Hstay : forall x, x ∈ added ++ keptOld ->
            is_Some (hA !! x) /\ hA !! x = h !! x).
  { intros x [Hx|Hx]%elem_of_app.
    - rewrite Hadded_A by done. split; [|done].
      destruct (Hloose x (Hadded_files x Hx)) as (nx & Hnx & _). eauto.
    - assert (Hin : x ∈ nodes t) by (by apply all_files_nodes, Hkept_old).
      assert (Heq : hA !! x = h !! x).
      { apply HhA. intros Hg. apply Hgone in Hg as [Hg _].
        by apply (Hnot_tree x). }
      split; [|done]. rewrite Heq. by apply (wf_tree_alive t h par). }
  split; [|split; [|split]].
  - rewrite <- Hfs, HpN, (Permutation_app_comm keptNew), map_app.
    rewrite <- (proj1 (same_rank_paths h keptOld keptNew
                        ltac:(apply Forall_forall; intros x Hx;
                              apply (wf_tree_alive t h par); [done|];
                              by apply all_files_nodes, Hkept_old)
                        ltac:(apply Forall_forall; intros x Hx;
                              destruct (Hloose x) as (nx & Hnx & _);
                              [rewrite <- Hfs, HpN; apply elem_of_app;
                               by left|eauto])) Hrank).
    rewrite <- map_app. apply map_path_Permutation; [done|].
    intros x Hx. destruct (Hstay x Hx) as [HaliveA HeqA].
    destruct (HpathsB x HaliveA) as [HaliveB HpB].
    destruct (HpathsC x HaliveB) as [HaliveC HpC].
    rewrite <- HfilesT in Hx.
    destruct (HkeepD x (all_files_nodes tD x Hx)) as [_ Hsk].
    rewrite (path_of_skeleton hC hD x Hsk), HpC, HpB.
    unfold path_of. by rewrite HeqA.
  - intros x Hx. rewrite HfilesT in Hx.
    apply elem_of_app in Hx as [Hx|Hx]; [right; by apply Hadded_files|left].
    by apply Hkept_old.
  - intros x Hx Hout Hnot.
    assert (HxA : hA !! x = h !! x).
    { apply HhA. intros Hin. by apply Hgone in Hin as [? _]. }
    destruct (HframeB x) as [HxB HoutB];
      [by rewrite HxA|done|apply not_elem_of_nil|].
    destruct (HframeC x) as [HxC HoutC]; [by rewrite HxB, HxA|done| |].
    { rewrite HfilesC. intros Hin. by apply Hnot, Hadded_files. }
    rewrite HframeD by done. congruence.
  - lia.
Qed.

Lemma buildTree_first_run (t : tree) (fuel : nat)
    (h : gmap positive Node) (par : option positive) (l : list positive)
    (tr : list Event) (files : list positive) (overrideBaseDir : FileName) :
  sound h par l t ->
  NoDup files -> Forall (loose_file h) files ->
  Forall (fun a => a ∉ files) l ->
  (length l + height t + new_folders E h (root t) overrideBaseDir files
   < fuel)%nat ->
  exists h' tr' t',
    buildTree E fuel (root t) files overrideBaseDir (mkState h tr)
      = Val (tt, mkState h' tr') /\
    sound h' par l t' /\ root t' = root t /\
    map (path_of h') (all_files t') ≡ₚ map (path_of h) files /\
    (forall x, x ∈ all_files t' -> x ∈ all_files t \/ x ∈ files) /\
    (forall x, is_Some (h !! x) -> x ∉ nodes t -> x ∉ files ->
       h' !! x = h !! x) /\
    (height t' <= height t
       + new_folders E h (root t) overrideBaseDir files)%nat.
Proof.
  intros Hs%sound_sound_when.
  apply (buildTree_first_run_when true t fuel h par l tr files overrideBaseDir Hs).
Qed.

End buildTree_sync.
(** ** [buildTree] twice *)

(** C1.  [buildTree] is idempotent.  On a folder whose tree is well formed
    and managed by a project, sub-projects or not, [buildTree] with the
    incoming file nodes [files1], which hang in no tree, returns, and the
    file nodes below the folder, as [recursiveFileNodes] lists them, then
    have the paths of the incoming nodes, each as often as it came in.  A
    second [buildTree] with other nodes [files2] of the same paths computes
    two empty partitions, nothing to delete and nothing to add; it destroys
    its incoming nodes and changes nothing else: it adds and removes no file
    node and no folder node and sends no notification. *)
Theorem buildTree_idempotent (E : Platform) (t : tree) (fuel : nat)
    (h : gmap positive Node) (par : option positive) (l : list positive)
    (tr : list Event) (files1 files2 : list positive)
    (overrideBaseDir : FileName) :
  lawful E ->
  wf_tree h par t -> NoDup (nodes t) -> managed h (root t) l ->
  Forall (fun x => x ∉ nodes t) l ->
  NoDup (files1 ++ files2) -> Forall (loose_file h) (files1 ++ files2) ->
  Forall (fun a => a ∉ files1) l ->
  map (path_of h) files2 ≡ₚ map (path_of h) files1 ->
  (length l + height t + new_folders E h (root t) overrideBaseDir files1
   < fuel)%nat ->
  exists h1 tr1 fs1,
    buildTree E fuel (root t) files1 overrideBaseDir (mkState h tr)
      = Val (tt, mkState h1 tr1) /\
    recursiveFileNodes fuel (root t) (mkState h1 tr1)
      = Val (fs1, mkState h1 tr1) /\
    map (path_of h1) fs1 ≡ₚ map (path_of h) files1 /\
    partitions fuel (root t) files2 (mkState h1 tr1)
      = Val ((sort_by (sortByPath h1) files2, ([], [])), mkState h1 tr1) /\
    buildTree E fuel (root t) files2 overrideBaseDir (mkState h1 tr1)
      = Val (tt, mkState (delete_all files2 h1) tr1).
Proof.
  intros HE Hwf Hnd_t Hm Hl_t Hnd Hloose Hl Hpaths Hfuel.
  apply NoDup_app in Hnd as (Hnd1 & Hdisj & Hnd2).
  apply Forall_app in Hloose as [Hloose1 Hloose2].
  destruct (buildTree_first_run_when E HE false t fuel h par l tr files1
              overrideBaseDir) as
    (h1 & tr1 & t1 & Hrun & Hs1 & Hroot & Hpaths1 & _ & Hframe & Hheight);
    [|done|done|done|done|].
  { split; [done|]. split; [done|]. split; [done|]. by split. }
  exists h1, tr1, (all_files t1). split; [done|].
  destruct Hs1 as (Hh1 & _).
  rewrite Forall_forall in Hloose2.
  assert (Hsame : forall x, x ∈ files2 -> h1 !! x = h !! x).
  { intros x Hx. destruct (Hloose2 x Hx) as (nx & Hnx & _).
    apply Hframe; [eauto| |].
    - intros Hin. by apply (wf_tree_not_loose t h par x Hwf Hin), Hloose2.
    - intros Hin. by apply (Hdisj x Hin). }
  rewrite <- Hroot.
  split; [apply (recursiveFileNodes_holds t1 fuel h1 par tr1 Hh1); lia|].
  split; [done|].
  apply (buildTree_no_change_holds E HE t1 fuel h1 par tr1 files2
           overrideBaseDir); [done|lia|lia|done| |].
  - apply Forall_forall. intros x Hx.
    apply (loose_file_agree h); [by apply Hsame|by apply Hloose2].
  - rewrite Hpaths1, <- Hpaths. apply map_path_Permutation; [done|].
    intros x Hx. unfold path_of. by rewrite Hsame.
Qed.

Lemma buildTree_idempotent_witness :
  exists h1 tr1 fs1,
    buildTree example_platform 5 1 [5%positive] "" nested_projects_scans
      = Val (tt, mkState h1 tr1) /\
    recursiveFileNodes 5 1 (mkState h1 tr1) = Val (fs1, mkState h1 tr1) /\
    map (path_of h1) fs1
      ≡ₚ map (path_of (heap nested_projects_scans)) [5%positive] /\
    partitions 5 1 [6%positive] (mkState h1 tr1)
      = Val ((sort_by (sortByPath h1) [6%positive], ([], [])),
             mkState h1 tr1) /\
    buildTree example_platform 5 1 [6%positive] "" (mkState h1 tr1)
      = Val (tt, mkState (delete_all [6%positive] h1) tr1).
Proof.
  apply (buildTree_idempotent example_platform nested_projects_tree 5
           (heap nested_projects_scans) None [] [] [5%positive]
           [6%positive] "").
  - apply example_platform_lawful.
  - solve_wf_tree.
  - solve_NoDup.
  - split; [|split].
    + eapply ancestors_root; reflexivity.
    + eexists. split; [reflexivity|discriminate].
    + apply Exists_cons_hd. reflexivity.
  - apply Forall_nil_2.
  - solve_NoDup.
  - repeat (apply Forall_cons_2; [solve_file_leaf|]). apply Forall_nil_2.
  - apply Forall_nil_2.
  - vm_compute. done.
  - vm_compute. lia.
Defined.

(** The two runs on the project with a sub-project: the first adds
    [/p/a.cpp], removes [/p/q/c.cpp] and with it the sub-project [/p/q],
    which is left empty; after it the project has the one file, and the
    second run leaves it so. *)
Example two_runs_on_nested_projects :
  exists h1 tr1 h2,
    buildTree example_platform 5 1 [5%positive] "" nested_projects_scans
      = Val (tt, mkState h1 tr1) /\
    (m_fileNodes <$> h1 !! 1%positive) = Some [5%positive] /\
    (m_folderNodes <$> h1 !! 1%positive) = Some [] /\
    h1 !! 2%positive = None /\ h1 !! 3%positive = None /\
    buildTree example_platform 5 1 [6%positive] "" (mkState h1 tr1)
      = Val (tt, mkState h2 tr1) /\
    h2 !! 1%positive = h1 !! 1%positive /\ h2 !! 5%positive = h1 !! 5%positive /\
    h2 !! 6%positive = None.
Proof.
  eexists _, _, _. split; [by vm_compute|].
  repeat split; by vm_compute.
Qed.
(** * Further properties of [projectnodes.cpp] *)

(** ** [FolderNode::buildTree] *)

(** [buildTree] brings the files below the folder in line with the incoming
    list.  On a folder whose tree is sound (well formed, managed by a
    project, without sub-projects), with incoming file nodes that hang in no
    tree, and fuel for the depth of the tree and the folders to make,
    [buildTree] returns; the tree it leaves is sound and has the root it
    had; the paths of its files are the paths of the incoming files, each as
    often as it comes in; every file of it is a file the tree had or an
    incoming node; it is deeper by the new folders at most; and the objects
    outside the tree and the incoming list are as they were. *)
Theorem buildTree_synchronises (E : Platform) (t : tree) (fuel : nat)
    (h : gmap positive Node) (par : option positive) (l : list positive)
    (tr : list Event) (files : list positive) (overrideBaseDir : FileName) :
  lawful E -> sound h par l t ->
  NoDup files -> Forall (loose_file h) files ->
  Forall (fun a => a ∉ files) l ->
  (length l + height t + new_folders E h (root t) overrideBaseDir files
   < fuel)%nat ->
  exists h' tr' t',
    buildTree E fuel (root t) files overrideBaseDir (mkState h tr)
      = Val (tt, mkState h' tr') /\
    sound h' par l t' /\ root t' = root t /\
    map (path_of h') (all_files t') ≡ₚ map (path_of h) files /\
    (forall x, x ∈ all_files t' -> x ∈ all_files t \/ x ∈ files) /\
    (forall x, is_Some (h !! x) -> x ∉ nodes t -> x ∉ files ->
       h' !! x = h !! x) /\
    (height t' <= height t
       + new_folders E h (root t) overrideBaseDir files)%nat.
Proof. intros HE. by apply buildTree_first_run. Qed.

Lemma small_project_scans_sound :
  sound (heap small_project_scans) None [] small_project_tree.
Proof.
  split; [solve_wf_tree|]. split; [solve_NoDup|]. split; [|split].
  - split; [|split].
    + eapply ancestors_root; reflexivity.
    + eexists. split; [reflexivity|discriminate].
    + apply Exists_cons_hd. reflexivity.
  - apply Forall_nil_2.
  - intros y Hy Hne. simpl in Hy.
    repeat (apply elem_of_cons in Hy as [->|Hy]; [try done|]).
    by apply elem_of_nil in Hy.
Qed.

Lemma buildTree_synchronises_witness :
  exists h' tr' t',
    buildTree example_platform 6 1 [5; 6]%positive "" small_project_scans
      = Val (tt, mkState h' tr') /\
    sound h' None [] t' /\ root t' = 1%positive /\
    map (path_of h') (all_files t')
      ≡ₚ map (path_of (heap small_project_scans)) [5; 6]%positive /\
    (forall x, x ∈ all_files t' ->
       x ∈ all_files small_project_tree \/ x ∈ [5; 6]%positive) /\
    (forall x, is_Some (heap small_project_scans !! x) ->
       x ∉ nodes small_project_tree -> x ∉ [5; 6]%positive ->
       h' !! x = heap small_project_scans !! x) /\
    (height t' <= height small_project_tree
       + new_folders example_platform (heap small_project_scans) 1 ""
           [5; 6]%positive)%nat.
Proof.
  apply (buildTree_synchronises example_platform small_project_tree 6
           (heap small_project_scans) None [] [] [5; 6]%positive "").
  - apply example_platform_lawful.
  - apply small_project_scans_sound.
  - solve_NoDup.
  - repeat (apply Forall_cons_2; [solve_file_leaf|]). apply Forall_nil_2.
  - apply Forall_nil_2.
  - vm_compute. lia.
Defined.

(** [buildTree] on a folder whose files have the paths of the incoming
    files already: both partitions are empty, the incoming nodes are
    destroyed, and nothing else happens: no object of the tree changes, no
    folder is made or removed and no notification is sent. *)
Theorem buildTree_in_sync (E : Platform) (t : tree) (fuel : nat)
    (h : gmap positive Node) (par : option positive) (tr : list Event)
    (files : list positive) (overrideBaseDir : FileName) :
  lawful E ->
  wf_tree h par t -> (height t <= fuel)%nat -> (0 < fuel)%nat ->
  NoDup files -> Forall (loose_file h) files ->
  map (path_of h) files ≡ₚ map (path_of h) (all_files t) ->
  partitions fuel (root t) files (mkState h tr)
    = Val ((sort_by (sortByPath h) files, ([], [])), mkState h tr) /\
  buildTree E fuel (root t) files overrideBaseDir (mkState h tr)
    = Val (tt, mkState (delete_all files h) tr).
Proof. intros HE. by apply buildTree_no_change. Qed.

Lemma buildTree_in_sync_witness :
  partitions 3 1 [5; 6]%positive small_project_same_scan
    = Val ((sort_by (sortByPath (heap small_project_same_scan))
              [5; 6]%positive, ([], [])), small_project_same_scan) /\
  buildTree example_platform 3 1 [5; 6]%positive "/p" small_project_same_scan
    = Val (tt, mkState (delete_all [5; 6]%positive
                          (heap small_project_same_scan)) []).
Proof.
  apply (buildTree_in_sync example_platform small_project_tree 3
           (heap small_project_same_scan) None [] [5; 6]%positive "/p").
  - apply example_platform_lawful.
  - solve_wf_tree.
  - simpl. lia.
  - lia.
  - solve_NoDup.
  - repeat (apply Forall_cons_2; [solve_file_leaf|]). apply Forall_nil_2.
  - vm_compute. apply Permutation_swap.
Defined.

(** [buildTree] twice.  After [buildTree] with the incoming nodes [files1],
    on a sound tree, a second [buildTree] with other nodes [files2] of the
    same paths computes two empty partitions; it destroys its incoming nodes
    and changes nothing else: it adds and removes no file and no folder and
    sends no notification. *)
Theorem buildTree_twice (E : Platform) (t : tree) (fuel : nat)
    (h : gmap positive Node) (par : option positive) (l : list positive)
    (tr : list Event) (files1 files2 : list positive)
    (overrideBaseDir : FileName) :
  lawful E -> sound h par l t ->
  NoDup (files1 ++ files2) -> Forall (loose_file h) (files1 ++ files2) ->
  Forall (fun a => a ∉ files1) l ->
  map (path_of h) files2 ≡ₚ map (path_of h) files1 ->
  (length l + height t + new_folders E h (root t) overrideBaseDir files1
   < fuel)%nat ->
  exists h1 tr1,
    buildTree E fuel (root t) files1 overrideBaseDir (mkState h tr)
      = Val (tt, mkState h1 tr1) /\
    partitions fuel (root t) files2 (mkState h1 tr1)
      = Val ((sort_by (sortByPath h1) files2, ([], [])), mkState h1 tr1) /\
    buildTree E fuel (root t) files2 overrideBaseDir (mkState h1 tr1)
      = Val (tt, mkState (delete_all files2 h1) tr1).
Proof.
  intros HE Hsound Hnd Hloose Hl Hpaths Hfuel.
  apply NoDup_app in Hnd as (Hnd1 & Hdisj & Hnd2).
  apply Forall_app in Hloose as [Hloose1 Hloose2].
  destruct (buildTree_first_run E HE t fuel h par l tr files1 overrideBaseDir
              Hsound Hnd1 Hloose1 Hl Hfuel)
    as (h1 & tr1 & t1 & Hrun & Hs1 & Hroot & Hpaths1 & _ & Hframe & Hheight).
  exists h1, tr1. split; [done|].
  destruct Hsound as (Hwf & _). destruct Hs1 as (Hwf1 & _).
  rewrite Forall_forall in Hloose2.
  assert (Hsame : forall x, x ∈ files2 -> h1 !! x = h !! x).
  { intros x Hx. destruct (Hloose2 x Hx) as (nx & Hnx & _).
    apply Hframe; [eauto| |].
    - intros Hin. by apply (wf_tree_not_loose t h par x Hwf Hin), Hloose2.
    - intros Hin. by apply (Hdisj x Hin). }
  rewrite <- Hroot.
  apply (buildTree_no_change E HE t1 fuel h1 par tr1 files2 overrideBaseDir);
    [done|lia|lia|done| |].
  - apply Forall_forall. intros x Hx.
    apply (loose_file_agree h); [by apply Hsame|by apply Hloose2].
  - rewrite Hpaths1, <- Hpaths. apply map_path_Permutation; [done|].
    intros x Hx. unfold path_of. by rewrite Hsame.
Qed.

Lemma buildTree_twice_witness :
  exists h1 tr1,
    buildTree example_platform 6 1 [5; 6]%positive "" small_project_scans
      = Val (tt, mkState h1 tr1) /\
    partitions 6 1 [7; 8]%positive (mkState h1 tr1)
      = Val ((sort_by (sortByPath h1) [7; 8]%positive, ([], [])),
             mkState h1 tr1) /\
    buildTree example_platform 6 1 [7; 8]%positive "" (mkState h1 tr1)
      = Val (tt, mkState (delete_all [7; 8]%positive h1) tr1).
Proof.
  apply (buildTree_twice example_platform small_project_tree 6
           (heap small_project_scans) None [] [] [5; 6]%positive
           [7; 8]%positive "").
  - apply example_platform_lawful.
  - apply small_project_scans_sound.
  - solve_NoDup.
  - repeat (apply Forall_cons_2; [solve_file_leaf|]). apply Forall_nil_2.
  - apply Forall_nil_2.
  - vm_compute. done.
  - vm_compute. lia.
Defined.

(** ** [FolderNode::recursiveFindOrCreateFolderNode] *)

(** On the root of a sound tree, with fuel for the depth of the tree and
    the parts of the relative path, [recursiveFindOrCreateFolderNode]
    returns a folder of the tree it leaves.  That tree is sound, has every
    folder and exactly the files of the old tree, and is deeper by the
    number of parts at most; every object of the old store outside the old
    tree is as it was and outside the new tree, and every object keeps its
    path. *)
Theorem recursiveFindOrCreateFolderNode_grows (E : Platform) (fuel : nat)
    (directory : string) (overrideBaseDir : FileName)
    (h : gmap positive Node) (tr : list Event) (par : option positive)
    (l : list positive) (t : tree) :
  lawful E -> sound h par l t ->
  (length l + height t
   + length (relative_parts E (base_path h (root t) overrideBaseDir) directory)
   <= fuel)%nat ->
  exists folder h' tr' t',
    recursiveFindOrCreateFolderNode E fuel (root t) directory overrideBaseDir
      (mkState h tr) = Val (folder, mkState h' tr') /\
    sound h' par l t' /\ extends h h' [] t t' /\ folder ∈ folders_of t' /\
    (height t' <= height t
       + length (relative_parts E (base_path h (root t) overrideBaseDir)
                   directory))%nat.
Proof.
  intros HE Hsound Hfuel.
  by apply (recursiveFindOrCreateFolderNode_spec E HE fuel (root t)).
Qed.

Lemma small_project_sound :
  sound (heap small_project) None [] small_project_tree.
Proof.
  split; [solve_wf_tree|]. split; [solve_NoDup|]. split; [|split].
  - split; [|split].
    + eapply ancestors_root; reflexivity.
    + eexists. split; [reflexivity|discriminate].
    + apply Exists_cons_hd. reflexivity.
  - apply Forall_nil_2.
  - intros y Hy Hne. simpl in Hy.
    repeat (apply elem_of_cons in Hy as [->|Hy]; [try done|]).
    by apply elem_of_nil in Hy.
Qed.

Lemma recursiveFindOrCreateFolderNode_grows_witness :
  exists folder h' tr' t',
    recursiveFindOrCreateFolderNode example_platform 4 1 "/p/x/y" ""
      small_project = Val (folder, mkState h' tr') /\
    sound h' None [] t' /\
    extends (heap small_project) h' [] small_project_tree t' /\
    folder ∈ folders_of t' /\
    (height t' <= height small_project_tree
       + length (relative_parts example_platform
                   (base_path (heap small_project) 1 "") "/p/x/y"))%nat.
Proof.
  apply (recursiveFindOrCreateFolderNode_grows example_platform 4 "/p/x/y" ""
           (heap small_project) [] None [] small_project_tree).
  - apply example_platform_lawful.
  - apply small_project_sound.
  - vm_compute. lia.
Defined.

(** ** [FolderNode::addFileNodes] *)

(** [addFileNodes] on a folder [d] of a tree that is well formed and
    managed, with distinct file nodes that hang in no tree and fuel for the
    depth of the tree: the call returns, and the store holds the tree with
    the nodes among the files of [d], each put in at its place in the order
    of addresses; the nodes of the old tree keep class, parent and path,
    and the objects outside the new tree are as they were.
    [recursiveFileNodes] on the root then lists the files the tree had and
    the added nodes, each once. *)
Theorem addFileNodes_on_tree (fuel : nat) (d : positive)
    (fns : list positive) (t : tree) (h : gmap positive Node)
    (par : option positive) (l : list positive) (tr : list Event) :
  wf_tree h par t -> NoDup (nodes t) -> managed h (root t) l ->
  Forall (fun x => x ∉ nodes t) l -> d ∈ folders_of t ->
  (length l + height t <= fuel)%nat ->
  NoDup fns -> Forall (loose_file h) fns ->
  exists s' files',
    addFileNodes fuel d fns (mkState h tr) = Val (tt, s') /\
    attached h (heap s') par t (update_at d (add_files fns) t) /\
    recursiveFileNodes fuel (root t) s' = Val (files', s') /\
    files' ≡ₚ fns ++ all_files t /\ NoDup files'.
Proof.
  intros Hwf Hnd Hm Hl Hd Hfuel Hnd_fns Hloose.
  destruct (addFileNodes_deep fuel d fns t h par l tr Hwf Hnd Hm Hl Hd Hfuel
              Hnd_fns Hloose) as ([h' tr'] & Hrun & Hatt & Hnew).
  set (t' := update_at d (add_files fns) t) in *.
  exists (mkState h' tr'), (all_files t'). split; [done|]. split; [done|].
  assert (Hall : all_files t' ≡ₚ fns ++ all_files t).
  { apply (update_at_measure all_files (fun a files => files));
      auto using root_add_files, all_files_add_files. }
  assert (Hheight : (height t' <= height t + 0)%nat).
  { apply height_update_at. intros s. apply height_add_files. }
  split; [|split; [done|]].
  - destruct Hatt as (Hwf' & _).
    rewrite <- (root_update_at d (add_files fns) t (root_add_files fns)).
    apply (recursiveFileNodes_spec t' fuel h' par tr' Hwf'). lia.
  - rewrite Hall. apply NoDup_app. split; [done|].
    split; [|by apply all_files_NoDup].
    intros x Hx Hin. rewrite Forall_forall in Hloose.
    apply (wf_tree_not_loose t h par x Hwf); [|by apply Hloose].
    by apply all_files_nodes.
Qed.

Lemma addFileNodes_on_tree_witness :
  exists s' files',
    addFileNodes 3 3 [6; 5]%positive small_project_same_scan = Val (tt, s') /\
    attached (heap small_project_same_scan) (heap s') None small_project_tree
      (update_at 3 (add_files [6; 5]%positive) small_project_tree) /\
    recursiveFileNodes 3 1 s' = Val (files', s') /\
    files' ≡ₚ [6; 5]%positive ++ all_files small_project_tree /\
    NoDup files'.
Proof.
  apply (addFileNodes_on_tree 3 3 [6; 5]%positive small_project_tree
           (heap small_project_same_scan) None [] []).
  - solve_wf_tree.
  - solve_NoDup.
  - split; [|split].
    + eapply ancestors_root; reflexivity.
    + eexists. split; [reflexivity|discriminate].
    + apply Exists_cons_hd. reflexivity.
  - apply Forall_nil_2.
  - simpl. set_solver.
  - simpl. lia.
  - solve_NoDup.
  - repeat (apply Forall_cons_2; [solve_file_leaf|]). apply Forall_nil_2.
Defined.
(** ** Lookups by path *)

Lemma find_by_path_first (l : list positive) (directory : FileName)
    (s : state) :
  Forall (fun c => is_Some (heap s !! c)) l ->
  exists r, find_by_path l directory s = Val (r, s) /\
    (forall c, r = Some c <->
       exists l1 l2, l = l1 ++ c :: l2 /\ path_of (heap s) c = directory /\
         forall x, x ∈ l1 -> path_of (heap s) x <> directory) /\
    (r = None <-> forall x, x ∈ l -> path_of (heap s) x <> directory).
Proof.
  induction l as [|c l IH]; intros Halive.
  { exists None. split; [done|]. split.
    - intros c. split; [done|]. intros (l1 & l2 & Hl & _). by destruct l1.
    - split; [|done]. intros _ x Hx. by apply elem_of_nil in Hx. }
  apply Forall_cons in Halive as [[nc Hnc] Halive].
  destruct (IH Halive) as (r & Hrun & Hsome & Hnone).
  cbn [find_by_path]. rewrite (bind_Val _ _ _ _ _ (deref_Val c s nc Hnc)).
  assert (Hpath : path_of (heap s) c = m_filePath nc).
  { unfold path_of. by rewrite Hnc. }
  destruct (String.eqb (m_filePath nc) directory) eqn:Heq.
  - apply String.eqb_eq in Heq. exists (Some c). split; [done|]. split.
    + intros c'. split.
      * intros [= <-]. exists [], l. split; [done|]. split; [congruence|].
        intros x Hx. by apply elem_of_nil in Hx.
      * intros (l1 & l2 & Hl & Hc' & Hl1). destruct l1 as [|y l1].
        -- simpl in Hl. by injection Hl as ->.
        -- simpl in Hl. injection Hl as <- _. destruct (Hl1 c); [by left|].
           congruence.
    + split; [done|]. intros Hall. destruct (Hall c); [by left|congruence].
  - apply String.eqb_neq in Heq. exists r. split; [done|]. split.
    + intros c'. rewrite Hsome. split.
      * intros (l1 & l2 & -> & Hc' & Hl1). exists (c :: l1), l2.
        split; [done|]. split; [done|].
        intros x [->|Hx]%elem_of_cons; [congruence|by apply Hl1].
      * intros (l1 & l2 & Hl & Hc' & Hl1). destruct l1 as [|y l1].
        -- simpl in Hl. injection Hl as <- _. congruence.
        -- simpl in Hl. injection Hl as <- ->. exists l1, l2.
           split; [done|]. split; [done|]. intros x Hx. apply Hl1. by right.
    + rewrite Hnone. split.
      * intros Hall x [->|Hx]%elem_of_cons; [congruence|by apply Hall].
      * intros Hall x Hx. apply Hall. by right.
Qed.

(** [fileNode], [folderNode] and [projectNode] answer the first child of
    their list whose path is the path asked for, and null exactly when no
    child of the list has that path; they change nothing. *)
Theorem lookup_by_path_first_match (self : positive) (path : FileName)
    (s : state) (n : Node) :
  heap s !! self = Some n ->
  Forall (fun c => is_Some (heap s !! c))
    (m_fileNodes n ++ m_folderNodes n ++ m_projectNodes n) ->
  exists r1 r2 r3,
    fileNode self path s = Val (r1, s) /\
    first_match (heap s) (m_fileNodes n) path r1 /\
    folderNode self path s = Val (r2, s) /\
    first_match (heap s) (m_folderNodes n) path r2 /\
    projectNode self path s = Val (r3, s) /\
    first_match (heap s) (m_projectNodes n) path r3.
Proof.
  intros Hn Halive.
  apply Forall_app in Halive as [Hfiles Halive].
  apply Forall_app in Halive as [Hfolders Hprojects].
  destruct (find_by_path_first _ path s Hfiles) as (r1 & Hrun1 & H1).
  destruct (find_by_path_first _ path s Hfolders) as (r2 & Hrun2 & H2).
  destruct (find_by_path_first _ path s Hprojects) as (r3 & Hrun3 & H3).
  exists r1, r2, r3. unfold fileNode, folderNode, projectNode.
  by rewrite !(bind_Val _ _ _ _ _ (deref_Val self s n Hn)).
Qed.

Lemma lookup_by_path_first_match_witness :
  exists r1 r2 r3,
    fileNode 1 "/p/sub" small_project = Val (r1, small_project) /\
    first_match (heap small_project) [2%positive] "/p/sub" r1 /\
    folderNode 1 "/p/sub" small_project = Val (r2, small_project) /\
    first_match (heap small_project) [3%positive] "/p/sub" r2 /\
    projectNode 1 "/p/sub" small_project = Val (r3, small_project) /\
    first_match (heap small_project) [] "/p/sub" r3.
Proof.
  apply (lookup_by_path_first_match 1 "/p/sub" small_project
           (mkFolderNode ProjectNodeType "/p" None [2%positive] [3%positive] [])
           eq_refl).
  simpl. repeat (apply Forall_cons_2; [by eexists|]). apply Forall_nil_2.
Defined.

(** [recursiveFileNode] starts its search path at the directory of the file
    and appends the parts of the relative path to it.  When the file lies
    in the directory of the folder itself (no parts), the answer is
    [fileNode(file)].  When there is a first part and no folder child has
    the path of the file's directory with that part appended, the answer is
    null, whatever the tree holds further down. *)
Theorem recursiveFileNode_search_path (E : Platform)
    (parentDir : FileName -> FileName) (self : positive) (file : FileName)
    (s : state) (n : Node) :
  heap s !! self = Some n ->
  Forall (fun c => is_Some (heap s !! c)) (m_folderNodes n) ->
  (relative_parts_of_file E parentDir n file = [] ->
   recursiveFileNode E parentDir self file s = fileNode self file s) /\
  (forall part rest,
     relative_parts_of_file E parentDir n file = part :: rest ->
     (forall c, c ∈ m_folderNodes n ->
        path_of (heap s) c <> appendPath E (parentDir file) part) ->
     recursiveFileNode E parentDir self file s = Val (None, s)).
Proof.
  intros Hn Halive. unfold recursiveFileNode, relative_parts_of_file.
  rewrite (bind_Val _ _ _ _ _ (deref_Val self s n Hn)). cbv zeta.
  split.
  - by intros ->.
  - intros part rest -> Hnone. cbn [recursiveFileNode_loop].
    rewrite (bind_Val _ _ _ _ _ (deref_Val self s n Hn)).
    destruct (find_by_path_first (m_folderNodes n)
                (appendPath E (parentDir file) part) s Halive)
      as (r & Hrun & _ & Hr).
    rewrite (bind_Val _ _ _ _ _ Hrun).
    by rewrite (proj2 Hr Hnone).
Qed.

Lemma recursiveFileNode_search_path_witness :
  recursiveFileNode example_platform (absolutePath example_platform) 1
    "/p/a.cpp" small_project = Val (Some 2%positive, small_project) /\
  recursiveFileNode example_platform (absolutePath example_platform) 1
    "/p/sub/b.cpp" small_project = Val (None, small_project).
Proof.
  destruct (recursiveFileNode_search_path example_platform
              (absolutePath example_platform) 1 "/p/a.cpp" small_project
              (mkFolderNode ProjectNodeType "/p" None [2%positive]
                 [3%positive] []) eq_refl) as [Hhere _].
  { repeat (apply Forall_cons_2; [by eexists|]). apply Forall_nil_2. }
  destruct (recursiveFileNode_search_path example_platform
              (absolutePath example_platform) 1 "/p/sub/b.cpp" small_project
              (mkFolderNode ProjectNodeType "/p" None [2%positive]
                 [3%positive] []) eq_refl) as [_ Hbelow].
  { repeat (apply Forall_cons_2; [by eexists|]). apply Forall_nil_2. }
  split.
  - rewrite Hhere; [|reflexivity]. reflexivity.
  - apply (Hbelow "sub" []); [reflexivity|].
    intros c Hc. apply list_elem_of_singleton in Hc. subst c.
    vm_compute. discriminate.
Defined.
(** ** [accept] and [recursiveFileNodes] *)

Lemma visit_of_agree (h : gmap positive Node) (a : positive) (n : Node) :
  h !! a = Some n ->
  visit_of h a =
    match m_nodeType n with
    | ProjectNodeType => visitProjectNode a
    | SessionNodeType => visitSessionNode a
    | _ => visitFolderNode a
    end.
Proof. intros Hn. unfold visit_of. by rewrite Hn. Qed.

(** [accept] on a folder or project whose tree is well formed, with fuel
    for the depth of the tree: the visitor is called once for every folder
    of the tree, the folder before the folders below it and these in the
    order of the folder lists, with [visitProjectNode] for a project and
    [visitFolderNode] for the other folders; the store is not changed. *)
Theorem accept_visits_folders_in_preorder (t : tree) (fuel : nat)
    (h : gmap positive Node) (par : option positive) (tr : list Event)
    (n : Node) :
  wf_tree h par t -> h !! root t = Some n ->
  m_nodeType n <> SessionNodeType -> (height t <= fuel)%nat ->
  accept fuel (root t) (mkState h tr)
    = Val (map (visit_of h) (folders_of t), mkState h tr).
Proof.
  revert fuel h par tr n.
  induction t as [a files folders IH] using tree_ind.
  intros fuel h par tr n0 Hwf Hn0 Hns Hfuel.
  inversion Hwf as [? ? n ? ? Ha Hty Hpar Hses Hfiles Hfolders Hproj Hprojty Hsf Hsd Hleaf Hkids];
    subst.
  simpl in Hn0. assert (n0 = n) as -> by congruence.
  pose proof (height_pos (Tree a (m_fileNodes n) folders)) as Hpos.
  destruct fuel as [|fuel]; [lia|].
  simpl root. cbn [accept].
  rewrite (bind_Val _ _ _ _ _ (deref_Val a (mkState h tr) n Ha)).
  assert (Hbelow : forall c, c ∈ folders ->
            accept fuel (root c) (mkState h tr)
              = Val (map (visit_of h) (folders_of c), mkState h tr)).
  { intros c Hc. rewrite Forall_forall in IH. rewrite Forall_forall in Hkids.
    pose proof (Hkids c Hc) as Hwfc.
    inversion Hwfc as [? ? nc ? ? Hc1 Hc2 Hc3 Hc4 Hc5 Hc6 Hc7 Hc8 Hc9 Hc10
                         Hc11 Hc12]; subst.
    apply (IH _ Hc fuel h (Some a) tr nc); [done|done| |].
    - apply Hc4. eauto.
    - pose proof (height_child a (m_fileNodes n) folders _ Hc). lia. }
  pose proof (mapM_pure_map (accept fuel) root
                (fun c => map (visit_of h) (folders_of c)) folders
                (mkState h tr) Hbelow) as Hrun.
  rewrite <- Hfolders in Hrun.
  assert (Hrest : concat (map (fun c => map (visit_of h) (folders_of c)) folders)
            = map (visit_of h) (flat_map folders_of folders)).
  { clear. induction folders as [|c folders IH]; [done|].
    simpl. by rewrite map_app, IH. }
  simpl folders_of. simpl map. rewrite (visit_of_agree h a n Ha).
  destruct (m_nodeType n); try done;
    by rewrite (bind_Val _ _ _ _ _ Hrun), <- Hrest.
Qed.

Lemma accept_visits_folders_in_preorder_witness :
  accept 2 1 small_project
    = Val ([visitProjectNode 1; visitFolderNode 3], small_project).
Proof.
  apply (accept_visits_folders_in_preorder small_project_tree 2
           (heap small_project) None []
           (mkFolderNode ProjectNodeType "/p" None [2%positive] [3%positive] [])).
  - solve_wf_tree.
  - reflexivity.
  - discriminate.
  - simpl. lia.
Defined.

(** [recursiveFileNodes] on a folder whose tree is well formed, with fuel
    for the depth of the tree, changes nothing and returns the files of the
    folder followed by those of its folder children, in the order of the
    lists; the list holds every file node of the tree once, and each of
    them is a file node that names its folder as parent. *)
Theorem recursiveFileNodes_lists_every_file_once (t : tree) (fuel : nat)
    (h : gmap positive Node) (par : option positive) (tr : list Event) :
  wf_tree h par t -> NoDup (nodes t) -> (height t <= fuel)%nat ->
  recursiveFileNodes fuel (root t) (mkState h tr)
    = Val (all_files t, mkState h tr) /\
  NoDup (all_files t) /\
  (forall x, x ∈ all_files t <->
     exists d, d ∈ folders_of t /\ x ∈ files_at d t /\ file_leaf h d x).
Proof.
  intros Hwf Hnd Hfuel.
  split; [by apply (recursiveFileNodes_spec t fuel h par)|].
  split; [by apply all_files_NoDup|].
  intros x. split; [by apply (all_files_folder t h par)|].
  intros (d & Hd & Hx & _). clear Hwf Hfuel. revert Hnd Hd Hx.
  induction t as [a files folders IH] using tree_ind. intros Hnd Hd Hx.
  simpl in Hx. simpl. apply elem_of_app.
  destruct (decide (a = d)) as [_|Hne]; [by left|right].
  apply elem_of_flat_map in Hx as (c & Hc & Hx).
  apply elem_of_flat_map. exists c. split; [done|].
  rewrite Forall_forall in IH.
  simpl in Hnd. apply NoDup_cons in Hnd as [_ Hnd].
  apply NoDup_app in Hnd as (_ & _ & Hnd_kids).
  apply (IH c Hc); [by apply (NoDup_flat_map_elem nodes folders)| |done].
  destruct (decide (d ∈ folders_of c)) as [?|Hnot]; [done|].
  rewrite (files_at_notin d c Hnot) in Hx. by apply elem_of_nil in Hx.
Qed.

Lemma recursiveFileNodes_lists_every_file_once_witness :
  recursiveFileNodes 2 1 small_project
    = Val ([2; 4]%positive, small_project) /\
  NoDup [2; 4]%positive /\
  (forall x, x ∈ [2; 4]%positive <->
     exists d, d ∈ folders_of small_project_tree /\
       x ∈ files_at d small_project_tree /\
       file_leaf (heap small_project) d x).
Proof.
  apply (recursiveFileNodes_lists_every_file_once small_project_tree 2
           (heap small_project) None []).
  - solve_wf_tree.
  - solve_NoDup.
  - simpl. lia.
Defined.
(** ** Deleting, and the managing project *)

(** [delete] on a folder whose tree is well formed, with fuel for the
    depth of the tree: the destructor returns, every node of the tree is
    gone, every other object is as it was, and no notification is sent. *)
Theorem destroy_deletes_exactly_the_tree (fuel : nat) (t : tree)
    (h : gmap positive Node) (parent : option positive) (tr : list Event) :
  wf_tree h parent t -> NoDup (nodes t) -> (height t < fuel)%nat ->
  exists h',
    destroy fuel (root t) (mkState h tr) = Val (tt, mkState h' tr) /\
    (forall x, x ∈ nodes t -> h' !! x = None) /\
    (forall x, x ∉ nodes t -> h' !! x = h !! x).
Proof.
  intros Hwf Hnd Hfuel. exists (delete_all (nodes t) h).
  split; [by apply (destroy_spec fuel t h parent)|].
  split; intros x Hx; rewrite lookup_delete_all.
  - by rewrite decide_True.
  - by rewrite decide_False.
Qed.

Lemma destroy_deletes_exactly_the_tree_witness :
  exists h',
    destroy 2 3 small_project = Val (tt, mkState h' []) /\
    (forall x, x ∈ [3; 4]%positive -> h' !! x = None) /\
    (forall x, x ∉ [3; 4]%positive -> h' !! x = heap small_project !! x).
Proof.
  apply (destroy_deletes_exactly_the_tree 2 (Tree 3 [4%positive] [])
           (heap small_project) (Some 1%positive) []).
  - solve_wf_tree.
  - solve_NoDup.
  - simpl. lia.
Defined.

(** [parentProjectNode] and [managingProject] along a finite chain of
    parents, with fuel for its length: [parentProjectNode] answers the
    nearest ancestor that is a project, or null; [managingProject] answers
    null for the session, else the nearest project ancestor, else the node
    itself when it is a project, else null. *)
Theorem managingProject_nearest_project (h : gmap positive Node)
    (a : positive) (l : list positive) (fuel : nat) (n : Node) :
  ancestors h a l -> (length l < fuel)%nat -> h !! a = Some n ->
  parentProjectNode fuel h a
    = Val (head (filter (fun p => isProjectAt h p = true) l)) /\
  managingProject fuel h a
    = Val (if asSessionNode n then None
           else match head (filter (fun p => isProjectAt h p = true) l) with
                | Some pn => Some pn
                | None => if asProjectNode n then Some a else None
                end).
Proof.
  intros Hanc Hlen Hn.
  pose proof (parentProjectNode_chain h a l fuel Hanc Hlen) as Hpp.
  split; [done|]. unfold managingProject. rewrite Hn, Hpp.
  destruct (asSessionNode n); [done|].
  by destruct (head (filter (fun p => isProjectAt h p = true) l)).
Qed.

Lemma managingProject_nearest_project_witness :
  parentProjectNode 3 (heap small_project) 4 = Val (Some 1%positive) /\
  managingProject 3 (heap small_project) 4 = Val (Some 1%positive).
Proof.
  apply (managingProject_nearest_project (heap small_project) 4
           [3; 1]%positive 3 (mkFileNode "/p/sub/b.cpp" (Some 3%positive))).
  - eapply ancestors_step; [reflexivity|reflexivity|].
    eapply ancestors_step; [reflexivity|reflexivity|].
    eapply ancestors_root; reflexivity.
  - simpl. lia.
  - reflexivity.
Defined.

(** ** Removing what is not there *)

Lemma seek_loop_notin (rest : list positive) (it : nat) (target : positive) :
  target ∉ rest -> seek_loop rest it target = None.
Proof.
  revert it. induction rest as [|x rest IH]; intros it Hnot; [done|].
  apply not_elem_of_cons in Hnot as [Hne Hnot]. simpl.
  rewrite decide_False by done. by apply IH.
Qed.

(** [removeFileNodes] and [removeFolderNodes] on a managed folder, with a
    node that is not in the list of the folder (for [removeFolderNodes], a
    live node): the loop [while ( *iter != *toRemoveIter) ++iter] runs past
    the end of the list, for the [QTC_ASSERT] in it only prints a message;
    the call has undefined behaviour, it does not return. *)
Theorem remove_foreign_node_runs_off_the_list (fuel : nat) (self : positive)
    (l : list positive) (h : gmap positive Node) (n : Node)
    (tr : list Event) (x : positive) :
  h !! self = Some n -> managed h self l -> (length l < fuel)%nat ->
  (x ∉ m_fileNodes n ->
   removeFileNodes fuel self [x] (mkState h tr) = Fail UndefinedBehaviour) /\
  (x ∉ m_folderNodes n -> is_Some (h !! x) ->
   removeFolderNodes fuel self [x] (mkState h tr) = Fail UndefinedBehaviour).
Proof.
  intros Hn Hm Hlen. split.
  - intros Hx. unfold removeFileNodes.
    rewrite (Q_ASSERT_managed fuel self l) by done.
    change (is_nil [x]) with false. cbv iota.
    change (sort_ptr [x]) with [x].
    unfold bind, emit, foldM, removeFileNodes_step, bind, deref. simpl.
    rewrite Hn. unfold seek. rewrite seek_loop_notin; [done|].
    by rewrite drop_0.
  - intros Hx [nx Hnx]. unfold removeFolderNodes.
    rewrite (Q_ASSERT_managed fuel self l) by done.
    change (is_nil [x]) with false. cbv iota.
    change (sort_ptr [x]) with [x].
    unfold bind, emit, foldM, removeFolderNodes_step, bind, deref. simpl.
    rewrite Hnx. unfold QTC_ASSERT, qDebug, ret.
    destruct (negb (asProjectNode nx)); simpl; rewrite Hn; unfold seek;
      (rewrite seek_loop_notin; [done|by rewrite drop_0]).
Qed.

Lemma remove_foreign_node_runs_off_the_list_witness :
  removeFileNodes 2 1 [4%positive] small_project = Fail UndefinedBehaviour /\
  removeFolderNodes 2 3 [1%positive] small_project = Fail UndefinedBehaviour.
Proof.
  split.
  - destruct (remove_foreign_node_runs_off_the_list 2 1 []
                (heap small_project)
                (mkFolderNode ProjectNodeType "/p" None [2%positive]
                   [3%positive] []) [] 4 eq_refl) as [Hfile _].
    + split; [|split].
      * eapply ancestors_root; reflexivity.
      * eexists. split; [reflexivity|discriminate].
      * apply Exists_cons_hd. reflexivity.
    + simpl. lia.
    + apply Hfile. simpl. set_solver.
  - destruct (remove_foreign_node_runs_off_the_list 2 3 [1%positive]
                (heap small_project)
                (mkFolderNode FolderNodeType "/p/sub" (Some 1%positive)
                   [4%positive] [] []) [] 1 eq_refl) as [_ Hfolder].
    + split; [|split].
      * eapply ancestors_step; [reflexivity|reflexivity|].
        eapply ancestors_root; reflexivity.
      * eexists. split; [reflexivity|discriminate].
      * apply Exists_cons_tl, Exists_cons_hd. reflexivity.
    + simpl. lia.
    + apply Hfolder; [simpl; set_solver|by eexists].
Defined.

(** [removeFolderNodes] with a sub-project of the folder: the [QTC_ASSERT]
    that asks for [removeProjectNodes] only prints its message; the
    sub-project is deleted and erased from [m_folderNodes], and
    [m_projectNodes] still holds the pointer to it. *)
Theorem removeFolderNodes_leaves_project_entry (fuel : nat) (self : positive)
    (l : list positive) (h : gmap positive Node) (par : option positive)
    (files : list positive) (folders : list tree) (n : Node)
    (tr : list Event) (p : positive) :
  wf_tree h par (Tree self files folders) ->
  NoDup (nodes (Tree self files folders)) ->
  managed h self l -> (length l < fuel)%nat ->
  (height (Tree self files folders) <= fuel)%nat ->
  h !! self = Some n -> p ∈ m_projectNodes n ->
  exists h' tr' n',
    removeFolderNodes fuel self [p] (mkState h tr)
      = Val (tt, mkState h' tr') /\
    h' !! p = None /\ h' !! self = Some n' /\
    p ∈ m_projectNodes n' /\ (p ∉ m_folderNodes n').
Proof.
  intros Hwf Hnd Hm Hlen Hheight Hn Hp.
  pose proof Hwf as Hwf'.
  inversion Hwf' as [? ? n0 ? ? Ha Hty Hpar Hses Hfiles Hfolders Hproj Hprojty Hsf Hsd Hleaf Hkids];
    subst.
  assert (n0 = n) as -> by congruence.
  assert (Hp_root : p ∈ map root folders).
  { rewrite Hproj in Hp. by apply list_elem_of_filter in Hp as [_ ?]. }
  assert (Hp_self : p <> self).
  { intros ->. simpl in Hnd. apply NoDup_cons in Hnd as [Hnot _].
    apply Hnot, elem_of_app. right.
    apply list_elem_of_fmap in Hp_root as (c & Hc1 & Hc).
    apply elem_of_flat_map. exists c. split; [done|]. rewrite Hc1.
    apply root_in_nodes. }
  eexists _, _, _. split.
  - apply (removeFolderNodes_spec fuel self l h (m_parentFolderNode n)
             (m_fileNodes n) folders n tr [p]); auto using NoDup_singleton.
    by intros q ->%list_elem_of_singleton.
  - split; [|split; [apply lookup_insert_eq|split]].
    + rewrite lookup_insert_ne by done. rewrite lookup_delete_all.
      rewrite decide_True; [done|]. simpl. rewrite app_nil_r.
      by apply root_in_subtree.
    + done.
    + simpl. intros Hin. apply list_elem_of_difference in Hin as [_ Hin].
      apply Hin. by left.
Qed.

Lemma removeFolderNodes_leaves_project_entry_witness :
  exists h' tr' n',
    removeFolderNodes 3 1 [2%positive] (mkState nested_projects [])
      = Val (tt, mkState h' tr') /\
    h' !! 2%positive = None /\ h' !! 1%positive = Some n' /\
    2%positive ∈ m_projectNodes n' /\ (2%positive ∉ m_folderNodes n').
Proof.
  apply (removeFolderNodes_leaves_project_entry 3 1 [] nested_projects None
           [] [Tree 2 [3%positive] []]
           (mkFolderNode ProjectNodeType "/p" None [] [2%positive]
              [2%positive]) [] 2).
  - solve_wf_tree.
  - solve_NoDup.
  - split; [|split].
    + eapply ancestors_root; reflexivity.
    + eexists. split; [reflexivity|discriminate].
    + apply Exists_cons_hd. reflexivity.
  - simpl. lia.
  - simpl. lia.
  - reflexivity.
  - simpl. set_solver.
Defined.

(** ** Adding files and removing them again *)

Lemma addFileNodes_run (fuel : nat) (d : positive) (l : list positive)
    (h : gmap positive Node) (n : Node) (tr : list Event)
    (fns : list positive) :
  h !! d = Some n -> managed h d l -> (length l < fuel)%nat ->
  d ∉ fns -> NoDup fns -> Forall (fun f => is_Some (h !! f)) fns ->
  addFileNodes fuel d fns (mkState h tr)
    = Val (tt,
           mkState (<[d := set_fileNodes (foldl insert_node (m_fileNodes n) fns) n]>
                      (adopt d fns h))
                   (tr ++ if is_nil fns then []
                          else [FilesAboutToBeAdded d fns; FilesAdded d])).
Proof.
  intros Hd Hm Hlen Hd_fns Hnd Halive.
  unfold addFileNodes. rewrite (Q_ASSERT_managed _ _ l) by done.
  destruct (is_nil fns) eqn:Hnil.
  { assert (Hfns : fns = []) by (by destruct fns).
    rewrite Hfns. simpl. by rewrite set_fileNodes_id, insert_id, app_nil_r. }
  set (tr1 := tr ++ [FilesAboutToBeAdded d fns]).
  assert (Hemit : emit (FilesAboutToBeAdded d fns) (mkState h tr)
            = Val (tt, mkState h tr1)) by done.
  rewrite (bind_Val _ _ _ _ _ Hemit).
  rewrite (bind_Val _ _ _ _ _
             (addFileNodes_loop d fns h n tr1 Hd Hd_fns Hnd Halive)).
  unfold emit. simpl. unfold tr1. by rewrite <- app_assoc.
Qed.

(** [addFileNodes] and then [removeFileNodes] with the same nodes, on a
    managed folder whose file list ascends by address, with distinct nodes
    that hang in no tree: both calls return, the nodes are deleted, and
    the store is otherwise the one before the two calls; the folder has
    its old file list again.  The four notifications of the two calls are
    sent. *)
Theorem addFileNodes_removeFileNodes_round_trip (fuel : nat) (d : positive)
    (l : list positive) (h : gmap positive Node) (n : Node)
    (tr : list Event) (fns : list positive) :
  h !! d = Some n -> managed h d l -> (length l < fuel)%nat ->
  StronglySorted Pos.lt (m_fileNodes n) ->
  NoDup fns -> Forall (loose_file h) fns ->
  (forall f, f ∈ fns -> f ∉ m_fileNodes n) ->
  Forall (fun a => a ∉ fns) l ->
  exists h1 tr1,
    addFileNodes fuel d fns (mkState h tr) = Val (tt, mkState h1 tr1) /\
    removeFileNodes fuel d fns (mkState h1 tr1)
      = Val (tt, mkState (delete_all fns h)
                   (tr ++ if is_nil fns then []
                          else [FilesAboutToBeAdded d fns; FilesAdded d;
                                FilesAboutToBeRemoved d (sort_ptr fns);
                                FilesRemoved d])).
Proof.
  intros Hd Hm Hlen Hsorted Hnd Hloose Hnew Hl.
  rewrite Forall_forall in Hloose. rewrite Forall_forall in Hl.
  assert (Hd_fns : d ∉ fns).
  { intros Hin. destruct (Hloose d Hin) as (nd & Hnd_d & Hfile & Hpar & _).
    assert (nd = n) as -> by congruence.
    destruct Hm as (Hanc & _ & Hex).
    inversion Hanc as [? ? Ha Hp|? ? ? ? Ha Hp]; subst; [|congruence].
    apply Exists_cons in Hex as [Hproj|Hex]; [|by apply Exists_nil in Hex].
    unfold isProjectAt in Hproj. rewrite Hd in Hproj.
    apply bool_decide_eq_true in Hproj. congruence. }
  set (F := foldl insert_node (m_fileNodes n) fns).
  set (n1 := set_fileNodes F n).
  set (h1 := <[d := n1]> (adopt d fns h)).
  set (tr1 := tr ++ if is_nil fns then []
                    else [FilesAboutToBeAdded d fns; FilesAdded d]).
  assert (HF : F ≡ₚ m_fileNodes n ++ fns) by apply foldl_insert_node_Permutation.
  assert (Hnd_F : NoDup F).
  { rewrite HF. apply NoDup_app. split; [by apply StronglySorted_lt_NoDup|].
    split; [|done]. intros x Hx Hin. by apply (Hnew x Hin). }
  assert (Hsorted_F : StronglySorted Pos.lt F).
  { apply StronglySorted_le_lt; [|done].
    by apply foldl_insert_node_sorted, StronglySorted_lt_le. }
  exists h1, tr1. split.
  { apply (addFileNodes_run fuel d l); auto.
    apply Forall_forall. intros f Hf.
    destruct (Hloose f Hf) as (nf & Hnf & _). eauto. }
  assert (Hh1 : forall x, x <> d -> x ∉ fns -> h1 !! x = h !! x).
  { intros x Hxd Hx. unfold h1. rewrite lookup_insert_ne by done.
    rewrite lookup_adopt. by rewrite decide_False. }
  rewrite (removeFileNodes_spec fuel d l h1 n1 tr1 fns).
  - f_equal. f_equal. f_equal.
    + assert (Hback : list_difference F fns = m_fileNodes n).
      { assert (Hanti : AntiSymm eq Pos.le)
          by (intros x y; apply Pos.le_antisym).
        apply (StronglySorted_unique Pos.le).
        - apply StronglySorted_lt_le. rewrite list_difference_filter.
          by apply StronglySorted_filter.
        - by apply StronglySorted_lt_le.
        - apply NoDup_Permutation.
          + by apply NoDup_list_difference.
          + by apply StronglySorted_lt_NoDup.
          + intros x. rewrite list_elem_of_difference, HF, elem_of_app.
            split; [intros [[?|?] ?]; by auto|].
            intros Hx. split; [by left|]. intros Hin. by apply (Hnew x Hin). }
      simpl m_fileNodes. rewrite Hback. unfold n1.
      rewrite set_fileNodes_twice, set_fileNodes_id.
      apply map_eq. intros x. destruct (decide (x = d)) as [->|Hxd].
      * rewrite lookup_insert_eq, lookup_delete_all.
        by rewrite decide_False.
      * rewrite lookup_insert_ne by done. rewrite !lookup_delete_all.
        destruct (decide (x ∈ fns)); [done|]. by apply Hh1.
    + unfold tr1. destruct (is_nil fns); [by rewrite !app_nil_r|].
      by rewrite <- app_assoc.
  - apply lookup_insert_eq.
  - apply (managed_frame h); [done|]. intros x Hx.
    destruct (decide (x = d)) as [->|Hxd].
    + unfold h1. by apply (skeleton_insert h d n).
    + apply skeleton_agree, Hh1; [done|].
      apply elem_of_cons in Hx as [?|Hx]; [done|]. by apply Hl.
  - done.
  - done.
  - done.
  - intros f Hf. simpl. fold F. rewrite HF. apply elem_of_app. by right.
  - apply Forall_forall. intros f Hf.
    destruct (Hloose f Hf) as (nf & Hnf & Hfile & _ & Hf1 & Hf2 & Hf3).
    exists (set_parentFolderNode (Some d) nf). split; [|done].
    unfold h1. rewrite lookup_insert_ne by (by intros ->).
    rewrite lookup_adopt, decide_True by done. by rewrite Hnf.
Qed.

Lemma addFileNodes_removeFileNodes_round_trip_witness :
  exists h1 tr1,
    addFileNodes 2 3 [6; 5]%positive small_project_same_scan
      = Val (tt, mkState h1 tr1) /\
    removeFileNodes 2 3 [6; 5]%positive (mkState h1 tr1)
      = Val (tt, mkState (delete_all [6; 5]%positive
                            (heap small_project_same_scan))
                   [FilesAboutToBeAdded 3 [6; 5]%positive; FilesAdded 3;
                    FilesAboutToBeRemoved 3 (sort_ptr [6; 5]%positive);
                    FilesRemoved 3]).
Proof.
  apply (addFileNodes_removeFileNodes_round_trip 2 3 [1%positive]
           (heap small_project_same_scan)
           (mkFolderNode FolderNodeType "/p/sub" (Some 1%positive)
              [4%positive] [] []) [] [6; 5]%positive).
  - reflexivity.
  - split; [|split].
    + eapply ancestors_step; [reflexivity|reflexivity|].
      eapply ancestors_root; reflexivity.
    + eexists. split; [reflexivity|discriminate].
    + apply Exists_cons_tl, Exists_cons_hd. reflexivity.
  - simpl. lia.
  - solve_NoDup.
  - solve_NoDup.
  - repeat (apply Forall_cons_2; [solve_file_leaf|]). apply Forall_nil_2.
  - intros f Hf. simpl. set_solver.
  - apply Forall_cons_2; [set_solver|apply Forall_nil_2].
Defined.

(** ** Removing children of a folder of a tree *)

(** [removeFileNodes] with distinct files of a managed folder whose tree is
    well formed, and [removeFolderNodes] with distinct folder children of
    it that are no projects: each call returns; the files, respectively the
    folders with everything below them, are gone from the store; the store
    holds the tree without them, the folder itself staying even when it is
    left empty; the nodes that stay keep class, parent and path, and the
    objects outside the tree are as they were. *)
Theorem remove_children_reshapes_tree (fuel : nat) (a : positive)
    (l : list positive) (h : gmap positive Node) (par : option positive)
    (files : list positive) (folders : list tree) (tr : list Event)
    (fns drop : list positive) :
  wf_tree h par (Tree a files folders) ->
  NoDup (nodes (Tree a files folders)) ->
  managed h a l -> (length l < fuel)%nat ->
  (height (Tree a files folders) <= fuel)%nat ->
  NoDup fns -> (forall f, f ∈ fns -> f ∈ files) ->
  NoDup drop -> (forall r, r ∈ drop -> r ∈ map root folders) ->
  (forall r, r ∈ drop -> isProjectAt h r = false) ->
  (exists h' tr',
     removeFileNodes fuel a fns (mkState h tr) = Val (tt, mkState h' tr') /\
     reshaped h h' par (Tree a files folders)
       (Tree a (list_difference files fns) folders)) /\
  (exists h' tr',
     removeFolderNodes fuel a drop (mkState h tr) = Val (tt, mkState h' tr') /\
     reshaped h h' par (Tree a files folders)
       (Tree a files (filter (fun c => root c ∉ drop) folders))).
Proof.
  intros Hwf Hnd Hm Hlen Hheight Hnd_fns Hfns Hnd_drop Hdrop Hnp. split.
  - by apply (removeFileNodes_reshaped fuel a l).
  - by apply (removeFolderNodes_reshaped fuel a l).
Qed.

Lemma remove_children_reshapes_tree_witness :
  (exists h' tr',
     removeFileNodes 2 1 [2%positive] small_project
       = Val (tt, mkState h' tr') /\
     reshaped (heap small_project) h' None small_project_tree
       (Tree 1 (list_difference [2%positive] [2%positive])
          [Tree 3 [4%positive] []])) /\
  (exists h' tr',
     removeFolderNodes 2 1 [3%positive] small_project
       = Val (tt, mkState h' tr') /\
     reshaped (heap small_project) h' None small_project_tree
       (Tree 1 [2%positive]
          (filter (fun c => root c ∉ [3%positive]) [Tree 3 [4%positive] []]))).
Proof.
  apply (remove_children_reshapes_tree 2 1 [] (heap small_project) None
           [2%positive] [Tree 3 [4%positive] []] [] [2%positive] [3%positive]).
  - solve_wf_tree.
  - solve_NoDup.
  - split; [|split].
    + eapply ancestors_root; reflexivity.
    + eexists. split; [reflexivity|discriminate].
    + apply Exists_cons_hd. reflexivity.
  - simpl. lia.
  - simpl. lia.
  - solve_NoDup.
  - intros f Hf. done.
  - solve_NoDup.
  - intros r Hr. done.
  - intros r Hr. apply list_elem_of_singleton in Hr. by subst r.
Defined.
(** ** [addProjectNodes] *)

Lemma addProjectNodes_loop (cond : positive -> Node -> bool) (self : positive)
    (ps : list positive) :
  forall h n tr,
    h !! self = Some n -> self ∉ ps ->
    Forall (fun p => is_Some (h !! p)) ps ->
    forM_ ps (fun project =>
      let* p := deref project in
      QTC_ASSERT (cond self p) qDebug ;;
      modify project (set_parentFolderNode (Some self)) ;;
      let* n := deref self in
      modify self (set_folderNodes (m_folderNodes n ++ [project])) ;;
      let* n' := deref self in
      modify self (set_projectNodes (m_projectNodes n' ++ [project])))
      (mkState h tr)
    = Val (tt,
           mkState (<[self := set_projectNodes (m_projectNodes n ++ ps)
                                (set_folderNodes (m_folderNodes n ++ ps) n)]>
                      (adopt self ps h)) tr).
Proof.
  induction ps as [|p ps IH]; intros h n tr Hself Hnot Halive.
  { simpl. rewrite !app_nil_r.
    replace (set_projectNodes (m_projectNodes n)
               (set_folderNodes (m_folderNodes n) n)) with n by (by destruct n).
    by rewrite insert_id. }
  apply Forall_cons in Halive as [[np Hnp] Halive].
  apply not_elem_of_cons in Hnot as [Hsp Hnot].
  rewrite forM__cons.
  set (h1 := <[p := set_parentFolderNode (Some self) np]> h).
  set (n1 := set_folderNodes (m_folderNodes n ++ [p]) n).
  set (n2 := set_projectNodes (m_projectNodes n ++ [p]) n1).
  set (h2 := <[self := n2]> h1).
  assert (Hstep :
    (let* p0 := deref p in
     QTC_ASSERT (cond self p0) qDebug ;;
     modify p (set_parentFolderNode (Some self)) ;;
     let* n0 := deref self in
     modify self (set_folderNodes (m_folderNodes n0 ++ [p])) ;;
     let* n' := deref self in
     modify self (set_projectNodes (m_projectNodes n' ++ [p])))
      (mkState h tr) = Val (tt, mkState h2 tr)).
  { rewrite (bind_Val _ _ _ _ _ (deref_Val p (mkState h tr) np Hnp)).
    rewrite (bind_Val _ _ _ _ _ (QTC_ASSERT_qDebug _ _)).
    rewrite (bind_Val _ _ _ _ _ (modify_Val p _ (mkState h tr) np Hnp)).
    simpl heap. simpl trace. fold h1.
    assert (Hs1 : h1 !! self = Some n)
      by (unfold h1; by rewrite lookup_insert_ne by done).
    rewrite (bind_Val _ _ _ _ _ (deref_Val self (mkState h1 tr) n Hs1)).
    rewrite (bind_Val _ _ _ _ _ (modify_Val self _ (mkState h1 tr) n Hs1)).
    simpl heap. simpl trace. fold n1.
    assert (Hs2 : <[self := n1]> h1 !! self = Some n1)
      by apply lookup_insert_eq.
    rewrite (bind_Val _ _ _ _ _
               (deref_Val self (mkState (<[self := n1]> h1) tr) n1 Hs2)).
    rewrite (modify_Val self _ (mkState (<[self := n1]> h1) tr) n1 Hs2).
    simpl heap. simpl trace. unfold h2, n2. by rewrite insert_insert_eq. }
  rewrite (bind_Val _ _ _ _ _ Hstep).
  rewrite (IH h2 n2 tr); [| |done|].
  - f_equal. f_equal. f_equal. unfold n2, n1. simpl m_projectNodes.
    simpl m_folderNodes. rewrite <- !app_assoc. simpl app.
    apply map_eq. intros x.
    destruct (decide (x = self)) as [->|Hxs].
    { by rewrite !lookup_insert_eq. }
    rewrite !lookup_insert_ne by done.
    rewrite !lookup_adopt. unfold h2, h1.
    destruct (decide (x = p)) as [->|Hxp].
    + rewrite (decide_True (P := p ∈ p :: ps)) by (by left).
      rewrite lookup_insert_ne by done. rewrite lookup_insert_eq, Hnp.
      by destruct (decide (p ∈ ps)).
    + rewrite lookup_insert_ne by done. rewrite lookup_insert_ne by done.
      destruct (decide (x ∈ ps)).
      * by rewrite decide_True by (by right).
      * rewrite decide_False; [done|].
        intros [?|?]%elem_of_cons; congruence.
  - apply lookup_insert_eq.
  - apply Forall_forall. intros g Hg. rewrite Forall_forall in Halive.
    unfold h2, h1. destruct (decide (g = self)) as [->|Hgs].
    { rewrite lookup_insert_eq. eauto. }
    rewrite lookup_insert_ne by done.
    destruct (decide (g = p)) as [->|Hgp].
    { rewrite lookup_insert_eq. eauto. }
    rewrite lookup_insert_ne by done. auto.
Qed.

Lemma addProjectNodes_run (self : positive) (ps : list positive)
    (h : gmap positive Node) (n : Node) (tr : list Event) :
  h !! self = Some n -> self ∉ ps -> ps <> [] ->
  Forall (fun p => is_Some (h !! p)) ps ->
  let s' := mkState
              (<[self := set_projectNodes (sort_ptr (m_projectNodes n ++ ps))
                           (set_folderNodes (sort_ptr (m_folderNodes n ++ ps))
                              n)]> (adopt self ps h))
              (tr ++ [FoldersAboutToBeAdded self ps; FoldersAdded self]) in
  ProjectNode_addProjectNodes self ps (mkState h tr) = Val (tt, s') /\
  SessionNode_addProjectNodes self ps (mkState h tr) = Val (tt, s').
Proof.
  intros Hself Hnot Hne Halive.
  set (F := m_folderNodes n ++ ps). set (P := m_projectNodes n ++ ps).
  set (n1 := set_projectNodes P (set_folderNodes F n)).
  set (h1 := <[self := n1]> (adopt self ps h)).
  set (n' := set_projectNodes (sort_ptr P) (set_folderNodes (sort_ptr F) n)).
  set (h' := <[self := n']> (adopt self ps h)).
  assert (Hnil : is_nil ps = false) by (by destruct ps).
  set (tr1 := tr ++ [FoldersAboutToBeAdded self ps]).
  assert (Htail :
    (let* n0 := deref self in
     modify self (set_folderNodes (sort_ptr (m_folderNodes n0))) ;;
     let* n0' := deref self in
     modify self (set_projectNodes (sort_ptr (m_projectNodes n0'))) ;;
     emit (FoldersAdded self)) (mkState h1 tr1)
    = Val (tt, mkState h' (tr ++ [FoldersAboutToBeAdded self ps;
                                  FoldersAdded self]))).
  { assert (H1 : h1 !! self = Some n1) by apply lookup_insert_eq.
    rewrite (bind_Val _ _ _ _ _ (deref_Val self (mkState h1 tr1) n1 H1)).
    rewrite (bind_Val _ _ _ _ _ (modify_Val self _ (mkState h1 tr1) n1 H1)).
    simpl heap. simpl trace.
    set (n2 := set_folderNodes (sort_ptr (m_folderNodes n1)) n1).
    assert (H2 : <[self := n2]> h1 !! self = Some n2) by apply lookup_insert_eq.
    rewrite (bind_Val _ _ _ _ _
               (deref_Val self (mkState (<[self := n2]> h1) tr1) n2 H2)).
    rewrite (bind_Val _ _ _ _ _
               (modify_Val self _ (mkState (<[self := n2]> h1) tr1) n2 H2)).
    unfold emit. simpl. unfold h1, h', tr1.
    rewrite !insert_insert_eq, <- app_assoc. done. }
  assert (Hemit : emit (FoldersAboutToBeAdded self ps) (mkState h tr)
            = Val (tt, mkState h tr1)) by done.
  split.
  - unfold ProjectNode_addProjectNodes. rewrite Hnil.
    rewrite (bind_Val _ _ _ _ _ Hemit).
    rewrite (bind_Val _ _ _ _ _
               (addProjectNodes_loop
                  (fun self p => negb (is_some (m_parentFolderNode p))
                                 || bool_decide (m_parentFolderNode p = Some self))
                  self ps h n tr1 Hself Hnot Halive)).
    exact Htail.
  - unfold SessionNode_addProjectNodes. rewrite Hnil.
    rewrite (bind_Val _ _ _ _ _ Hemit).
    rewrite (bind_Val _ _ _ _ _
               (addProjectNodes_loop
                  (fun _ p => negb (is_some (m_parentFolderNode p)))
                  self ps h n tr1 Hself Hnot Halive)).
    exact Htail.
Qed.

(** [ProjectNode::addProjectNodes] and [SessionNode::addProjectNodes] with
    live projects do the same to the store: every project gets the node as
    its parent, whatever parent it had; [m_folderNodes] and
    [m_projectNodes] are their old elements and the projects, each as often
    as it is handed over, in ascending order of addresses; and the other
    objects are as they were.  Both send the two notifications. *)
Theorem addProjectNodes_sorted_union (self : positive) (ps : list positive)
    (h : gmap positive Node) (n : Node) (tr : list Event) :
  h !! self = Some n -> self ∉ ps -> ps <> [] ->
  Forall (fun p => is_Some (h !! p)) ps ->
  exists h' n',
    ProjectNode_addProjectNodes self ps (mkState h tr)
      = Val (tt, mkState h' (tr ++ [FoldersAboutToBeAdded self ps;
                                    FoldersAdded self])) /\
    SessionNode_addProjectNodes self ps (mkState h tr)
      = Val (tt, mkState h' (tr ++ [FoldersAboutToBeAdded self ps;
                                    FoldersAdded self])) /\
    h' !! self = Some n' /\
    m_folderNodes n' ≡ₚ m_folderNodes n ++ ps /\
    StronglySorted Pos.le (m_folderNodes n') /\
    m_projectNodes n' ≡ₚ m_projectNodes n ++ ps /\
    StronglySorted Pos.le (m_projectNodes n') /\
    (forall p np, p ∈ ps -> h !! p = Some np ->
       h' !! p = Some (set_parentFolderNode (Some self) np)) /\
    (forall x, x <> self -> x ∉ ps -> h' !! x = h !! x).
Proof.
  intros Hself Hnot Hne Halive.
  destruct (addProjectNodes_run self ps h n tr Hself Hnot Hne Halive)
    as [HrunP HrunS].
  eexists _, _. split; [exact HrunP|]. split; [exact HrunS|].
  split; [apply lookup_insert_eq|].
  split; [apply sort_ptr_Permutation|].
  split; [unfold sort_ptr; apply StronglySorted_merge_sort; apply _|].
  split; [apply sort_ptr_Permutation|].
  split; [unfold sort_ptr; apply StronglySorted_merge_sort; apply _|].
  split.
  - intros p np Hp Hnp. rewrite lookup_insert_ne by (by intros ->).
    rewrite lookup_adopt, decide_True by done. by rewrite Hnp.
  - intros x Hxs Hx. rewrite lookup_insert_ne by done.
    rewrite lookup_adopt. by rewrite decide_False.
Qed.

Lemma addProjectNodes_sorted_union_witness :
  exists h' n',
    ProjectNode_addProjectNodes 1 [2%positive] (mkState nested_projects [])
      = Val (tt, mkState h' [FoldersAboutToBeAdded 1 [2%positive];
                             FoldersAdded 1]) /\
    SessionNode_addProjectNodes 1 [2%positive] (mkState nested_projects [])
      = Val (tt, mkState h' [FoldersAboutToBeAdded 1 [2%positive];
                             FoldersAdded 1]) /\
    h' !! 1%positive = Some n' /\
    m_folderNodes n' ≡ₚ [2; 2]%positive /\
    StronglySorted Pos.le (m_folderNodes n') /\
    m_projectNodes n' ≡ₚ [2; 2]%positive /\
    StronglySorted Pos.le (m_projectNodes n') /\
    (forall p np, p ∈ [2%positive] -> nested_projects !! p = Some np ->
       h' !! p = Some (set_parentFolderNode (Some 1%positive) np)) /\
    (forall x, x <> 1%positive -> x ∉ [2%positive] ->
       h' !! x = nested_projects !! x).
Proof.
  apply (addProjectNodes_sorted_union 1 [2%positive] nested_projects
           (mkFolderNode ProjectNodeType "/p" None [] [2%positive]
              [2%positive]) []).
  - reflexivity.
  - set_solver.
  - discriminate.
  - apply Forall_cons_2; [by eexists|apply Forall_nil_2].
Defined.

Lemma list_difference_sort_ptr_app (l ps : list positive) :
  StronglySorted Pos.lt l -> NoDup ps -> (forall p, p ∈ ps -> p ∉ l) ->
  list_difference (sort_ptr (l ++ ps)) ps = l.
Proof.
  intros Hl Hps Hdisj.
  assert (Hnd : NoDup (l ++ ps)).
  { apply NoDup_app. split; [by apply StronglySorted_lt_NoDup|].
    split; [|done]. intros x Hx Hin. by apply (Hdisj x Hin). }
  assert (Hanti : AntiSymm eq Pos.le) by (intros x y; apply Pos.le_antisym).
  apply (StronglySorted_unique Pos.le).
  - apply StronglySorted_lt_le. rewrite list_difference_filter.
    by apply StronglySorted_filter, sort_ptr_sorted.
  - by apply StronglySorted_lt_le.
  - apply NoDup_Permutation.
    + apply NoDup_list_difference. by rewrite sort_ptr_Permutation.
    + by apply StronglySorted_lt_NoDup.
    + intros x. rewrite list_elem_of_difference, sort_ptr_elem_of, elem_of_app.
      split; [intros [[?|?] ?]; by auto|].
      intros Hx. split; [by left|]. intros Hin. by apply (Hdisj x Hin).
Qed.

(** [SessionNode::addProjectNodes] and then
    [SessionNode::removeProjectNodes] with the same projects, on a session
    whose two lists ascend by address, with distinct live projects that are
    not in them: both calls return and send their notifications, and the
    session has its two old lists again; but the projects keep the session
    as their parent: [removeProjectNodes] does not take back what
    [setParentFolderNode] did.  Nothing else changes. *)
Theorem SessionNode_remove_keeps_parent (self : positive) (ps : list positive)
    (h : gmap positive Node) (n : Node) (tr : list Event) :
  h !! self = Some n -> self ∉ ps -> ps <> [] -> NoDup ps ->
  Forall (fun p => is_Some (h !! p)) ps ->
  StronglySorted Pos.lt (m_folderNodes n) ->
  StronglySorted Pos.lt (m_projectNodes n) ->
  (forall p, p ∈ ps -> (p ∉ m_folderNodes n) /\ (p ∉ m_projectNodes n)) ->
  exists s1 h2,
    SessionNode_addProjectNodes self ps (mkState h tr) = Val (tt, s1) /\
    SessionNode_removeProjectNodes self ps s1
      = Val (tt, mkState h2
                   (tr ++ [FoldersAboutToBeAdded self ps; FoldersAdded self;
                           FoldersAboutToBeRemoved self (sort_ptr ps);
                           FoldersRemoved self])) /\
    h2 !! self = Some n /\
    (forall p np, p ∈ ps -> h !! p = Some np ->
       h2 !! p = Some (set_parentFolderNode (Some self) np)) /\
    (forall x, x ∉ ps -> h2 !! x = h !! x).
Proof.
  intros Hself Hnot Hne Hnd Halive HsF HsP Hnew.
  destruct (addProjectNodes_run self ps h n tr Hself Hnot Hne Halive)
    as [_ HrunS].
  set (F := m_folderNodes n ++ ps) in *.
  set (P := m_projectNodes n ++ ps) in *.
  set (n1 := set_projectNodes (sort_ptr P) (set_folderNodes (sort_ptr F) n))
    in *.
  set (h1 := <[self := n1]> (adopt self ps h)) in *.
  set (tr1 := tr ++ [FoldersAboutToBeAdded self ps; FoldersAdded self]) in *.
  assert (Hnil : is_nil ps = false) by (by destruct ps).
  assert (Hnd_F : NoDup F).
  { apply NoDup_app. split; [by apply StronglySorted_lt_NoDup|].
    split; [|done]. intros x Hx Hin. by destruct (Hnew x Hin). }
  assert (Hnd_P : NoDup P).
  { apply NoDup_app. split; [by apply StronglySorted_lt_NoDup|].
    split; [|done]. intros x Hx Hin. by destruct (Hnew x Hin). }
  pose proof (removeProjectNodes_spec (fun _ => ret tt) (fun _ => []) self
                h1 n1 tr1 ps) as Hrem.
  rewrite Hnil in Hrem.
  assert (Hflat : flat_map (fun _ : positive => @nil positive) ps = []).
  { clear. by induction ps. }
  rewrite Hflat in Hrem.
  exists (mkState h1 tr1), (adopt self ps h). split; [exact HrunS|]. split.
  - unfold SessionNode_removeProjectNodes. rewrite Hnil.
    etrans; [apply Hrem|].
    + by intros r h' _ _ tr'.
    + intros r _ Hin. by apply elem_of_nil in Hin.
    + constructor.
    + apply lookup_insert_eq.
    + by apply sort_ptr_sorted.
    + by apply sort_ptr_sorted.
    + done.
    + intros p Hp. simpl. rewrite !sort_ptr_elem_of. unfold P, F.
      rewrite !elem_of_app. by split; right.
    + f_equal. f_equal. f_equal.
      * simpl m_folderNodes. simpl m_projectNodes. unfold F, P.
        rewrite !list_difference_sort_ptr_app; [|done|done| |done|done| ];
          try (intros p Hp; by destruct (Hnew p Hp)).
        unfold h1. simpl. rewrite insert_insert_eq.
        replace (set_folderNodes (m_folderNodes n)
                   (set_projectNodes (m_projectNodes n) n1)) with n
          by (by destruct n).
        apply insert_id. rewrite lookup_adopt. by rewrite decide_False.
      * unfold tr1. by rewrite <- app_assoc.
  - split; [|split].
    + rewrite lookup_adopt. by rewrite decide_False.
    + intros p np Hp Hnp. rewrite lookup_adopt, decide_True by done.
      by rewrite Hnp.
    + intros x Hx. rewrite lookup_adopt. by rewrite decide_False.
Qed.

Lemma SessionNode_remove_keeps_parent_witness :
  exists s1 h2,
    SessionNode_addProjectNodes 1 [3; 2]%positive
      (mkState session_and_projects []) = Val (tt, s1) /\
    SessionNode_removeProjectNodes 1 [3; 2]%positive s1
      = Val (tt, mkState h2
                   [FoldersAboutToBeAdded 1 [3; 2]%positive; FoldersAdded 1;
                    FoldersAboutToBeRemoved 1 (sort_ptr [3; 2]%positive);
                    FoldersRemoved 1]) /\
    h2 !! 1%positive
      = Some (mkFolderNode SessionNodeType "session" None [] [] []) /\
    (forall p np, p ∈ [3; 2]%positive -> session_and_projects !! p = Some np ->
       h2 !! p = Some (set_parentFolderNode (Some 1%positive) np)) /\
    (forall x, x ∉ [3; 2]%positive -> h2 !! x = session_and_projects !! x).
Proof.
  apply (SessionNode_remove_keeps_parent 1 [3; 2]%positive
           session_and_projects
           (mkFolderNode SessionNodeType "session" None [] [] []) []).
  - reflexivity.
  - set_solver.
  - discriminate.
  - solve_NoDup.
  - repeat (apply Forall_cons_2; [by eexists|]). apply Forall_nil_2.
  - constructor.
  - constructor.
  - intros p Hp. simpl. split; apply not_elem_of_nil.
Defined.
(** ** What [scanForFiles] returns *)

Section scan_files.
Context {A : Type} (fs : FileSystem) (factory : FileName -> A)
        (future : option (nat -> bool)).

Lemma listed_file_mono (st st' : ScanState) (x : A) :
  (forall c, c ∈ listed st -> c ∈ listed st') ->
  listed_file fs factory st x -> listed_file fs factory st' x.
Proof.
  intros Hsub (d & e & Hd & He & H). exists d, e. split; [by apply Hsub|done].
Qed.

Lemma listed_poll (st : ScanState) : listed (poll future st).2 = listed st.
Proof. by destruct future. Qed.

Lemma scan_entries_files
    (recurse : FileName -> ScanState -> result (list A * ScanState)) :
  (forall d st r st', recurse d st = Val (r, st') ->
     (forall c, c ∈ listed st -> c ∈ listed st') /\
     Forall (listed_file fs factory st') r) ->
  forall directory entries files st r st',
    canonicalPath fs directory ∈ listed st ->
    (forall e, e ∈ entries -> e ∈ entryInfoList fs directory) ->
    Forall (listed_file fs factory st) files ->
    scan_entries fs factory future recurse directory entries files st
      = Val (r, st') ->
    (forall c, c ∈ listed st -> c ∈ listed st') /\
    Forall (listed_file fs factory st') r.
Proof.
  intros Hrec directory.
  induction entries as [|entry entries IH];
    intros files st r st' Hdir Hentries Hfiles Hrun; simpl in Hrun.
  { injection Hrun as <- <-. by split. }
  pose proof (listed_poll st) as Hpoll.
  destruct (poll future st) as [canceled st1] eqn:Epoll. simpl in Hpoll.
  assert (Hsub1 : forall c, c ∈ listed st -> c ∈ listed st1)
    by (intros c; by rewrite Hpoll).
  assert (Hfiles1 : Forall (listed_file fs factory st1) files).
  { eapply Forall_impl; [exact Hfiles|]. intros x.
    by apply listed_file_mono. }
  destruct canceled.
  { injection Hrun as <- <-. by split. }
  assert (Hrest : forall e, e ∈ entries -> e ∈ entryInfoList fs directory).
  { intros e He. apply Hentries. by right. }
  destruct (isVcsFileOrDirectory fs directory (absoluteFilePath entry)) eqn:Evcs;
    simpl in Hrun.
  { destruct (IH files st1 r st' ltac:(auto) Hrest Hfiles1 Hrun) as [Hsub Hr].
    split; [|done]. intros c Hc. by apply Hsub, Hsub1. }
  destruct (isDir entry) eqn:Edir.
  - destruct (recurse (absoluteFilePath entry) st1) as [[sub st2]|] eqn:Erec;
      [|done].
    destruct (Hrec _ _ _ _ Erec) as [Hsub2 Hsub_files].
    assert (Hfiles2 : Forall (listed_file fs factory st2) (files ++ sub)).
    { apply Forall_app. split; [|done].
      eapply Forall_impl; [exact Hfiles1|]. intros x.
      by apply listed_file_mono. }
    destruct (IH (files ++ sub) st2 r st' ltac:(auto) Hrest Hfiles2 Hrun)
      as [Hsub Hr].
    split; [|done]. intros c Hc. by apply Hsub, Hsub2, Hsub1.
  - assert (Hfiles2 : Forall (listed_file fs factory st1)
                        (files ++ [factory (absoluteFilePath entry)])).
    { apply Forall_app. split; [done|]. apply Forall_singleton.
      exists directory, entry. split; [by apply Hsub1|].
      split; [apply Hentries; by left|done]. }
    destruct (IH (files ++ [factory (absoluteFilePath entry)]) st1 r st'
                ltac:(auto) Hrest Hfiles2 Hrun) as [Hsub Hr].
    split; [|done]. intros c Hc. by apply Hsub, Hsub1.
Qed.

Lemma scanForFilesRecursively_files (fuel : nat) :
  forall directory st r st',
    scanForFilesRecursively fs factory future fuel directory st = Val (r, st') ->
    (forall c, c ∈ listed st -> c ∈ listed st') /\
    Forall (listed_file fs factory st') r.
Proof.
  induction fuel as [|fuel IH]; intros directory st r st' Hrun; [done|].
  simpl in Hrun.
  destruct (size (visited st) =? size ({[canonicalPath fs directory]} ∪ visited st))%nat.
  { injection Hrun as <- <-. split; [done|constructor]. }
  set (st1 := mkScanState ({[canonicalPath fs directory]} ∪ visited st)
                (polls st) (listed st ++ [canonicalPath fs directory])) in *.
  destruct (scan_entries_files (scanForFilesRecursively fs factory future fuel)
              IH directory (entryInfoList fs directory) [] st1 r st')
    as [Hsub Hr]; [| | |exact Hrun|].
  - simpl. apply elem_of_app. right. by left.
  - done.
  - constructor.
  - split; [|done]. intros c Hc. apply Hsub. simpl. apply elem_of_app.
    by left.
Qed.

End scan_files.

(** [scanForFiles], when the canonical paths are finitely many and the
    fuel is beyond their number, returns, cancelled or not, and whatever
    it returns was made by the factory from an entry of a directory it
    listed, an entry that is no directory and that the version control
    system in charge does not claim: no directory and no file of the
    version control system is handed to the factory. *)
Theorem scanForFiles_returns_plain_unclaimed_files {A : Type}
    (fs : FileSystem) (factory : FileName -> A) (isCanceled : nat -> bool)
    (U : gset string) (fuel : nat) (directory : FileName) :
  (forall d, canonicalPath fs d ∈ U) ->
  (size U < fuel)%nat ->
  exists r st,
    scanForFiles fs factory isCanceled fuel directory = Val (r, st) /\
    Forall (listed_file fs factory st) r.
Proof.
  intros Hfin Hfuel.
  destruct (scanForFilesRecursively_total fs factory (Some isCanceled) U Hfin
              fuel directory (mkScanState ∅ 0 [])) as (r & st & Hrun & _).
  { simpl. assert (size (U ∖ ∅) <= size U)%nat
      by (apply subseteq_size; set_solver). lia. }
  exists r, st. split; [done|].
  by apply (scanForFilesRecursively_files fs factory (Some isCanceled) fuel
              directory (mkScanState ∅ 0 [])).
Qed.

Lemma scanForFiles_returns_plain_unclaimed_files_witness :
  exists r st,
    scanForFiles cyclic_fs id canceled_from_third 4 "/r" = Val (r, st) /\
    Forall (listed_file cyclic_fs id st) r.
Proof.
  apply (scanForFiles_returns_plain_unclaimed_files cyclic_fs id
           canceled_from_third cyclic_fs_paths 4 "/r").
  - exact cyclic_fs_finite.
  - vm_compute. lia.
Defined.

(** A scan that is cancelled before it looks at the first entry returns at
    once with the empty list: it has listed the directory it was called
    for and nothing else, and it has asked [isCanceled] once at most. *)
Theorem scanForFiles_canceled_at_once {A : Type} (fs : FileSystem)
    (factory : FileName -> A) (isCanceled : nat -> bool) (fuel : nat)
    (directory : FileName) :
  isCanceled 0%nat = true ->
  exists st,
    scanForFiles fs factory isCanceled (S fuel) directory = Val ([], st) /\
    listed st = [canonicalPath fs directory] /\ (polls st <= 1)%nat.
Proof.
  intros Hflag. unfold scanForFiles. cbn [scanForFilesRecursively].
  assert (Hnew : (size (visited (mkScanState ∅ 0 []))
                  =? size ({[canonicalPath fs directory]}
                           ∪ visited (mkScanState ∅ 0 [])))%nat = false).
  { simpl visited.
    destruct (size (∅ : gset string)
              =? size ({[canonicalPath fs directory]} ∪ (∅ : gset string)))%nat
      eqn:E; [|done].
    apply visited_count_eq in E. by apply not_elem_of_empty in E. }
  rewrite Hnew. simpl listed. simpl polls. simpl visited.
  destruct (entryInfoList fs directory) as [|entry entries].
  - eexists. split; [reflexivity|]. simpl. split; [done|lia].
  - simpl. rewrite Hflag. eexists. split; [reflexivity|]. simpl.
    split; [done|lia].
Qed.

Lemma scanForFiles_canceled_at_once_witness :
  exists st,
    scanForFiles cyclic_fs id (fun _ => true) 4 "/r" = Val ([], st) /\
    listed st = [canonicalPath cyclic_fs "/r"] /\ (polls st <= 1)%nat.
Proof.
  apply (scanForFiles_canceled_at_once cyclic_fs id (fun _ => true) 3 "/r").
  reflexivity.
Defined.
(** ** [FolderNode::setDisplayName] *)

Lemma setDisplayName_run (self : positive) (name : string) (s : state)
    (n : Node) :
  heap s !! self = Some n ->
  setDisplayName self name s
    = Val (tt,
           if String.eqb (m_displayName n) name then s
           else mkState (<[self := set_displayName name n]> (heap s))
                  (trace s ++
                     match m_parentFolderNode n with
                     | Some _ =>
                         [NodeSortKeyAboutToChange self (m_filePath n) (m_line n);
                          NodeSortKeyChanged self (m_filePath n) (m_line n);
                          NodeUpdated self]
                     | None => []
                     end)).
Proof.
  intros Hn. unfold setDisplayName.
  rewrite (bind_Val _ _ _ _ _ (deref_Val self s n Hn)).
  destruct (String.eqb (m_displayName n) name); [done|].
  destruct s as [h t]; simpl in *.
  unfold emitNodeSortKeyAboutToChange, emitNodeSortKeyChanged, emitNodeUpdated.
  unfold bind, deref, modify, emit, ret; simpl. rewrite Hn.
  destruct (m_parentFolderNode n) as [p|] eqn:Ep;
    repeat (simpl; rewrite ?Hn, ?Ep, ?lookup_insert_eq);
    rewrite <- ?app_assoc, ?app_nil_r; reflexivity.
Qed.

(** [setDisplayName] on a live folder returns, and [displayName] then
    answers the name set.  With the name the folder has, nothing changes
    and nobody is notified; so a second call with the same name does
    nothing.  Otherwise only the name of the folder changes, and a folder
    with a parent sends "sort key about to change", "sort key changed" and
    "updated", in this order; a folder without a parent sends nothing. *)
Theorem setDisplayName_sets_and_notifies_once (self : positive)
    (name : string) (s : state) (n : Node) :
  heap s !! self = Some n ->
  exists s',
    setDisplayName self name s = Val (tt, s') /\
    FolderNode_displayName self s' = Val (name, s') /\
    setDisplayName self name s' = Val (tt, s') /\
    (m_displayName n = name -> s' = s) /\
    (m_displayName n <> name ->
     heap s' = <[self := set_displayName name n]> (heap s) /\
     trace s' = trace s ++
       match m_parentFolderNode n with
       | Some _ =>
           [NodeSortKeyAboutToChange self (m_filePath n) (m_line n);
            NodeSortKeyChanged self (m_filePath n) (m_line n);
            NodeUpdated self]
       | None => []
       end).
Proof.
  intros Hn. rewrite (setDisplayName_run self name s n Hn).
  destruct (String.eqb (m_displayName n) name) eqn:Heq.
  - apply String.eqb_eq in Heq. exists s. split; [done|].
    split; [|split; [|split; [done|congruence]]].
    + unfold FolderNode_displayName.
      rewrite (bind_Val _ _ _ _ _ (deref_Val self s n Hn)). by rewrite Heq.
    + rewrite (setDisplayName_run self name s n Hn).
      by rewrite (proj2 (String.eqb_eq _ _) Heq).
  - apply String.eqb_neq in Heq. eexists. split; [reflexivity|].
    assert (Hn' : forall t, heap (mkState (<[self := set_displayName name n]>
                                              (heap s)) t) !! self
                    = Some (set_displayName name n))
      by (intros t; apply lookup_insert_eq).
    split; [|split; [|split; [congruence|done]]].
    + unfold FolderNode_displayName.
      by rewrite (bind_Val _ _ _ _ _ (deref_Val self _ _ (Hn' _))).
    + rewrite (setDisplayName_run self name _ _ (Hn' _)). simpl.
      by rewrite String.eqb_refl.
Qed.

Lemma setDisplayName_sets_and_notifies_once_witness :
  exists s',
    setDisplayName 3 "lib" small_project = Val (tt, s') /\
    FolderNode_displayName 3 s' = Val ("lib", s') /\
    setDisplayName 3 "lib" s' = Val (tt, s') /\
    ("/p/sub" = "lib" -> s' = small_project) /\
    ("/p/sub" <> "lib" ->
     heap s' = <[3%positive := set_displayName "lib"
                   (mkFolderNode FolderNodeType "/p/sub" (Some 1%positive)
                      [4%positive] [] [])]> (heap small_project) /\
     trace s' = [NodeSortKeyAboutToChange 3 "/p/sub" (-1);
                 NodeSortKeyChanged 3 "/p/sub" (-1); NodeUpdated 3]).
Proof.
  apply (setDisplayName_sets_and_notifies_once 3 "lib" small_project
           (mkFolderNode FolderNodeType "/p/sub" (Some 1%positive)
              [4%positive] [] []) eq_refl).
Defined.
